(* ===== verification/_CoqProject ===== *)
-Q . S2P
Prelude.v
Bytes.v
Bitmap.v
Layout.v
BlockDev.v
SimpleFs.v
SimpleFsSpec.v
SimpleFsRep.v
SimpleFsProps.v
SimpleFsCrash.v
Boot.v
Alloc.v
Bump.v
LinkedList.v
FixedBlock.v
HeapTests.v
Memory.v
Vga.v
Print.v
Scanc.v
Queue.v
Keyboard.v
Executor.v
Sleep.v
Interrupts.v
Console.v
Keypresses.v
Backtrace.v
Harness.v
Fault.v
TestSuite.v
Pci.v
Kernel.v
HeapRun.v
System.v
