(* ===== verification/Prelude.v ===== *)
(** * blog_os: a verification library

    A shallow embedding of the kernel under src/src, with the theorems that make
    its parts correct.

    ** The program

    The kernel boots on x86-64, sets up its segment and interrupt tables, maps a
    heap, drives a virtio disk over PCI, keeps a small file system on it, prints
    to the serial port (and has a writer for the VGA text buffer), and runs
    asynchronous tasks, one of which reads the keyboard. [kernel_main] calls the
    parts in turn. They meet in few places. [init_heap] asks the frame allocator
    for frames and installs the fixed-size block allocator, from which every
    [Box], [Vec] and [Arc] comes. The virtio driver takes its DMA memory from the
    same frame allocator. The file system sees the disk through the
    [BlockDevice] trait. The keyboard interrupt fills a queue and wakes the task
    that reads it, which puts the task's id into the executor's queue. Prints,
    heap calls and interrupt handlers take spin locks on one processor.

    ** Conventions

    - A machine integer is a [Z]; [fits] and the checked operators [+!], [-!]
      say when it stays in its width. The development profile checks overflow
      and aborts on panics, so a computation has an [outcome]: [Ret], or
      [Panic] with its reason. [PDangling] is no Rust panic: it marks a read of
      memory that holds no value of the type, which the theorems exclude; nor
      is [PFuel], a loop cut off by the bound of the model.
    - A fallible call returns a [result]; code that changes state and may fail
      is a [prog], with [wp] for total correctness: a proved [wp] says that the
      code returns. Code with loops only over states is written with explicit
      state passing.
    - Code of other crates is a class of operations with a class of laws, or
      an argument with named hypotheses. Each has an instance that the
      witnesses run.
    - Outside Console, Print, Harness, Fault, TestSuite, Backtrace, Keypresses and
      System, console output is left out; outside Console a locked call is one
      step.

    ** The files

    - Prelude: outcomes, programs, their logic, loops, lists and integers.
    - Bytes, Bitmap, Layout: src/src/fs/layout.rs. Little-endian fields and the
      byte images of structures; [Bitmap] ([is_set], [set], [clear],
      [find_and_set_first_free]); superblock, inode, directory entry, their
      disk forms and the iterator [DirEntryBlock].
    - BlockDev: src/src/fs/block_dev.rs. The trait as a class, its laws, the
      adapter to the virtio driver, a RAM disk and a disk that fails.
    - SimpleFs: src/src/fs/simple_fs.rs, one definition for every method of [SFS].
      SimpleFsSpec says what each does to the medium, SimpleFsRep holds the
      abstract directory and its representation on the medium, SimpleFsProps
      the properties, SimpleFsCrash those of failing disks and of remounting.
    - Boot: the storage part of [kernel_main] in src/src/main.rs.
    - Alloc, Bump, LinkedList, FixedBlock: src/src/allocator.rs and
      src/src/allocator/. [GlobalAlloc] is a class with laws; a client that
      allocates and frees is proved safe from the laws alone, and each
      allocator discharges them. HeapTests: [Box] and [Vec] on an allocator and
      a memory of bytes, and the tests of src/tests/heap_allocation.rs; HeapRun:
      its [main], from the set-up of the heap to the verdict.
    - Memory: src/src/memory.rs (frame allocators, page-table walk) and
      [init_heap] of src/src/allocator.rs.
    - Vga: the [Writer] of src/src/vga_buffer.rs. Print: formatted output on it
      ([fmt::Write], [_print], [print_something], the test of the screen) and on
      the serial port with its initialisation (src/src/serial.rs).
    - Scanc: the table of src/src/scanc.rs.
    - Queue: the queue and the waker cell of other crates, as interfaces.
    - Keyboard: src/src/task/keyboard.rs, as functions, with the points of
      [poll_next] at which an interrupt can be served as arguments, and as a step
      relation in which interrupts interleave with the reads of the task; the two
      are related by [poll_next_steps].
    - Executor: src/src/task/mod.rs, simple_executor.rs and executor.rs. Sleep:
      [sleep_if_idle] of the latter, one instruction at a time.
    - Interrupts: src/src/gdt.rs, src/src/interrupts.rs and [init] of
      src/src/lib.rs, with the interrupt controller and the tables as classes.
    - Console: the locks of prints, heap calls and interrupt handlers as a step
      relation on one processor.
    - Keypresses: [example_task], [print_keypresses] and [executor.run()], with the
      interrupt table, the handlers and the controller under them. A schedule of
      requests is part of the world of the tasks; it is served between the polls
      and, inside a poll, at every step of [poll_next] and around every print.
    - Backtrace: the panic handler of src/src/main.rs. Harness: the test runner
      of src/src/lib.rs and that of src/tests/should_panic.rs.
    - Fault: the processor's delivery of exceptions with the tables of
      Interrupts, up to double and triple faults, and
      src/tests/stack_overflow.rs. TestSuite: the tests of the modules and of
      src/tests/basic_boot.rs, run by the harness.
    - Pci: src/src/virtio/pci.rs and the memory operations of
      src/src/virtio/mod.rs.
    - Kernel: [kernel_main] of src/src/main.rs, composed from the files above.
      System: the kernel from power-on to the printed key, with interrupts
      during the boot ([power_on]) and from then on.

    ** What the theorems show

    - The whole: on a machine with enough memory and a working disk
      [kernel_main] reaches the executor with everything in place, and the
      frames of the heap and of the driver are disjoint ([kernel_boots]). With
      interrupts at any moment, during the boot and inside the polls, every
      request is served and every queued scancode is decoded and printed in order,
      as long as scancodes do not outrun the executor's queue
      ([kernel_serves_keys]). They can: a burst of more than 100 while the task
      has its waker registered panics the kernel ([wakeups_overflow]).
    - File system: [create_file] refines an abstract directory on every
      lawful device, also one that fails ([create_file_refines]), and so
      does any sequence of creations on a disk that works
      ([create_files_refine]); formatting, mounting and inode access are
      round trips with frames ([format_mount_roundtrip],
      [write_read_inode]); allocation takes the free inodes in order
      ([allocate_inode_sequence], [find_and_set_first_free_correct]); the
      encodings lose nothing ([superblock_roundtrip], [inode_codec]). The
      edges are stated too: [create_file_existing], [create_file_bad_entry],
      [create_file_beyond_table], [allocate_inode_split_bitmap],
      [add_root_dir_entry_slot], and [storage_boot_reformats]: the test
      write of [kernel_main] destroys the superblock at every boot.
    - Failing disks: with whole-block writes, a creation that fails half way
      leaves the old directory, at worst with one inode leaked, or the new one
      ([create_file_crash_safe]), and what was acknowledged survives every history
      of failures and remounts ([acknowledged_files_survive]).
    - Allocators: live blocks are aligned, disjoint and non-null and no
      sequence of calls panics ([bump_client_safe], [ll_client_safe],
      [fsb_client_safe]); the pointer-level free list is first fit on a list of
      regions ([ll_refines_first_fit]) that clients cannot disturb
      ([ll_client_writes]); freed blocks are reused ([fsb_reuses_freed]). The
      heap tests fail only for want of memory ([heap_tests_sound]), also as a run
      of the test harness ([heap_test_run_verdict]: [main] hands them the heap
      after 25 calls of [init]; the verdict is for every good state of the heap,
      and that 25 calls leave one is not claimed), and which allocator passes the
      test of reuse is settled ([heap_tests_by_allocator]).
    - Memory: frames are handed out once ([boot_frames_distinct]), the heap is
      mapped ([init_heap_maps]), addresses are translated as the processor does
      ([translate_addr_walks]), and what [share] tells the device holds for the
      first page of a buffer ([share_first_page]).
    - Screen: the buffer is a window on a scrolling terminal
      ([write_string_terminal], [write_string_printable]); the kernel's test of
      it passes ([println_output_passes]); formatted pieces print as one string
      ([vga_print_concat]).
    - Interrupts and locks: every interrupt is handled and acknowledged
      ([interrupts_served]), handlers and thread never deadlock
      ([locks_no_deadlock]) nor mix their messages ([messages_atomic]). Every
      exception ends in a handler, a stack overflow in the double fault's on its
      own stack ([exceptions_dispatched], [stack_overflow_test_passes]).
    - Failure: the backtrace shows the callers and always ends
      ([backtrace_prints], [panic_ends]); the status of a test run is the verdict
      on the tests ([test_run_verdict]), and the library's tests pass
      ([library_tests_pass]).
    - Tasks: no wake-up is lost and scancodes stay in order under every
      interleaving ([no_lost_wakeup], [scancodes_in_order]); a woken task is
      polled ([woken_task_polled], the kernel's own tasks included); the processor
      never sleeps while a task is ready ([sleep_no_lost_wakeup]); the simple
      executor is fair and finishes every task ([simple_round_robin],
      [simple_run_total]).
    - Devices: prints reach the serial line ([serial_prints_send]), the
      configuration address is right ([config_address_fields]), [scan] finds the first virtio device ([scan_first]), DMA frames are
      distinct and never come back ([dma_frames_leak]), the scancode table is
      the US keyboard ([get_key_keyboard]).

    ** Bounds and fuel

    [LinkedList.find_region] runs with one step more than there are nodes in
    memory, which [find_region_first_fit] shows to be enough.
    [Executor.simple_run] takes fuel, and [simple_run_total] gives how much
    suffices. [Executor.run_ready_tasks] takes fuel because tasks that wake
    themselves keep the loop going for ever; the properties are about
    [run_with], which does a given number of iterations. One poll of
    [print_keypresses] handles at most [keys_fuel] = 101 rounds and one more for
    every scancode that is scheduled inside it, enough to empty the queue of 100
    ([keys_fuel_enough], [keys_loop_live]). The bound [calm] on a schedule of
    requests keeps the wake-ups within the executor's queue of 100; one scancode
    per iteration of the executor is within it ([slow_calm]). The backtrace's loop runs
    21 steps: twenty frames and the test that ends it. An exception is delivered in
    at most four attempts ([Fault.raise]), because its class grows with each;
    [raise_dispatched] shows that they are enough. [Fault.recurse] takes fuel, and
    [recurse_faults] gives how much reaches the guard page. Histories of the disk
    ([SimpleFsCrash.event]) are about media of at least 10240 blocks, whose inode
    table holds every inode that the bitmap's 4096 bits can name. The addresses of the
    allocators' heaps are below 2^63, as those of the kernel's heap are; layouts
    obey the rules of [core::alloc::Layout].

    ** Not modelled

    - The expansion of the print macros, the derived [Debug] formats and the
      messages [kernel_main] and the driver's memory operations print, with the
      listing of the memory map.
    - What follows [executor.run()] in [kernel_main], which is not reached; so
      the test of src/src/main.rs is a definition that no run reaches.
    - The code of other crates and the processor's instructions behind [hlt],
      [lgdt], [lidt] and port access, of which the classes and the hypotheses say
      what is used.
    - src/src/fs/mod.rs, the head of src/src/lib.rs and the [use] lines:
      declarations. *)
From stdpp Require Export base numbers list gmap sets strings.
From Stdlib Require Export ZArith Lia.

#[global] Set Default Goal Selector "!".
Local Open Scope Z_scope.

(** * Outcomes: values and panics

    The kernel is built with [overflow-checks = true] and [panic = "abort"]
    (.cargo/config.toml), so an arithmetic overflow, an index out of bounds,
    an [unwrap] of nothing or a failed assertion ends the run. *)
Inductive panic_reason :=
  | POverflow   (** checked arithmetic left the range of its type *)
  | PIndex      (** index or slice bounds outside the sequence *)
  | PSliceLen   (** [copy_from_slice] between different lengths *)
  | PUnwrap     (** [unwrap]/[expect] on [None] or [Err] *)
  | PAssert     (** [assert!], [assert_eq!] *)
  | PTodo       (** [todo!()] *)
  | PExplicit   (** [panic!] *)
  | POom        (** [handle_alloc_error]: the heap is exhausted *)
  | PDangling   (** not a panic: use of memory that holds no value of its type *)
  | PFuel.      (** not a panic: the model's bound on the steps of a loop *)

Inductive outcome (A : Type) :=
  | Ret (a : A)
  | Panic (why : panic_reason).
Arguments Ret {A} a.
Arguments Panic {A} why.

#[global] Instance outcome_ret : MRet outcome := λ A a, Ret a.
#[global] Instance outcome_bind : MBind outcome := λ A B k m,
  match m with Ret a => k a | Panic w => Panic w end.

(** Rust's [Result]. *)
Inductive result (T E : Type) :=
  | Ok (t : T)
  | Err (e : E).
Arguments Ok {T E} t.
Arguments Err {T E} e.

Definition is_ok {T E} (r : result T E) : bool :=
  match r with Ok _ => true | Err _ => false end.

Definition map_err {T E F} (f : E → F) (r : result T E) : result T F :=
  match r with Ok t => Ok t | Err e => Err (f e) end.

Definition ok_or {T E} (o : option T) (e : E) : result T E :=
  match o with Some t => Ok t | None => Err e end.

Definition unwrap {T} (o : option T) : outcome T :=
  match o with Some t => Ret t | None => Panic PUnwrap end.

(** [Result::expect], [Result::unwrap]. *)
Definition expect {T E} (r : result T E) : outcome T :=
  match r with Ok t => Ret t | Err _ => Panic PUnwrap end.

Definition assert (b : bool) : outcome unit :=
  if b then Ret tt else Panic PAssert.

(** * Programs: state, errors and panics

    A method that takes [&mut self] and returns [Result<A, E>] is a function
    from the state to its outcome; an [Err] carries the state reached so far,
    because what was written before an early return stays written. *)
Definition prog (S E A : Type) : Type := S → outcome (result A E * S).

#[global] Instance prog_ret {S E} : MRet (prog S E) := λ A a s, Ret (Ok a, s).
#[global] Instance prog_bind {S E} : MBind (prog S E) := λ A B k m s,
  match m s with
  | Ret (Ok a, s') => k a s'
  | Ret (Err e, s') => Ret (Err e, s')
  | Panic w => Panic w
  end.

Section prog_ops.
Context {S E : Type}.

(** A computation that may panic but touches no state. *)
Definition lift {A} (o : outcome A) : prog S E A := λ s,
  match o with Ret a => Ret (Ok a, s) | Panic w => Panic w end.

(** A [Result] under the [?] operator. *)
Definition try {A} (r : result A E) : prog S E A := λ s, Ret (r, s).

(** [return Err(e)]. *)
Definition throw {A} (e : E) : prog S E A := λ s, Ret (Err e, s).

Definition gets {A} (f : S → A) : prog S E A := λ s, Ret (Ok (f s), s).

(** [map_err] on the result of a state-changing call. *)
Definition map_err_prog {F A} (f : F → E) (m : prog S F A) : prog S E A := λ s,
  match m s with
  | Ret (r, s') => Ret (map_err f r, s')
  | Panic w => Panic w
  end.
End prog_ops.

(** ** Postconditions

    [ensures o Q]: [o] does not panic and its value satisfies [Q].
    [wp m s Q]: run from [s], [m] does not panic, and its result and final
    state satisfy [Q]. *)
Definition ensures {A} (o : outcome A) (Q : A → Prop) : Prop :=
  match o with Ret a => Q a | Panic _ => False end.

Definition wp {S E A} (m : prog S E A) (s : S) (Q : result A E → S → Prop) : Prop :=
  ensures (m s) (λ p, Q p.1 p.2).

Section wp.
Context {S E : Type}.
Implicit Types (s : S).

Lemma wp_run {A} (m : prog S E A) s Q :
  wp m s Q ↔ ∃ r s', m s = Ret (r, s') ∧ Q r s'.
Proof.
  unfold wp, ensures. destruct (m s) as [[r s']|w]; simpl; split.
  - eauto.
  - intros (r0 & s0 & [= <- <-] & H); done.
  - done.
  - intros (? & ? & ? & _); done.
Qed.

Lemma wp_mono {A} (m : prog S E A) s (Q Q' : result A E → S → Prop) :
  wp m s Q → (∀ r s', Q r s' → Q' r s') → wp m s Q'.
Proof. rewrite !wp_run. naive_solver. Qed.

Lemma wp_ret {A} (a : A) s (Q : result A E → S → Prop) :
  Q (Ok a) s → wp (mret a) s Q.
Proof. done. Qed.

Lemma wp_throw {A} (e : E) s (Q : result A E → S → Prop) :
  Q (Err e) s → wp (throw e) s Q.
Proof. done. Qed.

Lemma wp_try {A} (r : result A E) s (Q : result A E → S → Prop) :
  Q r s → wp (try r) s Q.
Proof. done. Qed.

Lemma wp_gets {A} (f : S → A) s (Q : result A E → S → Prop) :
  Q (Ok (f s)) s → wp (gets f) s Q.
Proof. done. Qed.

Lemma wp_lift {A} (o : outcome A) s (Q : result A E → S → Prop) :
  ensures o (λ a, Q (Ok a) s) → wp (lift o) s Q.
Proof. unfold wp, lift. by destruct o. Qed.

Lemma wp_bind {A B} (m : prog S E A) (k : A → prog S E B) s Q :
  wp m s (λ r s', match r with Ok a => wp (k a) s' Q | Err e => Q (Err e) s' end) →
  wp (m ≫= k) s Q.
Proof.
  unfold wp, ensures, mbind, prog_bind.
  by destruct (m s) as [[[a|e] s']|w].
Qed.

Lemma wp_map_err_prog {F A} (f : F → E) (m : prog S F A) s (Q : result A E → S → Prop) :
  wp m s (λ r s', Q (map_err f r) s') → wp (map_err_prog f m) s Q.
Proof. unfold wp, ensures, map_err_prog. by destruct (m s) as [[r s']|w]. Qed.
End wp.

Lemma ensures_run {A} (o : outcome A) Q : ensures o Q ↔ ∃ a, o = Ret a ∧ Q a.
Proof. destruct o; simpl; naive_solver. Qed.

Lemma ensures_bind {A B} (o : outcome A) (k : A → outcome B) Q :
  ensures o (λ a, ensures (k a) Q) → ensures (o ≫= k) Q.
Proof. by destruct o. Qed.

Lemma ensures_mono {A} (o : outcome A) (Q Q' : A → Prop) :
  ensures o Q → (∀ a, Q a → Q' a) → ensures o Q'.
Proof. destruct o; simpl; auto. Qed.

Lemma outcome_bind_Ret {A B} (o : outcome A) (k : A → outcome B) b :
  o ≫= k = Ret b ↔ ∃ a, o = Ret a ∧ k a = Ret b.
Proof. destruct o; simpl; naive_solver. Qed.

(** One step of symbolic execution of a program in a [wp] or [ensures] goal. *)
Ltac wp_step :=
  match goal with
  | |- wp (_ ≫= _) _ _ => apply wp_bind
  | |- wp (mret _) _ _ => apply wp_ret
  | |- wp (throw _) _ _ => apply wp_throw
  | |- wp (try _) _ _ => apply wp_try
  | |- wp (gets _) _ _ => apply wp_gets
  | |- wp (lift _) _ _ => apply wp_lift
  | |- wp (map_err_prog _ _) _ _ => apply wp_map_err_prog
  | |- ensures (_ ≫= _) _ => apply ensures_bind
  | |- ensures (Ret _) _ => red; cbv beta
  | |- ensures (mret _) _ => red; cbv beta
  end.
Ltac wp_steps := repeat (wp_step; simpl).

(** * Machine integers

    Unsigned integers are [Z] with the range of their type written out. On
    this target (x86_64-blog_os.json) [usize] is 64 bits wide. *)
Definition fits (w : Z) (x : Z) : Prop := 0 ≤ x < 2 ^ w.
Abbreviation is_u8 := (fits 8).
Abbreviation is_u16 := (fits 16).
Abbreviation is_u32 := (fits 32).
Abbreviation is_u64 := (fits 64).
Abbreviation is_usize := (fits 64) (only parsing).

#[global] Instance fits_dec w x : Decision (fits w x).
Proof. unfold fits. apply _. Defined.

Definition USIZE_MAX : Z := 2 ^ 64 - 1.
Definition ISIZE_MAX : Z := 2 ^ 63 - 1.

(** The 64-bit operators [+], [-] and [*] under overflow checks. *)
Definition checked (x : Z) : outcome Z :=
  if decide (is_u64 x) then Ret x else Panic POverflow.
Definition add64 (a b : Z) : outcome Z := checked (a + b).
Definition sub64 (a b : Z) : outcome Z := checked (a - b).
Definition mul64 (a b : Z) : outcome Z := checked (a * b).

(** [usize::checked_add]. *)
Definition checked_add (a b : Z) : option Z :=
  if decide (is_u64 (a + b)) then Some (a + b) else None.

(** [x as u16]: truncation. *)
Definition as_u16 (x : Z) : Z := x mod 2 ^ 16.

Declare Scope rust_scope.
Delimit Scope rust_scope with rust.
Notation "a +! b" := (add64 a b) (at level 50, left associativity) : rust_scope.
Notation "a -! b" := (sub64 a b) (at level 50, left associativity) : rust_scope.
Notation "a *! b" := (mul64 a b) (at level 40, left associativity) : rust_scope.

Lemma checked_fits x : is_u64 x → checked x = Ret x.
Proof. intros. unfold checked. by rewrite decide_True. Qed.

Lemma checked_over x : ¬ is_u64 x → checked x = Panic POverflow.
Proof. intros. unfold checked. by rewrite decide_False. Qed.

Lemma checked_Ret x y : checked x = Ret y ↔ y = x ∧ is_u64 x.
Proof. unfold checked. case_decide; naive_solver. Qed.

Lemma ensures_checked x Q : is_u64 x → Q x → ensures (checked x) Q.
Proof. intros ??. by rewrite checked_fits. Qed.

(** Ranges of concrete values and of lists of them. *)
Ltac solve_fits :=
  repeat match goal with
  | |- Forall _ (_ :: _) => apply Forall_cons_2
  | |- Forall _ [] => constructor
  | |- Forall _ (replicate _ _) => apply Forall_replicate
  end; unfold fits in *; simpl; lia.

(** A decidable closed proposition, by evaluating its decision procedure. *)
Ltac by_decide := apply (bool_decide_unpack _); by vm_compute.

(** * Loops: [for x in xs { body }] *)
Fixpoint for_each {A T} (xs : list A) (body : A → T → outcome T) (s : T) : outcome T :=
  match xs with
  | [] => Ret s
  | x :: xs => s' ← body x s; for_each xs body s'
  end.

Lemma for_each_app {A T} (xs ys : list A) (body : A → T → outcome T) s :
  for_each (xs ++ ys) body s = (s' ← for_each xs body s; for_each ys body s').
Proof.
  revert s. induction xs as [|x xs IH]; intros s; [done|]. cbn [app for_each].
  destruct (body x s) as [s1|]; [|done]. cbn [mbind outcome_bind]. apply IH.
Qed.

(** A loop over [seqZ lo n] with an invariant on the number of iterations. *)
Lemma for_each_seqZ {T} (Inv : nat → T → Prop) (body : Z → T → outcome T) lo (n : nat) s :
  Inv O s →
  (∀ k s, (k < n)%nat → Inv k s → ensures (body (lo + Z.of_nat k) s) (Inv (S k))) →
  ensures (for_each (seqZ lo (Z.of_nat n)) body s) (Inv n).
Proof.
  revert Inv lo s. induction n as [|n IH]; intros Inv lo s H0 Hstep; [done|].
  rewrite seqZ_cons by lia. cbn [for_each]. apply ensures_bind.
  pose proof (Hstep O s ltac:(lia) H0) as H1. rewrite Z.add_0_r in H1.
  eapply ensures_mono; [exact H1|]. intros s1 Hs1. replace (Z.pred (Z.of_nat (S n))) with (Z.of_nat n) by lia.
  apply (IH (λ k, Inv (S k))); [done|]. intros k s2 Hk Hs2.
  replace (Z.succ lo + Z.of_nat k) with (lo + Z.of_nat (S k)) by lia. apply Hstep; [lia|done].
Qed.

(** * Sequences: indexing, slicing and copying *)
Section seq.
Context {A : Type}.
Implicit Types (l src : list A).

(** [l[i]]. *)
Definition index l (i : Z) : outcome A :=
  match l !! Z.to_nat i with Some x => Ret x | None => Panic PIndex end.

(** [l[i] = x]. *)
Definition store l (i : Z) (x : A) : outcome (list A) :=
  if decide (Z.to_nat i < length l)%nat then Ret (<[Z.to_nat i := x]> l)
  else Panic PIndex.

(** The elements of [l[a..b]], once the bounds are known to be good. *)
Definition sub l (a n : nat) : list A := take n (drop a l).

(** [&l[a..b]]. *)
Definition slice l (a b : Z) : outcome (list A) :=
  if decide (0 ≤ a ≤ b ∧ b ≤ Z.of_nat (length l))
  then Ret (sub l (Z.to_nat a) (Z.to_nat (b - a)))
  else Panic PIndex.

(** [l] with the elements from [a] on replaced by those of [src]. *)
Definition splice l (a : nat) src : list A :=
  take a l ++ src ++ drop (a + length src) l.

(** [l[a..b].copy_from_slice(src)]. *)
Definition copy_from_slice l (a b : Z) src : outcome (list A) :=
  if decide (0 ≤ a ≤ b ∧ b ≤ Z.of_nat (length l)) then
    if decide (Z.of_nat (length src) = b - a)
    then Ret (splice l (Z.to_nat a) src)
    else Panic PSliceLen
  else Panic PIndex.
End seq.

Create Rewrite HintDb len.
#[export] Hint Rewrite @length_app @length_drop @length_take @length_fmap
  @length_replicate @length_insert @length_seq @length_reverse : len.
(** Normalise the lengths in the goal, then decide it. *)
Ltac len := autorewrite with len in *; simpl in *; try lia.

Section seq_facts.
Context {A : Type}.
Implicit Types (l src : list A).

Lemma index_Some l i x : l !! Z.to_nat i = Some x → index l i = Ret x.
Proof. unfold index. by intros ->. Qed.

Lemma store_in l i x :
  (Z.to_nat i < length l)%nat → store l i x = Ret (<[Z.to_nat i := x]> l).
Proof. intros. unfold store. by rewrite decide_True. Qed.

Lemma index_0 x l : index (x :: l) 0 = Ret x.
Proof. done. Qed.

Lemma store_0 x y l : store (x :: l) 0 y = Ret (y :: l).
Proof. by rewrite store_in by (simpl; lia). Qed.

Lemma length_sub l a n : (a + n ≤ length l)%nat → length (sub l a n) = n.
Proof. unfold sub. intros. len. Qed.

Lemma length_splice l a src :
  (a + length src ≤ length l)%nat → length (splice l a src) = length l.
Proof. unfold splice. intros. len. Qed.

Lemma slice_in l a b :
  0 ≤ a ≤ b → b ≤ Z.of_nat (length l) →
  slice l a b = Ret (sub l (Z.to_nat a) (Z.to_nat (b - a))).
Proof. intros. unfold slice. by rewrite decide_True. Qed.

Lemma slice_out l a b :
  ¬ (0 ≤ a ≤ b ∧ b ≤ Z.of_nat (length l)) → slice l a b = Panic PIndex.
Proof. intros. unfold slice. by rewrite decide_False. Qed.

Lemma copy_from_slice_in l a b src :
  0 ≤ a ≤ b → b ≤ Z.of_nat (length l) → Z.of_nat (length src) = b - a →
  copy_from_slice l a b src = Ret (splice l (Z.to_nat a) src).
Proof. intros. unfold copy_from_slice. by rewrite !decide_True. Qed.

Lemma copy_from_slice_out l a b src :
  ¬ (0 ≤ a ≤ b ∧ b ≤ Z.of_nat (length l)) →
  copy_from_slice l a b src = Panic PIndex.
Proof. intros. unfold copy_from_slice. by rewrite decide_False. Qed.

Lemma sub_all l : sub l 0 (length l) = l.
Proof. unfold sub. by rewrite drop_0, firstn_all. Qed.

Lemma sub_app_l l k n : (n ≤ length l)%nat → sub (l ++ k) 0 n = sub l 0 n.
Proof. unfold sub. rewrite !drop_0. intros. by rewrite take_app_le. Qed.

Lemma sub_app_r l k a n :
  (length l ≤ a)%nat → sub (l ++ k) a n = sub k (a - length l) n.
Proof. unfold sub. intros. by rewrite drop_app_ge. Qed.

(** Reading back exactly the spliced range. *)
Lemma sub_splice_same l a src :
  (a + length src ≤ length l)%nat → sub (splice l a src) a (length src) = src.
Proof.
  intros. unfold splice. rewrite sub_app_r; [|len].
  rewrite length_take, Nat.min_l, Nat.sub_diag, sub_app_l by lia.
  apply sub_all.
Qed.

(** A range that does not meet the spliced one is unchanged. *)
Lemma sub_splice_other l a src b n :
  (a + length src ≤ length l)%nat →
  (b + n ≤ a ∨ a + length src ≤ b)%nat →
  sub (splice l a src) b n = sub l b n.
Proof.
  intros Hl Hd. unfold sub. apply list_eq. intros i.
  destruct (decide (i < n)%nat) as [Hi|Hi].
  - rewrite !lookup_take_lt, !lookup_drop by done. unfold splice.
    destruct Hd.
    + rewrite lookup_app_l by len. by rewrite lookup_take_lt by lia.
    + rewrite lookup_app_r by len.
      rewrite lookup_app_r by len.
      rewrite lookup_drop. f_equal. len.
  - rewrite !lookup_take_ge by lia. done.
Qed.

Lemma splice_0 l src : splice l 0 src = src ++ drop (length src) l.
Proof. done. Qed.

Lemma splice_all l src : length src = length l → splice l 0 src = src.
Proof. intros. rewrite splice_0, drop_ge by lia. apply app_nil_r. Qed.

Lemma Forall_sub (P : A → Prop) l a n : Forall P l → Forall P (sub l a n).
Proof. intros. by apply Forall_take, Forall_drop. Qed.

Lemma Forall_splice (P : A → Prop) l a src :
  Forall P l → Forall P src → Forall P (splice l a src).
Proof.
  intros. unfold splice. rewrite !Forall_app.
  auto using Forall_take, Forall_drop.
Qed.
End seq_facts.
#[export] Hint Resolve Forall_sub Forall_splice : core.

#[global] Arguments checked : simpl never.
#[global] Arguments fits : simpl never.
#[global] Arguments index {A} l i : simpl never.
#[global] Arguments store {A} l i x : simpl never.
#[global] Arguments slice {A} l a b : simpl never.
#[global] Arguments sub {A} l a n : simpl never.
#[global] Arguments splice {A} l a src : simpl never.
#[global] Arguments copy_from_slice {A} l a b src : simpl never.
#[global] Arguments ensures {A} o Q : simpl never.
#[global] Arguments wp {S E A} m s Q : simpl never.

(** [&str] as the bytes [as_bytes()] gives; [str_of] is a string literal. *)
Definition str_of (s : string) : list Z :=
  (λ a, Z.of_N (Ascii.N_of_ascii a)) <$> String.list_ascii_of_string s.
