(* ===== verification/Bytes.v ===== *)
(** Byte images of values: little-endian integers, sequences of integer fields
    as a [repr(C)] structure lays them out, and the interface between typed
    records and raw bytes that the [zerocopy] derives of src/src/fs/layout.rs
    provide ([as_bytes], [ref_from_bytes]). *)
From S2P Require Import Prelude.
Local Open Scope Z_scope.

(** * Little-endian integers: [U16<LE>], [U32<LE>], [U64<LE>] *)
Fixpoint le_bytes (n : nat) (z : Z) : list Z :=
  match n with
  | O => []
  | S n => z mod 256 :: le_bytes n (z / 256)
  end.

Fixpoint le_val (bs : list Z) : Z :=
  match bs with
  | [] => 0
  | b :: bs => b + 256 * le_val bs
  end.

Lemma length_le_bytes n z : length (le_bytes n z) = n.
Proof. revert z. induction n; simpl; auto. Qed.
#[export] Hint Rewrite length_le_bytes : len.

Lemma le_bytes_u8 n z : Forall is_u8 (le_bytes n z).
Proof.
  revert z. induction n; simpl; constructor; auto.
  apply Z.mod_pos_bound. lia.
Qed.

Lemma pow2_8S (n : nat) : 2 ^ (8 * Z.of_nat (S n)) = 256 * 2 ^ (8 * Z.of_nat n).
Proof. rewrite <- (Z.pow_add_r 2 8) by lia. f_equal. lia. Qed.

Lemma le_val_bytes n z : fits (8 * Z.of_nat n) z → le_val (le_bytes n z) = z.
Proof.
  revert z. induction n as [|n IH]; intros z Hz; unfold fits in *; cbn [le_val le_bytes].
  - simpl in Hz. lia.
  - rewrite pow2_8S in Hz. rewrite IH.
    + pose proof (Z.div_mod z 256). lia.
    + split; [apply Z.div_pos; lia|]. apply Z.div_lt_upper_bound; lia.
Qed.

Lemma le_val_fits bs : Forall is_u8 bs → fits (8 * Z.of_nat (length bs)) (le_val bs).
Proof.
  induction 1 as [|b bs Hb _ IH]; [done|].
  unfold fits in *. rewrite length_cons, pow2_8S. simpl le_val.
  change (2 ^ 8) with 256 in Hb. nia.
Qed.

Lemma le_bytes_val bs : Forall is_u8 bs → le_bytes (length bs) (le_val bs) = bs.
Proof.
  induction 1 as [|b bs Hb _ IH]; [done|].
  assert (0 ≤ b < 256) by exact Hb. simpl. f_equal.
  - rewrite Z.mul_comm, Z_mod_plus_full. by apply Z.mod_small.
  - rewrite Z.mul_comm, Z.div_add, Z.div_small by lia. done.
Qed.

(** * Field sequences

    A structure of integer fields is the concatenation of the images of its
    fields, each [n] bytes wide, in declaration order and without padding. *)
Fixpoint enc_fields (fs : list (nat * Z)) : list Z :=
  match fs with
  | [] => []
  | (n, v) :: fs => le_bytes n v ++ enc_fields fs
  end.

Fixpoint dec_fields (ws : list nat) (bs : list Z) : list Z :=
  match ws with
  | [] => []
  | n :: ws => le_val (take n bs) :: dec_fields ws (drop n bs)
  end.

Definition field_fits (f : nat * Z) : Prop := fits (8 * Z.of_nat f.1) f.2.

Lemma length_enc_fields fs : length (enc_fields fs) = sum_list fs.*1.
Proof. induction fs as [|[n v] fs IH]; simpl; [done|]. len. by rewrite IH. Qed.

Lemma length_dec_fields ws bs : length (dec_fields ws bs) = length ws.
Proof. revert bs. induction ws; simpl; auto. Qed.

Lemma enc_fields_u8 fs : Forall is_u8 (enc_fields fs).
Proof.
  induction fs as [|[n v] fs IH]; simpl; [done|].
  apply Forall_app. auto using le_bytes_u8.
Qed.

Lemma dec_enc_fields fs : Forall field_fits fs → dec_fields fs.*1 (enc_fields fs) = fs.*2.
Proof.
  induction 1 as [|[n v] fs Hv _ IH]; [done|]. cbn [fmap list_fmap fst snd enc_fields dec_fields].
  rewrite take_app_length', drop_app_length' by len.
  by rewrite le_val_bytes, IH.
Qed.

Lemma enc_dec_fields ws bs :
  Forall is_u8 bs → length bs = sum_list ws → enc_fields (zip ws (dec_fields ws bs)) = bs.
Proof.
  revert bs. induction ws as [|n ws IH]; intros bs Hbs Hlen; simpl in *.
  - by destruct bs.
  - rewrite IH; [|by apply Forall_drop|len].
    assert (length (take n bs) = n) as Hn by len.
    rewrite <- Hn at 1. rewrite le_bytes_val by (by apply Forall_take).
    apply take_drop.
Qed.

Lemma dec_fields_fit ws bs :
  Forall is_u8 bs → length bs = sum_list ws → Forall field_fits (zip ws (dec_fields ws bs)).
Proof.
  revert bs. induction ws as [|n ws IH]; intros bs Hbs Hlen; simpl in *; [constructor|].
  constructor; [|apply IH; [by apply Forall_drop|len]].
  assert (length (take n bs) = n) as Hn by len.
  unfold field_fits; simpl. rewrite <- Hn at 1. apply le_val_fits. by apply Forall_take.
Qed.

(** * The interface of the [IntoBytes]/[FromBytes] derives

    [as_bytes] is the memory image of a value; [ref_from_bytes] views a byte
    slice as the structure and fails exactly when the size is wrong.
    [value_ok] is the range of the fields' types. *)
Class AsBytes (T : Type) := {
  size_of : nat;
  as_bytes : T → list Z;
  ref_from_bytes : list Z → option T;
  value_ok : T → Prop;
}.
Arguments size_of T {_}.

Class AsBytesLaws (T : Type) `{AsBytes T} := {
  as_bytes_length (t : T) : value_ok t → length (as_bytes t) = size_of T;
  as_bytes_u8 (t : T) : value_ok t → Forall is_u8 (as_bytes t);
  ref_from_as_bytes (t : T) : value_ok t → ref_from_bytes (as_bytes t) = Some t;
  ref_from_bytes_ok (bs : list Z) :
    Forall is_u8 bs → length bs = size_of T →
    ∃ t : T, ref_from_bytes bs = Some t ∧ value_ok t ∧ as_bytes t = bs;
  ref_from_bytes_None (bs : list Z) :
    length bs ≠ size_of T → (ref_from_bytes bs : option T) = None;
}.

Section codec.
Context `{AsBytesLaws T}.

Lemma ref_from_bytes_sound bs (t : T) :
  Forall is_u8 bs → ref_from_bytes bs = Some t → value_ok t ∧ as_bytes t = bs.
Proof.
  intros Hbs Ht. destruct (decide (length bs = size_of T)) as [Hl|Hl].
  - destruct (ref_from_bytes_ok bs Hbs Hl) as (t' & ? & ? & ?). by simplify_eq.
  - rewrite ref_from_bytes_None in Ht by done. done.
Qed.

Lemma as_bytes_inj (t t' : T) :
  value_ok t → value_ok t' → as_bytes t = as_bytes t' → t = t'.
Proof.
  intros Ht Ht' Heq. apply ref_from_as_bytes in Ht, Ht'. congruence.
Qed.

(** Storing a value into a buffer and viewing the same range again. *)
Lemma ref_from_bytes_splice (t : T) l a :
  value_ok t → (a + size_of T ≤ length l)%nat →
  ref_from_bytes (sub (splice l a (as_bytes t)) a (size_of T)) = Some t.
Proof.
  intros Ht Hl. rewrite <- (as_bytes_length t Ht).
  rewrite sub_splice_same by (by rewrite as_bytes_length).
  by apply ref_from_as_bytes.
Qed.
End codec.

(** * [repr(C)] structures of integer fields *)
Class ReprC (T : Type) := {
  widths : list nat;                 (** bytes of each field, in order *)
  fields : T → list Z;               (** the values of the fields *)
  of_fields : list Z → option T;
}.
Arguments widths T {_}.

Class ReprCLaws (T : Type) `{ReprC T} := {
  of_fields_fields (t : T) :
    length (fields t) = length (widths T) → of_fields (fields t) = Some t;
  of_fields_total (vs : list Z) :
    length vs = length (widths T) → ∃ t : T, of_fields vs = Some t ∧ fields t = vs;
}.

#[global] Instance repr_as_bytes `{ReprC T} : AsBytes T := {
  size_of := sum_list (widths T);
  as_bytes t := enc_fields (zip (widths T) (fields t));
  ref_from_bytes bs :=
    if decide (length bs = sum_list (widths T))
    then of_fields (dec_fields (widths T) bs) else None;
  value_ok t := length (fields t) = length (widths T)
                ∧ Forall field_fits (zip (widths T) (fields t));
}.

#[global] Instance repr_as_bytes_laws `{ReprCLaws T} : AsBytesLaws T.
Proof.
  split; unfold as_bytes, ref_from_bytes, size_of, value_ok, repr_as_bytes.
  - intros t [Hl _]. rewrite length_enc_fields, fst_zip by lia. done.
  - intros. apply enc_fields_u8.
  - intros t [Hl Hf].
    rewrite decide_True by (rewrite length_enc_fields, fst_zip by lia; done).
    rewrite <- (fst_zip (widths T) (fields t)) at 1 by lia.
    rewrite dec_enc_fields, snd_zip by (lia || done). by apply of_fields_fields.
  - intros bs Hbs Hl. rewrite decide_True by done.
    destruct (of_fields_total (T := T) (dec_fields (widths T) bs)) as (t & Ht & Hf).
    { apply length_dec_fields. }
    exists t. rewrite Hf, length_dec_fields. split_and!; try done.
    + by apply dec_fields_fit.
    + by apply enc_dec_fields.
  - intros bs Hl. by rewrite decide_False.
Qed.

#[global] Arguments as_bytes {T _} _ : simpl never.
#[global] Arguments ref_from_bytes {T _} _ : simpl never.
#[global] Arguments size_of T {_} : simpl never.
#[global] Arguments value_ok {T _} _ : simpl never.
