(* ===== verification/Bitmap.v ===== *)
(** The allocation bitmap of src/src/fs/layout.rs ([Bitmap], [BitmapError]): a
    view over raw bytes in which bit [idx % 8] of byte [idx / 8] says whether
    resource [idx] is taken. The abstract view is the list of the bits. *)
From S2P Require Import Prelude.
Local Open Scope Z_scope.
Local Open Scope rust_scope.

Inductive BitmapError := AlreadyAllocated | AlreadyCleared.

#[global] Instance BitmapError_eq_dec : EqDecision BitmapError.
Proof. solve_decision. Defined.

(** A [Bitmap] borrows its bytes mutably: the operations take the bytes and
    return what they leave in them. *)
Abbreviation Bitmap := (list Z) (only parsing).

(** [!m] on [u8]. *)
Definition not8 (m : Z) : Z := Z.lxor m 255.

Definition is_set (map : Bitmap) (idx : Z) : outcome bool :=
  let byte_index := idx / 8 in
  let bit_index := idx mod 8 in
  byte ← index map byte_index;
  Ret (negb (Z.land byte (Z.shiftl 1 bit_index) =? 0)).

Definition set (map : Bitmap) (idx : Z) : outcome (result unit BitmapError * Bitmap) :=
  already ← is_set map idx;
  if already : bool then Ret (Err AlreadyAllocated, map)
  else
    let byte_index := idx / 8 in
    let bit_index := idx mod 8 in
    byte ← index map byte_index;
    map' ← store map byte_index (Z.lor byte (Z.shiftl 1 bit_index));
    Ret (Ok tt, map').

Definition clear (map : Bitmap) (idx : Z) : outcome (result unit BitmapError * Bitmap) :=
  already ← is_set map idx;
  if negb already then Ret (Err AlreadyCleared, map)
  else
    let byte_index := idx / 8 in
    let bit_index := idx mod 8 in
    byte ← index map byte_index;
    map' ← store map byte_index (Z.land byte (not8 (Z.shiftl 1 bit_index)));
    Ret (Ok tt, map').

(** The inner loop [for bit in 0..8]: [None] when it falls through, otherwise
    what the function returns from inside it. *)
Fixpoint scan_bits (map : Bitmap) (byte base : Z) (bits : list Z) :
    outcome (option (option Z * Bitmap)) :=
  match bits with
  | [] => Ret None
  | bit :: bits =>
      idx ← base +! bit;
      if Z.land byte (Z.shiftl 1 bit) =? 0 then
        '(r, map') ← set map idx;
        match r with
        | Ok _ => Ret (Some (Some idx, map'))
        | Err _ => Ret (Some (None, map'))
        end
      else scan_bits map byte base bits
  end.

(** The outer loop over [self.map.iter().enumerate()]. *)
Fixpoint scan_bytes (map : Bitmap) (byte_idx : Z) (rest : list Z) :
    outcome (option Z * Bitmap) :=
  match rest with
  | [] => Ret (None, map)
  | byte :: rest =>
      if negb (byte =? 255) then
        base ← byte_idx *! 8;
        r ← scan_bits map byte base (seqZ 0 8);
        match r with
        | Some ret => Ret ret
        | None => scan_bytes map (byte_idx + 1) rest
        end
      else scan_bytes map (byte_idx + 1) rest
  end.

Definition find_and_set_first_free (map : Bitmap) : outcome (option Z * Bitmap) :=
  scan_bytes map 0 map.

(** * The abstract view: a list of booleans *)
Definition byte_bits (b : Z) : list bool := Z.testbit b <$> seqZ 0 8.
Definition bits (map : Bitmap) : list bool := map ≫= byte_bits.

(** The reference search: the position of the first clear bit. *)
Definition first_free (l : list bool) : option nat := fst <$> list_find (λ b, b = false) l.

(** * Facts about one byte *)
Lemma land_shiftl_testbit b k : 0 ≤ k → (Z.land b (Z.shiftl 1 k) =? 0) = negb (Z.testbit b k).
Proof.
  intros Hk. destruct (Z.testbit b k) eqn:Hb; simpl.
  - apply Z.eqb_neq. intros H0. apply (f_equal (λ x, Z.testbit x k)) in H0.
    rewrite Z.land_spec, Z.shiftl_spec, Z.sub_diag, Hb, Z.bits_0 in H0 by lia. done.
  - apply Z.eqb_eq, Z.bits_inj'. intros j Hj.
    rewrite Z.land_spec, Z.bits_0, Z.shiftl_spec by lia.
    destruct (decide (j = k)) as [->|Hne]; [by rewrite Hb|].
    destruct (decide (j < k)).
    + rewrite (Z.testbit_neg_r 1) by lia. apply andb_false_r.
    + replace (Z.testbit 1 (j - k)) with false; [apply andb_false_r|].
      symmetry. apply Z.bits_above_log2; simpl; lia.
Qed.

Lemma testbit_shiftl_1 k j : 0 ≤ k → 0 ≤ j → Z.testbit (Z.shiftl 1 k) j = bool_decide (j = k).
Proof.
  intros. rewrite Z.shiftl_1_l.
  case_bool_decide; [subst; by apply Z.pow2_bits_true|].
  apply Z.pow2_bits_false. lia.
Qed.

Lemma testbit_set_bit b k j :
  0 ≤ k → 0 ≤ j →
  Z.testbit (Z.lor b (Z.shiftl 1 k)) j = if decide (j = k) then true else Z.testbit b j.
Proof.
  intros. rewrite Z.lor_spec, testbit_shiftl_1 by lia.
  case_decide; case_bool_decide; try done; [apply orb_true_r|apply orb_false_r].
Qed.

Lemma testbit_clear_bit b k j :
  0 ≤ k < 8 → 0 ≤ j < 8 →
  Z.testbit (Z.land b (not8 (Z.shiftl 1 k))) j =
    if decide (j = k) then false else Z.testbit b j.
Proof.
  intros. unfold not8. rewrite Z.land_spec, Z.lxor_spec, testbit_shiftl_1 by lia.
  replace (Z.testbit 255 j) with true.
  2: { change 255 with (Z.ones 8). symmetry. apply Z.ones_spec_low. lia. }
  case_decide; case_bool_decide; simpl; try done; [apply andb_false_r|apply andb_true_r].
Qed.

Lemma u8_bits_above b : is_u8 b ↔ 0 ≤ b ∧ ∀ j, 8 ≤ j → Z.testbit b j = false.
Proof.
  unfold fits. split.
  - intros Hb. split; [lia|]. intros j Hj.
    rewrite <- (Z.mod_small b (2 ^ 8)) by lia. apply Z.mod_pow2_bits_high. lia.
  - intros [H0 Hb]. split; [done|]. replace b with (b mod 2 ^ 8); [apply Z.mod_pos_bound; lia|].
    apply Z.bits_inj'. intros j Hj. destruct (decide (j < 8)).
    + apply Z.mod_pow2_bits_low. lia.
    + rewrite Z.mod_pow2_bits_high by lia. by rewrite Hb by lia.
Qed.

Lemma u8_set_bit b k : is_u8 b → 0 ≤ k < 8 → is_u8 (Z.lor b (Z.shiftl 1 k)).
Proof.
  rewrite !u8_bits_above. intros [H0 Hb] Hk. split.
  - apply Z.lor_nonneg. split; [done|]. apply Z.shiftl_nonneg. lia.
  - intros j Hj. rewrite testbit_set_bit by lia. rewrite decide_False by lia. auto.
Qed.

Lemma u8_clear_bit b k : is_u8 b → 0 ≤ k < 8 → is_u8 (Z.land b (not8 (Z.shiftl 1 k))).
Proof.
  rewrite !u8_bits_above. intros [H0 Hb] Hk. split.
  - apply Z.land_nonneg. by left.
  - intros j Hj. rewrite Z.land_spec, Hb by lia. done.
Qed.

Lemma u8_all_ones b : is_u8 b → (∀ j, 0 ≤ j < 8 → Z.testbit b j = true) → b = 255.
Proof.
  rewrite u8_bits_above. intros [_ Hb] H. change 255 with (Z.ones 8).
  apply Z.bits_inj'. intros j Hj. destruct (decide (j < 8)).
  - rewrite Z.ones_spec_low by lia. apply H. lia.
  - rewrite Z.ones_spec_high by lia. apply Hb. lia.
Qed.

(** * The bits of a bitmap *)
Lemma length_byte_bits b : length (byte_bits b) = 8%nat.
Proof. done. Qed.

Lemma lookup_byte_bits b (i : nat) :
  byte_bits b !! i = if decide (i < 8)%nat then Some (Z.testbit b (Z.of_nat i)) else None.
Proof. unfold byte_bits. do 8 (destruct i as [|i]; [done|]). done. Qed.

Lemma bits_cons b map : bits (b :: map) = byte_bits b ++ bits map.
Proof. done. Qed.

Lemma length_bits map : length (bits map) = (8 * length map)%nat.
Proof. induction map as [|b map IH]; [done|]. rewrite bits_cons. len. Qed.

Lemma lookup_bits map (i : nat) :
  bits map !! i = (λ b, Z.testbit b (Z.of_nat i mod 8)) <$> map !! (i / 8)%nat.
Proof.
  revert i. induction map as [|b map IH]; intros i; [done|]. rewrite bits_cons.
  destruct (decide (i < 8)%nat) as [Hi|Hi].
  - rewrite lookup_app_l by done. rewrite lookup_byte_bits, decide_True by done.
    rewrite Nat.div_small, Z.mod_small by lia. done.
  - rewrite lookup_app_r by (rewrite length_byte_bits; lia).
    rewrite length_byte_bits, IH.
    replace (i / 8)%nat with (S ((i - 8) / 8)).
    2: { replace i with ((i - 8) + 1 * 8)%nat at 2 by lia. rewrite Nat.div_add by lia. lia. }
    replace (Z.of_nat (i - 8) mod 8) with (Z.of_nat i mod 8); [done|].
    replace (Z.of_nat i) with (Z.of_nat (i - 8) + 1 * 8) by lia. apply Z_mod_plus_full.
Qed.

Lemma to_nat_div8 idx : 0 ≤ idx → Z.to_nat (idx / 8) = (Z.to_nat idx / 8)%nat.
Proof. intros. rewrite Z2Nat.inj_div by lia. done. Qed.

(** The bit of index [idx] is a bit of the byte of index [idx / 8]. *)
Lemma bits_Some map idx v :
  0 ≤ idx → bits map !! Z.to_nat idx = Some v →
  ∃ b, map !! Z.to_nat (idx / 8) = Some b ∧ Z.testbit b (idx mod 8) = v.
Proof.
  intros Hi. rewrite lookup_bits, Z2Nat.id, to_nat_div8 by lia.
  destruct (map !! _) as [b|] eqn:Hb; simpl; [|done]. intros [= <-]. eauto.
Qed.

(** Changing one bit of one byte changes one bit of the view. *)
Lemma bits_insert map idx b b' v :
  0 ≤ idx → map !! Z.to_nat (idx / 8) = Some b →
  (∀ j, 0 ≤ j < 8 →
    Z.testbit b' j = if decide (j = idx mod 8) then v else Z.testbit b j) →
  bits (<[Z.to_nat (idx / 8) := b']> map) = <[Z.to_nat idx := v]> (bits map).
Proof.
  intros Hi Hb Hb'. apply list_eq. intros i.
  pose proof (lookup_lt_Some _ _ _ Hb) as Hlt. rewrite to_nat_div8 in * by lia.
  pose proof (Z.mod_pos_bound (Z.of_nat i) 8 ltac:(lia)).
  assert (Z.to_nat idx = 8 * (Z.to_nat idx / 8) + Z.to_nat (idx mod 8))%nat as Hdm.
  { rewrite Z2Nat.inj_mod by lia. apply Nat.div_mod_eq. }
  assert (Z.to_nat (idx mod 8) < 8)%nat by (pose proof (Z.mod_pos_bound idx 8); lia).
  assert (i = 8 * (i / 8) + Z.to_nat (Z.of_nat i mod 8))%nat as Hdi.
  { rewrite Z2Nat.inj_mod, Nat2Z.id by lia. apply Nat.div_mod_eq. }
  rewrite lookup_bits, list_lookup_insert.
  destruct (decide (Z.to_nat idx = i)) as [<-|Hne].
  - rewrite list_lookup_insert_eq by (rewrite length_bits; lia).
    rewrite decide_True by (split; [done|lia]). simpl. rewrite Hb' by lia.
    rewrite Z2Nat.id by lia. by rewrite decide_True.
  - rewrite (list_lookup_insert_ne (bits map)) by done. rewrite lookup_bits.
    case_decide as Hd; [|done]. destruct Hd as [Hd _]. rewrite <- Hd, Hb. simpl.
    rewrite Hb' by lia. rewrite decide_False; [done|]. intros Heq. apply Hne.
    rewrite Hdi, <- Hd. rewrite Heq. lia.
Qed.

(** * Functional behaviour of the operations *)
Lemma is_set_bits map idx : 0 ≤ idx → is_set map idx = index (bits map) idx.
Proof.
  intros Hi. unfold is_set, index. rewrite lookup_bits, Z2Nat.id, to_nat_div8 by lia.
  destruct (map !! _) as [b|]; simpl; [|done].
  rewrite land_shiftl_testbit, negb_involutive; [done|]. apply Z.mod_pos_bound. lia.
Qed.

(** The view after the operation, for a bitmap that stays one of bytes. *)
Definition updated (map map' : Bitmap) (new : list bool) : Prop :=
  bits map' = new ∧ length map' = length map ∧ (Forall is_u8 map → Forall is_u8 map').

Lemma set_bits map idx :
  0 ≤ idx →
  match bits map !! Z.to_nat idx with
  | None => set map idx = Panic PIndex
  | Some true => set map idx = Ret (Err AlreadyAllocated, map)
  | Some false => ∃ map', set map idx = Ret (Ok tt, map')
      ∧ updated map map' (<[Z.to_nat idx := true]> (bits map))
  end.
Proof.
  intros Hi. unfold set. rewrite is_set_bits by done. unfold index.
  destruct (bits map !! Z.to_nat idx) as [[]|] eqn:Hv; simpl; try done.
  destruct (bits_Some _ _ _ Hi Hv) as (b & Hb & Hbit). rewrite Hb. simpl.
  pose proof (Z.mod_pos_bound idx 8 ltac:(lia)).
  rewrite store_in by (by eapply lookup_lt_Some). simpl.
  eexists. split; [done|]. split; [|split; [len|]].
  - apply (bits_insert _ _ b); [done..|]. intros. apply testbit_set_bit; lia.
  - intros Hu. apply Forall_insert; [done|]. apply u8_set_bit; [|lia].
    rewrite Forall_lookup in Hu. by eapply Hu.
Qed.

Lemma clear_bits map idx :
  0 ≤ idx →
  match bits map !! Z.to_nat idx with
  | None => clear map idx = Panic PIndex
  | Some false => clear map idx = Ret (Err AlreadyCleared, map)
  | Some true => ∃ map', clear map idx = Ret (Ok tt, map')
      ∧ updated map map' (<[Z.to_nat idx := false]> (bits map))
  end.
Proof.
  intros Hi. unfold clear. rewrite is_set_bits by done. unfold index.
  destruct (bits map !! Z.to_nat idx) as [[]|] eqn:Hv; simpl; try done.
  destruct (bits_Some _ _ _ Hi Hv) as (b & Hb & Hbit). rewrite Hb. simpl.
  pose proof (Z.mod_pos_bound idx 8 ltac:(lia)).
  rewrite store_in by (by eapply lookup_lt_Some). simpl.
  eexists. split; [done|]. split; [|split; [len|]].
  - apply (bits_insert _ _ b); [done..|]. intros. apply testbit_clear_bit; lia.
  - intros Hu. apply Forall_insert; [done|]. apply u8_clear_bit; [|lia].
    rewrite Forall_lookup in Hu. by eapply Hu.
Qed.

(** * The search for a free bit *)
Lemma first_free_Some l i :
  first_free l = Some i ↔
  l !! i = Some false ∧ ∀ j, (j < i)%nat → l !! j = Some true.
Proof.
  unfold first_free. rewrite fmap_Some. split.
  - intros ([i' b] & (Hl & -> & Hlt)%list_find_Some & ->). simpl. split; [done|].
    intros j Hj. destruct (lookup_lt_is_Some_2 l j) as [[] Hb].
    + apply lookup_lt_Some in Hl. lia.
    + done.
    + by eapply Hlt in Hb.
  - intros [Hl Hlt]. exists (i, false). split; [|done]. apply list_find_Some.
    split_and!; [done..|]. intros j y Hj Hji. rewrite Hlt in Hj by done. by simplify_eq.
Qed.

Lemma first_free_None l : first_free l = None ↔ Forall (λ b, b = true) l.
Proof.
  unfold first_free. rewrite fmap_None, list_find_None.
  split; intros H; (eapply Forall_impl; [exact H|]); intros []; naive_solver.
Qed.

Lemma first_free_app l k :
  first_free (l ++ k) =
    match first_free l with Some i => Some i | None => (λ i, length l + i)%nat <$> first_free k end.
Proof.
  unfold first_free. destruct (list_find _ l) as [[i b]|] eqn:Hl; simpl.
  - erewrite list_find_app_l by done. done.
  - rewrite list_find_app_r by done. destruct (list_find _ k) as [[]|]; simpl; [f_equal; lia|done].
Qed.

Lemma first_free_cons b l :
  first_free (b :: l) = if b : bool then S <$> first_free l else Some O.
Proof. change (b :: l) with ([b] ++ l). rewrite first_free_app. by destruct b. Qed.

Lemma first_free_lt l i : first_free l = Some i → (i < length l)%nat.
Proof. rewrite first_free_Some. intros [H _]. by eapply lookup_lt_Some. Qed.

Lemma first_free_byte b : is_u8 b → first_free (byte_bits b) = None ↔ b = 255.
Proof.
  intros Hb. rewrite first_free_None. split.
  - intros Hall. apply u8_all_ones; [done|]. intros j Hj.
    rewrite Forall_lookup in Hall. apply (Hall (Z.to_nat j)).
    rewrite lookup_byte_bits, decide_True, Z2Nat.id by lia. done.
  - intros ->. by repeat constructor.
Qed.

(** The inner loop finds the first clear bit of its byte and sets it. *)
Lemma scan_bits_first map byte base :
  0 ≤ base → base + 8 < 2 ^ 64 →
  scan_bits map byte base (seqZ 0 8) =
    match first_free (byte_bits byte) with
    | None => Ret None
    | Some i =>
        '(r, map') ← set map (base + Z.of_nat i);
        match r with
        | Ok _ => Ret (Some (Some (base + Z.of_nat i), map'))
        | Err _ => Ret (Some (None, map'))
        end
    end.
Proof.
  intros H0 H1. unfold byte_bits.
  assert (∀ k n, 0 ≤ k → k + Z.of_nat n ≤ 8 →
    scan_bits map byte base (seqZ k (Z.of_nat n)) =
    match first_free (Z.testbit byte <$> seqZ k (Z.of_nat n)) with
    | None => Ret None
    | Some i =>
        '(r, map') ← set map (base + (k + Z.of_nat i));
        match r with
        | Ok _ => Ret (Some (Some (base + (k + Z.of_nat i)), map'))
        | Err _ => Ret (Some (None, map'))
        end
    end) as Hgen; [|by apply (Hgen 0 8%nat)].
  intros k n. revert k. induction n as [|n IH]; intros k Hk Hn; [done|].
  rewrite seqZ_cons by lia. replace (Z.pred (Z.of_nat (S n))) with (Z.of_nat n) by lia.
  cbn [scan_bits fmap list_fmap]. unfold add64.
  rewrite checked_fits by (unfold fits; lia). simpl.
  rewrite land_shiftl_testbit by lia.
  rewrite first_free_cons. destruct (Z.testbit byte k); simpl.
  - rewrite IH by lia. destruct (first_free _) as [i|]; simpl; [|done].
    by replace (Z.succ k + Z.of_nat i) with (k + Z.of_nat (S i)) by lia.
  - by rewrite Z.add_0_r.
Qed.

(** The view after a search. *)
Definition take_first (l : list bool) : list bool :=
  match first_free l with Some i => <[i := true]> l | None => l end.

Lemma scan_bytes_first map pre rest :
  map = pre ++ rest → Forall is_u8 map → Z.of_nat (8 * length map) < 2 ^ 64 →
  first_free (bits pre) = None →
  ∃ map', scan_bytes map (Z.of_nat (length pre)) rest
            = Ret (Z.of_nat <$> first_free (bits map), map')
        ∧ updated map map' (take_first (bits map)).
Proof.
  revert pre. induction rest as [|byte rest IH]; intros pre Hmap Hu Hlen Hpre.
  - rewrite app_nil_r in Hmap. subst map. exists pre. unfold take_first. rewrite Hpre. done.
  - change (byte :: rest) with ([byte] ++ rest) in Hmap.
    assert (is_u8 byte) as Hbyte.
    { subst map. rewrite !Forall_app, Forall_singleton in Hu. tauto. }
    specialize (IH (pre ++ [byte])). rewrite <- app_assoc in IH. specialize (IH Hmap Hu Hlen).
    assert (bits (pre ++ [byte]) = bits pre ++ byte_bits byte) as Hsnoc.
    { unfold bits. by rewrite bind_app. }
    rewrite Hsnoc, first_free_app, Hpre in IH.
    replace (Z.of_nat (length (pre ++ [byte]))) with (Z.of_nat (length pre) + 1) in IH by len.
    cbn [scan_bytes]. destruct (Z.eqb_spec byte 255) as [->|Hne]; cbn [negb].
    { apply IH. by rewrite (proj2 (first_free_byte 255 Hbyte) eq_refl). }
    assert (length pre < length map)%nat by (subst map; len).
    unfold mul64. rewrite checked_fits by (unfold fits; lia). cbn [mbind outcome_bind].
    rewrite scan_bits_first by lia.
    destruct (first_free (byte_bits byte)) as [i|] eqn:Hi; simpl; [|by apply IH].
    assert (first_free (bits map) = Some (8 * length pre + i)%nat) as Hff.
    { rewrite Hmap, (app_assoc pre [byte] rest). unfold bits at 1. rewrite bind_app.
      fold (bits (pre ++ [byte])). rewrite Hsnoc, first_free_app, first_free_app, Hpre, Hi.
      simpl. by rewrite length_bits. }
    pose proof (set_bits map (Z.of_nat (length pre) * 8 + Z.of_nat i) ltac:(lia)) as Hset.
    replace (Z.to_nat (Z.of_nat (length pre) * 8 + Z.of_nat i)) with (8 * length pre + i)%nat
      in Hset by lia.
    rewrite (proj1 (proj1 (first_free_Some _ _) Hff)) in Hset.
    destruct Hset as (map' & -> & Hup). exists map'. unfold take_first. rewrite Hff. simpl.
    split; [|done]. repeat f_equal. lia.
Qed.

Lemma find_and_set_first_free_bits map :
  Forall is_u8 map → Z.of_nat (8 * length map) < 2 ^ 64 →
  ∃ map', find_and_set_first_free map = Ret (Z.of_nat <$> first_free (bits map), map')
        ∧ updated map map' (take_first (bits map)).
Proof. intros. by apply (scan_bytes_first map []). Qed.

(** The view determines the bytes. *)
Lemma bits_inj map map' :
  Forall is_u8 map → Forall is_u8 map' → bits map = bits map' → map = map'.
Proof.
  intros Hu Hu' Heq.
  assert (length map = length map') as Hlen.
  { apply (f_equal length) in Heq. rewrite !length_bits in Heq. lia. }
  apply list_eq_same_length with (length map); [done..|].
  intros i b b' Hi Hb Hb'. apply Z.bits_inj'. intros j Hj.
  rewrite Forall_lookup in Hu, Hu'.
  pose proof (proj1 (u8_bits_above b) (Hu _ _ Hb)) as Hub.
  pose proof (proj1 (u8_bits_above b') (Hu' _ _ Hb')) as Hub'.
  destruct (decide (j < 8)); [|by rewrite (proj2 Hub), (proj2 Hub') by lia].
  apply (f_equal (lookup (8 * i + Z.to_nat j)%nat)) in Heq. rewrite !lookup_bits in Heq.
  replace ((8 * i + Z.to_nat j) / 8)%nat with i in Heq.
  2: { rewrite (Nat.mul_comm 8), Nat.div_add_l, Nat.div_small by lia. lia. }
  replace (Z.of_nat (8 * i + Z.to_nat j) mod 8) with j in Heq.
  2: { replace (Z.of_nat (8 * i + Z.to_nat j)) with (j + Z.of_nat i * 8) by lia.
       rewrite Z_mod_plus_full, Z.mod_small; lia. }
  rewrite Hb, Hb' in Heq. by simplify_eq/=.
Qed.

Lemma index_Ret {A} (l : list A) i x : index l i = Ret x ↔ l !! Z.to_nat i = Some x.
Proof. unfold index. destruct (l !! _); naive_solver. Qed.

Lemma index_insert_ne (l : list bool) i j v :
  0 ≤ i → 0 ≤ j → i ≠ j → index (<[Z.to_nat i := v]> l) j = index l j.
Proof. intros. unfold index. by rewrite list_lookup_insert_ne by lia. Qed.

(** C15: [find_and_set_first_free] never panics. It returns the least index
    whose bit is clear and sets that bit and no other; it returns [None], and
    writes nothing, exactly when every byte is 0xFF. *)
Theorem find_and_set_first_free_correct (map : Bitmap)
    (Hu : Forall is_u8 map) (Hlen : Z.of_nat (8 * length map) < 2 ^ 64) :
  (∃ idx map', find_and_set_first_free map = Ret (Some idx, map')
     ∧ 0 ≤ idx ∧ is_set map idx = Ret false ∧ is_set map' idx = Ret true
     ∧ (∀ j, 0 ≤ j < idx → is_set map j = Ret true)
     ∧ (∀ j, 0 ≤ j → j ≠ idx → is_set map' j = is_set map j)) ∨
  (find_and_set_first_free map = Ret (None, map) ∧ Forall (λ b, b = 255) map).
Proof.
  destruct (find_and_set_first_free_bits map Hu Hlen) as (map' & -> & Hb & Hl & Hu').
  unfold take_first in Hb. destruct (first_free (bits map)) as [i|] eqn:Hff.
  - left. apply first_free_Some in Hff as [Hi Hlt]. exists (Z.of_nat i), map'.
    split_and!; try done; try lia.
    + rewrite is_set_bits, index_Ret, Nat2Z.id by lia. done.
    + rewrite is_set_bits, index_Ret, Nat2Z.id, Hb by lia.
      apply list_lookup_insert_eq. by eapply lookup_lt_Some.
    + intros j Hj. rewrite is_set_bits, index_Ret by lia. apply Hlt. lia.
    + intros j Hj Hne. rewrite !is_set_bits, Hb by lia. rewrite <- (Nat2Z.id i).
      by apply index_insert_ne; lia.
  - right. assert (map' = map) as -> by (apply bits_inj; auto). split; [done|].
    apply Forall_lookup. intros i b Hi. rewrite Forall_lookup in Hu.
    apply first_free_byte; [by eapply Hu|]. apply first_free_None.
    rewrite first_free_None in Hff. unfold bits in Hff.
    rewrite Forall_bind, Forall_lookup in Hff. by eapply Hff.
Qed.

Lemma find_and_set_first_free_witness :
  Forall is_u8 [255; 7; 0] ∧ Z.of_nat (8 * length [255; 7; 0]) < 2 ^ 64 ∧
  find_and_set_first_free [255; 7; 0] = Ret (Some 11, [255; 15; 0]) ∧
  is_set [255; 15; 0] 11 = Ret true.
Proof.
  assert (Forall is_u8 [255; 7; 0]) as Hu by (repeat constructor; unfold fits; lia).
  split_and!; [done|done|done|].
  destruct (find_and_set_first_free_correct [255; 7; 0] Hu eq_refl)
    as [(idx & map' & Hf & _ & _ & Hs & _)|[Hf _]]; [|done].
  vm_compute in Hf. injection Hf as <- <-. exact Hs.
Defined.

(** On an index inside the map, [set] and [clear] are inverse to each
    other, detect a bit that is already in the requested state without writing,
    and leave every other bit alone; on an index past the end all three
    operations panic. *)
Theorem set_clear_roundtrip (map : Bitmap) (idx : Z)
    (Hu : Forall is_u8 map) (Hidx : 0 ≤ idx) :
  if decide (idx < Z.of_nat (8 * length map)) then
    (is_set map idx = Ret true ∧ set map idx = Ret (Err AlreadyAllocated, map) ∧
     ∃ map', clear map idx = Ret (Ok tt, map') ∧ is_set map' idx = Ret false ∧
       (∀ j, 0 ≤ j → j ≠ idx → is_set map' j = is_set map j) ∧
       set map' idx = Ret (Ok tt, map)) ∨
    (is_set map idx = Ret false ∧ clear map idx = Ret (Err AlreadyCleared, map) ∧
     ∃ map', set map idx = Ret (Ok tt, map') ∧ is_set map' idx = Ret true ∧
       (∀ j, 0 ≤ j → j ≠ idx → is_set map' j = is_set map j) ∧
       clear map' idx = Ret (Ok tt, map))
  else is_set map idx = Panic PIndex ∧ set map idx = Panic PIndex ∧
       clear map idx = Panic PIndex.
Proof.
  pose proof (set_bits map idx Hidx) as Hset. pose proof (clear_bits map idx Hidx) as Hclear.
  rewrite is_set_bits by done. case_decide as Hr.
  2: { unfold index. rewrite lookup_ge_None_2 in * by (rewrite length_bits; lia). done. }
  destruct (lookup_lt_is_Some_2 (bits map) (Z.to_nat idx)) as [v Hv].
  { rewrite length_bits. lia. }
  rewrite Hv in Hset, Hclear. rewrite (proj2 (index_Ret _ _ _) Hv).
  destruct v; [left|right]; (split; [done|split; [done|]]).
  - destruct Hclear as (map' & Hc & Hb & Hl & Hu'). exists map'.
    pose proof (set_bits map' idx Hidx) as Hset'. rewrite Hb in Hset'.
    rewrite list_lookup_insert_eq in Hset' by (by eapply lookup_lt_Some).
    destruct Hset' as (map'' & Hs & Hb' & _ & Hu'').
    rewrite list_insert_insert_eq, list_insert_id in Hb' by done.
    rewrite (bits_inj map'' map) in Hs by auto. split_and!; try done.
    + rewrite is_set_bits, index_Ret, Hb by done.
      apply list_lookup_insert_eq. by eapply lookup_lt_Some.
    + intros. rewrite !is_set_bits, Hb by done. by apply index_insert_ne.
  - destruct Hset as (map' & Hs & Hb & Hl & Hu'). exists map'.
    pose proof (clear_bits map' idx Hidx) as Hclear'. rewrite Hb in Hclear'.
    rewrite list_lookup_insert_eq in Hclear' by (by eapply lookup_lt_Some).
    destruct Hclear' as (map'' & Hc & Hb' & _ & Hu'').
    rewrite list_insert_insert_eq, list_insert_id in Hb' by done.
    rewrite (bits_inj map'' map) in Hc by auto. split_and!; try done.
    + rewrite is_set_bits, index_Ret, Hb by done.
      apply list_lookup_insert_eq. by eapply lookup_lt_Some.
    + intros. rewrite !is_set_bits, Hb by done. by apply index_insert_ne.
Qed.

Lemma set_clear_witness :
  Forall is_u8 [5; 0] ∧ 0 ≤ 1 ∧ set [5; 0] 1 = Ret (Ok tt, [7; 0]) ∧
  clear [7; 0] 1 = Ret (Ok tt, [5; 0]).
Proof.
  assert (Forall is_u8 [5; 0]) as Hu by (repeat constructor; unfold fits; lia).
  split_and!; [done|lia|done|].
  pose proof (set_clear_roundtrip [5; 0] 1 Hu ltac:(lia)) as H.
  rewrite decide_True in H by done.
  destruct H as [(Hi & _)|(_ & _ & map' & Hs & _ & _ & Hc)]; [done|].
  vm_compute in Hs. injection Hs as <-. exact Hc.
Defined.
