(* ===== verification/Layout.v ===== *)
(** The on-disk layout of src/src/fs/layout.rs: constants, superblock, inode and
    directory entry as records with their [repr(C)] byte images, the conversions
    between in-memory and on-disk forms, and the iterator over the entries of
    a directory block. *)
From S2P Require Import Prelude Bytes.
Local Open Scope Z_scope.
Local Open Scope rust_scope.

Definition BLOCK_SIZE : Z := 512.
Definition INODE_SIZE : Z := 128.
Definition INODES_PER_BLOCK : Z := BLOCK_SIZE / INODE_SIZE.

Definition SUPERBLOCK_BLOCK : Z := 0.
Definition INODE_BITMAP_BLOCK : Z := 1.
Definition DATA_BITMAP_BLOCK : Z := 2.
Definition INODE_TABLE_START_BLOCK : Z := 3.

Definition DIR_ENTRY_SIZE : Z := 64.
Definition DIR_NAME_MAX : Z := 52.
Definition DIR_ENTRIES_PER_BLOCK : Z := BLOCK_SIZE / DIR_ENTRY_SIZE.

Definition DIRENT_USED : Z := 1.

(** [[0u8; BLOCK_SIZE]]. *)
Definition zero_block : list Z := replicate (Z.to_nat BLOCK_SIZE) 0.

(** A block of bytes, the type [[u8; BLOCK_SIZE]]. *)
Definition is_block (b : list Z) : Prop :=
  length b = Z.to_nat BLOCK_SIZE ∧ Forall is_u8 b.

(** * File types *)
Inductive FileType := Unknown | File | Directory.

#[global] Instance FileType_eq_dec : EqDecision FileType.
Proof. solve_decision. Defined.

Definition FileType_try_from (value : Z) : result FileType unit :=
  if value =? 0 then Ok Unknown
  else if value =? 1 then Ok File
  else if value =? 2 then Ok Directory
  else Err tt.

Definition u16_from (value : FileType) : Z :=
  match value with Unknown => 0 | File => 1 | Directory => 2 end.

(** * Superblock *)
Record DiskSuperBlock := mkDiskSuperBlock {
  dsb_total_blocks : Z;
  dsb_inode_bitmap_block : Z;
  dsb_data_bitmap_block : Z;
  dsb_inode_table_start_block : Z;
  dsb_inode_count : Z;
  dsb_data_block_start : Z;
  dsb_data_block_count : Z;
  dsb_magic_number : Z;
  dsb_pad0 : Z;
}.

Record SuperBlock := mkSuperBlock {
  total_blocks : Z;
  inode_bitmap_block : Z;
  data_bitmap_block : Z;
  inode_table_start_block : Z;
  inode_count : Z;
  data_block_start : Z;
  data_block_count : Z;
  magic_number : Z;
}.

#[global] Instance DiskSuperBlock_repr : ReprC DiskSuperBlock := {
  widths := [8; 8; 8; 8; 8; 8; 8; 4; 4]%nat;
  fields d := [dsb_total_blocks d; dsb_inode_bitmap_block d; dsb_data_bitmap_block d;
               dsb_inode_table_start_block d; dsb_inode_count d; dsb_data_block_start d;
               dsb_data_block_count d; dsb_magic_number d; dsb_pad0 d];
  of_fields vs :=
    match vs with
    | [a; b; c; d; e; f; g; m; p] => Some (mkDiskSuperBlock a b c d e f g m p)
    | _ => None
    end;
}.

Definition DiskSuperBlock_from (sb : SuperBlock) : DiskSuperBlock := {|
  dsb_total_blocks := total_blocks sb;
  dsb_inode_bitmap_block := inode_bitmap_block sb;
  dsb_data_bitmap_block := data_bitmap_block sb;
  dsb_inode_table_start_block := inode_table_start_block sb;
  dsb_inode_count := inode_count sb;
  dsb_data_block_start := data_block_start sb;
  dsb_data_block_count := data_block_count sb;
  dsb_magic_number := magic_number sb;
  dsb_pad0 := 0;
|}.

Definition SuperBlock_try_from (value : DiskSuperBlock) : result SuperBlock unit := Ok {|
  total_blocks := dsb_total_blocks value;
  inode_bitmap_block := dsb_inode_bitmap_block value;
  data_bitmap_block := dsb_data_bitmap_block value;
  inode_table_start_block := dsb_inode_table_start_block value;
  inode_count := dsb_inode_count value;
  data_block_start := dsb_data_block_start value;
  data_block_count := dsb_data_block_count value;
  magic_number := dsb_magic_number value;
|}.

(** * Inode *)
Record Inode := mkInode {
  mode : FileType;
  user_id : Z;
  group_id : Z;
  link_count : Z;
  size_in_bytes : Z;
  last_access_time : Z;
  last_modification_time : Z;
  creation_time : Z;
  direct_pointers : list Z;
  indirect_pointer : Z;
}.

Record DiskInode := mkDiskInode {
  di_size_in_bytes : Z;
  di_last_access_time : Z;
  di_last_modification_time : Z;
  di_creation_time : Z;
  di_direct_pointers : list Z;
  di_indirect_pointer : Z;
  di_mode : Z;
  di_user_id : Z;
  di_group_id : Z;
  di_link_count : Z;
}.

#[global] Instance DiskInode_repr : ReprC DiskInode := {
  widths := [8; 8; 8; 8]%nat ++ replicate 10 8%nat ++ [8; 2; 2; 2; 2]%nat;
  fields i := [di_size_in_bytes i; di_last_access_time i; di_last_modification_time i;
               di_creation_time i] ++ di_direct_pointers i ++
              [di_indirect_pointer i; di_mode i; di_user_id i; di_group_id i; di_link_count i];
  of_fields vs :=
    match vs with
    | s :: la :: lm :: c :: rest =>
        match drop 10 rest with
        | [ind; m; u; g; l] => Some (mkDiskInode s la lm c (take 10 rest) ind m u g l)
        | _ => None
        end
    | _ => None
    end;
}.

Definition DiskInode_from (i : Inode) : DiskInode := {|
  di_size_in_bytes := size_in_bytes i;
  di_last_access_time := last_access_time i;
  di_last_modification_time := last_modification_time i;
  di_creation_time := creation_time i;
  di_direct_pointers := direct_pointers i;
  di_indirect_pointer := indirect_pointer i;
  di_mode := u16_from (mode i);
  di_user_id := user_id i;
  di_group_id := group_id i;
  di_link_count := link_count i;
|}.

Definition Inode_try_from (di : DiskInode) : result Inode unit :=
  match FileType_try_from (di_mode di) with
  | Err e => Err e
  | Ok m => Ok {|
      mode := m;
      user_id := di_user_id di;
      group_id := di_group_id di;
      link_count := di_link_count di;
      size_in_bytes := di_size_in_bytes di;
      last_access_time := di_last_access_time di;
      last_modification_time := di_last_modification_time di;
      creation_time := di_creation_time di;
      direct_pointers := di_direct_pointers di;
      indirect_pointer := di_indirect_pointer di;
    |}
  end.

(** * Directory entry *)
Record DiskDirEntry := mkDiskDirEntry {
  de_inode : Z;
  de_name_len : Z;
  de_flags : Z;
  de_name : list Z;
}.

#[global] Instance DiskDirEntry_repr : ReprC DiskDirEntry := {
  widths := [8; 2; 2]%nat ++ replicate (Z.to_nat DIR_NAME_MAX) 1%nat;
  fields e := [de_inode e; de_name_len e; de_flags e] ++ de_name e;
  of_fields vs :=
    match vs with
    | i :: n :: f :: name =>
        if decide (length name = Z.to_nat DIR_NAME_MAX)
        then Some (mkDiskDirEntry i n f name) else None
    | _ => None
    end;
}.

(** * The iterator over a directory block *)
Record DirEntryBlock := mkDirEntryBlock {
  deb_block : list Z;
  deb_idx : Z;
}.

Definition DirEntryBlock_new (block : list Z) : DirEntryBlock := mkDirEntryBlock block 0.

Definition next (self : DirEntryBlock) : outcome (option DiskDirEntry * DirEntryBlock) :=
  if DIR_ENTRIES_PER_BLOCK <=? deb_idx self then Ret (None, self)
  else
    start ← deb_idx self *! DIR_ENTRY_SIZE;
    stop ← start +! DIR_ENTRY_SIZE;
    bytes ← slice (deb_block self) start stop;
    match ref_from_bytes bytes with
    | None => Ret (None, self)
    | Some entry => Ret (Some entry, mkDirEntryBlock (deb_block self) (deb_idx self + 1))
    end.

(** * The byte images *)
#[global] Instance DiskSuperBlock_repr_laws : ReprCLaws DiskSuperBlock.
Proof.
  split.
  - by intros [].
  - intros vs Hl. do 9 (destruct vs as [|? vs]; [done|]). destruct vs; [|done].
    eexists. split; reflexivity.
Qed.

#[global] Instance DiskInode_repr_laws : ReprCLaws DiskInode.
Proof.
  split.
  - intros [s la lm c dp ind m u g l] Hl. simpl in *. autorewrite with len in Hl. simpl in Hl.
    rewrite drop_app_length', take_app_length' by lia. done.
  - intros vs Hl. do 4 (destruct vs as [|? vs]; [done|]). simpl in Hl.
    assert (length (drop 10 vs) = 5)%nat as Hd by len.
    cbn [of_fields DiskInode_repr].
    destruct (drop 10 vs) as [|? [|? [|? [|? [|? [|]]]]]] eqn:Hv; try done.
    eexists. split; [done|]. simpl. rewrite <- Hv. by rewrite take_drop.
Qed.

#[global] Instance DiskDirEntry_repr_laws : ReprCLaws DiskDirEntry.
Proof.
  split.
  - intros [i n f name] [= Hl]. cbn [of_fields fields DiskDirEntry_repr app].
    by rewrite decide_True.
  - intros vs Hl. do 3 (destruct vs as [|? vs]; [done|]). injection Hl as Hl.
    cbn [of_fields DiskDirEntry_repr]. rewrite decide_True by done.
    eexists. split; reflexivity.
Qed.

(** The [const_assert!]s of the source. *)
Lemma size_of_DiskSuperBlock : size_of DiskSuperBlock = 64%nat.
Proof. done. Qed.
Lemma size_of_DiskInode : size_of DiskInode = Z.to_nat INODE_SIZE.
Proof. done. Qed.
Lemma size_of_DiskDirEntry : size_of DiskDirEntry = Z.to_nat DIR_ENTRY_SIZE.
Proof. done. Qed.

(** ** Values in the range of their types *)
Record sb_ok (sb : SuperBlock) : Prop := {
  sb_total : is_u64 (total_blocks sb);
  sb_ibm : is_u64 (inode_bitmap_block sb);
  sb_dbm : is_u64 (data_bitmap_block sb);
  sb_its : is_u64 (inode_table_start_block sb);
  sb_ic : is_u64 (inode_count sb);
  sb_dbs : is_u64 (data_block_start sb);
  sb_dbc : is_u64 (data_block_count sb);
  sb_magic : is_u32 (magic_number sb);
}.

Record inode_ok (i : Inode) : Prop := {
  inode_uid : is_u16 (user_id i);
  inode_gid : is_u16 (group_id i);
  inode_links : is_u16 (link_count i);
  inode_size : is_u64 (size_in_bytes i);
  inode_atime : is_u64 (last_access_time i);
  inode_mtime : is_u64 (last_modification_time i);
  inode_ctime : is_u64 (creation_time i);
  inode_dp_len : length (direct_pointers i) = 10%nat;
  inode_dp : Forall is_u64 (direct_pointers i);
  inode_ind : is_u64 (indirect_pointer i);
}.

Record dirent_ok (e : DiskDirEntry) : Prop := {
  dirent_inode : is_u64 (de_inode e);
  dirent_len : is_u16 (de_name_len e);
  dirent_flags : is_u16 (de_flags e);
  dirent_name_len : length (de_name e) = Z.to_nat DIR_NAME_MAX;
  dirent_name : Forall is_u8 (de_name e);
}.

Lemma field_fits_zip n vs m :
  (length vs ≤ m)%nat →
  Forall field_fits (zip (replicate m n) vs) ↔ Forall (fits (8 * Z.of_nat n)) vs.
Proof.
  revert m. induction vs as [|v vs IH]; intros [|m] Hm; simpl in *; try lia.
  - split; by constructor.
  - split; constructor.
  - rewrite !Forall_cons, IH by lia. done.
Qed.

Lemma DiskSuperBlock_from_ok sb : sb_ok sb → value_ok (DiskSuperBlock_from sb).
Proof.
  intros []. split; [done|]. simpl. rewrite !Forall_cons, Forall_nil.
  split_and!; try done; unfold field_fits, fits; simpl; lia.
Qed.

Lemma DiskInode_from_ok i : inode_ok i → value_ok (DiskInode_from i).
Proof.
  intros []. unfold value_ok, repr_as_bytes, widths, fields, DiskInode_repr. split.
  - autorewrite with len. cbn [di_direct_pointers DiskInode_from]. rewrite inode_dp_len0. done.
  - rewrite !zip_with_app by (cbn [di_direct_pointers DiskInode_from]; len).
    rewrite !Forall_app. split_and!.
    + simpl. rewrite !Forall_cons, Forall_nil. done.
    + apply field_fits_zip; [|done]. cbn [di_direct_pointers DiskInode_from]. lia.
    + simpl. rewrite !Forall_cons, Forall_nil. split_and!; try done.
      destruct (mode i); unfold field_fits, fits; simpl; lia.
Qed.

Lemma value_ok_dirent e : value_ok e ↔ dirent_ok e.
Proof.
  unfold value_ok, repr_as_bytes. destruct e as [i n f name]. simpl. split.
  - intros [Hl Hf]. injection Hl as Hl. inversion_clear Hf as [|?? H1 Hf1].
    inversion_clear Hf1 as [|?? H2 Hf2]. inversion_clear Hf2 as [|?? H3 Hf3].
    rewrite (field_fits_zip 1 name (Z.to_nat DIR_NAME_MAX)) in Hf3 by (by rewrite Hl). by split.
  - intros [? ? ? Hl ?]. simpl in *. split; [by rewrite Hl|]. rewrite !Forall_cons.
    split_and!; try done. apply (field_fits_zip 1 name (Z.to_nat DIR_NAME_MAX)); [|done].
    rewrite Hl. done.
Qed.

(** ** Conversions *)
Lemma FileType_roundtrip f : FileType_try_from (u16_from f) = Ok f.
Proof. by destruct f. Qed.

Lemma FileType_try_from_Ok v f : FileType_try_from v = Ok f → v = u16_from f.
Proof. unfold FileType_try_from. intros. repeat case_match; simplify_eq/=; lia. Qed.

Lemma FileType_try_from_Err v : 0 ≤ v → FileType_try_from v = Err tt ↔ 2 < v.
Proof. intros. unfold FileType_try_from. repeat case_match; split; intros; try done; lia. Qed.

Lemma Inode_try_from_from i : Inode_try_from (DiskInode_from i) = Ok i.
Proof. unfold Inode_try_from. simpl. rewrite FileType_roundtrip. by destruct i. Qed.

Lemma Inode_try_from_Ok di i : Inode_try_from di = Ok i → DiskInode_from i = di.
Proof.
  unfold Inode_try_from. destruct (FileType_try_from (di_mode di)) as [m|] eqn:Hm; [|done].
  intros [= <-]. apply FileType_try_from_Ok in Hm. destruct di; simpl in *. by subst.
Qed.

Lemma SuperBlock_try_from_from sb : SuperBlock_try_from (DiskSuperBlock_from sb) = Ok sb.
Proof. by destruct sb. Qed.

Lemma DiskInode_from_ok_inv i : value_ok (DiskInode_from i) → inode_ok i.
Proof.
  unfold value_ok, repr_as_bytes, widths, fields, DiskInode_repr. intros [Hl Hf].
  assert (length (direct_pointers i) = 10%nat) as Hdp.
  { autorewrite with len in Hl. simpl in Hl. lia. }
  rewrite !zip_with_app in Hf by (cbn [di_direct_pointers DiskInode_from]; len).
  rewrite !Forall_app, (field_fits_zip 8) in Hf by (cbn [di_direct_pointers DiskInode_from]; lia).
  simpl in Hf. rewrite !Forall_cons in Hf. destruct_and!. by split.
Qed.

(** The superblock's byte image has 64 bytes, and reading it back gives the
    same superblock. *)
Theorem superblock_roundtrip (sb : SuperBlock) (Hsb : sb_ok sb) :
  let bs := as_bytes (DiskSuperBlock_from sb) in
  length bs = 64%nat ∧ Forall is_u8 bs ∧
  ref_from_bytes bs = Some (DiskSuperBlock_from sb) ∧
  SuperBlock_try_from (DiskSuperBlock_from sb) = Ok sb.
Proof.
  apply DiskSuperBlock_from_ok in Hsb. intros bs. split_and!.
  - exact (as_bytes_length _ Hsb).
  - exact (as_bytes_u8 _ Hsb).
  - exact (ref_from_as_bytes _ Hsb).
  - apply SuperBlock_try_from_from.
Qed.

Lemma superblock_roundtrip_witness :
  let sb := mkSuperBlock 131072 1 2 3 52428 13110 117962 0xDEADBEEF in
  sb_ok sb ∧ take 4 (as_bytes (DiskSuperBlock_from sb)) = [0; 0; 2; 0] ∧
  ref_from_bytes (as_bytes (DiskSuperBlock_from sb)) = Some (DiskSuperBlock_from sb).
Proof.
  intros sb. assert (sb_ok sb) as H by (split; solve_fits).
  split_and!; [done|done|]. apply (superblock_roundtrip sb H).
Defined.

(** An inode whose fields are in range is written as 128 bytes that read
    back as the same inode; conversely any 128 bytes view as an on-disk inode,
    the conversion to [Inode] fails exactly when the mode is not 0, 1 or 2, and
    an inode it does give has those bytes as its image. *)
Theorem inode_codec (i : Inode) (bs : list Z)
    (Hi : inode_ok i) (Hu : Forall is_u8 bs) (Hl : length bs = 128%nat) :
  (length (as_bytes (DiskInode_from i)) = 128%nat ∧
   ref_from_bytes (as_bytes (DiskInode_from i)) = Some (DiskInode_from i) ∧
   Inode_try_from (DiskInode_from i) = Ok i) ∧
  (∃ di, ref_from_bytes bs = Some di ∧
     (if decide (2 < di_mode di) then Inode_try_from di = Err tt
      else ∃ j, Inode_try_from di = Ok j ∧ inode_ok j ∧ as_bytes (DiskInode_from j) = bs)).
Proof.
  split.
  - apply DiskInode_from_ok in Hi. split_and!.
    + exact (as_bytes_length _ Hi).
    + exact (ref_from_as_bytes _ Hi).
    + apply Inode_try_from_from.
  - destruct (ref_from_bytes_ok (T := DiskInode) bs Hu) as (di & Hdi & Hok & Hbs).
    { by rewrite size_of_DiskInode. }
    exists di. split; [done|].
    assert (0 ≤ di_mode di) as Hm.
    { destruct Hok as [Hl' Hf]. unfold widths, fields, DiskInode_repr in Hf, Hl'.
      autorewrite with len in Hl'. simpl in Hl'.
      rewrite !zip_with_app, !Forall_app in Hf by len. simpl in Hf. rewrite !Forall_cons in Hf.
      destruct Hf as (_ & _ & _ & [Hm _] & _). exact Hm. }
    case_decide as Hd.
    + unfold Inode_try_from. by rewrite (proj2 (FileType_try_from_Err _ Hm) Hd).
    + destruct (Inode_try_from di) as [j|[]] eqn:Hj.
      * apply Inode_try_from_Ok in Hj as Hdi'. subst di. exists j.
        split_and!; try done. by apply DiskInode_from_ok_inv.
      * unfold Inode_try_from in Hj. destruct (FileType_try_from _) eqn:Hft; [done|].
        injection Hj as ->. by apply FileType_try_from_Err in Hft.
Qed.

Lemma inode_codec_witness :
  let i := mkInode Directory 0 0 2 0 0 0 0 (13110 :: replicate 9 0) 0 in
  inode_ok i ∧ Forall is_u8 (replicate 128 0) ∧
  Inode_try_from (DiskInode_from i) = Ok i ∧
  ∃ di, ref_from_bytes (replicate 128 0) = Some di ∧ di_mode di = 0.
Proof.
  intros i. assert (inode_ok i) as Hi by (split; simpl; [solve_fits..|done|solve_fits|solve_fits]).
  assert (Forall is_u8 (replicate 128 0)) as Hz by solve_fits.
  destruct (inode_codec i (replicate 128 0) Hi Hz eq_refl) as ((_ & _ & H) & di & Hdi & _).
  split_and!; [done..|]. exists di. split; [done|]. vm_compute in Hdi. by injection Hdi as <-.
Defined.

(** * The entries of a directory block *)
Definition dirent_at (b : list Z) (i : nat) : DiskDirEntry :=
  default (mkDiskDirEntry 0 0 0 []) (ref_from_bytes (sub b (64 * i) 64)).
Definition dirents (b : list Z) : list DiskDirEntry := dirent_at b <$> seq 0 8.

Lemma length_dirents b : length (dirents b) = 8%nat.
Proof. done. Qed.

Lemma is_block_length b : is_block b → length b = 512%nat.
Proof. by intros [H _]. Qed.

Lemma zero_block_ok : is_block zero_block.
Proof. split; [done|]. unfold zero_block. solve_fits. Qed.

Lemma is_block_splice b a src :
  is_block b → Forall is_u8 src → (a + length src ≤ 512)%nat → is_block (splice b a src).
Proof.
  intros [Hl Hb] Hs Ha. split; [|auto]. rewrite length_splice; [done|].
  by rewrite Hl.
Qed.

Lemma dirent_at_ok b i :
  is_block b → (i < 8)%nat →
  ref_from_bytes (sub b (64 * i) 64) = Some (dirent_at b i) ∧ dirent_ok (dirent_at b i)
  ∧ as_bytes (dirent_at b i) = sub b (64 * i) 64.
Proof.
  intros [Hl Hb] Hi. change (Z.to_nat BLOCK_SIZE) with 512%nat in Hl. unfold dirent_at.
  destruct (ref_from_bytes_ok (T := DiskDirEntry) (sub b (64 * i) 64)) as (e & He & Hok & Hbs).
  - auto.
  - rewrite length_sub by lia. done.
  - rewrite He. simpl. by rewrite <- value_ok_dirent.
Qed.

Lemma lookup_dirents b i : (i < 8)%nat → dirents b !! i = Some (dirent_at b i).
Proof.
  intros. unfold dirents. rewrite list_lookup_fmap, lookup_seq_lt by done. done.
Qed.

Lemma dirents_Some b i e : dirents b !! i = Some e → (i < 8)%nat ∧ e = dirent_at b i.
Proof.
  intros H. pose proof (lookup_lt_Some _ _ _ H). rewrite length_dirents in *.
  rewrite lookup_dirents in H by done. by simplify_eq.
Qed.

(** Overwriting the bytes of one slot replaces one entry. *)
Lemma dirents_splice b i e :
  is_block b → dirent_ok e → (i < 8)%nat →
  dirents (splice b (64 * i) (as_bytes e)) = <[i := e]> (dirents b).
Proof.
  intros Hb He Hi. apply is_block_length in Hb as Hl. apply value_ok_dirent in He as Hv.
  pose proof (as_bytes_length e Hv) as Hlen. rewrite size_of_DiskDirEntry in Hlen.
  change (Z.to_nat DIR_ENTRY_SIZE) with 64%nat in Hlen.
  apply list_eq. intros j. destruct (decide (j < 8)%nat) as [Hj|Hj].
  - rewrite lookup_dirents by done. destruct (decide (i = j)) as [<-|Hne].
    + rewrite list_lookup_insert_eq by done. f_equal. unfold dirent_at.
      rewrite <- Hlen. rewrite sub_splice_same by lia.
      by rewrite ref_from_as_bytes.
    + rewrite list_lookup_insert_ne, lookup_dirents by done. f_equal. unfold dirent_at.
      rewrite sub_splice_other; [done|lia..].
  - rewrite !lookup_ge_None_2; [done|len|len].
Qed.

(** Running the iterator to its end, with a bound on the number of steps. *)
Fixpoint collect (fuel : nat) (it : DirEntryBlock) : outcome (option (list DiskDirEntry)) :=
  match fuel with
  | O => Ret None
  | S fuel =>
      '(o, it') ← next it;
      match o with
      | None => Ret (Some [])
      | Some e => r ← collect fuel it'; Ret (option_map (cons e) r)
      end
  end.

Lemma collect_S fuel it :
  collect (S fuel) it =
    ('(o, it') ← next it;
     match o with
     | None => Ret (Some [])
     | Some e => r ← collect fuel it'; Ret (option_map (cons e) r)
     end).
Proof. done. Qed.

Lemma next_in b i :
  is_block b → (i < 8)%nat →
  next (mkDirEntryBlock b (Z.of_nat i)) =
    Ret (Some (dirent_at b i), mkDirEntryBlock b (Z.of_nat (S i))).
Proof.
  intros Hb Hi. apply is_block_length in Hb as Hl. unfold next. cbn [deb_idx deb_block].
  change DIR_ENTRIES_PER_BLOCK with 8. change DIR_ENTRY_SIZE with 64.
  rewrite (proj2 (Z.leb_gt _ _)) by lia. unfold mul64, add64.
  rewrite checked_fits by solve_fits. cbn [mbind outcome_bind].
  rewrite checked_fits by solve_fits. cbn [mbind outcome_bind].
  rewrite slice_in by lia. cbn [mbind outcome_bind].
  replace (Z.to_nat (Z.of_nat i * 64)) with (64 * i)%nat by lia.
  replace (Z.to_nat (Z.of_nat i * 64 + 64 - Z.of_nat i * 64)) with 64%nat by lia.
  rewrite (proj1 (dirent_at_ok b i Hb Hi)). repeat f_equal. lia.
Qed.

Lemma next_end b i : 8 ≤ i → next (mkDirEntryBlock b i) = Ret (None, mkDirEntryBlock b i).
Proof.
  intros. unfold next. cbn [deb_idx deb_block]. change DIR_ENTRIES_PER_BLOCK with 8.
  by rewrite (proj2 (Z.leb_le _ _)) by lia.
Qed.

Lemma collect_from b n i :
  is_block b → (i + n = 8)%nat →
  collect (S n) (mkDirEntryBlock b (Z.of_nat i)) = Ret (Some (drop i (dirents b))).
Proof.
  intros Hb. revert i. induction n as [|n IH]; intros i Hi.
  - rewrite collect_S, next_end by lia. cbn [mbind outcome_bind].
    rewrite drop_ge; [done|]. rewrite length_dirents. lia.
  - rewrite collect_S, next_in by (done || lia). cbn [mbind outcome_bind].
    rewrite IH by lia. cbn [mbind outcome_bind option_map].
    erewrite (drop_S _ _ i); [done|]. apply lookup_dirents. lia.
Qed.

(** Iterating over a directory block terminates after its eight entries
    and yields exactly the entries whose byte images, in order, make up the
    block. *)
Theorem DirEntryBlock_iter (b : list Z) (Hb : is_block b) :
  collect 9 (DirEntryBlock_new b) = Ret (Some (dirents b)) ∧
  Forall dirent_ok (dirents b) ∧ (dirents b ≫= as_bytes) = b.
Proof.
  split_and!.
  - exact (collect_from b 8 0 Hb eq_refl).
  - apply Forall_lookup. intros i e [Hi ->]%dirents_Some. by apply dirent_at_ok.
  - assert (∀ n i, (i + n = 8)%nat →
      ((dirent_at b <$> seq i n) ≫= as_bytes) = drop (64 * i) b) as Hgen.
    { intros n. induction n as [|n IH]; intros i Hi.
      - simpl. rewrite drop_ge; [done|]. rewrite (is_block_length b Hb). lia.
      - cbn [seq fmap list_fmap]. rewrite bind_cons, IH by lia.
        destruct (dirent_at_ok b i Hb) as (_ & _ & ->); [lia|]. unfold sub.
        rewrite <- (take_drop 64 (drop (64 * i) b)) at 2. rewrite drop_drop.
        do 2 f_equal. lia. }
    exact (Hgen 8%nat 0%nat eq_refl).
Qed.

Lemma DirEntryBlock_iter_witness :
  is_block zero_block ∧
  collect 9 (DirEntryBlock_new zero_block) =
    Ret (Some (replicate 8 (mkDiskDirEntry 0 0 0 (replicate 52 0)))).
Proof.
  split; [exact zero_block_ok|].
  destruct (DirEntryBlock_iter zero_block zero_block_ok) as [-> _]. by vm_compute.
Defined.
