(* ===== verification/BlockDev.v ===== *)
(** The storage interface of src/src/fs/block_dev.rs: the [BlockDevice] trait as a
    class, what a file system may rely on as a second class of laws, the
    adapter from the virtio driver, and two devices that satisfy the laws: a
    RAM disk and a disk that starts failing. *)
From S2P Require Import Prelude Bytes Layout.
Local Open Scope Z_scope.

(** [FileSystemError] of simple_fs.rs. *)
Inductive FileSystemError :=
  | FormatFailed
  | MountFailed
  | EBlockError
  | ENoSpace
  | NameTooLong
  | CorruptLayout
  | InvalidSuperBlock.

(** [BlockError] of block_dev.rs, which no code uses. *)
Inductive BlockError := InvalidBlockId | Read | Write | InvalidDataStream.

#[global] Instance FileSystemError_eq_dec : EqDecision FileSystemError.
Proof. solve_decision. Defined.

(** [trait BlockDevice]. A read gets the caller's buffer and returns what it
    leaves in it, also when it fails. *)
Class BlockDevice (D : Type) := {
  read_blocks : D → Z → list Z → outcome (result unit FileSystemError * list Z * D);
  write_blocks : D → Z → list Z → outcome (result unit FileSystemError * D);
  capacity : D → Z;
}.

(** What a failed write of [buf] to block [id] leaves: anything in that block,
    or, where [atomic], the block as it was or as it was to be. *)
Definition torn (atomic : Prop) (id : nat) (buf : list Z) (blks blks' : list (list Z)) : Prop :=
  (∃ junk, blks' = <[id := junk]> blks) ∧ (atomic → blks' = blks ∨ blks' = <[id := buf]> blks).

(** Nothing was written. *)
Lemma torn_none A id buf blks : torn A id buf blks blks.
Proof.
  split; [|by left]. destruct (blks !! id) as [b|] eqn:Hb.
  - exists b. by rewrite list_insert_id.
  - exists []. rewrite list_insert_ge; [done|]. by apply lookup_ge_None_1.
Qed.

(** What the trait promises. [dev_wf] is the device's own invariant;
    [dev_blocks] is the contents of the medium; [dev_ok] says that the device is
    serving requests; [dev_atomic] that it writes a block as a whole or not at
    all. A request may fail at any time. *)
Class BlockDeviceLaws (D : Type) `{BlockDevice D} := {
  dev_wf : D → Prop;
  dev_blocks : D → list (list Z);
  dev_ok : D → Prop;
  dev_atomic : Prop;
  capacity_blocks d : capacity d = Z.of_nat (length (dev_blocks d));
  capacity_fits d : dev_wf d → is_u64 (capacity d);
  dev_blocks_ok d : dev_wf d → Forall is_block (dev_blocks d);
  read_blocks_spec d id buf :
    dev_wf d → 0 ≤ id → is_block buf →
    ∃ r buf' d', read_blocks d id buf = Ret (r, buf', d') ∧ dev_wf d'
      ∧ is_block buf' ∧ dev_blocks d' = dev_blocks d
      ∧ (r = Ok tt → dev_blocks d !! Z.to_nat id = Some buf')
      ∧ (dev_ok d → dev_ok d' ∧ (id < capacity d → r = Ok tt));
  write_blocks_spec d id buf :
    dev_wf d → 0 ≤ id → is_block buf →
    ∃ r d', write_blocks d id buf = Ret (r, d') ∧ dev_wf d'
      ∧ match r with
        | Ok _ => id < capacity d ∧ dev_blocks d' = <[Z.to_nat id := buf]> (dev_blocks d)
        | Err _ => torn dev_atomic (Z.to_nat id) buf (dev_blocks d) (dev_blocks d')
        end
      ∧ (dev_ok d → dev_ok d' ∧ (id < capacity d → r = Ok tt));
}.

(** * The adapter for [VirtIOBlk]

    The driver is the [virtio-drivers] crate: its three calls are parameters.
    The adapter forwards them and turns every driver error into
    [FileSystemError::BlockError]. *)
Section virtio.
Context {Blk DrvError : Type}.
Context (drv_read_blocks : Blk → Z → list Z → outcome (result unit DrvError * list Z * Blk)).
Context (drv_write_blocks : Blk → Z → list Z → outcome (result unit DrvError * Blk)).
Context (drv_capacity : Blk → Z).

Definition virtio_read_blocks (self : Blk) (start_block_id : Z) (buffer : list Z) :
    outcome (result unit FileSystemError * list Z * Blk) :=
  '(r, buffer', self') ← drv_read_blocks self start_block_id buffer;
  Ret (map_err (λ _, EBlockError) r, buffer', self').

Definition virtio_write_blocks (self : Blk) (start_block_id : Z) (buffer : list Z) :
    outcome (result unit FileSystemError * Blk) :=
  '(r, self') ← drv_write_blocks self start_block_id buffer;
  Ret (map_err (λ _, EBlockError) r, self').

Definition virtio_capacity (self : Blk) : Z := drv_capacity self.

Definition virtio_block_device : BlockDevice Blk := {|
  read_blocks := virtio_read_blocks;
  write_blocks := virtio_write_blocks;
  capacity := virtio_capacity;
|}.

(** What the driver's documentation says of its calls, in terms of the medium
    [drv_blocks] behind it; the adapter then satisfies the laws. *)
Context (drv_wf : Blk → Prop) (drv_blocks : Blk → list (list Z)) (drv_ok : Blk → Prop).
Context (drv_atomic : Prop).
Hypothesis drv_capacity_blocks : ∀ d, drv_capacity d = Z.of_nat (length (drv_blocks d)).
Hypothesis drv_capacity_fits : ∀ d, drv_wf d → is_u64 (drv_capacity d).
Hypothesis drv_blocks_ok : ∀ d, drv_wf d → Forall is_block (drv_blocks d).
Hypothesis drv_read_law : ∀ d id buf,
  drv_wf d → 0 ≤ id → is_block buf →
  ∃ r buf' d', drv_read_blocks d id buf = Ret (r, buf', d') ∧ drv_wf d'
    ∧ is_block buf' ∧ drv_blocks d' = drv_blocks d
    ∧ (r = Ok tt → drv_blocks d !! Z.to_nat id = Some buf')
    ∧ (drv_ok d → drv_ok d' ∧ (id < drv_capacity d → r = Ok tt)).
Hypothesis drv_write_law : ∀ d id buf,
  drv_wf d → 0 ≤ id → is_block buf →
  ∃ r d', drv_write_blocks d id buf = Ret (r, d') ∧ drv_wf d'
    ∧ match r with
      | Ok _ => id < drv_capacity d ∧ drv_blocks d' = <[Z.to_nat id := buf]> (drv_blocks d)
      | Err _ => torn drv_atomic (Z.to_nat id) buf (drv_blocks d) (drv_blocks d')
      end
    ∧ (drv_ok d → drv_ok d' ∧ (id < drv_capacity d → r = Ok tt)).

#[program] Definition virtio_laws : @BlockDeviceLaws Blk virtio_block_device := {|
  dev_wf := drv_wf;
  dev_blocks := drv_blocks;
  dev_ok := drv_ok;
  dev_atomic := drv_atomic;
|}.
Next Obligation. exact drv_capacity_blocks. Qed.
Next Obligation. exact drv_capacity_fits. Qed.
Next Obligation. exact drv_blocks_ok. Qed.
Next Obligation.
  intros d id buf Hwf Hid Hbuf.
  destruct (drv_read_law d id buf Hwf Hid Hbuf) as (r & buf' & d' & Hr & Hwf' & Hb & Hd & Hok & Hs).
  exists (map_err (λ _, EBlockError) r), buf', d'. cbn [read_blocks virtio_block_device].
  unfold virtio_read_blocks. rewrite Hr. split; [done|]. split_and!; try done.
  - intros Hm. apply Hok. by destruct r as [[]|].
  - intros Ho. destruct (Hs Ho) as [? Hs']. split; [done|]. intros Hlt. by rewrite Hs'.
Qed.
Next Obligation.
  intros d id buf Hwf Hid Hbuf.
  destruct (drv_write_law d id buf Hwf Hid Hbuf) as (r & d' & Hr & Hwf' & Hd & Hs).
  exists (map_err (λ _, EBlockError) r), d'. cbn [write_blocks virtio_block_device].
  unfold virtio_write_blocks. rewrite Hr. split; [done|]. split_and!; try done.
  - by destruct r.
  - intros Ho. destruct (Hs Ho) as [? Hs']. split; [done|]. intros Hlt. by rewrite Hs'.
Qed.
End virtio.

(** * A RAM disk and a failing disk

    [ram_fuel] is the number of requests the disk still serves; [None] stands for
    a disk that never fails. *)
Record RamDisk := mkRamDisk {
  ram_blocks : list (list Z);
  ram_fuel : option nat;
}.

Definition ram_serve (d : RamDisk) : option RamDisk :=
  match ram_fuel d with
  | None => Some d
  | Some O => None
  | Some (S n) => Some (mkRamDisk (ram_blocks d) (Some n))
  end.

#[global] Instance RamDisk_device : BlockDevice RamDisk := {
  read_blocks d id buf :=
    match ram_serve d, ram_blocks d !! Z.to_nat id with
    | Some d', Some b => Ret (Ok tt, b, d')
    | _, _ => Ret (Err EBlockError, buf, d)
    end;
  write_blocks d id buf :=
    match ram_serve d, ram_blocks d !! Z.to_nat id with
    | Some d', Some _ =>
        Ret (Ok tt, mkRamDisk (<[Z.to_nat id := buf]> (ram_blocks d')) (ram_fuel d'))
    | _, _ => Ret (Err EBlockError, d)
    end;
  capacity d := Z.of_nat (length (ram_blocks d));
}.

(** A well-formed RAM disk: whole blocks, and a number of them that fits. *)
Definition ram_wf (d : RamDisk) : Prop :=
  Forall is_block (ram_blocks d) ∧ is_u64 (Z.of_nat (length (ram_blocks d))).

Lemma ram_serve_blocks d d' : ram_serve d = Some d' → ram_blocks d' = ram_blocks d.
Proof. unfold ram_serve. repeat case_match; naive_solver. Qed.

Lemma ram_serve_ok d : ram_fuel d = None → ram_serve d = Some d.
Proof. unfold ram_serve. by intros ->. Qed.

#[global, program] Instance RamDisk_laws : BlockDeviceLaws RamDisk := {
  dev_wf := ram_wf;
  dev_blocks := ram_blocks;
  dev_ok d := ram_fuel d = None;
  dev_atomic := True;
}.
Next Obligation. done. Qed.
Next Obligation. by intros d []. Qed.
Next Obligation. by intros d []. Qed.
Next Obligation.
  intros d id buf [Hb Hl] Hid Hbuf. simpl.
  assert (ram_fuel d = None → id < Z.of_nat (length (ram_blocks d)) →
    is_Some (ram_blocks d !! Z.to_nat id)) as Hin.
  { intros _ ?. apply lookup_lt_is_Some_2. lia. }
  destruct (ram_serve d) as [d'|] eqn:Hs, (ram_blocks d !! Z.to_nat id) as [b|] eqn:Hlk.
  - exists (Ok tt), b, d'. pose proof (ram_serve_blocks _ _ Hs) as Hd'.
    split_and!; [done|unfold ram_wf; by rewrite Hd'| |by rewrite Hd'|done|].
    + rewrite Forall_lookup in Hb. by eapply Hb.
    + intros Hf. rewrite ram_serve_ok in Hs by done. by simplify_eq.
  - eexists _, buf, d. split_and!; try done. intros Hf. split; [done|].
    intros ?. destruct (Hin Hf) as [? ?]; [done|]. congruence.
  - eexists _, buf, d. split_and!; try done. intros Hf. by rewrite ram_serve_ok in Hs.
  - eexists _, buf, d. split_and!; try done. intros Hf. by rewrite ram_serve_ok in Hs.
Qed.
Next Obligation.
  intros d id buf [Hb Hl] Hid Hbuf. simpl.
  assert (ram_fuel d = None → id < Z.of_nat (length (ram_blocks d)) →
    is_Some (ram_blocks d !! Z.to_nat id)) as Hin.
  { intros _ ?. apply lookup_lt_is_Some_2. lia. }
  pose proof (torn_none True (Z.to_nat id) buf (ram_blocks d)) as Hsame.
  destruct (ram_serve d) as [d'|] eqn:Hs, (ram_blocks d !! Z.to_nat id) as [b|] eqn:Hlk.
  - eexists (Ok tt), _. pose proof (ram_serve_blocks _ _ Hs) as Hd'.
    split; [done|]. rewrite Hd'. unfold ram_wf; simpl. rewrite length_insert.
    split_and!; try done.
    + by apply Forall_insert.
    + apply lookup_lt_Some in Hlk. lia.
    + intros Hf. rewrite ram_serve_ok in Hs by done. by simplify_eq.
  - eexists (Err _), d. split_and!; try done. intros Hf. split; [done|].
    intros ?. destruct (Hin Hf) as [? ?]; [done|]. congruence.
  - eexists (Err _), d. split_and!; try done. intros Hf. by rewrite ram_serve_ok in Hs.
  - eexists (Err _), d. split_and!; try done. intros Hf. by rewrite ram_serve_ok in Hs.
Qed.
