(* ===== verification/SimpleFs.v ===== *)
(** The simple file system of src/src/fs/simple_fs.rs: every method of [SFS] and of its
    [FileSystem] implementation, as programs over the state of the mounted file
    system. Console output ([println!]) is left out. *)
From S2P Require Import Prelude Bytes Bitmap Layout BlockDev.
Local Open Scope Z_scope.
Local Open Scope rust_scope.

Definition MAGIC_NUMBER : Z := 0xDEADBEEF.
Definition ROOT_DIRECTORY_INODE : Z := 0.

Record FileHandler := mkFileHandler { fh_inode : Z }.

Inductive FileError :=
  | BlockReadError
  | DirectoryFull
  | BlockWriteError
  | FileNotFound
  | FileExists
  | CreationFailed
  | NoSpace
  | InvalidHandle
  | InvalidName
  | Corrupt.

(** The file-system error seen by the callers of [create_file]. *)
Definition create_file_error (e : FileSystemError) : FileError :=
  match e with
  | NameTooLong => InvalidName
  | ENoSpace => NoSpace
  | CorruptLayout => Corrupt
  | _ => CreationFailed
  end.

(** * Directory blocks: pure helpers *)

(** [write_dirent_into_block]: the block buffer is an in/out parameter. *)
Definition write_dirent_into_block (block : list Z) (slot inode : Z) (name : list Z) :
    outcome (result unit FileSystemError * list Z) :=
  if DIR_NAME_MAX <? Z.of_nat (length name) then Ret (Err NameTooLong, block)
  else
    start ← slot *! DIR_ENTRY_SIZE;
    stop ← start +! DIR_ENTRY_SIZE;
    entry_name ← copy_from_slice (replicate (Z.to_nat DIR_NAME_MAX) 8)
                   0 (Z.of_nat (length name)) name;
    let entry := {|
      de_inode := inode;
      de_name_len := as_u16 (Z.of_nat (length name));
      de_flags := DIRENT_USED;
      de_name := entry_name;
    |} in
    entry_bytes ← copy_from_slice (replicate (Z.to_nat DIR_ENTRY_SIZE) 0)
                    0 DIR_ENTRY_SIZE (as_bytes entry);
    block' ← copy_from_slice block start stop entry_bytes;
    Ret (Ok tt, block').

Definition is_used (e : DiskDirEntry) : bool := negb (Z.land (de_flags e) DIRENT_USED =? 0).

(** The loop of [find_free_dir_slot] over the slots that are left. *)
Fixpoint free_slot_loop (block : list Z) (slots : list Z) : outcome (option Z) :=
  match slots with
  | [] => Ret None
  | i :: slots =>
      start ← i *! DIR_ENTRY_SIZE;
      stop ← start +! DIR_ENTRY_SIZE;
      bytes ← slice block start stop;
      match ref_from_bytes bytes with
      | Some entry =>
          if negb (is_used entry) || (de_inode entry =? 0) then Ret (Some i)
          else free_slot_loop block slots
      | None => free_slot_loop block slots
      end
  end.

Definition find_free_dir_slot (block : list Z) : outcome (option Z) :=
  free_slot_loop block (seqZ 0 DIR_ENTRIES_PER_BLOCK).

(** The loop of [create_file_in_root] over [entries.enumerate()]: the collision
    check and the search for the first unused slot. [fuel] bounds the number of
    calls of [next]; nine are enough for a block's eight entries. *)
Fixpoint scan_dir (fuel : nat) (entries : DirEntryBlock) (i : Z) (name : list Z)
    (empty_slot_index : option Z) : outcome (result (option Z) FileSystemError) :=
  match fuel with
  | O => Ret (Ok empty_slot_index)
  | S fuel =>
      '(o, entries') ← next entries;
      match o with
      | None => Ret (Ok empty_slot_index)
      | Some entry =>
          if is_used entry then
            let entry_name_len := de_name_len entry in
            entry_name ← slice (de_name entry) 0 entry_name_len;
            if bool_decide (entry_name = name) then Ret (Err CorruptLayout)
            else scan_dir fuel entries' (i + 1) name empty_slot_index
          else
            scan_dir fuel entries' (i + 1) name
              (match empty_slot_index with None => Some i | s => s end)
      end
  end.

Definition new_file_inode : Inode := {|
  mode := File; user_id := 0; group_id := 0; link_count := 1;
  size_in_bytes := 0; last_access_time := 0; last_modification_time := 0;
  creation_time := 0; direct_pointers := replicate 10 0; indirect_pointer := 0;
|}.

Definition root_inode (data_block : Z) : Inode := {|
  mode := Directory; user_id := 0; group_id := 0; link_count := 2;
  size_in_bytes := 0; last_access_time := 0; last_modification_time := 0;
  creation_time := 0;
  direct_pointers := <[O := data_block]> (replicate 10 0); indirect_pointer := 0;
|}.

(** * The mounted file system *)
Record SFS (D : Type) := mkSFS {
  device : D;
  superblock : SuperBlock;
}.
Arguments mkSFS {D} _ _.
Arguments device {D} _.
Arguments superblock {D} _.

Section sfs.
Context `{BlockDevice D}.

(** Programs that only hold the device. *)
Abbreviation dprog := (prog D FileSystemError).
(** Methods of [SFS]. *)
Abbreviation fprog := (prog (SFS D) FileSystemError).

(** [device.write_blocks(id, &buf).map_err(..)?]. *)
Definition dev_write (id : Z) (buf : list Z) : dprog unit := λ d,
  '(r, d') ← write_blocks d id buf;
  Ret (map_err (λ _, EBlockError) r, d').

(** [let mut buffer = [0u8; BLOCK_SIZE]; device.read_blocks(id, &mut buffer)]:
    the result of the call and the buffer after it. *)
Definition dev_read_raw (id : Z) : dprog (result unit FileSystemError * list Z) := λ d,
  '(r, buf, d') ← read_blocks d id zero_block;
  Ret (Ok (r, buf), d').

(** The same followed by [.map_err(..)?]. *)
Definition dev_read (id : Z) : dprog (list Z) :=
  '(r, buf) ← dev_read_raw id;
  _ ← try (map_err (λ _, EBlockError) r);
  mret buf.

(** A device program run on [self.device]. *)
Definition on_device {A} (m : dprog A) : fprog A := λ s,
  '(r, d') ← m (device s);
  Ret (r, mkSFS d' (superblock s)).

Definition format : dprog (SFS D) :=
  capacity ← gets capacity;
  let inode_table_blocks := capacity / 10 in
  inode_count ← lift (inode_table_blocks *! INODES_PER_BLOCK);
  data_block_start ← lift (INODE_TABLE_START_BLOCK +! inode_table_blocks);
  data_block_count ← lift (capacity -! data_block_start);
  let sb := {|
    magic_number := MAGIC_NUMBER;
    total_blocks := capacity;
    inode_bitmap_block := INODE_BITMAP_BLOCK;
    data_bitmap_block := DATA_BITMAP_BLOCK;
    inode_table_start_block := INODE_TABLE_START_BLOCK;
    inode_count := inode_count;
    data_block_start := data_block_start;
    data_block_count := data_block_count;
  |} in
  let dsb := DiskSuperBlock_from sb in
  superblock_buffer ← lift (copy_from_slice zero_block
                              0 (Z.of_nat (size_of DiskSuperBlock)) (as_bytes dsb));
  _ ← dev_write SUPERBLOCK_BLOCK superblock_buffer;
  let empty_bitmap_block := zero_block in
  _ ← dev_write INODE_BITMAP_BLOCK empty_bitmap_block;
  _ ← dev_write DATA_BITMAP_BLOCK empty_bitmap_block;
  device ← gets id;
  mret (mkSFS device sb).

(** The result of [read_blocks] is dropped: the source has no [?] here. *)
Definition mount : dprog (SFS D) :=
  '(_, buffer) ← dev_read_raw SUPERBLOCK_BLOCK;
  let size := Z.of_nat (size_of DiskSuperBlock) in
  bytes ← lift (slice buffer 0 size);
  disk_superblock ← try (ok_or (ref_from_bytes bytes) InvalidSuperBlock);
  superblock ← try (map_err (λ _, InvalidSuperBlock) (SuperBlock_try_from disk_superblock));
  if negb (magic_number superblock =? MAGIC_NUMBER) then throw InvalidSuperBlock
  else
    device ← gets id;
    mret (mkSFS device superblock).

Definition allocate_inode : fprog Z :=
  bitmap_buffer ← on_device (dev_read INODE_BITMAP_BLOCK);
  '(o, bitmap_buffer') ← lift (find_and_set_first_free bitmap_buffer);
  free_inode_index ← try (ok_or o ENoSpace);
  sb ← gets superblock;
  _ ← on_device (dev_write (inode_bitmap_block sb) bitmap_buffer');
  mret free_inode_index.

Definition allocate_data_block : fprog Z :=
  bm_buffer ← on_device (dev_read DATA_BITMAP_BLOCK);
  '(o, bm_buffer') ← lift (find_and_set_first_free bm_buffer);
  free_idx ← try (ok_or o ENoSpace);
  _ ← on_device (dev_write DATA_BITMAP_BLOCK bm_buffer');
  sb ← gets superblock;
  abs_block ← lift (data_block_start sb +! free_idx);
  mret abs_block.

Definition read_inode (inode_index : Z) : fprog Inode :=
  sb ← gets superblock;
  block_num ← lift (inode_table_start_block sb +! inode_index / INODES_PER_BLOCK);
  offset_in_block ← lift (inode_index mod INODES_PER_BLOCK *! INODE_SIZE);
  buffer ← on_device (dev_read block_num);
  let size := Z.of_nat (size_of DiskInode) in
  stop ← lift (offset_in_block +! size);
  bytes ← lift (slice buffer offset_in_block stop);
  disk_inode ← try (ok_or (ref_from_bytes bytes) EBlockError);
  inode ← try (map_err (λ _, EBlockError) (Inode_try_from disk_inode));
  mret inode.

Definition write_inode (inode : Inode) (inode_idx : Z) : fprog unit :=
  sb ← gets superblock;
  block_num ← lift (inode_table_start_block sb +! inode_idx / INODES_PER_BLOCK);
  offset_in_block ← lift (inode_idx mod INODES_PER_BLOCK *! INODE_SIZE);
  buffer ← on_device (dev_read block_num);
  let disk_inode := DiskInode_from inode in
  let size := Z.of_nat (size_of DiskInode) in
  stop ← lift (offset_in_block +! size);
  buffer' ← lift (copy_from_slice buffer offset_in_block stop (as_bytes disk_inode));
  _ ← on_device (dev_write block_num buffer');
  mret tt.

Definition init_root_directory : fprog unit :=
  ibuf ← on_device (dev_read INODE_BITMAP_BLOCK);
  already ← lift (is_set ibuf 0);
  ibuf' ← (if negb already then '(_, b) ← lift (set ibuf 0); mret b else mret ibuf);
  _ ← on_device (dev_write INODE_BITMAP_BLOCK ibuf');
  data_block ← allocate_data_block;
  let root := root_inode data_block in
  _ ← write_inode root 0;
  let dir_block := zero_block in
  '(r, dir_block) ← lift (write_dirent_into_block dir_block 0 0 (str_of "."));
  _ ← try r;
  '(r, dir_block) ← lift (write_dirent_into_block dir_block 1 0 (str_of ".."));
  _ ← try r;
  _ ← on_device (dev_write data_block dir_block);
  mret tt.

Definition add_root_dir_entry (inode : Z) (name : list Z) : fprog unit :=
  if DIR_NAME_MAX <? Z.of_nat (length name) then throw NameTooLong
  else
    root ← read_inode 0;
    block ← lift (index (direct_pointers root) 0);
    if block =? 0 then throw CorruptLayout
    else
      dir_block ← on_device (dev_read block);
      o ← lift (find_free_dir_slot dir_block);
      slot ← try (ok_or o ENoSpace);
      '(r, dir_block') ← lift (write_dirent_into_block dir_block slot inode name);
      _ ← try r;
      _ ← on_device (dev_write block dir_block');
      mret tt.

Definition create_file_in_root (name : list Z) : fprog (Z * Z) :=
  if (DIR_NAME_MAX <? Z.of_nat (length name)) || bool_decide (name = [])
  then throw NameTooLong
  else
    root_dir_inode ← read_inode ROOT_DIRECTORY_INODE;
    if negb (bool_decide (mode root_dir_inode = Directory)) then throw CorruptLayout
    else
      dir_block ← lift (index (direct_pointers root_dir_inode) 0);
      if dir_block =? 0 then throw CorruptLayout
      else
        dir_block_buf ← on_device (dev_read dir_block);
        r ← lift (scan_dir 9 (DirEntryBlock_new dir_block_buf) 0 name None);
        empty_slot_index ← try r;
        slot_index ← try (ok_or empty_slot_index ENoSpace);
        inode_index ← allocate_inode;
        let new_inode := new_file_inode in
        _ ← write_inode new_inode inode_index;
        '(r, dir_block_buf') ←
          lift (write_dirent_into_block dir_block_buf slot_index inode_index name);
        _ ← try r;
        _ ← on_device (dev_write dir_block dir_block_buf');
        mret (inode_index, dir_block).

(** * [impl FileSystem for SFS] *)
Definition create_file (name : list Z) : prog (SFS D) FileError FileHandler :=
  '(inode_index, _) ← map_err_prog create_file_error (create_file_in_root name);
  mret (mkFileHandler inode_index).

Definition delete_file (name : list Z) : prog (SFS D) FileError unit :=
  λ _, Panic PTodo.

Definition open_file (name : list Z) : prog (SFS D) FileError FileHandler :=
  λ _, Panic PTodo.

Definition list_file : prog (SFS D) FileError (list (list Z)) :=
  λ _, Panic PTodo.
End sfs.

(** [trait FileSystem], and its implementation by every [SFS] over a block device. *)
Class FileSystem (F : Type) := {
  fs_create_file : list Z → prog F FileError FileHandler;
  fs_delete_file : list Z → prog F FileError unit;
  fs_open_file : list Z → prog F FileError FileHandler;
  fs_list_file : prog F FileError (list (list Z));
}.

#[global] Instance SFS_FileSystem `{BlockDevice D} : FileSystem (SFS D) := {
  fs_create_file := create_file;
  fs_delete_file := delete_file;
  fs_open_file := open_file;
  fs_list_file := list_file;
}.

#[global] Arguments scan_dir : simpl never.
#[global] Arguments write_dirent_into_block : simpl never.
#[global] Arguments find_free_dir_slot : simpl never.
#[global] Arguments DirEntryBlock_new : simpl never.
#[global] Arguments find_and_set_first_free : simpl never.
#[global] Arguments is_set : simpl never.
#[global] Arguments set : simpl never.
