(* ===== verification/SimpleFsSpec.v ===== *)
(** Specifications of the file-system operations of SimpleFs.v against the
    contents of the medium, for every device that obeys the laws of
    BlockDev.v: what each operation returns and what it leaves on the disk, on
    success, on each error, and when the device fails under it. *)
From S2P Require Import Prelude Bytes Bitmap Layout BlockDev SimpleFs.
Local Open Scope Z_scope.
Local Open Scope rust_scope.

(** * The inode table on the medium *)

(** Block and byte offset of inode [idx] in a table that starts at block [its]. *)
Definition inode_blk (its idx : Z) : nat := Z.to_nat (its + idx / 4).
Definition inode_off (idx : Z) : nat := Z.to_nat (idx mod 4 * 128).

Definition inode_in (b : list Z) (off : nat) : option Inode :=
  di ← (ref_from_bytes (sub b off 128) : option DiskInode);
  match Inode_try_from di with Ok i => Some i | Err _ => None end.

(** The inode number [idx] as stored. *)
Definition inode_at (blks : list (list Z)) (its idx : Z) : option Inode :=
  b ← blks !! inode_blk its idx; inode_in b (inode_off idx).

(** The medium after inode [idx] is overwritten. *)
Definition put_inode (blks : list (list Z)) (its idx : Z) (i : Inode) : list (list Z) :=
  match blks !! inode_blk its idx with
  | Some b => <[inode_blk its idx := splice b (inode_off idx) (as_bytes (DiskInode_from i))]> blks
  | None => blks
  end.

Lemma length_inode_bytes i : inode_ok i → length (as_bytes (DiskInode_from i)) = 128%nat.
Proof.
  intros Hi. apply DiskInode_from_ok in Hi. rewrite as_bytes_length by done. done.
Qed.

Lemma inode_bytes_u8 i : inode_ok i → Forall is_u8 (as_bytes (DiskInode_from i)).
Proof. intros Hi. by apply as_bytes_u8, DiskInode_from_ok. Qed.

Lemma inode_off_bound idx : (inode_off idx + 128 ≤ 512)%nat.
Proof. unfold inode_off. pose proof (Z.mod_pos_bound idx 4). lia. Qed.

Lemma is_block_put b i idx :
  is_block b → inode_ok i → is_block (splice b (inode_off idx) (as_bytes (DiskInode_from i))).
Proof.
  intros Hb Hi. apply is_block_splice; [done|by apply inode_bytes_u8|].
  rewrite length_inode_bytes by done. apply inode_off_bound.
Qed.

Lemma length_put_inode blks its idx i : length (put_inode blks its idx i) = length blks.
Proof. unfold put_inode. case_match; len. Qed.

Lemma lookup_put_inode_ne blks its idx i k :
  k ≠ inode_blk its idx → put_inode blks its idx i !! k = blks !! k.
Proof. intros. unfold put_inode. case_match; [|done]. by rewrite list_lookup_insert_ne. Qed.

Lemma inode_at_put_same blks its idx i :
  Forall is_block blks → inode_ok i → (inode_blk its idx < length blks)%nat →
  inode_at (put_inode blks its idx i) its idx = Some i.
Proof.
  intros Hblks Hi Hlt. unfold inode_at, put_inode.
  destruct (lookup_lt_is_Some_2 blks _ Hlt) as [b Hb]. rewrite Hb.
  rewrite list_lookup_insert_eq by done. simpl. unfold inode_in.
  rewrite Forall_lookup in Hblks. pose proof (is_block_length b (Hblks _ _ Hb)).
  pose proof (inode_off_bound idx).
  rewrite <- (length_inode_bytes i Hi). rewrite sub_splice_same.
  2: { rewrite length_inode_bytes by done. lia. }
  rewrite ref_from_as_bytes by (by apply DiskInode_from_ok). simpl.
  by rewrite Inode_try_from_from.
Qed.

Lemma inode_at_put_other blks its idx j i :
  Forall is_block blks → inode_ok i → 0 ≤ its → 0 ≤ idx → 0 ≤ j → idx ≠ j →
  inode_at (put_inode blks its idx i) its j = inode_at blks its j.
Proof.
  intros Hblks Hi Hits Hidx Hj Hne. unfold inode_at.
  destruct (decide (inode_blk its j = inode_blk its idx)) as [Heq|Hd].
  2: { by rewrite lookup_put_inode_ne. }
  rewrite Heq. unfold put_inode. destruct (blks !! inode_blk its idx) as [b|] eqn:Hb.
  2: { by rewrite Hb. }
  rewrite list_lookup_insert_eq by (by eapply lookup_lt_Some). simpl.
  unfold inode_in. rewrite Forall_lookup in Hblks.
  pose proof (is_block_length b (Hblks _ _ Hb)). pose proof (inode_off_bound idx).
  rewrite sub_splice_other; rewrite ?length_inode_bytes by done; [done|lia|].
  assert (idx mod 4 ≠ j mod 4).
  { unfold inode_blk in Heq. intros ?. apply Hne.
    rewrite (Z.div_mod idx 4), (Z.div_mod j 4) by lia. 
    pose proof (Z.div_pos idx 4). pose proof (Z.div_pos j 4). lia. }
  unfold inode_off. pose proof (Z.mod_pos_bound idx 4). pose proof (Z.mod_pos_bound j 4). lia.
Qed.

(** * The root directory block as eight slots *)

(** The name an entry shows, and a slot: unused, or a name with its inode. *)
Definition entry_name (e : DiskDirEntry) : list Z := take (Z.to_nat (de_name_len e)) (de_name e).
Definition slot_of (e : DiskDirEntry) : option (list Z * Z) :=
  if is_used e then Some (entry_name e, de_inode e) else None.
Definition slots (b : list Z) : list (option (list Z * Z)) := slot_of <$> dirents b.

Definition names (sl : list (option (list Z * Z))) : list (list Z) := (omap id sl).*1.
Definition first_none (sl : list (option (list Z * Z))) : option nat :=
  fst <$> list_find (λ o, o = None) sl.

(** A used entry shows at most the 52 bytes it has; otherwise the slice
    [&entry.name[..entry_name_len]] panics. *)
Definition name_len_ok (e : DiskDirEntry) : Prop :=
  is_used e = true → de_name_len e ≤ DIR_NAME_MAX.

(** The entry [write_dirent_into_block] stores: the rest of the name field
    keeps the byte 8 it is initialised with. *)
Definition new_entry (inode : Z) (name : list Z) : DiskDirEntry := {|
  de_inode := inode;
  de_name_len := Z.of_nat (length name);
  de_flags := DIRENT_USED;
  de_name := name ++ replicate (52 - length name) 8;
|}.

Lemma new_entry_ok inode name :
  is_u64 inode → Forall is_u8 name → (length name ≤ 52)%nat → dirent_ok (new_entry inode name).
Proof.
  intros Hi Hn Hl. split; simpl; try done; try solve_fits.
  - rewrite length_app, length_replicate. change (Z.to_nat DIR_NAME_MAX) with 52%nat. lia.
  - apply Forall_app. split; [done|]. solve_fits.
Qed.

Lemma slot_of_new_entry inode name :
  slot_of (new_entry inode name) = Some (name, inode).
Proof.
  unfold slot_of. change (is_used (new_entry inode name)) with true. unfold entry_name. simpl.
  by rewrite Nat2Z.id, take_app_length.
Qed.

Lemma write_dirent_spec b slot inode name :
  is_block b → is_u64 inode → Forall is_u8 name → (length name ≤ 52)%nat → (slot < 8)%nat →
  ∃ b', write_dirent_into_block b (Z.of_nat slot) inode name = Ret (Ok tt, b')
      ∧ is_block b' ∧ dirents b' = <[slot := new_entry inode name]> (dirents b).
Proof.
  intros Hb Hi Hn Hl Hs. pose proof (is_block_length b Hb) as Hbl.
  pose proof (new_entry_ok inode name Hi Hn Hl) as Hok. apply value_ok_dirent in Hok as Hv.
  pose proof (as_bytes_length _ Hv) as Hlen. rewrite size_of_DiskDirEntry in Hlen.
  change (Z.to_nat DIR_ENTRY_SIZE) with 64%nat in Hlen.
  unfold write_dirent_into_block. change DIR_NAME_MAX with 52. change DIR_ENTRY_SIZE with 64.
  rewrite (proj2 (Z.ltb_ge _ _)) by lia. unfold mul64, add64.
  rewrite checked_fits by solve_fits. cbn [mbind outcome_bind].
  rewrite checked_fits by solve_fits. cbn [mbind outcome_bind].
  rewrite copy_from_slice_in by len. cbn [mbind outcome_bind].
  replace (splice (replicate (Z.to_nat 52) 8) (Z.to_nat 0) name)
    with (de_name (new_entry inode name)).
  2: { change (Z.to_nat 0) with O. by rewrite splice_0, drop_replicate. }
  replace (as_u16 (Z.of_nat (length name))) with (Z.of_nat (length name)).
  2: { unfold as_u16. rewrite Z.mod_small; [done|]. lia. }
  change (mkDiskDirEntry inode (Z.of_nat (length name)) DIRENT_USED
            (de_name (new_entry inode name))) with (new_entry inode name).
  rewrite copy_from_slice_in; [|lia|by rewrite length_replicate|by rewrite Hlen].
  cbn [mbind outcome_bind].
  replace (splice (replicate (Z.to_nat 64) 0) (Z.to_nat 0) (as_bytes (new_entry inode name)))
    with (as_bytes (new_entry inode name)).
  2: { change (Z.to_nat 0) with O. by rewrite splice_all by (by rewrite length_replicate). }
  rewrite copy_from_slice_in; [|lia|lia|rewrite Hlen; lia]. cbn [mbind outcome_bind].
  replace (Z.to_nat (Z.of_nat slot * 64)) with (64 * slot)%nat by lia.
  eexists. split; [done|]. split; [|by apply dirents_splice].
  apply is_block_splice; [done|by apply as_bytes_u8|lia].
Qed.

Lemma length_slots b : length (slots b) = 8%nat.
Proof. done. Qed.

Lemma lookup_slots b i : (i < 8)%nat → slots b !! i = Some (slot_of (dirent_at b i)).
Proof. intros. unfold slots. by rewrite list_lookup_fmap, lookup_dirents. Qed.

Lemma names_cons o sl :
  names (o :: sl) = match o with Some (nm, _) => nm :: names sl | None => names sl end.
Proof. unfold names. simpl. by destruct o as [[]|]. Qed.

Lemma elem_of_names nm sl : nm ∈ names sl ↔ ∃ i ino, sl !! i = Some (Some (nm, ino)).
Proof.
  unfold names. rewrite list_elem_of_fmap. split.
  - intros ([nm' ino] & -> & Hin). apply list_elem_of_omap in Hin as (o & Ho & Heq).
    simpl in Heq. subst o. apply list_elem_of_lookup in Ho as [i Hi]. by exists i, ino.
  - intros (i & ino & Hi). exists (nm, ino). split; [done|]. apply list_elem_of_omap.
    exists (Some (nm, ino)). split; [|done]. apply list_elem_of_lookup. by exists i.
Qed.

Lemma first_none_cons o sl :
  first_none (o :: sl) = match o with None => Some O | Some _ => S <$> first_none sl end.
Proof.
  unfold first_none. simpl. destruct o; [|done].
  rewrite decide_False by done. by destruct (list_find _ sl) as [[]|].
Qed.

Lemma first_none_Some sl i : first_none sl = Some i → sl !! i = Some None.
Proof.
  unfold first_none. rewrite fmap_Some. by intros ([j o] & (? & -> & _)%list_find_Some & ->).
Qed.

(** What the directory scan of [create_file_in_root] computes from the slots. *)
Definition scan_result (name : list Z) (sl : list (option (list Z * Z))) (i : Z)
    (acc : option Z) : result (option Z) FileSystemError :=
  if decide (name ∈ names sl) then Err CorruptLayout
  else Ok (match acc with Some k => Some k
           | None => (λ k, i + Z.of_nat k) <$> first_none sl end).

Lemma scan_dir_S fuel entries i name acc :
  scan_dir (S fuel) entries i name acc =
    ('(o, entries') ← next entries;
     match o with
     | None => Ret (Ok acc)
     | Some entry =>
         if is_used entry then
           entry_name ← slice (de_name entry) 0 (de_name_len entry);
           if bool_decide (entry_name = name) then Ret (Err CorruptLayout)
           else scan_dir fuel entries' (i + 1) name acc
         else
           scan_dir fuel entries' (i + 1) name (match acc with None => Some i | s => s end)
     end).
Proof. done. Qed.

Lemma slice_entry_name e :
  dirent_ok e → de_name_len e ≤ DIR_NAME_MAX →
  slice (de_name e) 0 (de_name_len e) = Ret (entry_name e).
Proof.
  intros [? [Hl0 _] ? Hl _] Hm. rewrite slice_in.
  - unfold sub, entry_name. by rewrite drop_0, Z.sub_0_r.
  - lia.
  - rewrite Hl. change (Z.of_nat (Z.to_nat DIR_NAME_MAX)) with DIR_NAME_MAX. done.
Qed.

Lemma scan_dir_from b name n i acc :
  is_block b → Forall name_len_ok (dirents b) → (i + n = 8)%nat →
  scan_dir (S n) (mkDirEntryBlock b (Z.of_nat i)) (Z.of_nat i) name acc =
    Ret (scan_result name (drop i (slots b)) (Z.of_nat i) acc).
Proof.
  intros Hb Hok. revert i acc. induction n as [|n IH]; intros i acc Hi; rewrite scan_dir_S.
  - rewrite next_end by lia. cbn [mbind outcome_bind].
    rewrite drop_ge by (rewrite length_slots; lia). by destruct acc.
  - assert (i < 8)%nat as Hi8 by lia.
    rewrite next_in by done. cbn [mbind outcome_bind].
    replace (Z.of_nat i + 1) with (Z.of_nat (S i)) by lia. rewrite !IH by lia.
    erewrite (drop_S (slots b) _ i) by (by apply lookup_slots).
    destruct (dirent_at_ok b i Hb Hi8) as (_ & Hde & _).
    pose proof (Forall_lookup_1 _ _ _ _ Hok (lookup_dirents b i Hi8)) as Hlen.
    unfold scan_result, slot_of. rewrite names_cons, first_none_cons.
    destruct (is_used (dirent_at b i)) eqn:Hu.
    + rewrite slice_entry_name by auto. cbn [mbind outcome_bind].
      case_bool_decide as Hn.
      * rewrite decide_True; [done|]. rewrite elem_of_cons. by left.
      * destruct (decide (name ∈ names (drop (S i) (slots b)))) as [Hin|Hin].
        -- rewrite decide_True; [done|]. rewrite elem_of_cons. by right.
        -- rewrite decide_False by (rewrite elem_of_cons; naive_solver). do 2 f_equal. destruct acc; [done|].
           destruct (first_none _); simpl; [f_equal; lia|done].
    + case_decide; [done|]. do 2 f_equal. destruct acc; simpl; [done|]. f_equal. lia.
Qed.

Lemma scan_dir_spec b name :
  is_block b → Forall name_len_ok (dirents b) →
  scan_dir 9 (DirEntryBlock_new b) 0 name None =
    Ret (if decide (name ∈ names (slots b)) then Err CorruptLayout
         else Ok (Z.of_nat <$> first_none (slots b))).
Proof.
  intros Hb Hok. etrans; [exact (scan_dir_from b name 8 0 None Hb Hok eq_refl)|].
  unfold scan_result. rewrite drop_0. by destruct (first_none (slots b)).
Qed.

(** The slot [find_free_dir_slot] takes: the first one that is unused or whose
    entry points to inode 0. *)
Definition first_reusable (es : list DiskDirEntry) : option nat :=
  fst <$> list_find (λ e, is_used e = false ∨ de_inode e = 0) es.

Lemma first_reusable_cons e es :
  first_reusable (e :: es) =
    if decide (is_used e = false ∨ de_inode e = 0) then Some O else S <$> first_reusable es.
Proof.
  unfold first_reusable. simpl. case_decide; [done|]. by destruct (list_find _ es) as [[]|].
Qed.

Lemma free_slot_loop_from b n i :
  is_block b → (i + n = 8)%nat →
  free_slot_loop b (seqZ (Z.of_nat i) (Z.of_nat n)) =
    Ret ((λ k, Z.of_nat (i + k)) <$> first_reusable (drop i (dirents b))).
Proof.
  intros Hb. pose proof (is_block_length b Hb). revert i.
  induction n as [|n IH]; intros i Hi.
  - rewrite drop_ge by (rewrite length_dirents; lia). done.
  - assert (i < 8)%nat as Hi8 by lia. rewrite seqZ_cons by lia.
    cbn [free_slot_loop]. change DIR_ENTRY_SIZE with 64. unfold mul64, add64.
    rewrite checked_fits by solve_fits. cbn [mbind outcome_bind].
    rewrite checked_fits by solve_fits. cbn [mbind outcome_bind].
    rewrite slice_in by lia. cbn [mbind outcome_bind].
    replace (Z.to_nat (Z.of_nat i * 64)) with (64 * i)%nat by lia.
    replace (Z.to_nat (Z.of_nat i * 64 + 64 - Z.of_nat i * 64)) with 64%nat by lia.
    rewrite (proj1 (dirent_at_ok b i Hb Hi8)).
    replace (Z.succ (Z.of_nat i)) with (Z.of_nat (S i)) by lia.
    replace (Z.pred (Z.of_nat (S n))) with (Z.of_nat n) by lia. rewrite IH by lia.
    erewrite (drop_S (dirents b) _ i) by (by apply lookup_dirents).
    rewrite first_reusable_cons.
    assert (∀ e, negb (is_used e) || (de_inode e =? 0) =
                 bool_decide (is_used e = false ∨ de_inode e = 0)) as Htest.
    { intros e. destruct (is_used e), (Z.eqb_spec (de_inode e) 0); symmetry;
        first [by apply bool_decide_eq_true_2; auto | apply bool_decide_eq_false_2; naive_solver]. }
    rewrite Htest, bool_decide_decide. case_decide; simpl.
    + do 2 f_equal. lia.
    + destruct (first_reusable _); simpl; [|done]. do 2 f_equal. lia.
Qed.

Lemma find_free_dir_slot_spec b :
  is_block b → find_free_dir_slot b = Ret (Z.of_nat <$> first_reusable (dirents b)).
Proof.
  intros Hb. unfold find_free_dir_slot. change (seqZ 0 DIR_ENTRIES_PER_BLOCK)
    with (seqZ (Z.of_nat 0) (Z.of_nat 8)).
  rewrite (free_slot_loop_from b 8 0 Hb eq_refl), drop_0. done.
Qed.

Section spec.
Context `{BlockDeviceLaws D}.
Implicit Types (d : D) (s : SFS D) (blks : list (list Z)) (ok : bool) (sb : SuperBlock).

(** The device is well formed, holds [blks], and, if [ok], serves requests. *)
Definition dev_at d blks ok : Prop :=
  dev_wf d ∧ dev_blocks d = blks ∧ (ok = true → dev_ok d).

Definition fs_at s sb blks ok : Prop := superblock s = sb ∧ dev_at (device s) blks ok.

(** Why a request for block [id] could fail. *)
Definition may_fail blks ok (id : Z) : Prop :=
  ¬ (ok = true ∧ id < Z.of_nat (length blks)).

Lemma dev_at_block d blks ok i b : dev_at d blks ok → blks !! i = Some b → is_block b.
Proof.
  intros (Hwf & <- & _) Hb. pose proof (dev_blocks_ok d Hwf) as Hf.
  rewrite Forall_lookup in Hf. eauto.
Qed.

Lemma dev_at_blocks d blks ok : dev_at d blks ok → Forall is_block blks.
Proof. intros (Hwf & <- & _). by apply dev_blocks_ok. Qed.

Lemma dev_at_cap d blks ok : dev_at d blks ok → is_u64 (Z.of_nat (length blks)).
Proof. intros (Hwf & <- & _). rewrite <- capacity_blocks. by apply capacity_fits. Qed.

Lemma fs_at_block s sb blks ok i b : fs_at s sb blks ok → blks !! i = Some b → is_block b.
Proof. intros [_ Hd]. by eapply dev_at_block. Qed.

(** ** The two device calls *)
Lemma dev_read_raw_spec d blks ok id :
  dev_at d blks ok → 0 ≤ id →
  wp (dev_read_raw id) d (λ r d', dev_at d' blks ok ∧
    match r with
    | Ok (Ok _, b) => blks !! Z.to_nat id = Some b ∧ is_block b
    | Ok (Err _, b) => may_fail blks ok id ∧ is_block b
    | Err _ => False
    end).
Proof.
  intros (Hwf & Hb & Hok) Hid. unfold wp, ensures, dev_read_raw.
  destruct (read_blocks_spec d id zero_block Hwf Hid zero_block_ok)
    as (r & buf & d' & -> & Hwf' & Hbuf & Hb' & Hr & Hok'). simpl.
  split; [split; [done|split; [congruence|naive_solver]]|].
  destruct r as [[]|e].
  - split; [|done]. rewrite <- Hb. auto.
  - split; [|done]. intros [Ht Hlt]. rewrite <- Hb, <- capacity_blocks in Hlt.
    discriminate (proj2 (Hok' (Hok Ht)) Hlt).
Qed.

Lemma dev_read_spec d blks ok id :
  dev_at d blks ok → 0 ≤ id →
  wp (dev_read id) d (λ r d', dev_at d' blks ok ∧
    match r with
    | Ok b => blks !! Z.to_nat id = Some b ∧ is_block b
    | Err e => e = EBlockError ∧ may_fail blks ok id
    end).
Proof.
  intros Hd Hid. unfold dev_read. wp_step.
  eapply wp_mono; [by apply dev_read_raw_spec|]. intros [[[[]|e] b]|e] d' [Hd' Hr]; simpl.
  - by wp_steps.
  - wp_steps. naive_solver.
  - done.
Qed.

Lemma dev_write_spec d blks ok id buf :
  dev_at d blks ok → 0 ≤ id → is_block buf →
  wp (dev_write id buf) d (λ r d',
    match r with
    | Ok _ => id < Z.of_nat (length blks) ∧ dev_at d' (<[Z.to_nat id := buf]> blks) ok
    | Err e => e = EBlockError ∧ may_fail blks ok id ∧
               ∃ blks', torn dev_atomic (Z.to_nat id) buf blks blks' ∧ dev_at d' blks' ok
    end).
Proof.
  intros (Hwf & Hb & Hok) Hid Hbuf. unfold wp, ensures, dev_write.
  destruct (write_blocks_spec d id buf Hwf Hid Hbuf)
    as (r & d' & -> & Hwf' & Hr & Hok'). simpl. unfold dev_at.
  rewrite capacity_blocks, Hb in *. destruct r as [[]|e]; simpl.
  - naive_solver.
  - split; [done|]. split; [|naive_solver].
    intros [Ht Hlt]. discriminate (proj2 (Hok' (Hok Ht)) Hlt).
Qed.

Lemma wp_on_device {A} (m : prog D FileSystemError A) s Q :
  wp m (device s) (λ r d', Q r (mkSFS d' (superblock s))) → wp (on_device m) s Q.
Proof. unfold wp, ensures, on_device. by destruct (m (device s)) as [[r d']|]. Qed.

Lemma fs_read_spec s sb blks ok id :
  fs_at s sb blks ok → 0 ≤ id →
  wp (on_device (dev_read id)) s (λ r s', fs_at s' sb blks ok ∧
    match r with
    | Ok b => blks !! Z.to_nat id = Some b ∧ is_block b
    | Err e => e = EBlockError ∧ may_fail blks ok id
    end).
Proof.
  intros [Hsb Hd] Hid. apply wp_on_device.
  eapply wp_mono; [by apply dev_read_spec|]. intros r d' [Hd' Hr]. by split.
Qed.

Lemma fs_write_spec s sb blks ok id buf :
  fs_at s sb blks ok → 0 ≤ id → is_block buf →
  wp (on_device (dev_write id buf)) s (λ r s',
    match r with
    | Ok _ => id < Z.of_nat (length blks) ∧ fs_at s' sb (<[Z.to_nat id := buf]> blks) ok
    | Err e => e = EBlockError ∧ may_fail blks ok id ∧
               ∃ blks', torn dev_atomic (Z.to_nat id) buf blks blks' ∧ fs_at s' sb blks' ok
    end).
Proof.
  intros [Hsb Hd] Hid Hbuf. apply wp_on_device.
  eapply wp_mono; [by apply dev_write_spec|]. intros [[]|e] d' Hr; unfold fs_at; naive_solver.
Qed.

(** ** Allocation *)
Lemma block_find b :
  is_block b →
  ∃ b', find_and_set_first_free b = Ret (Z.of_nat <$> first_free (bits b), b')
      ∧ is_block b' ∧ bits b' = take_first (bits b).
Proof.
  intros [Hl Hu]. destruct (find_and_set_first_free_bits b) as (b' & Hf & Hb & Hl' & Hu').
  - done.
  - rewrite Hl. done.
  - exists b'. split_and!; try done. split; [congruence|auto].
Qed.

Lemma allocate_inode_spec s sb blks ok bm :
  fs_at s sb blks ok → blks !! 1%nat = Some bm → 0 ≤ inode_bitmap_block sb →
  wp allocate_inode s (λ r s',
    match r with
    | Ok i => ∃ n bm', i = Z.of_nat n ∧ first_free (bits bm) = Some n
              ∧ is_block bm' ∧ bits bm' = <[n := true]> (bits bm)
              ∧ inode_bitmap_block sb < Z.of_nat (length blks)
              ∧ fs_at s' sb (<[Z.to_nat (inode_bitmap_block sb) := bm']> blks) ok
    | Err e => (e = ENoSpace ∧ first_free (bits bm) = None ∧ fs_at s' sb blks ok)
               ∨ (e = EBlockError
                  ∧ (may_fail blks ok 1 ∨ may_fail blks ok (inode_bitmap_block sb))
                  ∧ ∃ bm' blks', torn dev_atomic (Z.to_nat (inode_bitmap_block sb)) bm' blks blks'
                    ∧ is_block bm' ∧ bits bm' = take_first (bits bm) ∧ fs_at s' sb blks' ok)
    end).
Proof.
  intros Hs Hbm Hib. unfold allocate_inode. wp_step.
  eapply wp_mono; [by apply (fs_read_spec s sb blks ok)|].
  intros [b|e] s1 [Hs1 Hr]; simpl in *.
  - destruct Hr as [Hb Hblk]. change (Z.to_nat INODE_BITMAP_BLOCK) with 1%nat in Hb. simplify_eq.
    destruct (block_find bm Hblk) as (bm' & Hf & Hblk' & Hbits). rewrite Hf.
    wp_steps. unfold take_first in Hbits.
    destruct (first_free (bits bm)) as [n|] eqn:Hff; simpl; [|by left].
    wp_steps. destruct Hs1 as [Hsb1 Hd1]. rewrite Hsb1.
    eapply wp_mono; [by apply (fs_write_spec s1 sb blks ok)|].
    intros [[]|e] s2 Hw; simpl.
    + wp_steps. destruct Hw. by exists n, bm'.
    + right. destruct Hw as (-> & Hm & blks' & Ht & Hs2). split; [done|]. split; [by right|].
      exists bm', blks'. unfold take_first. by rewrite Hff.
  - right. destruct Hr as [-> Hmf]. split; [done|]. split; [by left|].
    destruct (block_find bm) as (bm' & _ & Hblk' & Hbits); [by eapply fs_at_block|].
    exists bm', blks. split; [apply torn_none|done].
Qed.

Lemma allocate_data_block_spec s sb blks ok bm :
  fs_at s sb blks ok → blks !! 2%nat = Some bm →
  0 ≤ data_block_start sb → data_block_start sb + 4096 < 2 ^ 64 →
  wp allocate_data_block s (λ r s',
    match r with
    | Ok i => ∃ n bm', i = data_block_start sb + Z.of_nat n
              ∧ first_free (bits bm) = Some n ∧ is_block bm'
              ∧ bits bm' = <[n := true]> (bits bm)
              ∧ fs_at s' sb (<[2%nat := bm']> blks) ok
    | Err e => (e = ENoSpace ∧ first_free (bits bm) = None ∧ fs_at s' sb blks ok)
               ∨ (e = EBlockError ∧ ok = false
                  ∧ ∃ bm' blks', torn dev_atomic 2 bm' blks blks' ∧ is_block bm' ∧ fs_at s' sb blks' ok)
    end).
Proof.
  intros Hs Hbm Hd0 Hd1. unfold allocate_data_block. wp_step.
  pose proof (lookup_lt_Some _ _ _ Hbm) as Hlt.
  eapply wp_mono; [by apply (fs_read_spec s sb blks ok)|].
  assert (may_fail blks ok DATA_BITMAP_BLOCK → ok = false) as Hmf.
  { unfold may_fail, DATA_BITMAP_BLOCK. destruct ok; [|done]. intros []. split; [done|lia]. }
  intros [b|e] s1 [Hs1 Hr]; simpl in *.
  - destruct Hr as [Hb Hblk]. change (Z.to_nat DATA_BITMAP_BLOCK) with 2%nat in Hb. simplify_eq.
    destruct (block_find bm Hblk) as (bm' & Hf & Hblk' & Hbits). rewrite Hf.
    wp_steps. unfold take_first in Hbits.
    destruct (first_free (bits bm)) as [n|] eqn:Hff; simpl; [|by left].
    wp_steps. eapply wp_mono; [by apply (fs_write_spec s1 sb blks ok)|].
    intros [[]|e] s2 Hw; simpl.
    + wp_steps. destruct Hw as [_ Hs2]. rewrite (proj1 Hs2). unfold add64.
      pose proof (first_free_lt _ _ Hff) as Hn. rewrite length_bits in Hn.
      rewrite (is_block_length bm Hblk) in Hn.
      apply ensures_checked; [unfold fits; lia|]. wp_steps. by exists n, bm'.
    + right. naive_solver.
  - right. destruct Hr as [-> Hm]. split; [done|]. split; [auto|].
    exists bm, blks. split; [apply torn_none|]. split; [by eapply fs_at_block|done].
Qed.

(** ** The inode table *)
Lemma read_inode_spec s sb blks ok idx :
  let its := inode_table_start_block sb in
  fs_at s sb blks ok → 0 ≤ its → 0 ≤ idx → its + idx / 4 < 2 ^ 64 →
  wp (read_inode idx) s (λ r s', fs_at s' sb blks ok ∧
    match r with
    | Ok i => inode_at blks its idx = Some i
    | Err e => e = EBlockError ∧
        (may_fail blks ok (its + idx / 4) ∨ inode_at blks its idx = None)
    end).
Proof.
  intros its Hs Hits Hidx Hlt. subst its. unfold read_inode. wp_steps. rewrite (proj1 Hs).
  change INODES_PER_BLOCK with 4. change INODE_SIZE with 128.
  pose proof (Z.mod_pos_bound idx 4 ltac:(lia)). pose proof (Z.div_pos idx 4).
  unfold add64, mul64.
  apply ensures_checked; [unfold fits; lia|]. wp_steps.
  apply ensures_checked; [unfold fits; lia|]. wp_steps.
  eapply wp_mono; [apply (fs_read_spec s sb blks ok); [done|lia]|].
  intros [b|e] s1 [Hs1 Hr]; simpl; [|split; [done|naive_solver]].
  destruct Hr as [Hb Hblk]. pose proof (is_block_length b Hblk) as Hbl.
  change (Z.of_nat (size_of DiskInode)) with 128. wp_steps.
  apply ensures_checked; [unfold fits; lia|]. wp_steps.
  rewrite slice_in by lia. wp_steps.
  replace (Z.to_nat (idx mod 4 * 128 + 128 - idx mod 4 * 128)) with 128%nat by lia.
  assert (inode_at blks (inode_table_start_block sb) idx = inode_in b (inode_off idx)) as ->.
  { unfold inode_at, inode_blk. by rewrite Hb. }
  unfold inode_in, inode_off.
  destruct (ref_from_bytes (sub b (Z.to_nat (idx mod 4 * 128)) 128)) as [di|]; simpl; [|by auto].
  wp_steps. destruct (Inode_try_from di); simpl; wp_steps; naive_solver.
Qed.

Lemma write_inode_spec s sb blks ok idx i :
  let its := inode_table_start_block sb in
  fs_at s sb blks ok → 0 ≤ its → 0 ≤ idx → its + idx / 4 < 2 ^ 64 → inode_ok i →
  wp (write_inode i idx) s (λ r s',
    match r with
    | Ok _ => (inode_blk its idx < length blks)%nat ∧ fs_at s' sb (put_inode blks its idx i) ok
    | Err e => e = EBlockError ∧ may_fail blks ok (its + idx / 4) ∧
               ∃ blks', (∃ junk, blks' = <[inode_blk its idx := junk]> blks)
                 ∧ (dev_atomic → blks' = blks ∨ blks' = put_inode blks its idx i) ∧ fs_at s' sb blks' ok
    end).
Proof.
  intros its Hs Hits Hidx Hlt Hi. subst its. unfold write_inode. wp_steps. rewrite (proj1 Hs).
  change INODES_PER_BLOCK with 4. change INODE_SIZE with 128.
  pose proof (Z.mod_pos_bound idx 4 ltac:(lia)). pose proof (Z.div_pos idx 4).
  unfold add64, mul64.
  apply ensures_checked; [unfold fits; lia|]. wp_steps.
  apply ensures_checked; [unfold fits; lia|]. wp_steps.
  eapply wp_mono; [apply (fs_read_spec s sb blks ok); [done|lia]|].
  intros [b|e] s1 [Hs1 Hr]; simpl.
  2: { destruct Hr as [-> Hm]. split_and!; [done..|]. exists blks.
       destruct (torn_none True (inode_blk (inode_table_start_block sb) idx) [] blks). auto. }
  destruct Hr as [Hb Hblk]. pose proof (is_block_length b Hblk) as Hbl.
  change (Z.of_nat (size_of DiskInode)) with 128. wp_steps.
  apply ensures_checked; [unfold fits; lia|]. wp_steps.
  rewrite copy_from_slice_in by (rewrite ?length_inode_bytes by done; lia). wp_steps.
  eapply wp_mono; [apply (fs_write_spec s1 sb blks ok); [done|lia|]|].
  { by apply (is_block_put b i idx). }
  intros [[]|e] s2 Hw; simpl.
  - wp_steps. destruct Hw as [Hlt' Hs2]. split; [unfold inode_blk; lia|].
    unfold put_inode, inode_blk. by rewrite Hb.
  - destruct Hw as (-> & Hm & blks' & [Hj Ha] & Hs2). split; [done|]. split; [done|]. exists blks'.
    split; [done|]. split; [|done]. unfold put_inode, inode_blk. by rewrite Hb.
Qed.
End spec.
