(* ===== verification/SimpleFsRep.v ===== *)
(** The contract of the file system and its refinement. The abstract file
    system is a directory of eight slots and a set of allocated inodes; the
    representation relation says how a medium encodes it; [format],
    [init_root_directory] and [create_file] are proved to implement it. *)
From S2P Require Import Prelude Bytes Bitmap Layout BlockDev SimpleFs SimpleFsSpec.
Local Open Scope Z_scope.
Local Open Scope rust_scope.

(** * Geometry: what [format] computes from the capacity *)
Definition geometry (cap : Z) : SuperBlock := {|
  magic_number := MAGIC_NUMBER;
  total_blocks := cap;
  inode_bitmap_block := INODE_BITMAP_BLOCK;
  data_bitmap_block := DATA_BITMAP_BLOCK;
  inode_table_start_block := INODE_TABLE_START_BLOCK;
  inode_count := cap / 10 * 4;
  data_block_start := 3 + cap / 10;
  data_block_count := cap - (3 + cap / 10);
|}.

(** The block that holds a superblock, and the superblock a block holds. *)
Definition sb_block (sb : SuperBlock) : list Z :=
  splice zero_block 0 (as_bytes (DiskSuperBlock_from sb)).

Definition sb_of_block (b : list Z) : option SuperBlock :=
  dsb ← (ref_from_bytes (sub b 0 64) : option DiskSuperBlock);
  match SuperBlock_try_from dsb with Ok sb => Some sb | Err _ => None end.

Definition formatted (sb : SuperBlock) (blks : list (list Z)) : list (list Z) :=
  <[2%nat := zero_block]> (<[1%nat := zero_block]> (<[0%nat := sb_block sb]> blks)).

Lemma geometry_ok cap : 3 ≤ cap → is_u64 cap → sb_ok (geometry cap).
Proof.
  intros H3 Hc. unfold fits in Hc. pose proof (Z.div_pos cap 10).
  pose proof (Z.mul_div_le cap 10).
  split; unfold fits; simpl; unfold INODE_BITMAP_BLOCK, DATA_BITMAP_BLOCK,
    INODE_TABLE_START_BLOCK, MAGIC_NUMBER; lia.
Qed.

Lemma sb_block_ok sb : sb_ok sb → is_block (sb_block sb).
Proof.
  intros Hsb. apply DiskSuperBlock_from_ok in Hsb.
  apply is_block_splice; [exact zero_block_ok|by apply as_bytes_u8|].
  rewrite as_bytes_length by done. rewrite size_of_DiskSuperBlock. lia.
Qed.

Lemma sb_of_sb_block sb : sb_ok sb → sb_of_block (sb_block sb) = Some sb.
Proof.
  intros Hsb. apply DiskSuperBlock_from_ok in Hsb. unfold sb_of_block, sb_block.
  pose proof (ref_from_bytes_splice _ zero_block 0 Hsb) as Hr.
  rewrite size_of_DiskSuperBlock in Hr. rewrite Hr.
  - cbn [mbind option_bind]. by rewrite SuperBlock_try_from_from.
  - rewrite (is_block_length _ zero_block_ok). lia.
Qed.

Lemma sb_of_block_total b : is_block b → ∃ sb, sb_of_block b = Some sb.
Proof.
  intros [Hl Hu]. unfold sb_of_block.
  destruct (ref_from_bytes_ok (T := DiskSuperBlock) (sub b 0 64)) as (dsb & -> & _).
  - auto.
  - rewrite length_sub; [done|]. rewrite Hl. change (Z.to_nat BLOCK_SIZE) with 512%nat. lia.
  - simpl. eauto.
Qed.

Section format_mount.
Context `{BlockDeviceLaws D}.
Implicit Types (d : D) (blks : list (list Z)) (ok : bool).

Lemma may_fail_ok blks ok id : may_fail blks ok id → id < Z.of_nat (length blks) → ok = false.
Proof. unfold may_fail. destruct ok; [|done]. intros Hm ?. destruct Hm. done. Qed.

Lemma format_spec d blks ok :
  dev_at d blks ok → 3 ≤ Z.of_nat (length blks) →
  let sb := geometry (Z.of_nat (length blks)) in
  wp format d (λ r d',
    match r with
    | Ok fs => device fs = d' ∧ fs_at fs sb (formatted sb blks) ok
    | Err e => e = EBlockError ∧ ok = false
    end).
Proof.
  intros Hd H3 sb. unfold format. wp_steps.
  pose proof (dev_at_cap _ _ _ Hd) as Hcap. assert (Hcap' := Hcap). unfold fits in Hcap'.
  rewrite capacity_blocks, (proj1 (proj2 Hd)). set (cap := Z.of_nat (length blks)) in *.
  pose proof (Z.div_pos cap 10). pose proof (Z.mul_div_le cap 10).
  change INODES_PER_BLOCK with 4. unfold mul64, add64, sub64, INODE_TABLE_START_BLOCK.
  apply ensures_checked; [unfold fits; lia|]. wp_steps.
  apply ensures_checked; [unfold fits; lia|]. wp_steps.
  apply ensures_checked; [unfold fits; lia|]. wp_steps.
  match goal with |- context [DiskSuperBlock_from ?x] => change x with sb end.
  pose proof (geometry_ok cap H3 Hcap) as Hsb. pose proof (sb_block_ok sb Hsb) as Hblk.
  pose proof (as_bytes_length _ (DiskSuperBlock_from_ok sb Hsb)) as Hlen.
  rewrite size_of_DiskSuperBlock in *.
  rewrite copy_from_slice_in; [|lia|done|by rewrite Hlen]. wp_steps.
  change (Z.to_nat 0) with O. fold (sb_block sb).
  eapply wp_mono; [by apply (dev_write_spec d blks ok)|].
  intros [[]|e] d1; simpl.
  2: { intros (-> & Hm & _). split; [done|]. eapply may_fail_ok; [done|].
       unfold SUPERBLOCK_BLOCK. lia. }
  intros [_ Hd1]. wp_steps.
  eapply wp_mono; [apply (dev_write_spec _ _ _ _ _ Hd1); [done|apply zero_block_ok]|].
  intros [[]|e] d2; simpl.
  2: { intros (-> & Hm & _). split; [done|]. eapply may_fail_ok; [done|].
       rewrite length_insert. unfold INODE_BITMAP_BLOCK. lia. }
  intros [_ Hd2]. wp_steps.
  eapply wp_mono; [apply (dev_write_spec _ _ _ _ _ Hd2); [done|apply zero_block_ok]|].
  intros [[]|e] d3; simpl.
  2: { intros (-> & Hm & _). split; [done|]. eapply may_fail_ok; [done|].
       rewrite !length_insert. unfold DATA_BITMAP_BLOCK. lia. }
  intros [_ Hd3]. wp_steps. split; [done|]. split; [done|]. exact Hd3.
Qed.

Lemma format_small d :
  capacity d < 3 → 0 ≤ capacity d → format d = Panic POverflow.
Proof.
  intros Hc Hc0. unfold format, mbind, prog_bind, gets, lift, mul64, add64, sub64.
  assert (capacity d / 10 = 0) as -> by (apply Z.div_small; lia).
  change (checked (0 * INODES_PER_BLOCK)) with (Ret 0).
  change (checked (INODE_TABLE_START_BLOCK + 0)) with (Ret 3).
  cbn. rewrite checked_over; [done|]. unfold fits. lia.
Qed.

Lemma mount_spec d blks b :
  dev_at d blks true → blks !! 0%nat = Some b →
  wp mount d (λ r d', dev_at d' blks true ∧
    match r with
    | Ok fs => device fs = d' ∧ sb_of_block b = Some (superblock fs)
               ∧ magic_number (superblock fs) = MAGIC_NUMBER
    | Err e => e = InvalidSuperBlock ∧
               ∃ sb, sb_of_block b = Some sb ∧ magic_number sb ≠ MAGIC_NUMBER
    end).
Proof.
  intros Hd Hb. unfold mount. wp_step.
  eapply wp_mono; [by apply (dev_read_raw_spec d blks true)|].
  pose proof (lookup_lt_Some _ _ _ Hb).
  intros [[[[]|e] buf]|e] d1 [Hd1 Hr]; simpl; [|exfalso; apply Hr|done].
  2: { split; [done|]. unfold SUPERBLOCK_BLOCK. lia. }
  destruct Hr as [Hbuf Hblk]. change (Z.to_nat SUPERBLOCK_BLOCK) with O in Hbuf. simplify_eq.
  pose proof (is_block_length b Hblk). destruct (sb_of_block_total b Hblk) as [sb Hsb].
  rewrite size_of_DiskSuperBlock. wp_steps. rewrite slice_in by lia. wp_steps.
  unfold sb_of_block in *. change (Z.to_nat 0) with O. change (Z.to_nat (Z.of_nat 64 - 0)) with 64%nat.
  destruct (ref_from_bytes (sub b 0 64)) as [dsb|] eqn:Hdsb; [|done]. simpl in *. wp_steps.
  destruct (Z.eqb_spec (dsb_magic_number dsb) MAGIC_NUMBER) as [Hm|Hm]; simpl; wp_steps.
  - split_and!; done.
  - split; [done|]. split; [done|]. eauto.
Qed.
End format_mount.

(** * The abstract file system *)
Record afs := mkAfs {
  a_slots : list (option (list Z * Z));   (** name and inode of each slot *)
  a_inodes : list bool;                   (** which inodes are allocated *)
}.

Definition name_ok (name : list Z) : bool :=
  bool_decide (name ≠ []) && (Z.of_nat (length name) <=? DIR_NAME_MAX).

(** Creating a file: the name must be good and new, a slot and an inode free;
    the first of each is taken. *)
Definition abs_create (name : list Z) (st : afs) : result Z FileSystemError * afs :=
  if negb (name_ok name) then (Err NameTooLong, st)
  else if decide (name ∈ names (a_slots st)) then (Err CorruptLayout, st)
  else match first_none (a_slots st), first_free (a_inodes st) with
       | Some k, Some n =>
           (Ok (Z.of_nat n),
            mkAfs (<[k := Some (name, Z.of_nat n)]> (a_slots st)) (<[n := true]> (a_inodes st)))
       | _, _ => (Err ENoSpace, st)
       end.

Lemma abs_create_new name st k n :
  name_ok name = true → name ∉ names (a_slots st) →
  first_none (a_slots st) = Some k → first_free (a_inodes st) = Some n →
  abs_create name st =
    (Ok (Z.of_nat n),
     mkAfs (<[k := Some (name, Z.of_nat n)]> (a_slots st)) (<[n := true]> (a_inodes st))).
Proof.
  intros Hn Hnin Hk Hf. unfold abs_create. rewrite Hn, Hk, Hf. by rewrite decide_False.
Qed.

(** The state after formatting and creating the root directory. *)
Definition abs_init : afs :=
  mkAfs ([Some (str_of ".", 0); Some (str_of "..", 0)] ++ replicate 6 None)
        (true :: replicate 4095 false).

(** How a medium of [length blks] blocks represents [st]; [dblk] is the root
    directory's block. *)
Record disk_rep (blks : list (list Z)) (dblk : Z) (st : afs) : Prop := {
  rep_cap : 10 ≤ Z.of_nat (length blks);
  rep_super : ∃ b, blks !! 0%nat = Some b ∧ sb_of_block b = Some (geometry (Z.of_nat (length blks)));
  rep_bitmap : ∃ bm, blks !! 1%nat = Some bm ∧ bits bm = a_inodes st;
  rep_root_bit : a_inodes st !! 0%nat = Some true;
  rep_root : ∃ root, inode_at blks 3 0 = Some root ∧ mode root = Directory
               ∧ direct_pointers root !! 0%nat = Some dblk;
  rep_dblk : 3 + Z.of_nat (length blks) / 10 ≤ dblk;
  rep_dir : ∃ b, blks !! Z.to_nat dblk = Some b ∧ Forall name_len_ok (dirents b)
              ∧ slots b = a_slots st;
  rep_nodup : NoDup (names (a_slots st));
  rep_entries : ∀ k nm ino, a_slots st !! k = Some (Some (nm, ino)) →
      0 ≤ ino < Z.of_nat (length blks) / 10 * 4
      ∧ a_inodes st !! Z.to_nat ino = Some true ∧ is_Some (inode_at blks 3 ino);
}.

(** Inode blocks lie strictly between the bitmaps and the data area. *)
Lemma inode_blk_bound cap ino :
  0 ≤ ino < cap / 10 * 4 →
  (inode_blk 3 ino ≠ 1)%nat ∧ 3 ≤ 3 + ino / 4 < 3 + cap / 10
  ∧ Z.of_nat (inode_blk 3 ino) = 3 + ino / 4.
Proof.
  intros Hi. unfold inode_blk. pose proof (Z.div_pos ino 4).
  assert (ino / 4 < cap / 10) by (apply Z.div_lt_upper_bound; lia). lia.
Qed.

Lemma inode_at_insert_ne blks its idx k b :
  k ≠ inode_blk its idx → inode_at (<[k := b]> blks) its idx = inode_at blks its idx.
Proof. intros. unfold inode_at. by rewrite list_lookup_insert_ne. Qed.

Lemma new_file_inode_ok : inode_ok new_file_inode.
Proof. split; simpl; try done; solve_fits. Qed.

Lemma name_len_ok_new inode name :
  (length name ≤ 52)%nat → name_len_ok (new_entry inode name).
Proof. intros ? _. simpl. unfold DIR_NAME_MAX. lia. Qed.

Lemma names_insert_NoDup sl k nm ino :
  NoDup (names sl) → nm ∉ names sl → sl !! k = Some None →
  NoDup (names (<[k := Some (nm, ino)]> sl)).
Proof.
  revert k. induction sl as [|o sl IH]; intros [|k] Hnd Hnin Hk; simplify_eq/=; try done.
  - rewrite names_cons in *. by apply NoDup_cons.
  - rewrite names_cons in *. destruct o as [[nm' ino']|]; [|auto].
    apply NoDup_cons in Hnd as [Hn Hnd]. rewrite not_elem_of_cons in Hnin.
    apply NoDup_cons. split; [|naive_solver].
    rewrite elem_of_names. intros (i & ino'' & Hi). apply Hn.
    rewrite list_lookup_insert in Hi. case_decide; [naive_solver|].
    apply elem_of_names. eauto.
Qed.

(** The medium at each step of a creation: after the inode [n] was marked in the
    bitmap, after it was written, after the directory entry was written. *)
Lemma take_first_set l j : l !! j = Some true → take_first l !! j = Some true.
Proof.
  unfold take_first. intros Hj. destruct (first_free l) as [n|] eqn:Hn; [|done].
  apply first_free_Some in Hn as [Hn _]. rewrite list_lookup_insert_ne; [done|naive_solver].
Qed.

Lemma disk_rep_bitmap blks dblk st bm' :
  disk_rep blks dblk st → bits bm' = take_first (a_inodes st) →
  disk_rep (<[1%nat := bm']> blks) dblk (mkAfs (a_slots st) (take_first (a_inodes st))).
Proof.
  intros [] Hbits. destruct rep_bitmap0 as (bm & Hbm & Hbmb).
  pose proof (lookup_lt_Some _ _ _ Hbm) as Hlt.
  assert (∀ j, 0 ≤ j < Z.of_nat (length blks) / 10 * 4 →
    inode_at (<[1%nat := bm']> blks) 3 j = inode_at blks 3 j) as Hino.
  { intros j Hj. destruct (inode_blk_bound _ _ Hj) as (? & _). by apply inode_at_insert_ne. }
  assert (1 ≤ Z.of_nat (length blks) / 10) by (apply Z.div_le_lower_bound; lia).
  split; rewrite ?length_insert; simpl; try done.
  - by rewrite list_lookup_insert_ne.
  - exists bm'. split; [by apply list_lookup_insert_eq|done].
  - by apply take_first_set.
  - rewrite Hino by lia. done.
  - by rewrite list_lookup_insert_ne by lia.
  - intros k nm ino Hk. destruct (rep_entries0 k nm ino Hk) as (Hr & Hset & Hi). split; [done|].
    split; [by apply take_first_set|]. by rewrite Hino by done.
Qed.

Lemma disk_rep_inode blks dblk st n i :
  Forall is_block blks → disk_rep blks dblk st → inode_ok i →
  0 < Z.of_nat n < Z.of_nat (length blks) / 10 * 4 →
  (∀ k nm, a_slots st !! k ≠ Some (Some (nm, Z.of_nat n))) →
  disk_rep (put_inode blks 3 (Z.of_nat n) i) dblk st.
Proof.
  intros Hblks [] Hi Hn Hun. destruct (inode_blk_bound (Z.of_nat (length blks)) (Z.of_nat n) ltac:(lia)) as (Hn1 & Hn2 & Hn3).
  assert (∀ j, 0 ≤ j → j ≠ Z.of_nat n →
    inode_at (put_inode blks 3 (Z.of_nat n) i) 3 j = inode_at blks 3 j) as Hino.
  { intros j Hj Hne. apply inode_at_put_other; [done|done|lia..]. }
  split; rewrite ?length_put_inode; try done.
  - rewrite lookup_put_inode_ne by lia. done.
  - rewrite lookup_put_inode_ne by lia. done.
  - rewrite Hino by lia. done.
  - rewrite lookup_put_inode_ne by lia. done.
  - intros k nm ino Hk. destruct (rep_entries0 k nm ino Hk) as (Hr & Hset & Hs). split; [done|].
    split; [done|]. rewrite Hino; [done|lia|]. intros ->. by eapply Hun.
Qed.

Lemma disk_rep_entry blks dblk st name n k b b' :
  disk_rep blks dblk st → name ∉ names (a_slots st) → (length name ≤ 52)%nat →
  a_slots st !! k = Some None → 0 ≤ Z.of_nat n < Z.of_nat (length blks) / 10 * 4 →
  a_inodes st !! n = Some true → is_Some (inode_at blks 3 (Z.of_nat n)) →
  blks !! Z.to_nat dblk = Some b → dirents b' = <[k := new_entry (Z.of_nat n) name]> (dirents b) →
  disk_rep (<[Z.to_nat dblk := b']> blks) dblk
    (mkAfs (<[k := Some (name, Z.of_nat n)]> (a_slots st)) (a_inodes st)).
Proof.
  intros [] Hnin Hname Hk Hroom Hset Hino Hb Hb'.
  destruct rep_dir0 as (b0 & Hb0 & Hlen & Hsl). rewrite Hb in Hb0. injection Hb0 as <-.
  assert (∀ j, 0 ≤ j < Z.of_nat (length blks) / 10 * 4 →
    inode_at (<[Z.to_nat dblk := b']> blks) 3 j = inode_at blks 3 j) as Hother.
  { intros j Hj. destruct (inode_blk_bound _ _ Hj) as (? & ? & ?). apply inode_at_insert_ne. lia. }
  pose proof (lookup_lt_Some _ _ _ Hb) as Hdlt.
  assert (1 ≤ Z.of_nat (length blks) / 10) by (apply Z.div_le_lower_bound; lia).
  split; rewrite ?length_insert; simpl; try done.
  - by rewrite list_lookup_insert_ne by lia.
  - by rewrite list_lookup_insert_ne by lia.
  - rewrite Hother by lia. done.
  - exists b'. split; [by apply list_lookup_insert_eq|]. split.
    + rewrite Hb'. apply Forall_insert; [done|]. by apply name_len_ok_new.
    + unfold slots. rewrite Hb', list_fmap_insert, slot_of_new_entry. by f_equal.
  - by apply names_insert_NoDup.
  - intros j nm ino Hj. rewrite list_lookup_insert in Hj. case_decide as Hd.
    + destruct Hd as [-> _]. simplify_eq. rewrite Nat2Z.id, Hother by done. split_and!; [lia|lia|done..].
    + destruct (rep_entries0 _ _ _ Hj) as (? & ? & ?). by rewrite Hother by done.
Qed.

(** ** The state [init_root_directory] builds *)
Definition first_bit_block : list Z := 1 :: replicate 511 0.
Definition dot_block : list Z := splice zero_block 0 (as_bytes (new_entry 0 (str_of "."))).
Definition root_dir_block : list Z :=
  splice dot_block 64 (as_bytes (new_entry 0 (str_of ".."))).

Lemma set_first_bit : set zero_block 0 = Ret (Ok tt, first_bit_block).
Proof. by vm_compute. Qed.

Lemma first_bit_block_ok : is_block first_bit_block.
Proof. split; [done|]. unfold first_bit_block. apply Forall_cons_2; solve_fits. Qed.

Lemma bits_first_bit_block : bits first_bit_block = a_inodes abs_init.
Proof. by vm_compute. Qed.

Lemma write_dot : write_dirent_into_block zero_block 0 0 (str_of ".") = Ret (Ok tt, dot_block).
Proof. by vm_compute. Qed.

Lemma write_dotdot :
  write_dirent_into_block dot_block 1 0 (str_of "..") = Ret (Ok tt, root_dir_block).
Proof. by vm_compute. Qed.

Lemma root_dir_block_ok : is_block root_dir_block.
Proof.
  assert (∀ nm, Forall is_u8 nm → (length nm ≤ 52)%nat → value_ok (new_entry 0 nm)) as Hv.
  { intros. apply value_ok_dirent, new_entry_ok; [solve_fits|done..]. }
  pose proof (Hv (str_of ".") ltac:(by_decide) ltac:(by_decide)) as H1.
  pose proof (Hv (str_of "..") ltac:(by_decide) ltac:(by_decide)) as H2.
  unfold root_dir_block. apply is_block_splice; [apply is_block_splice|..].
  - apply zero_block_ok.
  - by apply as_bytes_u8.
  - rewrite as_bytes_length by done. rewrite size_of_DiskDirEntry. vm_compute. lia.
  - by apply as_bytes_u8.
  - rewrite as_bytes_length by done. rewrite size_of_DiskDirEntry. vm_compute. lia.
Qed.

Lemma root_dir_slots : slots root_dir_block = a_slots abs_init.
Proof. by vm_compute. Qed.

Lemma root_dir_lens : Forall name_len_ok (dirents root_dir_block).
Proof.
  assert (Forall (λ e, de_name_len e ≤ DIR_NAME_MAX) (dirents root_dir_block)) as Hf.
  { by_decide. }
  eapply Forall_impl; [exact Hf|]. by intros e He _.
Qed.

Lemma root_inode_ok dblk : is_u64 dblk → inode_ok (root_inode dblk).
Proof. intros. split; simpl; try done; try solve_fits. Qed.

Lemma disk_rep_init blks dblk bm2 :
  Forall is_block blks → 10 ≤ Z.of_nat (length blks) → is_block bm2 → is_u64 dblk →
  3 + Z.of_nat (length blks) / 10 ≤ dblk < Z.of_nat (length blks) →
  (∃ b, blks !! 0%nat = Some b ∧ sb_of_block b = Some (geometry (Z.of_nat (length blks)))) →
  disk_rep
    (<[Z.to_nat dblk := root_dir_block]>
      (put_inode (<[2%nat := bm2]> (<[1%nat := first_bit_block]> blks)) 3 0 (root_inode dblk)))
    dblk abs_init.
Proof.
  intros Hblks Hcap Hbm2 Hdu Hd Hsup. pose proof (Z.div_pos (Z.of_nat (length blks)) 10).
  assert (1 ≤ Z.of_nat (length blks) / 10) by (apply Z.div_le_lower_bound; lia).
  assert (inode_at (<[Z.to_nat dblk := root_dir_block]>
      (put_inode (<[2%nat := bm2]> (<[1%nat := first_bit_block]> blks)) 3 0 (root_inode dblk))) 3 0
    = Some (root_inode dblk)) as Hroot.
  { rewrite inode_at_insert_ne by (change (inode_blk 3 0) with 3%nat; lia).
    apply inode_at_put_same; [|by apply root_inode_ok|].
    2: { rewrite !length_insert. change (inode_blk 3 0) with 3%nat. lia. }
    apply Forall_insert; [|done]. apply Forall_insert; [done|]. apply first_bit_block_ok. }
  split; rewrite ?length_insert, ?length_put_inode, ?length_insert; try done; try lia.
  - rewrite list_lookup_insert_ne by lia. rewrite lookup_put_inode_ne by done.
    by rewrite !list_lookup_insert_ne by lia.
  - exists first_bit_block. split; [|apply bits_first_bit_block].
    rewrite list_lookup_insert_ne by lia. rewrite lookup_put_inode_ne by done.
    rewrite list_lookup_insert_ne by lia. apply list_lookup_insert_eq. lia.
  - exists (root_inode dblk). done.
  - exists root_dir_block. split; [|split; [apply root_dir_lens|apply root_dir_slots]].
    apply list_lookup_insert_eq. rewrite length_put_inode, !length_insert. lia.
  - by_decide.
  - intros k nm ino Hk. assert (ino = 0) as ->.
    { do 8 (destruct k as [|k]; [by simplify_eq/=|]). done. }
    split_and!; [lia|lia|done|]. by rewrite Hroot.
Qed.

Section refine.
Context `{BlockDeviceLaws D}.
Implicit Types (s : SFS D) (st : afs) (ok : bool).

(** The mounted file system [s] represents [st]. *)
Definition fs_rep s st ok : Prop :=
  ∃ blks dblk, fs_at s (geometry (Z.of_nat (length blks))) blks ok ∧ disk_rep blks dblk st.

Lemma fs_at_blocks s sb blks ok : fs_at s sb blks ok → Forall is_block blks.
Proof. intros (_ & Hwf & <- & _). by apply dev_blocks_ok. Qed.

Lemma name_ok_test (name : list Z) :
  (DIR_NAME_MAX <? Z.of_nat (length name)) || bool_decide (name = []) = negb (name_ok name).
Proof.
  unfold name_ok. rewrite negb_andb, bool_decide_not, negb_involutive.
  rewrite <- Z.ltb_antisym. apply orb_comm.
Qed.

Lemma name_ok_length (name : list Z) : name_ok name = true → (length name ≤ 52)%nat.
Proof.
  unfold name_ok. rewrite andb_true_iff, Z.leb_le. unfold DIR_NAME_MAX. lia.
Qed.

(** The root directory is found: the first part of [create_file_in_root] and of
    [add_root_dir_entry]. *)
Lemma read_root_spec s blks dblk st ok :
  fs_at s (geometry (Z.of_nat (length blks))) blks ok → disk_rep blks dblk st →
  wp (read_inode 0) s (λ r s', fs_at s' (geometry (Z.of_nat (length blks))) blks ok ∧
    match r with
    | Ok root => mode root = Directory ∧ direct_pointers root !! 0%nat = Some dblk
    | Err e => e = EBlockError ∧ ok = false
    end).
Proof.
  intros Hs Hrep. destruct (rep_root _ _ _ Hrep) as (root & Hroot & Hmode & Hdp).
  pose proof (rep_cap _ _ _ Hrep).
  eapply wp_mono; [apply (read_inode_spec _ _ _ _ _ Hs)|]; try done.
  intros [i|e] s' [Hs' Hr]; split; try done.
  - change (inode_table_start_block _) with 3 in Hr. by simplify_eq.
  - change (inode_table_start_block _) with 3 in Hr. destruct Hr as [-> [Hm|Hn]].
    + split; [done|]. apply (may_fail_ok blks ok 3); [exact Hm|lia].
    + congruence.
Qed.

Lemma geometry_insert blks k (b : list Z) :
  geometry (Z.of_nat (length (<[k := b]> blks))) = geometry (Z.of_nat (length blks)).
Proof. by rewrite length_insert. Qed.

(** The result of the concrete call agrees with the abstract one. *)
Definition create_agrees (ar : result Z FileSystemError) (r : result (Z * Z) FileSystemError) :=
  match ar, r with
  | Ok i, Ok (i', _) => i = i'
  | Err e, Err e' => e = e'
  | _, _ => False
  end.

(** What a creation leaves when the device fails under it and writes blocks as
    a whole: nothing changed, an inode was taken that no entry names, or the file
    was created. *)
Definition crashed (name : list Z) (st st' : afs) : Prop :=
  st' = st ∨ st' = mkAfs (a_slots st) (take_first (a_inodes st)) ∨ st' = (abs_create name st).2.

Definition crash_rep (name : list Z) (st : afs) s' : Prop :=
  dev_atomic → ∃ st', crashed name st st' ∧ fs_rep s' st' false.

Lemma first_free_unnamed blks dblk st n k nm :
  disk_rep blks dblk st → first_free (a_inodes st) = Some n → a_slots st !! k ≠ Some (Some (nm, Z.of_nat n)).
Proof.
  intros Hrep Hff Hk. apply first_free_Some in Hff as [Hf _].
  destruct (rep_entries _ _ _ Hrep _ _ _ Hk) as (_ & Hset & _). rewrite Nat2Z.id in Hset. congruence.
Qed.

Lemma fs_rep_intro s n blks dblk st ok :
  fs_at s (geometry (Z.of_nat n)) blks ok → length blks = n → disk_rep blks dblk st → fs_rep s st ok.
Proof. intros Hs <- Hrep. by exists blks, dblk. Qed.

(** The taken inode is written and then named by a directory entry. *)
Lemma create_publish_rep s blks dblk st ok name n k b :
  let st' := mkAfs (<[k := Some (name, Z.of_nat n)]> (a_slots st)) (a_inodes st) in
  fs_at s (geometry (Z.of_nat (length blks))) blks ok → disk_rep blks dblk st →
  Forall is_u8 name → (length name ≤ 52)%nat → name ∉ names (a_slots st) →
  a_slots st !! k = Some None → blks !! Z.to_nat dblk = Some b →
  0 < Z.of_nat n < Z.of_nat (length blks) / 10 * 4 → a_inodes st !! n = Some true →
  (∀ j nm, a_slots st !! j ≠ Some (Some (nm, Z.of_nat n))) →
  wp (_ ← write_inode new_file_inode (Z.of_nat n);
      '(r, dir_block_buf') ← lift (write_dirent_into_block b (Z.of_nat k) (Z.of_nat n) name);
      _ ← try r;
      _ ← on_device (dev_write dblk dir_block_buf');
      mret (Z.of_nat n, dblk)) s (λ r s',
    ok = false ∧ r = Err EBlockError ∧ (dev_atomic → fs_rep s' st ok ∨ fs_rep s' st' ok) ∨
    r = Ok (Z.of_nat n, dblk) ∧ fs_rep s' st' ok).
Proof.
  intros st' Hs Hrep Hu Hname Hnin Hk Hb Hn Hset Hun.
  pose proof (rep_dblk _ _ _ Hrep) as Hd. pose proof (fs_at_blocks _ _ _ _ Hs) as Hblks.
  pose proof (fs_at_block _ _ _ _ _ _ Hs Hb) as Hblk. pose proof (lookup_lt_Some _ _ _ Hb) as Hdlt.
  pose proof (dev_at_cap _ _ _ (proj2 Hs)) as Hcapf. unfold fits in Hcapf.
  destruct (inode_blk_bound (Z.of_nat (length blks)) (Z.of_nat n)) as (Hn1 & Hn2 & Hn3); [lia|].
  pose proof (Z.mul_div_le (Z.of_nat (length blks)) 10).
  assert (disk_rep (put_inode blks 3 (Z.of_nat n) new_file_inode) dblk st) as Hrep1
    by (apply disk_rep_inode; auto using new_file_inode_ok).
  wp_step. eapply wp_mono.
  { apply (write_inode_spec _ _ _ _ (Z.of_nat n) new_file_inode Hs);
      [done|lia|change (3 + Z.of_nat n / 4 < 2 ^ 64); lia|apply new_file_inode_ok]. }
  change (inode_table_start_block _) with 3. intros [[]|e] s1; simpl.
  2: { intros (-> & Hm & blks' & _ & Ht & Hs1). left. split; [eapply may_fail_ok; [exact Hm|lia]|].
       split; [done|]. intros Hat. left. destruct (Ht Hat) as [-> | ->]; [by exists blks, dblk|].
         eapply fs_rep_intro; [exact Hs1|apply length_put_inode|exact Hrep1]. }
  intros [_ Hs1]. wp_steps.
  assert (k < 8)%nat as Hk8.
  { destruct (rep_dir _ _ _ Hrep) as (b0 & _ & _ & Hsl).
    apply lookup_lt_Some in Hk. by rewrite <- Hsl, length_slots in Hk. }
  destruct (write_dirent_spec b k (Z.of_nat n) name Hblk) as (b' & -> & Hb' & Hde); try done.
  { unfold fits. lia. }
  assert (disk_rep (<[Z.to_nat dblk := b']> (put_inode blks 3 (Z.of_nat n) new_file_inode)) dblk st')
    as Hrep2.
  { eapply disk_rep_entry; eauto; rewrite ?length_put_inode; [lia| |].
    - rewrite inode_at_put_same; [done|done|apply new_file_inode_ok|lia].
    - by rewrite lookup_put_inode_ne by lia. }
  wp_steps. eapply wp_mono; [apply (fs_write_spec _ _ _ _ _ _ Hs1); [lia|done]|].
  intros [[]|e] s2; simpl.
  2: { intros (-> & Hm & blks' & [_ Ht] & Hs2). left.
       split; [eapply may_fail_ok; [exact Hm|rewrite length_put_inode; lia]|]. split; [done|].
       intros Hat. destruct (Ht Hat) as [-> | ->]; [left|right].
       - eapply fs_rep_intro; [exact Hs2|apply length_put_inode|exact Hrep1].
       - eapply fs_rep_intro; [exact Hs2|by rewrite length_insert, length_put_inode|exact Hrep2]. }
  intros [_ Hs2]. wp_steps. right. split; [done|].
  eapply fs_rep_intro; [exact Hs2|by rewrite length_insert, length_put_inode|exact Hrep2].
Qed.

(** The last part of [create_file_in_root], once the name is known to be new
    and slot [k] to be free: allocate an inode, write it, write the entry. *)
Lemma create_commit_rep s blks dblk st ok name k b :
  fs_at s (geometry (Z.of_nat (length blks))) blks ok → disk_rep blks dblk st →
  Forall is_u8 name → name_ok name = true → name ∉ names (a_slots st) →
  first_none (a_slots st) = Some k → blks !! Z.to_nat dblk = Some b →
  (∀ n, first_free (a_inodes st) = Some n →
     Z.of_nat n < Z.of_nat (length blks) / 10 * 4) →
  wp (inode_index ← allocate_inode;
      _ ← write_inode new_file_inode inode_index;
      '(r, dir_block_buf') ← lift (write_dirent_into_block b (Z.of_nat k) inode_index name);
      _ ← try r;
      _ ← on_device (dev_write dblk dir_block_buf');
      mret (inode_index, dblk)) s (λ r s',
    ok = false ∧ r = Err EBlockError ∧ crash_rep name st s' ∨
    create_agrees (abs_create name st).1 r ∧ fs_rep s' (abs_create name st).2 ok).
Proof.
  intros Hs Hrep Hu Hname Hnin Hk Hb Hroom. wp_step.
  destruct (rep_bitmap _ _ _ Hrep) as (bm & Hbm & Hbits).
  pose proof (rep_dblk _ _ _ Hrep) as Hd. pose proof (rep_cap _ _ _ Hrep) as Hcap.
  pose proof (lookup_lt_Some _ _ _ Hb) as Hdlt. pose proof (lookup_lt_Some _ _ _ Hbm) as Hlt1.
  pose proof (dev_at_cap _ _ _ (proj2 Hs)) as Hcapf. unfold fits in Hcapf.
  pose proof (fs_at_block _ _ _ _ _ _ Hs Hb) as Hblk. pose proof (fs_at_blocks _ _ _ _ Hs) as Hblks.
  set (cap := Z.of_nat (length blks)) in *. pose proof (Z.div_pos cap 10).
  pose proof (Z.mul_div_le cap 10).
  eapply wp_mono; [by apply (allocate_inode_spec _ _ _ _ _ Hs Hbm)|].
  rewrite Hbits. intros [i|e] s3; simpl.
  2: { intros [(-> & Hff & Hs3)|(-> & Hm & bm' & blks' & [_ Ht] & Hbm' & Hbits' & Hs3)].
       - right. unfold abs_create. rewrite Hname, decide_False, Hk, Hff by done. simpl.
         split; [done|]. by exists blks, dblk.
       - left. assert (ok = false) as -> by (destruct Hm as [Hm|Hm]; (eapply may_fail_ok; [exact Hm|]);
           unfold INODE_BITMAP_BLOCK; lia). split; [done|]. split; [done|]. intros Hat.
         destruct (Ht Hat) as [-> | ->]; [exists st; split; [by left|by exists blks, dblk]|].
         exists (mkAfs (a_slots st) (take_first (a_inodes st))). split; [by right; left|].
         eapply fs_rep_intro; [exact Hs3|apply length_insert|]. by apply disk_rep_bitmap. }
  intros (n & bm' & -> & Hff & Hbm' & Hbits' & _ & Hs3).
  change (Z.to_nat INODE_BITMAP_BLOCK) with 1%nat in Hs3. specialize (Hroom _ Hff).
  rewrite (abs_create_new name st k n) by done. simpl.
  assert (take_first (a_inodes st) = <[n := true]> (a_inodes st)) as Htake
    by (unfold take_first; by rewrite Hff).
  pose proof (disk_rep_bitmap _ _ _ bm' Hrep) as Hrep3. rewrite Htake in Hrep3.
  specialize (Hrep3 Hbits').
  assert (n ≠ 0)%nat as Hn0.
  { intros ->. apply first_free_Some in Hff as [Hff _]. pose proof (rep_root_bit _ _ _ Hrep). congruence. }
  eapply wp_mono.
  { apply (create_publish_rep s3 _ dblk _ ok name n k b (eq_rect_r (λ g, fs_at s3 g _ ok) Hs3
      (geometry_insert blks 1 bm')) Hrep3); simpl; rewrite ?length_insert; auto using name_ok_length.
    - by apply first_none_Some.
    - by rewrite list_lookup_insert_ne by lia.
    - fold cap. lia.
    - apply list_lookup_insert_eq. apply first_free_Some in Hff as [Hff _]. by eapply lookup_lt_Some.
    - intros j nm. by eapply first_free_unnamed. }
  intros r s4 [(-> & -> & Hc)|[-> Hs4]]; [left|by right].
  split; [done|]. split; [done|]. intros Hat. destruct (Hc Hat) as [Hr|Hr]; eexists; (split; [|exact Hr]).
  - right; left. by rewrite Htake.
  - right; right. by rewrite (abs_create_new name st k n).
Qed.

(** The first part of [create_file_in_root], which only reads: the root directory
    is found and scanned, and the call is over unless the name is new and a slot
    [k] is free. *)
Lemma create_scan_wp s blks dblk st ok name Q :
  fs_at s (geometry (Z.of_nat (length blks))) blks ok → disk_rep blks dblk st → name_ok name = true →
  (∀ s' e, fs_at s' (geometry (Z.of_nat (length blks))) blks ok →
     (e = EBlockError ∧ ok = false) ∨ (e = CorruptLayout ∧ name ∈ names (a_slots st))
     ∨ (e = ENoSpace ∧ (name ∉ names (a_slots st)) ∧ first_none (a_slots st) = None) →
     Q (Err e) s') →
  (∀ s' k b, fs_at s' (geometry (Z.of_nat (length blks))) blks ok → name ∉ names (a_slots st) →
     first_none (a_slots st) = Some k → blks !! Z.to_nat dblk = Some b →
     wp (inode_index ← allocate_inode;
         _ ← write_inode new_file_inode inode_index;
         '(r, dir_block_buf') ← lift (write_dirent_into_block b (Z.of_nat k) inode_index name);
         _ ← try r;
         _ ← on_device (dev_write dblk dir_block_buf');
         mret (inode_index, dblk)) s' Q) →
  wp (create_file_in_root name) s Q.
Proof.
  intros Hs Hrep Hname Herr Hgo. unfold create_file_in_root. rewrite name_ok_test, Hname. simpl.
  wp_step. eapply wp_mono; [by apply (read_root_spec s blks dblk st ok)|].
  intros [root|e] s1 [Hs1 Hr]; simpl; [|apply Herr; naive_solver].
  destruct Hr as [Hmode Hdp]. rewrite bool_decide_eq_true_2 by done. simpl.
  wp_steps. rewrite (index_Some _ _ dblk) by done. wp_steps.
  pose proof (rep_dblk _ _ _ Hrep) as Hd. pose proof (Z.div_pos (Z.of_nat (length blks)) 10).
  destruct (Z.eqb_spec dblk 0) as [|_]; [lia|]. wp_step.
  eapply wp_mono; [apply (fs_read_spec _ _ _ _ _ Hs1); lia|].
  destruct (rep_dir _ _ _ Hrep) as (b & Hb & Hlen & Hsl). pose proof (lookup_lt_Some _ _ _ Hb) as Hdlt.
  intros [b0|e] s2 [Hs2 Hr]; simpl.
  2: { destruct Hr as [-> Hm]. apply Herr; [done|]. left. split; [done|].
       eapply may_fail_ok; [done|]; lia. }
  destruct Hr as [Hb0 Hblk]. simplify_eq. wp_steps. rewrite scan_dir_spec, Hsl by done. wp_steps.
  case_decide as Hin; simpl; [apply Herr; naive_solver|].
  wp_steps. destruct (first_none (a_slots st)) as [k|] eqn:Hk; simpl; [|apply Herr; naive_solver].
  by apply Hgo.
Qed.

Lemma create_file_in_root_rep s st ok name :
  fs_rep s st ok → Forall is_u8 name →
  (∀ i, (abs_create name st).1 = Ok i → i < inode_count (superblock s)) →
  wp (create_file_in_root name) s (λ r s',
    ok = false ∧ r = Err EBlockError ∧ crash_rep name st s' ∨
    create_agrees (abs_create name st).1 r ∧ fs_rep s' (abs_create name st).2 ok).
Proof.
  intros (blks & dblk & Hs & Hrep) Hu Hroom. rewrite (proj1 Hs) in Hroom. simpl in Hroom.
  destruct (name_ok name) eqn:Hname.
  2: { unfold create_file_in_root. rewrite name_ok_test, Hname. simpl. wp_steps. right.
       unfold abs_create. rewrite Hname. split; [done|]. by exists blks, dblk. }
  eapply create_scan_wp; [done..| |].
  - intros s' e Hs' [(-> & ->)|[(-> & Hin)|(-> & Hin & Hk)]].
    + left. split; [done|]. split; [done|]. intros _. exists st. split; [by left|by exists blks, dblk].
    + right. unfold abs_create. rewrite Hname, decide_True by done. split; [done|]. by exists blks, dblk.
    + right. unfold abs_create. rewrite Hname, decide_False, Hk by done. split; [done|].
      by exists blks, dblk.
  - intros s' k b Hs' Hin Hk Hb. apply (create_commit_rep s' blks dblk st ok name k b); auto.
    intros n Hn. apply Hroom. by erewrite abs_create_new.
Qed.

(** [init_root_directory] on a freshly formatted medium. *)
Lemma init_root_directory_rep s blks ok :
  fs_at s (geometry (Z.of_nat (length blks))) blks ok →
  (∃ b, blks !! 0%nat = Some b ∧ sb_of_block b = Some (geometry (Z.of_nat (length blks)))) →
  blks !! 1%nat = Some zero_block → blks !! 2%nat = Some zero_block →
  10 ≤ Z.of_nat (length blks) →
  wp init_root_directory s (λ r s',
    (r = Ok tt ∧ fs_rep s' abs_init ok) ∨ (ok = false ∧ r = Err EBlockError)).
Proof.
  intros Hs Hb0 Hb1 Hb2 Hcap. pose proof (dev_at_cap _ _ _ (proj2 Hs)) as Hcapf. unfold fits in Hcapf.
  set (cap := Z.of_nat (length blks)) in *. pose proof (Z.div_pos cap 10).
  pose proof (Z.mul_div_le cap 10). unfold init_root_directory. wp_step.
  eapply wp_mono; [by apply (fs_read_spec _ _ _ _ _ Hs)|].
  intros [b|e] s1 [Hs1 Hr]; simpl.
  2: { right. destruct Hr as [-> Hm]. split; [|done]. eapply may_fail_ok; [exact Hm|].
       unfold INODE_BITMAP_BLOCK. lia. }
  destruct Hr as [Hb _]. change (Z.to_nat INODE_BITMAP_BLOCK) with 1%nat in Hb. simplify_eq.
  wp_steps. change (is_set zero_block 0) with (Ret false). wp_steps.
  rewrite set_first_bit. wp_steps.
  eapply wp_mono; [apply (fs_write_spec _ _ _ _ _ _ Hs1); [done|apply first_bit_block_ok]|].
  intros [[]|e] s2; simpl.
  2: { intros (-> & Hm & _). right. split; [|done]. eapply may_fail_ok; [exact Hm|].
       unfold INODE_BITMAP_BLOCK. lia. }
  change (Z.to_nat INODE_BITMAP_BLOCK) with 1%nat. intros [_ Hs2]. wp_steps.
  assert (<[1%nat := first_bit_block]> blks !! 2%nat = Some zero_block) as Hb2'.
  { by rewrite list_lookup_insert_ne. }
  eapply wp_mono; [apply (allocate_data_block_spec _ _ _ _ _ Hs2 Hb2'); simpl; lia|].
  change (first_free (bits zero_block)) with (Some 0%nat).
  intros [i|e] s3; simpl; [|intros [(_ & ? & _)|(-> & -> & _)]; [done|by right]].
  intros (n & bm2 & -> & [= <-] & Hbm2 & _ & Hs3). rewrite Z.add_0_r.
  set (dblk := 3 + cap / 10) in *.
  assert (inode_ok (root_inode dblk)) as Hri by (apply root_inode_ok; unfold fits; lia).
  wp_steps. eapply wp_mono; [by apply (write_inode_spec _ _ _ _ 0 (root_inode dblk) Hs3)|].
  change (inode_table_start_block _) with 3. intros [[]|e] s4; simpl.
  2: { intros (-> & Hm & _). right. split; [|done]. eapply may_fail_ok; [exact Hm|].
       rewrite !length_insert. change (3 + 0 / 4) with 3. lia. }
  intros [_ Hs4]. wp_steps.
  rewrite write_dot. wp_steps. rewrite write_dotdot. wp_steps.
  eapply wp_mono; [apply (fs_write_spec _ _ _ _ _ _ Hs4); [lia|apply root_dir_block_ok]|].
  intros [[]|e] s5; simpl.
  2: { intros (-> & Hm & _). right. split; [|done]. eapply may_fail_ok; [exact Hm|].
       rewrite length_put_inode, !length_insert. lia. }
  intros [_ Hs5]. wp_steps. left. split; [done|].
  exists (<[Z.to_nat dblk := root_dir_block]> (put_inode (<[2%nat := bm2]>
            (<[1%nat := first_bit_block]> blks)) 3 0 (root_inode dblk))), dblk.
  split; [rewrite geometry_insert, length_put_inode, !length_insert; exact Hs5|].
  apply disk_rep_init; [by eapply fs_at_blocks|lia|done|unfold fits; lia|fold cap; lia|done].
Qed.
End refine.
