(* ===== verification/SimpleFsProps.v ===== *)
(** The properties of the file system: refinement of the abstract directory,
    round trips, geometry, framing, and the behaviours the code has at its
    edges. *)
From S2P Require Import Prelude Bytes Bitmap Layout BlockDev SimpleFs SimpleFsSpec SimpleFsRep.
Local Open Scope Z_scope.

(** * A concrete file system for the witnesses *)
Definition demo_disk (n : nat) : RamDisk := mkRamDisk (replicate n zero_block) None.

(** The state after running [m], or [s] if it panics. *)
Definition final {S E A} (m : prog S E A) (s : S) : S :=
  match m s with Ret (_, s') => s' | Panic _ => s end.

(** What [m] returns, without the state. *)
Definition reply {S E A} (m : prog S E A) (s : S) : outcome (result A E) :=
  match m s with Ret (r, _) => Ret r | Panic w => Panic w end.

Definition demo_formatted (n : nat) : SFS RamDisk :=
  mkSFS (final format (demo_disk n)) (geometry (Z.of_nat n)).
Definition demo_fs (n : nat) : SFS RamDisk := final init_root_directory (demo_formatted n).

Lemma demo_disk_at n : Z.of_nat n < 2 ^ 64 → dev_at (demo_disk n) (replicate n zero_block) true.
Proof.
  intros Hn. split; [|done]. split; simpl.
  - apply Forall_replicate, zero_block_ok.
  - rewrite length_replicate. unfold fits. lia.
Qed.

Lemma final_run {S E A} (m : prog S E A) s r s' : m s = Ret (r, s') → final m s = s'.
Proof. unfold final. by intros ->. Qed.

Lemma demo_formatted_at n :
  (10 ≤ n)%nat → Z.of_nat n < 2 ^ 64 →
  fs_at (demo_formatted n) (geometry (Z.of_nat n))
    (formatted (geometry (Z.of_nat n)) (replicate n zero_block)) true.
Proof.
  intros Hn Hn'. pose proof (format_spec _ _ _ (demo_disk_at n Hn')) as Hf.
  rewrite length_replicate in Hf. specialize (Hf ltac:(lia)).
  apply wp_run in Hf as ([fs|e] & d' & Hrun & Hr); [|naive_solver].
  destruct Hr as [Hd [Hsb Hat]]. unfold demo_formatted. rewrite (final_run _ _ _ _ Hrun).
  split; [done|]. simpl. by rewrite <- Hd.
Qed.

Lemma formatted_bitmaps sb blks k :
  (3 ≤ length blks)%nat → k = 1%nat ∨ k = 2%nat → formatted sb blks !! k = Some zero_block.
Proof.
  intros Hl [-> | ->]; unfold formatted; [rewrite list_lookup_insert_ne by done|];
    apply list_lookup_insert_eq; rewrite !length_insert; lia.
Qed.

Lemma formatted_super blks :
  3 ≤ Z.of_nat (length blks) → Z.of_nat (length blks) < 2 ^ 64 →
  let sb := geometry (Z.of_nat (length blks)) in
  ∃ b, formatted sb blks !! 0%nat = Some b ∧ sb_of_block b = Some sb.
Proof.
  intros Hl Hl' sb. exists (sb_block sb). split.
  - unfold formatted. rewrite !list_lookup_insert_ne by done. apply list_lookup_insert_eq. lia.
  - apply sb_of_sb_block, geometry_ok; [done|]. unfold fits. lia.
Qed.

Lemma demo_fs_rep n :
  (10 ≤ n)%nat → Z.of_nat n < 2 ^ 64 → fs_rep (demo_fs n) abs_init true.
Proof.
  intros Hn Hn'. pose proof (demo_formatted_at n Hn Hn') as Hat.
  set (blks := formatted _ _) in Hat.
  assert (length blks = n) as Hl by (subst blks; unfold formatted; by len).
  replace (geometry (Z.of_nat n)) with (geometry (Z.of_nat (length blks))) in Hat by by rewrite Hl.
  pose proof (init_root_directory_rep (demo_formatted n) blks true Hat) as Hi.
  apply wp_run in Hi as (r & s' & Hrun & [[_ Hrep]|[? _]]); [|done|..].
  - unfold demo_fs. by rewrite (final_run _ _ _ _ Hrun).
  - pose proof (formatted_super (replicate n zero_block)) as Hsup. rewrite length_replicate in Hsup.
    rewrite Hl. apply Hsup; lia.
  - apply formatted_bitmaps; [rewrite length_replicate; lia|by left].
  - apply formatted_bitmaps; [rewrite length_replicate; lia|by right].
  - lia.
Qed.

(** * Refinement *)

(** What the caller of [create_file] sees of the abstract result. *)
Definition create_result (ar : result Z FileSystemError) : result FileHandler FileError :=
  match ar with
  | Ok i => Ok (mkFileHandler i)
  | Err e => Err (create_file_error e)
  end.

Lemma create_file_rep `{BlockDeviceLaws D} (s : SFS D) st ok name :
  fs_rep s st ok → Forall is_u8 name →
  (∀ i, (abs_create name st).1 = Ok i → i < inode_count (superblock s)) →
  wp (create_file name) s (λ r s',
    (r = create_result (abs_create name st).1 ∧ fs_rep s' (abs_create name st).2 ok)
    ∨ (ok = false ∧ r = Err CreationFailed ∧ crash_rep name st s')).
Proof.
  intros Hrep Hu Hroom. unfold create_file. wp_step. wp_step.
  eapply wp_mono; [by apply (create_file_in_root_rep s st ok name)|].
  unfold create_agrees. intros [[i b]|e] s' [(-> & Hr & Hc)|[Ha Hr]]; simplify_eq/=.
  - destruct (abs_create name st) as [[?|?] ?]; try done; simplify_eq/=. wp_steps. by left.
  - by right.
  - destruct (abs_create name st) as [[?|?] ?]; try done; simplify_eq/=. by left.
Qed.

(** On a device that serves its requests a creation that should succeed does. *)
Lemma create_file_final `{BlockDeviceLaws D} (s : SFS D) st name i :
  fs_rep s st true → Forall is_u8 name → (abs_create name st).1 = Ok i → i < inode_count (superblock s) →
  fs_rep (final (create_file name) s) (abs_create name st).2 true.
Proof.
  intros Hrep Hu Hi Hroom. pose proof (create_file_rep s st true name Hrep Hu) as Hwp.
  apply wp_run in Hwp as (r & s' & Hrun & [[_ Hrep']|[? _]]); [|done|congruence].
  by rewrite (final_run _ _ _ _ Hrun).
Qed.

(** C1: [create_file] implements the abstract file system on every device that
    obeys the laws of the block-device trait. On a medium that represents [st]
    it never panics and either returns exactly what the abstract creation
    returns (the first free inode, or the error for a bad name, an existing
    name, a full directory or no free inode), leaving a medium that represents
    the abstract result; or the device failed under it and the caller gets
    [CreationFailed]. The last hypothesis is that an inode it hands out lies
    inside the inode table, which the code does not check. *)
Theorem create_file_refines (D : Type) (HD : BlockDevice D) (HL : BlockDeviceLaws D)
    (s : SFS D) (st : afs) (ok : bool) (name : list Z)
    (Hrep : fs_rep s st ok) (Hname : Forall is_u8 name)
    (Hroom : ∀ i, (abs_create name st).1 = Ok i → i < inode_count (superblock s)) :
  ∃ r s', create_file name s = Ret (r, s') ∧
    ((r = create_result (abs_create name st).1 ∧ fs_rep s' (abs_create name st).2 ok)
     ∨ (ok = false ∧ r = Err CreationFailed)).
Proof.
  apply wp_run. eapply wp_mono; [by apply create_file_rep|]. naive_solver.
Qed.

Lemma create_file_refines_witness :
  fs_rep (demo_fs 40) abs_init true ∧ Forall is_u8 (str_of "hello.txt") ∧
  ∃ s', create_file (str_of "hello.txt") (demo_fs 40) = Ret (Ok (mkFileHandler 1), s').
Proof.
  pose proof (demo_fs_rep 40 ltac:(lia) ltac:(lia)) as Hrep.
  assert (Forall is_u8 (str_of "hello.txt")) as Hu by by_decide.
  split; [done|]. split; [done|].
  destruct (create_file_refines RamDisk _ _ (demo_fs 40) abs_init true (str_of "hello.txt")
    Hrep Hu) as (r & s' & Hrun & [[-> _]|[? _]]).
  - intros n Hn. vm_compute in Hn. injection Hn as <-. by vm_compute.
  - exists s'. rewrite Hrun. by vm_compute.
  - done.
Defined.

(** * Round trips *)

(** C23: a device formatted by [format] is mounted by [mount] with the very
    superblock [format] returned, and mounting does not change the medium, which
    is the old one with the superblock and two empty bitmaps written to blocks
    0, 1 and 2. *)
Theorem format_mount_roundtrip (D : Type) (HD : BlockDevice D) (HL : BlockDeviceLaws D)
    (d : D) (blks : list (list Z)) (Hd : dev_at d blks true) (H3 : 3 ≤ Z.of_nat (length blks)) :
  ∃ fs d', format d = Ret (Ok fs, device fs)
    ∧ mount (device fs) = Ret (Ok (mkSFS d' (superblock fs)), d')
    ∧ dev_blocks d' = formatted (superblock fs) blks.
Proof.
  pose proof (format_spec d blks true Hd H3) as Hf.
  apply wp_run in Hf as ([fs|e] & d1 & Hf & Hr); [|naive_solver].
  destruct Hr as (<- & Hsb & Hat). exists fs.
  pose proof (geometry_ok _ H3 (dev_at_cap _ _ _ Hd)) as Hok.
  pose proof (mount_spec (device fs) _ (sb_block (superblock fs)) Hat) as Hm.
  rewrite Hsb in Hm.
  apply wp_run in Hm as ([fs2|e] & d2 & Hm & Hat2 & Hr).
  - destruct Hr as (Hd2 & Hs2 & _). rewrite sb_of_sb_block in Hs2 by done.
    injection Hs2 as Hs2. exists d2. rewrite Hf, Hm, Hsb. destruct fs2; simplify_eq/=.
    split_and!; [done|done|apply Hat2].
  - destruct Hr as (_ & sb & Hs2 & Hmg). rewrite sb_of_sb_block in Hs2 by done. by simplify_eq.
  - unfold formatted. rewrite !list_lookup_insert_ne by done.
    apply list_lookup_insert_eq. lia.
Qed.

Lemma format_mount_roundtrip_witness :
  dev_at (demo_disk 40) (replicate 40 zero_block) true ∧
  ∃ fs d', format (demo_disk 40) = Ret (Ok fs, device fs)
    ∧ mount (device fs) = Ret (Ok (mkSFS d' (superblock fs)), d').
Proof.
  split; [by apply demo_disk_at|].
  destruct (format_mount_roundtrip RamDisk _ _ (demo_disk 40) (replicate 40 zero_block))
    as (fs & d' & H1 & H2 & _); [by apply demo_disk_at|by rewrite length_replicate|].
  by exists fs, d'.
Defined.

(** C16: the inode table is an array of inodes. On a device that serves its
    requests, [write_inode] of a representable inode at an index whose block is
    on the medium succeeds, [read_inode] then returns exactly what was written,
    and reading any other index returns what it returned before the write. *)
Theorem write_read_inode (D : Type) (HD : BlockDevice D) (HL : BlockDeviceLaws D)
    (s : SFS D) (sb : SuperBlock) (blks : list (list Z)) (i : Inode) (idx j : Z)
    (Hs : fs_at s sb blks true) (Hi : inode_ok i)
    (Hits : 0 ≤ inode_table_start_block sb) (Hidx : 0 ≤ idx) (Hj : 0 ≤ j)
    (Hin : inode_table_start_block sb + idx / 4 < Z.of_nat (length blks))
    (Hjn : inode_table_start_block sb + j / 4 < Z.of_nat (length blks)) :
  ∃ s' s1 s2 r, write_inode i idx s = Ret (Ok tt, s')
    ∧ read_inode j s = Ret (r, s1)
    ∧ read_inode j s' = Ret (if decide (j = idx) then Ok i else r, s2).
Proof.
  pose proof (dev_at_cap _ _ _ (proj2 Hs)) as Hcap. unfold fits in Hcap.
  pose proof (Z.div_pos idx 4). pose proof (Z.div_pos j 4).
  pose proof (write_inode_spec s sb blks true idx i Hs Hits Hidx ltac:(lia) Hi) as Hw.
  apply wp_run in Hw as ([[]|e] & s' & Hw & Hr).
  2: { destruct Hr as (_ & Hm & _). apply may_fail_ok in Hm; [done|lia]. }
  destruct Hr as [Hlt Hs'].
  pose proof (read_inode_spec s sb blks true j Hs Hits Hj ltac:(lia)) as Hr1.
  apply wp_run in Hr1 as (r1 & s1 & Hr1 & _ & Hi1).
  pose proof (read_inode_spec s' sb _ true j Hs' Hits Hj ltac:(lia)) as Hr2.
  apply wp_run in Hr2 as (r2 & s2 & Hr2 & _ & Hi2).
  exists s', s1, s2, r1. rewrite Hw, Hr1, Hr2. split; [done|]. split; [done|].
  do 2 f_equal. assert (Forall is_block blks) as Hb by (eapply dev_at_blocks, Hs).
  assert (∀ l, length l = length blks →
    ¬ may_fail l true (inode_table_start_block sb + j / 4)) as Hnf.
  { intros l Hl Hm. apply may_fail_ok in Hm; [done|lia]. }
  case_decide as Hd.
  - subst. rewrite inode_at_put_same in Hi2 by done. destruct r2; [naive_solver|].
    destruct Hi2 as [_ [Hm|]]; [|done]. by apply Hnf in Hm; [|rewrite length_put_inode].
  - rewrite inode_at_put_other in Hi2 by (done || lia).
    destruct r1, r2; simplify_eq/=; try done.
    + destruct Hi2 as [_ [Hm|]]; [|congruence]. by apply Hnf in Hm; [|rewrite length_put_inode].
    + destruct Hi1 as [_ [Hm|]]; [|congruence]. by apply Hnf in Hm.
    + naive_solver.
Qed.

Lemma write_read_inode_witness :
  fs_at (demo_formatted 40) (geometry 40) (formatted (geometry 40) (replicate 40 zero_block)) true
  ∧ ∃ s' s2, write_inode (root_inode 7) 5 (demo_formatted 40) = Ret (Ok tt, s')
      ∧ read_inode 5 s' = Ret (Ok (root_inode 7), s2).
Proof.
  pose proof (demo_formatted_at 40 ltac:(lia) ltac:(lia)) as Hat.
  change (Z.of_nat 40) with 40 in Hat. split; [exact Hat|].
  destruct (write_read_inode RamDisk _ _ (demo_formatted 40) (geometry 40) _ (root_inode 7) 5 5
    Hat) as (s' & s1 & s2 & r & H1 & _ & H2).
  - split; simpl; try done; solve_fits.
  - done.
  - done.
  - done.
  - by vm_compute.
  - by vm_compute.
  - by exists s', s2.
Defined.

(** * Geometry *)

(** C34: [format] on a well-formed device: with fewer than three blocks the
    subtraction of the data area panics; otherwise the superblock divides the
    medium exactly into the three leading blocks, the inode table and the data
    area, every inode of the table has its own 128 bytes inside the table's
    blocks, and nothing overflows; the only other outcome is the error of a
    device that failed. *)
Theorem format_partition (D : Type) (HD : BlockDevice D) (HL : BlockDeviceLaws D)
    (d : D) (blks : list (list Z)) (ok : bool) (Hd : dev_at d blks ok) :
  (capacity d < 3 → format d = Panic POverflow) ∧
  (3 ≤ capacity d → ∃ r d', format d = Ret (r, d') ∧
    match r with
    | Err e => e = EBlockError ∧ ok = false
    | Ok fs =>
        let sb := superblock fs in
        sb_ok sb ∧ total_blocks sb = capacity d
        ∧ data_block_start sb + data_block_count sb = total_blocks sb
        ∧ (∀ i, 0 ≤ i < inode_count sb ↔
             0 ≤ i ∧ inode_table_start_block sb + i / 4 < data_block_start sb)
    end).
Proof.
  pose proof (dev_at_cap _ _ _ Hd) as Hcap. rewrite capacity_blocks, (proj1 (proj2 Hd)).
  split; intros H3.
  - apply format_small; rewrite capacity_blocks, (proj1 (proj2 Hd)); [done|lia].
  - pose proof (format_spec d blks ok Hd H3) as Hf.
    apply wp_run in Hf as (r & d' & Hrun & Hr). exists r, d'. split; [done|].
    destruct r as [fs|e]; [|done]. destruct Hr as (_ & -> & _).
    split; [by apply geometry_ok|]. simpl. unfold INODE_TABLE_START_BLOCK.
    split_and!; [done|lia|]. intros i. pose proof (Z.div_mod i 4).
    pose proof (Z.mod_pos_bound i 4). lia.
Qed.

Lemma format_partition_witness :
  dev_at (demo_disk 2) (replicate 2 zero_block) true ∧ format (demo_disk 2) = Panic POverflow.
Proof.
  assert (dev_at (demo_disk 2) (replicate 2 zero_block) true) as Hd by by apply demo_disk_at.
  split; [exact Hd|].
  by apply (proj1 (format_partition RamDisk _ _ (demo_disk 2) _ true Hd)).
Defined.

(** What [mount] accepts, on a device that serves its requests: it succeeds
    exactly when the magic number stored in block 0 is the file system's, and
    then with the superblock stored there; otherwise it reports
    [InvalidSuperBlock]. It never panics and never changes the medium. *)
Theorem mount_validates (D : Type) (HD : BlockDevice D) (HL : BlockDeviceLaws D)
    (d : D) (blks : list (list Z)) (b : list Z)
    (Hd : dev_at d blks true) (Hb : blks !! 0%nat = Some b) :
  ∃ sb d', sb_of_block b = Some sb ∧ dev_blocks d' = blks
    ∧ mount d = Ret (if decide (magic_number sb = MAGIC_NUMBER) then Ok (mkSFS d' sb)
                     else Err InvalidSuperBlock, d').
Proof.
  pose proof (mount_spec d blks b Hd Hb) as Hm.
  apply wp_run in Hm as ([fs|e] & d' & -> & Hd' & Hr).
  - destruct Hr as (Hd2 & Hsb & Hmg). exists (superblock fs), d'.
    rewrite decide_True by done. destruct fs; simplify_eq/=. split_and!; [done|apply Hd'|done].
  - destruct Hr as (-> & sb & Hsb & Hmg). exists sb, d'. rewrite decide_False by done.
    split_and!; [done|apply Hd'|done].
Qed.

Lemma mount_validates_witness :
  dev_at (demo_disk 40) (replicate 40 zero_block) true ∧
  ∃ d', mount (demo_disk 40) = Ret (Err InvalidSuperBlock, d').
Proof.
  split; [by apply demo_disk_at|].
  destruct (mount_validates RamDisk _ _ (demo_disk 40) (replicate 40 zero_block) zero_block)
    as (sb & d' & Hsb & _ & Hm); [by apply demo_disk_at|done|].
  exists d'. rewrite Hm. vm_compute in Hsb. injection Hsb as <-. done.
Defined.

(** * Allocation *)

(** [k] calls of [allocate_inode] in a row. *)
Fixpoint allocate_inodes `{BlockDevice D} (k : nat) : prog (SFS D) FileSystemError (list Z) :=
  match k with
  | O => mret []
  | S k => i ← allocate_inode; is_ ← allocate_inodes k; mret (i :: is_)
  end.

(** The clear bits of a bitmap, in order. *)
Fixpoint free_from (base : nat) (l : list bool) : list nat :=
  match l with
  | [] => []
  | b :: l => (if b then [] else [base]) ++ free_from (S base) l
  end.

Lemma free_from_first base l :
  free_from base l =
  match first_free l with
  | Some n => (base + n)%nat :: free_from base (<[n := true]> l)
  | None => []
  end.
Proof.
  revert base. induction l as [|[] l IH]; intros base; [done|..].
  - simpl. rewrite first_free_cons, IH. destruct (first_free l) as [n|]; simpl; [|done].
    f_equal. lia.
  - rewrite first_free_cons. simpl. f_equal. lia.
Qed.

Lemma allocate_inodes_spec `{BlockDeviceLaws D} k (s : SFS D) sb blks bm :
  fs_at s sb blks true → blks !! 1%nat = Some bm → inode_bitmap_block sb = 1 →
  wp (allocate_inodes k) s (λ r s',
    r = if decide (k ≤ length (free_from 0 (bits bm)))%nat
        then Ok (Z.of_nat <$> take k (free_from 0 (bits bm))) else Err ENoSpace).
Proof.
  revert s blks bm. induction k as [|k IH]; intros s blks bm Hs Hbm Hib;
    cbn [allocate_inodes].
  { wp_step. rewrite decide_True by lia. done. }
  pose proof (lookup_lt_Some _ _ _ Hbm) as Hlt. wp_step.
  eapply wp_mono; [apply (allocate_inode_spec s sb blks true bm); [done..|lia]|].
  intros [i|e] s1 Hr; simpl.
  - destruct Hr as (n & bm' & -> & Hn & Hblk & Hbits & _ & Hs1). rewrite Hib in Hs1. wp_step.
    eapply wp_mono; [apply (IH s1 _ bm' Hs1); [by apply list_lookup_insert_eq|done]|].
    intros r s2 ->. rewrite Hbits, (free_from_first 0 (bits bm)), Hn. simpl.
    case_decide; [rewrite decide_True by lia; simpl; wp_steps; done|by rewrite decide_False by lia].
  - assert (∀ id, id < 2 → ¬ may_fail blks true id) as Hnf.
    { intros id Hid Hm. apply may_fail_ok in Hm; [done|lia]. }
    destruct Hr as [(-> & Hn & _)|(_ & [Hm|Hm] & _)]; [|by apply Hnf in Hm..|].
    + rewrite (free_from_first 0 (bits bm)), Hn. by rewrite decide_False by (simpl; lia).
    + apply Hnf in Hm; [done|lia].
Qed.

(** C17: inodes are handed out once. From any bitmap, [k] successive calls of
    [allocate_inode] return the first [k] free inode numbers in increasing
    order, never one that is in use and never the same one twice; when fewer
    than [k] are free the last call reports [NoSpace]. Stated for a superblock
    whose inode bitmap is where [allocate_inode] reads it. *)
Theorem allocate_inode_sequence (D : Type) (HD : BlockDevice D) (HL : BlockDeviceLaws D)
    (k : nat) (s : SFS D) (sb : SuperBlock) (blks : list (list Z)) (bm : list Z)
    (Hs : fs_at s sb blks true) (Hbm : blks !! 1%nat = Some bm)
    (Hib : inode_bitmap_block sb = INODE_BITMAP_BLOCK) :
  ∃ s', allocate_inodes k s = Ret
    (if decide (k ≤ length (free_from 0 (bits bm)))%nat
     then Ok (Z.of_nat <$> take k (free_from 0 (bits bm))) else Err ENoSpace, s').
Proof.
  pose proof (allocate_inodes_spec k s sb blks bm Hs Hbm Hib) as Ha.
  apply wp_run in Ha as (r & s' & -> & ->). by exists s'.
Qed.

Lemma allocate_inode_sequence_witness :
  fs_at (demo_formatted 40) (geometry 40) (formatted (geometry 40) (replicate 40 zero_block)) true
  ∧ ∃ s', allocate_inodes 3 (demo_formatted 40) = Ret (Ok [0; 1; 2], s').
Proof.
  pose proof (demo_formatted_at 40 ltac:(lia) ltac:(lia)) as Hat.
  change (Z.of_nat 40) with 40 in Hat. split; [exact Hat|].
  destruct (allocate_inode_sequence RamDisk _ _ 3 (demo_formatted 40) (geometry 40) _ zero_block
    Hat) as [s' Hrun]; [done|done|].
  exists s'. rewrite Hrun. by vm_compute.
Defined.

(** [allocate_inode] reads the bitmap at the constant block 1 but writes it
    back to the block the superblock names. With a superblock that names another
    block (and [mount] checks only the magic number) the bit it set is lost, so
    two allocations in a row return the same inode number. *)
Theorem allocate_inode_split_bitmap (D : Type) (HD : BlockDevice D) (HL : BlockDeviceLaws D)
    (s : SFS D) (sb : SuperBlock) (blks : list (list Z)) (bm : list Z) (n : nat)
    (Hs : fs_at s sb blks true) (Hbm : blks !! 1%nat = Some bm)
    (Hn : first_free (bits bm) = Some n)
    (Hib : 0 ≤ inode_bitmap_block sb < Z.of_nat (length blks))
    (Hne : inode_bitmap_block sb ≠ INODE_BITMAP_BLOCK) :
  ∃ s1 s2, allocate_inode s = Ret (Ok (Z.of_nat n), s1)
    ∧ allocate_inode s1 = Ret (Ok (Z.of_nat n), s2).
Proof.
  pose proof (lookup_lt_Some _ _ _ Hbm) as Hlt. unfold INODE_BITMAP_BLOCK in Hne.
  assert (∀ s blks', fs_at s sb blks' true → length blks' = length blks →
    blks' !! 1%nat = Some bm → ∃ bm' s', allocate_inode s = Ret (Ok (Z.of_nat n), s')
      ∧ fs_at s' sb (<[Z.to_nat (inode_bitmap_block sb) := bm']> blks') true) as Hstep.
  { intros s0 blks' Hs0 Hl Hb. pose proof (allocate_inode_spec s0 sb blks' true bm Hs0 Hb) as Ha.
    apply wp_run in Ha as ([i|e] & s' & -> & Hr); [|exfalso|lia].
    - destruct Hr as (n' & bm' & -> & Hn' & _ & _ & _ & Hs'). simplify_eq. eauto.
    - destruct Hr as [(_ & ? & _)|(_ & [Hm|Hm] & _)]; [congruence|..];
        apply may_fail_ok in Hm; [done|lia|done|lia]. }
  destruct (Hstep s blks Hs eq_refl Hbm) as (bm1 & s1 & H1 & Hs1).
  destruct (Hstep s1 _ Hs1) as (bm2 & s2 & H2 & _); [by rewrite length_insert| |by exists s1, s2].
  rewrite list_lookup_insert_ne; [done|lia].
Qed.

(** A superblock with the right magic number and the inode bitmap in block 20. *)
Definition demo_moved_bitmap : SuperBlock := {|
  magic_number := MAGIC_NUMBER; total_blocks := 40; inode_bitmap_block := 20;
  data_bitmap_block := 2; inode_table_start_block := 3; inode_count := 16;
  data_block_start := 7; data_block_count := 33;
|}.

Lemma allocate_inode_split_bitmap_witness :
  ∃ s1 s2, allocate_inode (mkSFS (demo_disk 40) demo_moved_bitmap) = Ret (Ok 0, s1)
    ∧ allocate_inode s1 = Ret (Ok 0, s2).
Proof.
  apply (allocate_inode_split_bitmap RamDisk _ _ (mkSFS (demo_disk 40) demo_moved_bitmap)
    demo_moved_bitmap (replicate 40 zero_block) zero_block 0).
  - split; [done|]. by apply demo_disk_at.
  - done.
  - by vm_compute.
  - done.
  - done.
Defined.

(** * [add_root_dir_entry] *)

(** A slot [find_free_dir_slot] gives away: unused, or pointing to inode 0. *)
Definition reusable (o : option (list Z * Z)) : bool :=
  match o with None => true | Some (_, ino) => ino =? 0 end.
Definition first_reusable_slot (sl : list (option (list Z * Z))) : option nat :=
  fst <$> list_find reusable sl.

Lemma reusable_slot_of e : reusable (slot_of e) ↔ is_used e = false ∨ de_inode e = 0.
Proof.
  unfold slot_of. destruct (is_used e); simpl.
  - rewrite Is_true_true, Z.eqb_eq. naive_solver.
  - naive_solver.
Qed.

Lemma first_reusable_slots es : first_reusable es = first_reusable_slot (slot_of <$> es).
Proof.
  unfold first_reusable_slot. induction es as [|e es IH]; [done|].
  rewrite first_reusable_cons, fmap_cons, IH. simpl.
  pose proof (reusable_slot_of e). case_decide; case_decide; try tauto.
  by destruct (list_find _ (slot_of <$> es)) as [[]|].
Qed.

(** The slots of the root directory stored on a medium. *)
Definition root_dir_slots (blks : list (list Z)) : option (list (option (list Z * Z))) :=
  root ← inode_at blks 3 0; dblk ← direct_pointers root !! 0%nat;
  slots <$> blks !! Z.to_nat dblk.

Lemma root_dir_slots_insert blks dblk st b' :
  disk_rep blks dblk st → root_dir_slots (<[Z.to_nat dblk := b']> blks) = Some (slots b').
Proof.
  intros [? _ _ _ (root & Hroot & _ & Hdp) Hdb (b & Hb & _) _ _].
  unfold root_dir_slots. pose proof (lookup_lt_Some _ _ _ Hb).
  destruct (inode_blk_bound (Z.of_nat (length blks)) 0) as (_ & ? & ?).
  { pose proof (Z.div_le_mono 10 (Z.of_nat (length blks)) 10). change (10 / 10) with 1 in *. lia. }
  rewrite inode_at_insert_ne by lia. rewrite Hroot. simpl. rewrite Hdp. simpl.
  by rewrite list_lookup_insert_eq.
Qed.

Lemma add_root_dir_entry_spec `{BlockDeviceLaws D} (s : SFS D) st ok ino name :
  fs_rep s st ok → is_u64 ino → Forall is_u8 name → (length name ≤ 52)%nat →
  wp (add_root_dir_entry ino name) s (λ r s',
    (ok = false ∧ r = Err EBlockError) ∨
    match first_reusable_slot (a_slots st) with
    | Some k => r = Ok tt ∧ root_dir_slots (dev_blocks (device s'))
                            = Some (<[k := Some (name, ino)]> (a_slots st))
    | None => r = Err ENoSpace ∧ fs_rep s' st ok
    end).
Proof.
  intros (blks & dblk & Hs & Hrep) Hino Hname Hlen. unfold add_root_dir_entry.
  rewrite (proj2 (Z.ltb_ge _ _)) by (change DIR_NAME_MAX with 52; lia).
  wp_step. eapply wp_mono; [by apply (read_root_spec s blks dblk st ok)|].
  intros [root|e] s1 [Hs1 Hr]; [|left; naive_solver]. destruct Hr as [_ Hdp].
  destruct (rep_dir _ _ _ Hrep) as (b & Hb & Hok & Hsl). pose proof (lookup_lt_Some _ _ _ Hb).
  pose proof (rep_dblk _ _ _ Hrep). pose proof (Z.div_pos (Z.of_nat (length blks)) 10).
  assert (∀ id, id = dblk → may_fail blks ok id → ok = false) as Hmf.
  { intros id -> Hm. eapply may_fail_ok; [done|lia]. }
  wp_steps. rewrite (index_Some _ _ dblk) by done. wp_steps.
  rewrite (proj2 (Z.eqb_neq dblk 0)) by lia. wp_steps.
  eapply wp_mono; [apply (fs_read_spec s1 _ _ _ _ Hs1); lia|].
  intros [b'|e] s2 [Hs2 Hr]; simpl; [|left; naive_solver]. destruct Hr as [Hb' Hblk].
  rewrite Hb in Hb'. injection Hb' as <-.
  wp_steps. rewrite find_free_dir_slot_spec, first_reusable_slots by done. fold (slots b).
  rewrite Hsl. wp_steps.
  destruct (first_reusable_slot (a_slots st)) as [k|] eqn:Hk; simpl.
  2: { right. split; [done|]. by exists blks, dblk. }
  wp_steps. assert (k < 8)%nat as Hk8.
  { unfold first_reusable_slot in Hk. apply fmap_Some in Hk as ([? o] & Hf & ->).
    apply list_find_Some in Hf as [Hf _]. rewrite <- Hsl in Hf. by apply lookup_lt_Some in Hf. }
  destruct (write_dirent_spec b k ino name) as (b2 & -> & Hb2 & Hd2); try done. wp_steps.
  eapply wp_mono; [apply (fs_write_spec s2 _ _ _ _ _ Hs2); [lia|done]|].
  intros [[]|e] s3 Hr; simpl; [|left; naive_solver]. wp_steps. right. split; [done|].
  destruct Hr as [_ (_ & _ & -> & _)]. rewrite (root_dir_slots_insert _ _ st) by done.
  unfold slots at 1. rewrite Hd2, list_fmap_insert, slot_of_new_entry. by rewrite <- Hsl.
Qed.

(** C38: [add_root_dir_entry] stores the entry in the first slot that is unused
    or whose entry points to inode 0, and leaves the seven others alone; with no
    such slot it reports [NoSpace] and changes nothing. As the root directory
    itself is inode 0, the slot of a fresh directory is the one that holds
    [.], so the first call replaces that entry (the witness). *)
Theorem add_root_dir_entry_slot (D : Type) (HD : BlockDevice D) (HL : BlockDeviceLaws D)
    (s : SFS D) (st : afs) (ok : bool) (ino : Z) (name : list Z)
    (Hrep : fs_rep s st ok) (Hino : is_u64 ino) (Hname : Forall is_u8 name)
    (Hlen : (length name ≤ 52)%nat) :
  ∃ r s', add_root_dir_entry ino name s = Ret (r, s') ∧
    ((ok = false ∧ r = Err EBlockError) ∨
     match first_reusable_slot (a_slots st) with
     | Some k => r = Ok tt ∧ root_dir_slots (dev_blocks (device s'))
                             = Some (<[k := Some (name, ino)]> (a_slots st))
     | None => r = Err ENoSpace ∧ fs_rep s' st ok
     end).
Proof. apply wp_run. by apply add_root_dir_entry_spec. Qed.

Lemma add_root_dir_entry_slot_witness :
  ∃ s' sl, add_root_dir_entry 5 (str_of "a") (demo_fs 40) = Ret (Ok tt, s')
    ∧ root_dir_slots (dev_blocks (device s')) = Some sl ∧ str_of "." ∉ names sl.
Proof.
  destruct (add_root_dir_entry_slot RamDisk _ _ (demo_fs 40) abs_init true 5 (str_of "a"))
    as (r & s' & Hrun & [[? _]|Hr]).
  - by apply demo_fs_rep; lia.
  - solve_fits.
  - by_decide.
  - simpl. lia.
  - done.
  - destruct Hr as [-> Hsl]. exists s'. eexists. split; [exact Hrun|]. split; [exact Hsl|].
    by_decide.
Defined.

(** C35: a name the directory holds is refused. On every medium that represents
    [st], [create_file] of any name that some entry of [st] shows, whichever call
    stored it and [.] and [..] included, returns [Corrupt] (the code never produces
    the [FileExists] its comments announce), or [CreationFailed] when the device
    fails under it. It writes nothing: the medium is, block for block, what it was. *)
Theorem create_file_existing (D : Type) (HD : BlockDevice D) (HL : BlockDeviceLaws D)
    (s : SFS D) (st : afs) (ok : bool) (name : list Z)
    (Hrep : fs_rep s st ok) (Hname : name_ok name = true) (Hin : name ∈ names (a_slots st)) :
  ∃ r s', create_file name s = Ret (Err r, s')
    ∧ (r = Corrupt ∨ (ok = false ∧ r = CreationFailed))
    ∧ dev_blocks (device s') = dev_blocks (device s) ∧ superblock s' = superblock s.
Proof.
  destruct Hrep as (blks & dblk & Hs & Hrep).
  assert (wp (create_file_in_root name) s (λ r s', ∃ e, r = Err e
    ∧ (e = CorruptLayout ∨ (ok = false ∧ e = EBlockError))
    ∧ dev_blocks (device s') = dev_blocks (device s) ∧ superblock s' = superblock s)) as Hwp.
  { destruct Hs as (Hsb & Hwf & Hbl & Hk).
    eapply create_scan_wp; [by split|done|done| |done].
    intros s' e (Hsb' & _ & Hbl' & _) He. exists e. rewrite Hbl, Hbl', Hsb, Hsb'. naive_solver. }
  apply wp_run in Hwp as (r & s' & Hrun & e & -> & He & Hsame).
  unfold create_file, map_err_prog, mbind, prog_bind. rewrite Hrun. simpl.
  eexists _, s'. split; [reflexivity|]. split; [|done]. destruct He as [-> |[-> ->]]; simpl; auto.
Qed.

(** The name of the first of two files, and [..]. *)
Lemma create_file_existing_witness :
  let s2 := final (create_file (str_of "b")) (final (create_file (str_of "a")) (demo_fs 40)) in
  (∃ s3, create_file (str_of "a") s2 = Ret (Err Corrupt, s3)
     ∧ dev_blocks (device s3) = dev_blocks (device s2))
  ∧ ∃ s3, create_file (str_of "..") s2 = Ret (Err Corrupt, s3)
     ∧ dev_blocks (device s3) = dev_blocks (device s2).
Proof.
  intros s2. assert (fs_rep s2 (abs_create (str_of "b") (abs_create (str_of "a") abs_init).2).2 true) as Hrep.
  { apply (create_file_final _ _ _ 2); [apply (create_file_final _ _ _ 1)|..];
      [by apply demo_fs_rep; lia|by_decide|vm_compute; reflexivity|vm_compute; reflexivity
      |by_decide|vm_compute; reflexivity|vm_compute; reflexivity]. }
  split.
  - destruct (create_file_existing RamDisk _ _ s2 _ true (str_of "a") Hrep) as (r & s3 & Hrun & Hr & Hsame).
    + by vm_compute.
    + by_decide.
    + destruct Hr as [-> |[? _]]; [|done]. exists s3. split; [exact Hrun|exact (proj1 Hsame)].
  - destruct (create_file_existing RamDisk _ _ s2 _ true (str_of "..") Hrep) as (r & s3 & Hrun & Hr & Hsame).
    + by vm_compute.
    + by_decide.
    + destruct Hr as [-> |[? _]]; [|done]. exists s3. split; [exact Hrun|exact (proj1 Hsame)].
Defined.

(** * Inodes beyond the table *)

(** Bytes are stored as they are. *)
Lemma enc_fields_bytes l : Forall is_u8 l → enc_fields (zip (replicate (length l) 1%nat) l) = l.
Proof.
  induction 1 as [|v l Hv _ IH]; simpl; [done|]. rewrite IH. unfold fits in Hv. by rewrite Z.mod_small.
Qed.

(** The last eight bytes of an entry with a short name are padding. *)
Lemma new_entry_tail ino name :
  Forall is_u8 name → (length name ≤ 44)%nat → drop 56 (as_bytes (new_entry ino name)) = replicate 8 8.
Proof.
  intros Hu Hl. set (e := new_entry ino name).
  assert (length (de_name e) = 52%nat) as Hn by (simpl; len).
  assert (as_bytes e = le_bytes 8 ino ++ le_bytes 2 (Z.of_nat (length name)) ++ le_bytes 2 DIRENT_USED
    ++ de_name e) as ->.
  { rewrite <- (enc_fields_bytes (de_name e)) at 1; [by rewrite Hn|].
    simpl. apply Forall_app. split; [done|solve_fits]. }
  rewrite !app_assoc. rewrite drop_app_ge by len. rewrite !length_app, !length_le_bytes.
  change (de_name e) with (name ++ replicate (52 - length name) 8).
  rewrite drop_app_ge, drop_replicate by lia. f_equal. lia.
Qed.

(** The mode of an inode is in its bytes 120 and 121. *)
Lemma inode_mode_bytes bs (di : DiskInode) :
  ref_from_bytes bs = Some di → di_mode di = le_val (take 2 (drop 120 bs)).
Proof.
  unfold ref_from_bytes, repr_as_bytes. case_decide; [|done]. intros [= <-]. cbn [di_mode].
  by rewrite !drop_drop.
Qed.

(** An inode that lies over two directory entries, the second with a short name,
    does not decode: its mode would be two bytes of padding. *)
Lemma inode_over_entries b j ino name :
  is_block b → (j < 4)%nat → dirent_at b (2 * j + 1) = new_entry ino name →
  Forall is_u8 name → (length name ≤ 44)%nat → inode_in b (128 * j) = None.
Proof.
  intros Hb Hj He Hu Hlen. pose proof (is_block_length b Hb) as Hl. unfold inode_in.
  destruct (ref_from_bytes (sub b (128 * j) 128)) as [di|] eqn:Hdi; [|done]. simpl.
  apply inode_mode_bytes in Hdi. destruct (dirent_at_ok b (2 * j + 1) Hb ltac:(lia)) as (_ & _ & Hbs).
  rewrite He in Hbs. pose proof (new_entry_tail ino name Hu Hlen) as Ht. rewrite Hbs in Ht.
  assert (drop 120 (sub b (128 * j) 128) = replicate 8 8) as Hd.
  { rewrite <- Ht. unfold sub. rewrite !skipn_firstn_comm, !drop_drop. f_equal. f_equal. lia. }
  rewrite Hd in Hdi. unfold Inode_try_from. rewrite Hdi. by vm_compute.
Qed.

(** The last part of [create_file_in_root] when the first free inode [n] lies in
    the first block after the table and that block holds the root directory. *)
Lemma create_commit_beyond `{BlockDeviceLaws D} (s : SFS D) blks dblk st name k b n :
  fs_at s (geometry (Z.of_nat (length blks))) blks true → disk_rep blks dblk st →
  Forall is_u8 name → name_ok name = true → first_none (a_slots st) = Some k →
  blks !! Z.to_nat dblk = Some b → first_free (a_inodes st) = Some n → 3 + Z.of_nat n / 4 = dblk →
  wp (inode_index ← allocate_inode;
      _ ← write_inode new_file_inode inode_index;
      '(r, dir_block_buf') ← lift (write_dirent_into_block b (Z.of_nat k) inode_index name);
      _ ← try r;
      _ ← on_device (dev_write dblk dir_block_buf');
      mret (inode_index, dblk)) s (λ r s',
    r = Ok (Z.of_nat n, dblk) ∧ ∃ blks' b', fs_at s' (geometry (Z.of_nat (length blks))) blks' true
      ∧ length blks' = length blks ∧ blks' !! Z.to_nat dblk = Some b' ∧ is_block b'
      ∧ dirents b' = <[k := new_entry (Z.of_nat n) name]> (dirents b)).
Proof.
  intros Hs Hrep Hu Hname Hk Hb Hff Hn. pose proof (rep_dblk _ _ _ Hrep). pose proof (rep_cap _ _ _ Hrep).
  pose proof (Z.div_pos (Z.of_nat (length blks)) 10). destruct (rep_bitmap _ _ _ Hrep) as (bm & Hbm & Hbits).
  pose proof (lookup_lt_Some _ _ _ Hb). pose proof (fs_at_block _ _ _ _ _ _ Hs Hb) as Hblk.
  pose proof (dev_at_cap _ _ _ (proj2 Hs)) as Hcap. unfold fits in Hcap.
  assert (k < 8)%nat as Hk8.
  { apply first_none_Some, lookup_lt_Some in Hk. destruct (rep_dir _ _ _ Hrep) as (b0 & _ & _ & Hsl).
    by rewrite <- Hsl, length_slots in Hk. }
  assert (n < 4096)%nat as Hn4.
  { apply first_free_Some in Hff as [Hff _]. apply lookup_lt_Some in Hff. rewrite <- Hbits in Hff.
    rewrite length_bits, (is_block_length bm) in Hff; [lia|]. by eapply fs_at_block. }
  wp_step. eapply wp_mono; [by apply (allocate_inode_spec _ _ _ _ _ Hs Hbm)|].
  rewrite Hbits. intros [i|e] s1; simpl.
  2: { intros [(_ & ? & _)|(_ & [Hm|Hm] & _)]; [congruence|..]; apply may_fail_ok in Hm;
         unfold INODE_BITMAP_BLOCK in *; done || lia. }
  intros (n' & bm' & -> & Hff' & Hbm' & _ & _ & Hs1). rewrite Hff in Hff'. injection Hff' as <-.
  wp_steps. eapply wp_mono.
  { apply (write_inode_spec _ _ _ _ (Z.of_nat n) new_file_inode Hs1); simpl;
      unfold INODE_TABLE_START_BLOCK; [lia..|apply new_file_inode_ok]. }
  change (inode_table_start_block _) with 3. intros [[]|e] s2; simpl.
  2: { intros (_ & Hm & _). apply may_fail_ok in Hm; [done|]. rewrite length_insert. lia. }
  intros [_ Hs2]. wp_steps.
  destruct (write_dirent_spec b k (Z.of_nat n) name Hblk) as (b' & -> & Hb' & Hde); try done.
  { unfold fits. lia. }
  { by apply name_ok_length. }
  wp_steps. eapply wp_mono; [apply (fs_write_spec _ _ _ _ _ _ Hs2); [lia|done]|].
  intros [[]|e] s3; simpl.
  2: { intros (_ & Hm & _). apply may_fail_ok in Hm; [done|]. rewrite length_put_inode, length_insert. lia. }
  intros [_ Hs3]. wp_steps. split; [done|]. eexists _, b'. split; [exact Hs3|].
  rewrite length_insert, length_put_inode, length_insert. split; [done|]. split; [|done].
  apply list_lookup_insert_eq. rewrite length_put_inode, length_insert. lia.
Qed.

(** Reading an inode that lies over directory entries. *)
Lemma read_inode_over_entries `{BlockDeviceLaws D} (s : SFS D) cap blks b j ino nm :
  let i := cap / 10 * 4 + Z.of_nat j in
  fs_at s (geometry cap) blks true → cap = Z.of_nat (length blks) → (j < 4)%nat →
  blks !! Z.to_nat (3 + cap / 10) = Some b → is_block b →
  dirent_at b (2 * j + 1) = new_entry ino nm → Forall is_u8 nm → (length nm ≤ 44)%nat →
  ∃ s', read_inode i s = Ret (Err EBlockError, s').
Proof.
  intros i Hs Hcap Hj Hb Hblk He Hu Hl. pose proof (Z.div_pos cap 10). pose proof (Z.mul_div_le cap 10).
  pose proof (dev_at_cap _ _ _ (proj2 Hs)) as Hc. unfold fits in Hc. pose proof (lookup_lt_Some _ _ _ Hb).
  assert (i / 4 = cap / 10) as Hdiv by (symmetry; apply (Z.div_unique i 4 _ (Z.of_nat j)); lia).
  assert (i mod 4 = Z.of_nat j) as Hmod by (symmetry; apply (Z.mod_unique i 4 (cap / 10)); lia).
  pose proof (read_inode_spec s (geometry cap) blks true i Hs) as Hr.
  apply wp_run in Hr as ([x|e] & s' & Hrd & _ & Hi); [|by destruct Hi as [-> _]; exists s'|done|lia|].
  2: { change (inode_table_start_block (geometry cap)) with 3. lia. }
  exfalso. unfold inode_at, inode_blk, inode_off in Hi. simpl in Hi.
  unfold INODE_TABLE_START_BLOCK in Hi. rewrite Hdiv, Hmod, Hb in Hi. simpl in Hi.
  replace (Z.to_nat (Z.of_nat j * 128)) with (128 * j)%nat in Hi by lia.
  by rewrite (inode_over_entries b j ino nm) in Hi.
Qed.

(** C39: [allocate_inode] does not look at the superblock's [inode_count]. On a disk
    of any size and any device that serves its requests, with the root directory
    where [init_root_directory] puts it, let the first free inode be one of the four
    after the end of the table. [create_file] hands it out and returns a handle, but
    the inode was written into the block of the root directory and is then
    overwritten by the directory: when the directory has a short name (up to 44
    bytes) in the second of the two slots the inode covers, reading the inode back
    fails. For the first inode after the table that slot is the one of [..]. *)
Theorem create_file_beyond_table (D : Type) (HD : BlockDevice D) (HL : BlockDeviceLaws D)
    (s : SFS D) (blks : list (list Z)) (st : afs) (name : list Z) (j : nat)
    (b : list Z) (ino : Z) (nm : list Z)
    (Hs : fs_at s (geometry (Z.of_nat (length blks))) blks true)
    (Hrep : disk_rep blks (data_block_start (superblock s)) st) (Hname : Forall is_u8 name)
    (Hj : (j < 4)%nat) (Hnew : (abs_create name st).1 = Ok (inode_count (superblock s) + Z.of_nat j))
    (Hb : blks !! Z.to_nat (data_block_start (superblock s)) = Some b)
    (Hslot : dirent_at b (2 * j + 1) = new_entry ino nm) (Hnm : Forall is_u8 nm) (Hshort : (length nm ≤ 44)%nat) :
  let i := inode_count (superblock s) + Z.of_nat j in
  ∃ s', create_file name s = Ret (Ok (mkFileHandler i), s')
    ∧ ∃ s'', read_inode i s' = Ret (Err EBlockError, s'').
Proof.
  intros i. subst i. rewrite (proj1 Hs) in *. cbn [geometry data_block_start inode_count] in *.
  set (cap := Z.of_nat (length blks)) in *.
  set (i := cap / 10 * 4 + Z.of_nat j) in *. pose proof (Z.div_pos cap 10).
  unfold abs_create in Hnew. destruct (name_ok name) eqn:Hok; [|done]. simpl in Hnew.
  destruct (decide (name ∈ names (a_slots st))) as [|Hin]; [done|].
  destruct (first_none (a_slots st)) as [k|] eqn:Hk; [|done].
  destruct (first_free (a_inodes st)) as [n|] eqn:Hff; [|done]. injection Hnew as Hni.
  assert (i / 4 = cap / 10) as Hdiv
    by (symmetry; apply (Z.div_unique i 4 _ (Z.of_nat j)); unfold i; lia).
  assert (wp (create_file_in_root name) s (λ r s', r = Ok (Z.of_nat n, 3 + cap / 10)
    ∧ ∃ blks' b', fs_at s' (geometry cap) blks' true
      ∧ length blks' = length blks ∧ blks' !! Z.to_nat (3 + cap / 10) = Some b' ∧ is_block b'
      ∧ dirents b' = <[k := new_entry (Z.of_nat n) name]> (dirents b))) as Hwp.
  { eapply create_scan_wp; [done..| |]; [intros; naive_solver|].
    intros s' k' b0 Hs' _ Hk' Hb0. rewrite Hb in Hb0. rewrite Hk in Hk'. injection Hb0 as <-. injection Hk' as <-.
    apply (create_commit_beyond s' blks _ st name k b n); try done. rewrite Hni. lia. }
  apply wp_run in Hwp as (r & s' & Hrun & -> & blks' & b' & Hs' & Hl & Hb' & Hblk' & Hde).
  exists s'. split.
  { unfold create_file, map_err_prog, mbind, prog_bind. rewrite Hrun. simpl. by rewrite Hni. }
  apply (read_inode_over_entries s' _ blks' b' j ino nm Hs'); try done; [by rewrite Hl|].
  assert (dirents b' !! (2 * j + 1)%nat = Some (new_entry ino nm)) as Hl'.
  { rewrite Hde, list_lookup_insert_ne, lookup_dirents, Hslot; [done|lia|]. intros ->.
    destruct (rep_dir _ _ _ Hrep) as (b0 & Hb0 & _ & Hsl). simplify_eq.
    apply first_none_Some in Hk. rewrite <- Hsl, lookup_slots, Hslot, slot_of_new_entry in Hk by lia.
    done. }
  rewrite lookup_dirents in Hl' by lia. by injection Hl'.
Qed.

(** The fourth file on a disk of ten blocks, whose table has four inodes. *)
Lemma create_file_beyond_table_witness :
  let s1 := final (create_file (str_of "a")) (demo_fs 10) in
  let s2 := final (create_file (str_of "b")) s1 in
  let s3 := final (create_file (str_of "c")) s2 in
  inode_count (superblock s3) = 4
  ∧ ∃ s4, create_file (str_of "d") s3 = Ret (Ok (mkFileHandler 4), s4)
    ∧ ∃ s5, read_inode 4 s4 = Ret (Err EBlockError, s5).
Proof.
  intros s1 s2 s3. split; [vm_compute; reflexivity|].
  set (st1 := (abs_create (str_of "a") abs_init).2). set (st2 := (abs_create (str_of "b") st1).2).
  set (st3 := (abs_create (str_of "c") st2).2).
  assert (fs_rep s3 st3 true) as (blks & dblk & Hs & Hrep).
  { apply (create_file_final _ _ _ 3); [apply (create_file_final _ _ _ 2); [apply (create_file_final _ _ _ 1)|..]|..];
      [by apply demo_fs_rep; lia|by_decide|vm_compute; reflexivity|vm_compute; reflexivity
      |by_decide|vm_compute; reflexivity|vm_compute; reflexivity
      |by_decide|vm_compute; reflexivity|vm_compute; reflexivity]. }
  pose proof (proj1 (proj2 (proj2 Hs))) as Hbl.
  assert (dblk = data_block_start (superblock s3)) as ->.
  { destruct (rep_root _ _ _ Hrep) as (root & Hroot & _ & Hdp). rewrite <- Hbl in Hroot.
    vm_compute in Hroot. injection Hroot as <-. injection Hdp as <-. vm_compute. reflexivity. }
  destruct (rep_dir _ _ _ Hrep) as (b & Hb & _). rewrite <- Hbl in Hb.
  apply (create_file_beyond_table RamDisk _ _ s3 blks st3 (str_of "d") 0 b 0 (str_of "..") Hs Hrep);
    [by_decide|lia|vm_compute; reflexivity|by rewrite <- Hbl| |by_decide|vm_compute; lia].
  vm_compute in Hb. injection Hb as <-. vm_compute. reflexivity.
Defined.

(** * A corrupt directory *)

(** Entry [k] of the block is in use and claims more name bytes than it has;
    the entries before it are well formed and do not show [name]. *)
Definition bad_entry_at (b : list Z) (name : list Z) (k : nat) : Prop :=
  (k < 8)%nat ∧ is_used (dirent_at b k) = true ∧ DIR_NAME_MAX < de_name_len (dirent_at b k)
  ∧ ∀ j, (j < k)%nat → is_used (dirent_at b j) = true →
      de_name_len (dirent_at b j) ≤ DIR_NAME_MAX ∧ entry_name (dirent_at b j) ≠ name.

Lemma scan_dir_bad_entry b name k n i acc :
  is_block b → bad_entry_at b name k → (i ≤ k)%nat → (i + n = 8)%nat →
  scan_dir (S n) (mkDirEntryBlock b (Z.of_nat i)) (Z.of_nat i) name acc = Panic PIndex.
Proof.
  intros Hb (Hk & Hu & Hlen & Hbefore). revert i acc.
  induction n as [|n IH]; intros i acc Hi Hn; [lia|]. rewrite scan_dir_S.
  rewrite next_in by (done || lia). cbn [mbind outcome_bind].
  replace (Z.of_nat i + 1) with (Z.of_nat (S i)) by lia.
  destruct (dirent_at_ok b i Hb ltac:(lia)) as (_ & Hde & _).
  destruct (decide (i = k)) as [->|Hne].
  - rewrite Hu, slice_out; [done|]. rewrite (dirent_name_len _ Hde).
    change DIR_NAME_MAX with 52 in *. lia.
  - destruct (is_used (dirent_at b i)) eqn:Hui; [|apply IH; lia].
    destruct (Hbefore i ltac:(lia) Hui) as [Hl Hnm].
    rewrite slice_entry_name by done. cbn [mbind outcome_bind].
    rewrite bool_decide_eq_false_2 by done. apply IH; lia.
Qed.

Lemma prog_bind_run {S E A B} (m : prog S E A) (k : A → prog S E B) s a s' :
  m s = Ret (Ok a, s') → (m ≫= k) s = k a s'.
Proof. unfold mbind, prog_bind. by intros ->. Qed.

(** C33: on any device that serves its requests, a directory block on which an
    entry claims a name longer than the 52 bytes it has makes [create_file] panic
    the kernel instead of reporting [CorruptLayout], provided the scan reaches that
    entry: the slice [entry.name[..entry_name_len]] is taken with the length stored
    on the disk, which is never checked. *)
Theorem create_file_bad_entry (D : Type) (HD : BlockDevice D) (HL : BlockDeviceLaws D)
    (s : SFS D) (sb : SuperBlock) (blks : list (list Z)) (root : Inode) (dblk : Z)
    (b name : list Z) (k : nat)
    (Hs : fs_at s sb blks true) (Hits : inode_table_start_block sb = 3)
    (Hroot : inode_at blks 3 0 = Some root) (Hmode : mode root = Directory)
    (Hdp : direct_pointers root !! 0%nat = Some dblk) (Hdblk : 0 < dblk)
    (Hb : blks !! Z.to_nat dblk = Some b) (Hname : name_ok name = true)
    (Hbad : bad_entry_at b name k) :
  create_file name s = Panic PIndex.
Proof.
  pose proof (lookup_lt_Some _ _ _ Hb) as Hlt.
  pose proof (read_inode_spec s sb blks true 0 Hs) as Hr. rewrite Hits in Hr.
  apply wp_run in Hr as (r & s1 & Hr & Hs1 & Hi); [|done..].
  assert (r = Ok root) as ->.
  { destruct r; [congruence|]. destruct Hi as [_ [Hm|]]; [|congruence].
    apply may_fail_ok in Hm; [done|]. change (3 + 0 / 4) with 3.
    unfold inode_at in Hroot. destruct (blks !! inode_blk 3 0) eqn:Hl; [|done].
    apply lookup_lt_Some in Hl. change (inode_blk 3 0) with 3%nat in Hl. lia. }
  pose proof (fs_read_spec s1 sb blks true dblk Hs1 ltac:(lia)) as Hr2.
  apply wp_run in Hr2 as ([b'|e] & s2 & Hr2 & Hs2 & Hi2).
  2: { destruct Hi2 as [_ Hm]. apply may_fail_ok in Hm; [done|lia]. }
  destruct Hi2 as [Hb' Hblk]. rewrite Hb in Hb'. injection Hb' as <-.
  unfold create_file, mbind at 1, prog_bind at 1, map_err_prog.
  unfold create_file_in_root. rewrite name_ok_test, Hname. simpl.
  rewrite (prog_bind_run _ _ _ _ _ Hr), bool_decide_eq_true_2 by done. simpl.
  rewrite (index_Some _ _ dblk) by done.
  rewrite (prog_bind_run _ _ s1 dblk s1) by done.
  rewrite (proj2 (Z.eqb_neq dblk 0)) by lia. rewrite (prog_bind_run _ _ _ _ _ Hr2).
  unfold mbind at 1, prog_bind at 1, lift.
  replace (scan_dir 9 (DirEntryBlock_new b) 0 name None) with (@Panic (result (option Z) FileSystemError) PIndex); [done|].
  symmetry. exact (scan_dir_bad_entry b name k 8 0 None Hblk Hbad ltac:(lia) eq_refl).
Qed.

(** A root directory whose first entry claims 255 name bytes. *)
Definition demo_bad_block : list Z :=
  splice zero_block 0 (as_bytes (mkDiskDirEntry 1 255 DIRENT_USED (replicate 52 0))).
Definition demo_bad_blocks : list (list Z) :=
  <[4%nat := demo_bad_block]> (dev_blocks (device (demo_fs 10))).

Lemma create_file_bad_entry_witness :
  create_file (str_of "a") (mkSFS (mkRamDisk demo_bad_blocks None) (geometry 10)) = Panic PIndex.
Proof.
  apply (create_file_bad_entry RamDisk _ _ _ (geometry 10) demo_bad_blocks (root_inode 4) 4
    demo_bad_block (str_of "a") 0).
  - split; [done|]. split; [|done]. split; [|by vm_compute].
    apply Forall_insert.
    + destruct (demo_fs_rep 10 ltac:(lia) ltac:(lia)) as (blks & dblk & Hs & _).
      by apply fs_at_blocks in Hs as Hf; destruct Hs as (_ & _ & <- & _).
    + apply is_block_splice; [exact zero_block_ok|..].
      * apply as_bytes_u8, value_ok_dirent. split; simpl; try done; solve_fits.
      * vm_compute. lia.
  - done.
  - by vm_compute.
  - done.
  - done.
  - done.
  - by vm_compute.
  - by vm_compute.
  - split; [lia|]. split; [by vm_compute|]. split; [by vm_compute|]. intros j Hj. lia.
Defined.
