(* ===== verification/SimpleFsCrash.v ===== *)
(** What survives a failing disk: [create_file] on a device that may stop serving
    requests at any point, and mounting its medium again.

    A power failure in the middle of an operation is, for the medium, a device
    that serves no request from that point on, so the runs on failing devices
    cover it. The theorems are about devices that write a block as a whole or not
    at all ([dev_atomic]). *)
From S2P Require Import Prelude Bytes Bitmap Layout BlockDev SimpleFs SimpleFsSpec SimpleFsRep.
From S2P Require Import SimpleFsProps.
From stdpp Require Import relations.
Local Open Scope Z_scope.

Create HintDb keeps_db.

(** * The superblock of a mounted file system never changes *)
Section keeps.
Context `{BlockDevice D}.

Definition keeps_super {E A} (m : prog (SFS D) E A) : Prop :=
  ∀ s r s', m s = Ret (r, s') → superblock s' = superblock s.

Lemma keeps_bind {E A B} (m : prog (SFS D) E A) (k : A → prog (SFS D) E B) :
  keeps_super m → (∀ a, keeps_super (k a)) → keeps_super (m ≫= k).
Proof.
  intros Hm Hk s r s'. unfold mbind, prog_bind.
  destruct (m s) as [[[a|e] s1]|w] eqn:Hrun; intros Hr; simplify_eq/=; [|by eapply Hm].
  etrans; [by eapply Hk|by eapply Hm].
Qed.

Lemma keeps_pure {E A} (r : result A E) : keeps_super (try r).
Proof. intros s r' s' Hr. unfold try in Hr. by simplify_eq. Qed.

Lemma keeps_ret {E A} (a : A) : keeps_super (mret (M := prog (SFS D) E) a).
Proof. by intros s r' s' [= _ <-]. Qed.

Lemma keeps_throw {E A} (e : E) : keeps_super (A := A) (throw e).
Proof. intros s r' s' Hr. unfold throw in Hr. by simplify_eq. Qed.

Lemma keeps_gets {E A} (f : SFS D → A) : keeps_super (E := E) (gets f).
Proof. intros s r' s' Hr. unfold gets in Hr. by simplify_eq. Qed.

Lemma keeps_lift {E A} (o : outcome A) : keeps_super (E := E) (lift o).
Proof. intros s r' s' Hr. unfold lift in Hr. by destruct o; simplify_eq/=. Qed.

Lemma keeps_on_device {A} (m : prog D FileSystemError A) : keeps_super (on_device m).
Proof.
  intros s r s'. unfold on_device. destruct (m (device s)) as [[? ?]|?]; intros Hr; by simplify_eq/=.
Qed.

Lemma keeps_map_err {E E' A} (f : E → E') (m : prog (SFS D) E A) :
  keeps_super m → keeps_super (map_err_prog f m).
Proof.
  intros Hm s r s'. unfold map_err_prog. destruct (m s) as [[? ?]|?] eqn:Hrun; intros Hr; simplify_eq/=.
  by eapply Hm.
Qed.
End keeps.

#[export] Hint Resolve keeps_bind keeps_pure keeps_ret keeps_throw keeps_gets keeps_lift
  keeps_on_device keeps_map_err : keeps_db.

(** Follows the structure of a program. *)
Ltac keeps_steps :=
  repeat first [progress auto with keeps_db
               | apply keeps_bind; [|intros ?] | apply keeps_map_err | case_match].

Section superblock.
Context `{BlockDevice D}.

Lemma read_inode_keeps i : keeps_super (read_inode (D := D) i).
Proof. unfold read_inode. keeps_steps. Qed.

Lemma write_inode_keeps i n : keeps_super (write_inode (D := D) i n).
Proof. unfold write_inode. keeps_steps. Qed.

Lemma allocate_inode_keeps : keeps_super (allocate_inode (D := D)).
Proof. unfold allocate_inode. keeps_steps. Qed.

Lemma allocate_data_block_keeps : keeps_super (allocate_data_block (D := D)).
Proof. unfold allocate_data_block. keeps_steps. Qed.

Lemma init_root_directory_keeps : keeps_super (init_root_directory (D := D)).
Proof.
  unfold init_root_directory.
  keeps_steps; auto using write_inode_keeps, allocate_data_block_keeps with keeps_db.
Qed.

Lemma create_file_keeps name : keeps_super (create_file (D := D) name).
Proof.
  unfold create_file, create_file_in_root.
  keeps_steps; auto using read_inode_keeps, write_inode_keeps, allocate_inode_keeps with keeps_db.
Qed.
End superblock.

(** * The abstract directory under failures *)

(** File [nm] with inode [i] is in the directory. *)
Definition listed (st : afs) (e : list Z * Z) : Prop := ∃ k, a_slots st !! k = Some (Some e).

Lemma abs_create_listed name st e : listed st e → listed (snd (abs_create name st)) e.
Proof.
  intros [k Hk]. unfold abs_create. repeat case_match; try by exists k.
  exists k. simpl. rewrite list_lookup_insert_ne; [done|]. intros ->.
  match goal with H : first_none _ = Some _ |- _ => apply first_none_Some in H; congruence end.
Qed.

Lemma abs_create_Ok name st i :
  (abs_create name st).1 = Ok i →
  listed (snd (abs_create name st)) (name, i) ∧ (name ∉ names (a_slots st))
  ∧ ∃ n, i = Z.of_nat n ∧ a_inodes st !! n = Some false.
Proof.
  unfold abs_create. destruct (name_ok name); [|done]. simpl. case_decide; [done|].
  destruct (first_none _) as [k|] eqn:Hk; [|done]. destruct (first_free _) as [n|] eqn:Hn; [|done].
  intros [= <-]. split; [|split; [done|exists n; split; [done|by apply first_free_Some in Hn as [? _]]]].
  exists k. apply list_lookup_insert_eq. by eapply lookup_lt_Some, first_none_Some.
Qed.

Lemma crashed_listed name st st' e : crashed name st st' → listed st e → listed st' e.
Proof. intros [-> |[-> | ->]]; [done|done|]. apply abs_create_listed. Qed.

Section crash.
Context `{BlockDeviceLaws D}.
Implicit Types (s : SFS D) (st : afs) (ok : bool).

Lemma fs_rep_weaken s st ok : fs_rep s st ok → fs_rep s st false.
Proof. intros (blks & dblk & (Hsb & Hwf & Hb & _) & Hrep). by exists blks, dblk. Qed.

(** A medium that represents [st] is mounted, and what is mounted represents
    [st]. *)
Lemma mount_rep s st ok d :
  fs_rep s st ok → dev_at d (dev_blocks (device s)) true →
  ∃ fs d', mount d = Ret (Ok fs, d') ∧ device fs = d' ∧ superblock fs = superblock s ∧ fs_rep fs st true.
Proof.
  intros (blks & dblk & [Hsb Hat] & Hrep) Hd. destruct (rep_super _ _ _ Hrep) as (b & Hb & Hsup).
  assert (dev_blocks (device s) = blks) as Hblks by apply Hat. rewrite Hblks in Hd.
  pose proof (mount_spec d blks b Hd Hb) as Hm.
  apply wp_run in Hm as ([fs|e] & d' & Hm & Hd' & Hr).
  - destruct Hr as (<- & Hsup' & _). exists fs, (device fs).
    assert (superblock fs = geometry (Z.of_nat (length blks))) as Hg by congruence.
    split_and!; [done|done|congruence|]. by exists blks, dblk.
  - destruct Hr as (_ & sb & Hsb' & Hmg). rewrite Hsup in Hsb'. by simplify_eq.
Qed.

(** What [create_file] leaves, whether or not requests failed. *)
Lemma create_file_leaves s st ok name :
  dev_atomic → fs_rep s st ok → Forall is_u8 name →
  (∀ i, (abs_create name st).1 = Ok i → i < inode_count (superblock s)) →
  ∃ r s' st', create_file name s = Ret (r, s') ∧ superblock s' = superblock s
    ∧ fs_rep s' st' ok ∧ crashed name st st'
    ∧ (∀ h, r = Ok h → (abs_create name st).1 = Ok (fh_inode h) ∧ st' = (abs_create name st).2).
Proof.
  intros Hat Hrep Hname Hroom. pose proof (create_file_rep s st ok name Hrep Hname Hroom) as Hc.
  apply wp_run in Hc as (r & s' & Hrun & Hr). exists r, s'.
  pose proof (create_file_keeps name _ _ _ Hrun) as Hsb.
  destruct Hr as [[-> Hrep']|(-> & -> & Hc)].
  - exists (abs_create name st).2. split_and!; [done|done|done|by right; right|].
    intros h Hh. unfold create_result in Hh. by case_match; simplify_eq/=.
  - destruct (Hc Hat) as (st' & Hst' & Hrep'). by exists st'.
Qed.

(** ** Histories

    What happens to a mounted file system over time, with the files whose
    creation was acknowledged: a creation is requested, which may be served or
    fail half way; the device changes for the worse or the better without
    touching the medium; the medium is mounted anew by a working driver. *)
Inductive event : SFS D * list (list Z * Z) → SFS D * list (list Z * Z) → Prop :=
  | ev_create s acked name r s' :
      Forall is_u8 name → create_file name s = Ret (r, s') →
      event (s, acked)
        (s', match r with Ok h => (name, fh_inode h) :: acked | Err _ => acked end)
  | ev_device s acked d :
      dev_at d (dev_blocks (device s)) false →
      event (s, acked) (mkSFS d (superblock s), acked)
  | ev_remount s acked d fs d' :
      dev_at d (dev_blocks (device s)) true → mount d = Ret (Ok fs, d') →
      event (s, acked) (fs, acked).

(** The invariant of histories: the medium represents a directory that lists
    the files of the first directory [st0] and the acknowledged files, which have
    different names and inodes. *)
Definition durable (st0 : afs) (p : SFS D * list (list Z * Z)) : Prop :=
  4096 ≤ inode_count (superblock p.1) ∧
  ∃ st, fs_rep p.1 st false ∧ (∀ e, listed st0 e → listed st e)
    ∧ Forall (listed st) p.2 ∧ NoDup p.2.*1 ∧ NoDup p.2.*2.

(** An inode number the bitmap block can hand out is below 4096. *)
Lemma fs_rep_room s st ok name i :
  fs_rep s st ok → 4096 ≤ inode_count (superblock s) → (abs_create name st).1 = Ok i →
  i < inode_count (superblock s).
Proof.
  intros (blks & dblk & Hat & Hrep) Hc Hi. apply abs_create_Ok in Hi as (_ & _ & n & -> & Hn).
  destruct (rep_bitmap _ _ _ Hrep) as (bm & Hbm & Hbits). apply lookup_lt_Some in Hn.
  rewrite <- Hbits, length_bits in Hn. pose proof (fs_at_block _ _ _ _ _ _ Hat Hbm) as Hblk.
  apply is_block_length in Hblk. lia.
Qed.

Lemma fs_rep_listed s st ok e :
  fs_rep s st ok → listed st e → e.1 ∈ names (a_slots st) ∧ a_inodes st !! Z.to_nat e.2 = Some true.
Proof.
  intros (blks & dblk & _ & Hrep) [k Hk]. destruct e as [nm i]. split.
  - apply elem_of_names. by exists k, i.
  - by apply (rep_entries _ _ _ Hrep) in Hk as (_ & ? & _).
Qed.

Lemma acked_new s st ok name i acked :
  fs_rep s st ok → Forall (listed st) acked → (abs_create name st).1 = Ok i →
  NoDup acked.*1 → NoDup acked.*2 →
  NoDup ((name, i) :: acked).*1 ∧ NoDup ((name, i) :: acked).*2.
Proof.
  intros Hrep Hl Hi H1 H2. apply abs_create_Ok in Hi as (_ & Hnin & n & -> & Hn).
  rewrite Forall_forall in Hl. split; simpl; apply NoDup_cons; (split; [|done]);
    intros ([nm j] & Heq & He)%list_elem_of_fmap; apply Hl in He; simpl in Heq; subst;
    eapply fs_rep_listed in He as [? Hbit]; try done; simpl in *. rewrite Nat2Z.id in Hbit. congruence.
Qed.

Lemma event_durable st0 p p' : dev_atomic → event p p' → durable st0 p → durable st0 p'.
Proof.
  intros Hat [s acked name r s' Hu Hrun|s acked d Hd|s acked d fs d' Hd Hm]
    (Hc & st & Hrep & Hfirst & Hl & H1 & H2); simpl in *.
  - destruct (create_file_leaves s st false name Hat Hrep Hu) as (r' & s'' & st' & Hrun' & Hsb & Hrep' & Hcr & Hok).
    { intros i Hi. by eapply fs_rep_room. }
    rewrite Hrun in Hrun'. injection Hrun' as <- <-. split; [simpl; by rewrite Hsb|]. exists st'.
    assert (Forall (listed st') acked) as Hl'.
    { eapply Forall_impl; [exact Hl|]. intros e. by eapply crashed_listed. }
    assert (∀ e, listed st0 e → listed st' e) as Hfirst' by eauto using crashed_listed.
    destruct r as [h|e]; [|done]. destruct (Hok h eq_refl) as [Hi ->].
    destruct (acked_new s st false name (fh_inode h) acked) as [? ?]; try done.
    split_and!; try done. simpl. apply Forall_cons. split; [|done]. by apply abs_create_Ok.
  - split; [done|]. exists st. split_and!; try done.
    destruct Hrep as (blks & dblk & (Hsb & _ & <- & _) & Hrep). by exists (dev_blocks (device s)), dblk.
  - destruct (mount_rep s st false d Hrep Hd) as (fs' & d'' & Hm' & _ & Hsb & Hrep').
    rewrite Hm in Hm'. injection Hm' as <- <-. split; [simpl; by rewrite Hsb|].
    exists st. split_and!; try done. by eapply fs_rep_weaken.
Qed.

Lemma events_durable st0 p p' : dev_atomic → rtc event p p' → durable st0 p → durable st0 p'.
Proof. intros Hat. induction 1; eauto using event_durable. Qed.
Lemma fs_rep_inode_count s st ok :
  fs_rep s st ok → 10240 ≤ Z.of_nat (length (dev_blocks (device s))) → 4096 ≤ inode_count (superblock s).
Proof.
  intros (blks & dblk & (-> & _ & -> & _) & _) Hl. simpl.
  pose proof (Z.div_le_mono 10240 (Z.of_nat (length blks)) 10 ltac:(lia) Hl) as Hd.
  change (10240 / 10) with 1024 in Hd. unfold INODES_PER_BLOCK. lia.
Qed.
End crash.

(** * Creations in a row on a working disk *)

(** [create_file] for each name in turn, with the results. *)
Fixpoint create_files `{BlockDevice D} (ns : list (list Z)) (s : SFS D) :
    outcome (list (result FileHandler FileError) * SFS D) :=
  match ns with
  | [] => Ret ([], s)
  | name :: ns => '(r, s) ← create_file name s; '(rs, s) ← create_files ns s; Ret (r :: rs, s)
  end.

Fixpoint abs_creates (ns : list (list Z)) (st : afs) : list (result Z FileSystemError) * afs :=
  match ns with
  | [] => ([], st)
  | name :: ns =>
      let '(r, st) := abs_create name st in
      let '(rs, st) := abs_creates ns st in
      (r :: rs, st)
  end.

(** The directories that creations alone make: the entries fill the first slots,
    and the inodes but the root's the first numbers, one per file. *)
Definition dense (st : afs) : Prop :=
  ∃ es k l, a_slots st = (Some <$> es) ++ replicate k None
    ∧ a_inodes st = replicate (length es - 1) true ++ replicate l false
    ∧ (2 ≤ length es)%nat ∧ (length es + k = 8)%nat.

Lemma abs_init_dense : dense abs_init.
Proof. by exists [(str_of ".", 0); (str_of "..", 0)], 6%nat, 4095%nat. Qed.

Lemma first_none_used (es : list (list Z * Z)) sl :
  first_none ((Some <$> es) ++ sl) = (λ i, length es + i)%nat <$> first_none sl.
Proof.
  induction es as [|e es IH]; csimpl; [by destruct (first_none sl)|].
  rewrite first_none_cons, IH. by destruct (first_none sl).
Qed.

Lemma first_free_taken n l : first_free (replicate n true ++ l) = (λ i, n + i)%nat <$> first_free l.
Proof.
  rewrite first_free_app. destruct (first_free (replicate n true)) as [i|] eqn:Hi.
  - apply first_free_Some in Hi as [Hi _]. by apply lookup_replicate_1 in Hi as [? _].
  - by rewrite length_replicate.
Qed.

Lemma abs_create_dense name st :
  dense st →
  dense (abs_create name st).2 ∧ ∀ i, (abs_create name st).1 = Ok i → i < 7.
Proof.
  intros (es & k & l & Hsl & Hin & Hge & Hlen). unfold abs_create.
  assert (dense st) as Hsame by (by exists es, k, l).
  destruct (name_ok name); [|done]. simpl. case_decide; [done|].
  rewrite Hsl, Hin, first_none_used, first_free_taken. destruct k as [|k]; [done|]. simpl.
  destruct l as [|l]; [done|]. simpl. rewrite !Nat.add_0_r. split; [|intros i [= <-]; lia].
  exists (es ++ [(name, Z.of_nat (length es - 1))]), k, l. simpl. rewrite length_app. simpl.
  split_and!; [| |lia|lia].
  - rewrite fmap_app, <- app_assoc. rewrite insert_app_r_alt by (by rewrite length_fmap).
    by rewrite length_fmap, Nat.sub_diag.
  - rewrite insert_app_r_alt by (by rewrite length_replicate). rewrite length_replicate, Nat.sub_diag. simpl.
    replace (length es + 1 - 1)%nat with (S (length es - 1)) by lia.
    by rewrite replicate_S_end, <- app_assoc.
Qed.

Lemma create_files_rep `{BlockDeviceLaws D} ns (s : SFS D) st :
  fs_rep s st true → dense st → Forall (Forall is_u8) ns → 8 ≤ inode_count (superblock s) →
  ∃ s', create_files ns s = Ret (create_result <$> (abs_creates ns st).1, s')
    ∧ fs_rep s' (abs_creates ns st).2 true.
Proof.
  revert s st. induction ns as [|name ns IH]; intros s st Hrep Hd Hu Hc; cbn [create_files abs_creates].
  { by exists s. }
  apply Forall_cons in Hu as [Hu Hus]. destruct (abs_create_dense name st Hd) as [Hd' Hroom].
  pose proof (create_file_rep s st true name Hrep Hu) as Hcr.
  apply wp_run in Hcr as (r & s1 & Hrun & [[-> Hrep1]|[? _]]); [|done|].
  2: { intros i Hi. apply Hroom in Hi. lia. }
  rewrite Hrun. cbn [mbind outcome_bind]. apply create_file_keeps in Hrun.
  destruct (abs_create name st) as [r st1]. simpl in *.
  destruct (IH s1 st1 Hrep1 Hd' Hus) as (s2 & -> & Hrep2); [by rewrite Hrun|].
  cbn [mbind outcome_bind]. exists s2. by destruct (abs_creates ns st1).
Qed.

Lemma demo_fs_length n :
  (10 ≤ n)%nat → Z.of_nat n < 2 ^ 64 → length (dev_blocks (device (demo_fs n))) = n.
Proof.
  intros Hn Hn'. destruct (demo_fs_rep n Hn Hn') as (blks & dblk & (Hsb & _ & -> & _) & _).
  assert (superblock (demo_fs n) = geometry (Z.of_nat n)) as Hsb'.
  { unfold demo_fs, final. destruct (init_root_directory (demo_formatted n)) as [[r s']|] eqn:Hrun; [|done].
    by rewrite (init_root_directory_keeps _ _ _ Hrun). }
  rewrite Hsb' in Hsb. apply (f_equal total_blocks) in Hsb. simpl in Hsb. lia.
Qed.

(** * Properties *)

(** C9: a failing disk never corrupts the directory. On a device that writes
    whole blocks ([dev_atomic]), and as long as the inode to be handed out lies
    inside the table, whatever requests of [create_file] fail, it returns, and the
    medium it leaves is one that [mount] accepts: mounted by a working driver, as
    before, it represents the old directory, the old directory with one inode taken that no
    entry names, or the new directory, and it is the new directory when the
    caller was told that the file exists. *)
Theorem create_file_crash_safe (D : Type) (HD : BlockDevice D) (HL : BlockDeviceLaws D)
    (s : SFS D) (st : afs) (ok : bool) (name : list Z) (Hat : dev_atomic)
    (Hrep : fs_rep s st ok) (Hname : Forall is_u8 name)
    (Hroom : ∀ i, (abs_create name st).1 = Ok i → i < inode_count (superblock s)) :
  ∃ r s' st', create_file name s = Ret (r, s') ∧ crashed name st st' ∧ fs_rep s' st' ok
    ∧ (∀ h, r = Ok h → (abs_create name st).1 = Ok (fh_inode h) ∧ st' = (abs_create name st).2)
    ∧ ∀ d, dev_at d (dev_blocks (device s')) true →
        ∃ fs d', mount d = Ret (Ok fs, d') ∧ fs_rep fs st' true.
Proof.
  destruct (create_file_leaves s st ok name Hat Hrep Hname Hroom)
    as (r & s' & st' & Hrun & _ & Hrep' & Hcr & Hok).
  exists r, s', st'. split_and!; try done. intros d Hd.
  destruct (mount_rep s' st' ok d Hrep' Hd) as (fs & d' & Hm & _ & _ & Hr). eauto.
Qed.

(** The demo file system on a disk that serves [n] more requests. *)
Definition demo_failing (n : nat) : SFS RamDisk :=
  mkSFS (mkRamDisk (ram_blocks (device (demo_fs 40))) (Some n)) (superblock (demo_fs 40)).

Lemma demo_failing_rep n : fs_rep (demo_failing n) abs_init false.
Proof.
  destruct (demo_fs_rep 40 ltac:(lia) ltac:(lia)) as (blks & dblk & (Hsb & Hwf & Hb & _) & Hrep).
  exists blks, dblk. split; [|exact Hrep]. split; [exact Hsb|]. split; [exact Hwf|].
  split; [exact Hb|]. intros Hf. discriminate.
Qed.

(** The disk fails right after the inode bitmap was written. *)
Lemma create_file_crash_safe_witness :
  ∃ s' st' fs d', create_file (str_of "hello.txt") (demo_failing 4) = Ret (Err CreationFailed, s')
    ∧ crashed (str_of "hello.txt") abs_init st'
    ∧ mount (mkRamDisk (ram_blocks (device s')) None) = Ret (Ok fs, d') ∧ fs_rep fs st' true.
Proof.
  destruct (create_file_crash_safe RamDisk _ _ (demo_failing 4) abs_init false (str_of "hello.txt"))
    as (r & s' & st' & Hrun & Hcr & Hrep' & _ & Hm).
  - exact I.
  - apply demo_failing_rep.
  - by_decide.
  - intros i Hi. vm_compute in Hi. injection Hi as <-. by vm_compute.
  - assert (reply (create_file (str_of "hello.txt")) (demo_failing 4) = Ret (Err CreationFailed))
      as Hre by by vm_compute.
    unfold reply in Hre. rewrite Hrun in Hre. injection Hre as ->.
    destruct (Hm (mkRamDisk (ram_blocks (device s')) None)) as (fs & d' & Hmnt & Hrep).
    { destruct Hrep' as (blks & dblk & (_ & Hwf & _) & _). split; [exact Hwf|].
      split; [reflexivity|intros _; reflexivity]. }
    exists s', st', fs, d'. split; [exact Hrun|]. split; [exact Hcr|]. split; [exact Hmnt|exact Hrep].
Defined.

(** C12: on a disk of at least twenty blocks that works, a freshly initialised file
    system behaves like the abstract directory for ever: any sequence of
    [create_file] calls returns exactly what the abstract creations return, one
    after the other, and leaves a medium that represents their result. No call
    panics, and every inode handed out lies in the inode table, although the code
    does not check it: the directory is full before the table is. *)
Theorem create_files_refine (D : Type) (HD : BlockDevice D) (HL : BlockDeviceLaws D)
    (s : SFS D) (ns : list (list Z)) (Hrep : fs_rep s abs_init true)
    (Hsize : 20 ≤ Z.of_nat (length (dev_blocks (device s)))) (Hns : Forall (Forall is_u8) ns) :
  ∃ s', create_files ns s = Ret (create_result <$> (abs_creates ns abs_init).1, s')
    ∧ fs_rep s' (abs_creates ns abs_init).2 true.
Proof.
  apply create_files_rep; [done|apply abs_init_dense|done|].
  destruct Hrep as (blks & dblk & (-> & _ & Hb & _) & _). rewrite Hb in Hsize. simpl.
  pose proof (Z.div_le_mono 20 (Z.of_nat (length blks)) 10 ltac:(lia) Hsize) as Hd.
  change (20 / 10) with 2 in Hd. unfold INODES_PER_BLOCK. lia.
Qed.

(** The seventh file finds the directory full. *)
Lemma create_files_refine_witness :
  ∃ s', create_files (str_of <$> ["a"; "b"; "a"; "c"; "d"; "e"; "f"; "g"]%string) (demo_fs 20)
    = Ret ([Ok (mkFileHandler 1); Ok (mkFileHandler 2); Err Corrupt; Ok (mkFileHandler 3);
            Ok (mkFileHandler 4); Ok (mkFileHandler 5); Ok (mkFileHandler 6); Err NoSpace], s').
Proof.
  destruct (create_files_refine RamDisk _ _ (demo_fs 20)
    (str_of <$> ["a"; "b"; "a"; "c"; "d"; "e"; "f"; "g"]%string)) as (s' & Hrun & _).
  - apply demo_fs_rep; lia.
  - rewrite demo_fs_length; lia.
  - by_decide.
  - exists s'. rewrite Hrun. by vm_compute.
Defined.

(** C5: what was acknowledged is durable. Take a disk of at least 10240 blocks
    that writes whole blocks, and any history of creations, failures and
    remounts. The files whose creation was acknowledged have different names and
    different inodes; they are all in the directory the medium represents,
    together with the files that were there at the start; and a working driver
    can always mount that medium. *)
Theorem acknowledged_files_survive (D : Type) (HD : BlockDevice D) (HL : BlockDeviceLaws D)
    (s s' : SFS D) (st : afs) (ok : bool) (acked : list (list Z * Z)) (Hat : dev_atomic)
    (Hrep : fs_rep s st ok) (Hsize : 10240 ≤ Z.of_nat (length (dev_blocks (device s))))
    (Hrun : rtc event (s, []) (s', acked)) :
  NoDup acked.*1 ∧ NoDup acked.*2 ∧
  ∃ st', fs_rep s' st' false ∧ Forall (listed st') acked ∧ (∀ e, listed st e → listed st' e)
    ∧ ∀ d, dev_at d (dev_blocks (device s')) true →
        ∃ fs d', mount d = Ret (Ok fs, d') ∧ fs_rep fs st' true.
Proof.
  destruct (events_durable st _ _ Hat Hrun) as (_ & st' & Hrep' & Hst & Hl & H1 & H2).
  { split; [by eapply fs_rep_inode_count|]. exists st. split; [by eapply fs_rep_weaken|].
    split; [done|]. split; [done|]. split; constructor. }
  split; [done|]. split; [done|]. exists st'. split_and!; try done. intros d Hd.
  destruct (mount_rep s' st' false d Hrep' Hd) as (fs & d' & Hm & _ & _ & Hr). eauto.
Qed.

(** A disk of 10240 blocks: a file is created, the disk dies, its medium is
    mounted again, and the file is there. *)
Lemma acknowledged_files_survive_witness :
  ∃ fs st', rtc event (demo_fs (Z.to_nat 10240), []) (fs, [(str_of "a", 1)])
    ∧ fs_rep fs st' false ∧ listed st' (str_of "a", 1).
Proof.
  assert (∃ n : nat, n = Z.to_nat 10240) as [n Hn] by eauto. rewrite <- Hn.
  assert (fs_rep (demo_fs n) abs_init true) as Hrep by (apply demo_fs_rep; lia).
  assert (length (dev_blocks (device (demo_fs n))) = n) as Hlen by (apply demo_fs_length; lia).
  assert (Forall is_u8 (str_of "a")) as Hu by by_decide.
  pose proof (create_file_rep (demo_fs n) abs_init true (str_of "a") Hrep Hu) as Hc.
  apply wp_run in Hc as (r & s1 & Hrun & [[-> Hrep1]|[? _]]); [|done|].
  2: { intros i Hi. eapply fs_rep_room; [done| |done]. eapply fs_rep_inode_count; [done|lia]. }
  pose (dead := mkSFS (mkRamDisk (ram_blocks (device s1)) (Some 0%nat)) (superblock s1)).
  assert (ram_wf (device s1)) as Hwf by (destruct Hrep1 as (? & ? & (_ & ? & _) & _); done).
  destruct (mount_rep s1 _ true (mkRamDisk (ram_blocks (device s1)) None) Hrep1)
    as (fs & d' & Hm & _); [by split|].
  assert (rtc event (demo_fs n, []) (fs, [(str_of "a", 1)])) as Hev.
  { eapply rtc_l; [apply (ev_create _ _ _ _ _ Hu Hrun)|].
    eapply rtc_l; [apply (ev_device _ _ (device dead)); by split|].
    apply rtc_once. eapply (ev_remount dead); [|exact Hm]. by split. }
  destruct (acknowledged_files_survive RamDisk _ _ (demo_fs n) fs abs_init true [(str_of "a", 1)])
    as (_ & _ & st' & Hrep' & Hl & _).
  - exact I.
  - exact Hrep.
  - rewrite Hlen. lia.
  - exact Hev.
  - exists fs, st'. split_and!; [done|done|]. by apply Forall_cons in Hl as [? _].
Defined.
