(* ===== verification/Boot.v ===== *)
(** The storage part of [kernel_main] (src/src/main.rs, lines 95-168): the
    read/write test on block 0, mounting or formatting, and the creation of
    [hello.txt]. *)
From S2P Require Import Prelude Bytes Bitmap Layout BlockDev SimpleFs SimpleFsSpec SimpleFsRep SimpleFsProps.
Local Open Scope Z_scope.
Local Open Scope rust_scope.

Definition test_data : list Z :=
  str_of "hello world! this is a test message from blog_os kernel!".
Definition hello_txt : list Z := str_of "hello.txt".

Section boot.
Context `{BlockDevice D} {X : Type}.
(** [PciTransport::new] and [VirtIOBlk::new] on the device function the first
    driver was dropped from: the driver crate's, hence a parameter. Creating a
    driver takes memory from the kernel's frame allocator, whose state is [X]. *)
Context (reopen : D → X → outcome (D * X)).

(** The test of the driver: read block 0, write [test_data] to it, read back;
    [true] if what was read is what was written, which is only printed. *)
Definition block_test (blk_dev : D) : outcome (bool * D) :=
  '(r, _, blk_dev) ← read_blocks blk_dev 0 (replicate 512 0);
  _ ← expect r;
  write_buffer ← copy_from_slice (replicate 512 0) 0 (Z.of_nat (length test_data)) test_data;
  '(r, blk_dev) ← write_blocks blk_dev 0 write_buffer;
  _ ← expect r;
  '(r, read_buffer, blk_dev) ← read_blocks blk_dev 0 (replicate 512 0);
  _ ← expect r;
  got ← slice read_buffer 0 (Z.of_nat (length test_data));
  put ← slice write_buffer 0 (Z.of_nat (length test_data));
  Ret (bool_decide (got = put), blk_dev).

(** [match SFS::mount(blk_dev) { Ok(fs) => fs, Err(_) => .. }]. *)
Definition mount_or_format (blk_dev : D) (x : X) : outcome (SFS D * X) :=
  '(r, blk_dev) ← mount blk_dev;
  match r with
  | Ok fs => Ret (fs, x)
  | Err _ =>
      '(blk_dev_for_format, x) ← reopen blk_dev x;
      '(r, _) ← format blk_dev_for_format;
      fs ← expect r;
      '(r, fs) ← init_root_directory fs;
      _ ← expect r;
      Ret (fs, x)
  end.

(** The whole block, with the verdict of the test and what the two calls of
    [create_file] returned. *)
Definition storage_boot (blk_dev : D) (x : X) :
    outcome (bool * result FileHandler FileError * result FileHandler FileError * SFS D * X) :=
  '(passed, blk_dev) ← block_test blk_dev;
  '(fs, x) ← mount_or_format blk_dev x;
  '(r1, fs) ← create_file hello_txt fs;
  '(r2, fs) ← create_file hello_txt fs;
  Ret (passed, r1, r2, fs, x).
End boot.

(** The block the test leaves: its first four bytes are [hell], not the magic
    number. *)
Definition test_block : list Z := splice zero_block 0 test_data.

Lemma test_block_ok : is_block test_block.
Proof.
  apply is_block_splice; [exact zero_block_ok|by_decide|vm_compute; lia].
Qed.

Lemma test_block_magic sb : sb_of_block test_block = Some sb → magic_number sb ≠ MAGIC_NUMBER.
Proof. intros Hsb. vm_compute in Hsb. by injection Hsb as <-. Qed.

Section boot_spec.
Context `{BlockDeviceLaws D}.
Implicit Types (d : D) (blks : list (list Z)).

Lemma block_test_spec d blks :
  dev_at d blks true → (0 < length blks)%nat →
  ensures (block_test d) (λ p, p.1 = true ∧ dev_at p.2 (<[0%nat := test_block]> blks) true).
Proof.
  intros Hd Hl. unfold block_test.
  assert (∀ d blks, dev_at d blks true → (0 < length blks)%nat →
    ∃ buf d', read_blocks d 0 (replicate 512 0) = Ret (Ok tt, buf, d') ∧ dev_at d' blks true
      ∧ blks !! 0%nat = Some buf) as Hread.
  { clear. intros d blks (Hwf & Hb & Hok) Hl.
    destruct (read_blocks_spec d 0 (replicate 512 0) Hwf) as (r & buf & d' & Hr & Hwf' & _ & Hb' & Hrd & Hok').
    - done.
    - exact zero_block_ok.
    - destruct (Hok' (Hok eq_refl)) as [Hd' Hok'']. rewrite Hok'' in Hr.
      + exists buf, d'. split; [done|]. split; [split; [done|]; split; [congruence|done]|].
        rewrite <- Hb. apply Hrd. apply Hok''. rewrite capacity_blocks, Hb. lia.
      + rewrite capacity_blocks, Hb. lia. }
  destruct (Hread d blks Hd Hl) as (buf & d1 & -> & (Hwf1 & Hb1 & Hok1) & _). cbn [mbind outcome_bind expect].
  rewrite copy_from_slice_in by (vm_compute; done). cbn [mbind outcome_bind].
  change (splice (replicate 512 0) (Z.to_nat 0) test_data) with test_block.
  destruct (write_blocks_spec d1 0 test_block Hwf1) as (r & d2 & -> & Hwf2 & Hr & Hok2);
    [done|exact test_block_ok|].
  destruct (Hok2 (Hok1 eq_refl)) as [Hd2 Hr2].
  rewrite Hr2 in * by (rewrite capacity_blocks, Hb1; lia).
  cbn [mbind outcome_bind expect]. destruct Hr as [_ Hb2]. change (Z.to_nat 0) with O in Hb2.
  destruct (Hread d2 (<[0%nat := test_block]> blks)) as (buf' & d3 & -> & Hd3 & Hbuf).
  - split; [done|]. split; [congruence|done].
  - by rewrite length_insert.
  - rewrite list_lookup_insert_eq in Hbuf by done. injection Hbuf as <-. cbn [mbind outcome_bind expect].
    change (slice test_block 0 (Z.of_nat (length test_data))) with (Ret test_data). cbn [mbind outcome_bind].
    split; [by apply bool_decide_eq_true_2|exact Hd3].
Qed.

(** Opening the device again, with the frame allocator at [x], gives a driver
    that serves the same medium and leaves the allocator as [R] says. *)
Definition reopens {X} (reopen : D → X → outcome (D * X)) (x : X) (R : X → Prop) : Prop :=
  ∀ d blks, dev_at d blks true → ∃ d' x', reopen d x = Ret (d', x') ∧ dev_at d' blks true ∧ R x'.

Lemma format_init_spec d blks :
  dev_at d blks true → 10 ≤ Z.of_nat (length blks) →
  ∃ fs d' fs', format d = Ret (Ok fs, d') ∧ init_root_directory fs = Ret (Ok tt, fs')
    ∧ fs_rep fs' abs_init true.
Proof.
  intros Hd Hl. pose proof (format_spec d blks true Hd ltac:(lia)) as Hf.
  apply wp_run in Hf as ([fs|e] & d' & Hf & Hr); [|naive_solver]. destruct Hr as [_ Hat].
  set (sb := geometry _) in Hat.
  assert (length (formatted sb blks) = length blks) as Hlen by (unfold formatted; by len).
  pose proof (init_root_directory_rep fs (formatted sb blks) true) as Hi. rewrite Hlen in Hi.
  apply wp_run in Hi as (r & fs' & Hi & [[-> Hrep]|[? _]]); [|done|done|..].
  - by exists fs, d', fs'.
  - pose proof (dev_at_cap _ _ _ Hd) as Hc. unfold fits in Hc. apply formatted_super; lia.
  - apply formatted_bitmaps; [lia|by left].
  - apply formatted_bitmaps; [lia|by right].
  - done.
Qed.

Lemma mount_or_format_spec {X} (reopen : D → X → outcome (D * X)) x R d blks :
  reopens reopen x R → dev_at d (<[0%nat := test_block]> blks) true →
  10 ≤ Z.of_nat (length blks) →
  ensures (mount_or_format reopen d x) (λ p, fs_rep p.1 abs_init true ∧ R p.2).
Proof.
  intros Hre Hd Hl. unfold mount_or_format.
  pose proof (mount_spec d _ test_block Hd) as Hm.
  apply wp_run in Hm as ([fs|e] & d1 & -> & Hd1 & Hr); [|..|apply list_lookup_insert_eq; lia].
  - destruct Hr as (_ & Hsb & Hmg). by apply test_block_magic in Hsb.
  - cbn [mbind outcome_bind]. destruct (Hre d1 _ Hd1) as (d2 & x' & -> & Hd2 & HR).
    cbn [mbind outcome_bind].
    destruct (format_init_spec d2 _ Hd2) as (fs & d3 & fs' & Hf & Hi & Hrep);
      [by rewrite length_insert|].
    rewrite Hf. cbn [mbind outcome_bind expect]. by rewrite Hi.
Qed.

Lemma storage_boot_spec {X} (reopen : D → X → outcome (D * X)) x R d blks :
  reopens reopen x R → dev_at d blks true → 10 ≤ Z.of_nat (length blks) →
  ∃ fs x', storage_boot reopen d x = Ret (true, Ok (mkFileHandler 1), Err Corrupt, fs, x')
    ∧ fs_rep fs (abs_create hello_txt abs_init).2 true ∧ R x'.
Proof.
  intros Hre Hd Hl. unfold storage_boot. pose proof (block_test_spec d blks Hd ltac:(lia)) as Ht.
  apply ensures_run in Ht as ([passed d1] & -> & [Hpass Hd1]). simpl in Hpass, Hd1. subst passed.
  cbn [mbind outcome_bind].
  pose proof (mount_or_format_spec reopen x R d1 blks Hre Hd1 Hl) as Hm.
  apply ensures_run in Hm as ([fs x'] & -> & [Hrep HR]). simpl in Hrep, HR. cbn [mbind outcome_bind].
  assert (Forall is_u8 hello_txt) as Hu by by_decide.
  pose proof (create_file_rep fs abs_init true hello_txt Hrep Hu) as Hc.
  apply wp_run in Hc as (r & fs1 & -> & [[-> Hrep1]|[? _]]); [|done|].
  2: { intros i Hi. vm_compute in Hi. injection Hi as <-.
       destruct Hrep as (bs & dblk & [-> _] & [Hcap _ _ _ _ _ _ _ _]). simpl.
       pose proof (Z.div_le_mono 10 (Z.of_nat (length bs)) 10). change (10 / 10) with 1 in *. lia. }
  cbn [mbind outcome_bind].
  assert (abs_create hello_txt (abs_create hello_txt abs_init).2
          = (Err CorruptLayout, (abs_create hello_txt abs_init).2)) as Hagain by by vm_compute.
  pose proof (create_file_rep fs1 _ true hello_txt Hrep1 Hu) as Hc. rewrite Hagain in Hc.
  apply wp_run in Hc as (r & fs2 & -> & [[-> Hrep2]|[? _]]); [|done|done].
  exists fs2, x'. split; [by vm_compute|done].
Qed.
End boot_spec.

(** C11: what a boot does to the disk, whatever the disk held before. On a device
    that serves its requests and has at least ten blocks, the driver's test passes
    and the test message
    written to block 0 destroys the superblock, so [mount] never succeeds: the
    disk is formatted anew at every boot, [hello.txt] is always created as
    inode 1 even if it existed, the second creation is refused with [Corrupt],
    and the medium ends up representing exactly that one-file directory. The
    boot path never panics. *)
Theorem storage_boot_reformats (D : Type) (HD : BlockDevice D) (HL : BlockDeviceLaws D)
    (X : Type) (reopen : D → X → outcome (D * X)) (x : X) (R : X → Prop) (d : D)
    (blks : list (list Z))
    (Hre : reopens reopen x R) (Hd : dev_at d blks true) (Hl : 10 ≤ Z.of_nat (length blks)) :
  ∃ fs x', storage_boot reopen d x = Ret (true, Ok (mkFileHandler 1), Err Corrupt, fs, x')
    ∧ fs_rep fs (abs_create hello_txt abs_init).2 true ∧ R x'.
Proof. by apply (storage_boot_spec reopen x R d blks). Qed.
Lemma storage_boot_reformats_witness :
  let reopen (d : RamDisk) (x : nat) := Ret (d, S x) in
  reopens reopen 7%nat (λ x, x = 8%nat) ∧
  ∃ fs, storage_boot reopen (demo_disk 10) 7%nat
    = Ret (true, Ok (mkFileHandler 1), Err Corrupt, fs, 8%nat).
Proof.
  intros reopen.
  assert (reopens reopen 7%nat (λ x, x = 8%nat)) as Hre.
  { intros d blks Hd. exists d, 8%nat. split; [reflexivity|]. split; [exact Hd|reflexivity]. }
  split; [exact Hre|].
  destruct (storage_boot_reformats RamDisk _ _ nat reopen 7%nat (λ x, x = 8%nat) (demo_disk 10)
    (replicate 10 zero_block) Hre) as (fs & x' & Hrun & _ & Hx);
    [by apply demo_disk_at|by rewrite length_replicate|].
  rewrite Hx in Hrun. exists fs. exact Hrun.
Defined.
