(* ===== verification/Alloc.v ===== *)
(** What the three heap allocators share (src/src/allocator.rs): [align_up],
    the layouts of the core library, blocks of memory and their disjointness,
    and [GlobalAlloc] as an interface: a class of operations, a class of laws,
    and the guarantees a client gets from the laws alone. *)
From S2P Require Import Prelude.
Local Open Scope Z_scope.
Local Open Scope rust_scope.

Definition HEAP_START : Z := 0x444444440000.
Definition HEAP_SIZE : Z := 100 * 1024.

(** [!x] on [usize]. *)
Definition not64 (x : Z) : Z := Z.lxor x USIZE_MAX.

Definition align_up (addr align : Z) : outcome Z :=
  a ← addr +! align;
  a ← a -! 1;
  m ← align -! 1;
  Ret (Z.land a (not64 m)).

(** * [core::alloc::Layout] *)
Record Layout := mkLayout { lsize : Z; lalign : Z }.

Definition is_power_of_two (a : Z) : bool := (0 <? a) && (2 ^ Z.log2 a =? a).

Definition from_size_align (size align : Z) : result Layout unit :=
  if is_power_of_two align && (size <=? 2 ^ 63 - align) then Ok (mkLayout size align)
  else Err tt.

Definition align_to (l : Layout) (align : Z) : result Layout unit :=
  if is_power_of_two align then from_size_align (lsize l) (Z.max (lalign l) align)
  else Err tt.

(** The size rounded up to a multiple of the alignment. *)
Definition round_up (size align : Z) : Z := (size + align - 1) / align * align.
Definition pad_to_align (l : Layout) : Layout :=
  mkLayout (round_up (lsize l) (lalign l)) (lalign l).

(** The layouts a caller of [GlobalAlloc] may pass: what [Layout] guarantees,
    and a size that is not zero, as the trait requires. *)
Definition pow2 (a : Z) : Prop := ∃ k, 0 ≤ k < 64 ∧ a = 2 ^ k.
Record layout_ok (l : Layout) : Prop := {
  layout_align : pow2 (lalign l);
  layout_size : 0 < lsize l ≤ 2 ^ 63 - lalign l;
}.

(** * [Dummy] *)
Definition Dummy_alloc (layout : Layout) : outcome Z := Ret 0.
Definition Dummy_dealloc (ptr : Z) (layout : Layout) : outcome unit := Panic PExplicit.

(** * Alignment *)
Lemma pow2_pos a : pow2 a → 0 < a.
Proof. intros (k & ? & ->). apply Z.pow_pos_nonneg; lia. Qed.

Lemma pow2_le a : pow2 a → a ≤ 2 ^ 63.
Proof. intros (k & ? & ->). apply Z.pow_le_mono_r; lia. Qed.

Lemma pow2_divide a b : pow2 a → pow2 b → a ≤ b → (a | b).
Proof.
  intros (j & Hj & ->) (k & Hk & ->) Hle. exists (2 ^ (k - j)).
  rewrite <- Z.pow_add_r by (pose proof (Z.pow_le_mono_r_iff 2 j k); lia). f_equal. lia.
Qed.

Lemma is_power_of_two_pow2 a : pow2 a → is_power_of_two a = true.
Proof.
  intros (k & ? & ->). unfold is_power_of_two. rewrite Z.log2_pow2, Z.eqb_refl by lia.
  rewrite (proj2 (Z.ltb_lt _ _)); [done|]. apply Z.pow_pos_nonneg; lia.
Qed.

Lemma pow2_max a b : pow2 a → pow2 b → pow2 (Z.max a b).
Proof. intros. by destruct (Z.max_spec a b) as [[_ ->]|[_ ->]]. Qed.

Lemma land_not_ones a k :
  is_u64 a → 0 ≤ k ≤ 64 → Z.land a (not64 (Z.ones k)) = a / 2 ^ k * 2 ^ k.
Proof.
  intros Ha Hk. transitivity (Z.ldiff a (Z.ones k)).
  - apply Z.bits_inj'. intros n Hn. unfold not64. change USIZE_MAX with (Z.ones 64).
    rewrite Z.land_spec, Z.lxor_spec, Z.ldiff_spec.
    destruct (Z.lt_ge_cases n 64).
    + rewrite (Z.ones_spec_low 64) by lia. by destruct (Z.testbit (Z.ones k) n).
    + assert (Z.testbit a n = false) as ->; [|done].
      unfold fits in Ha. destruct (decide (a = 0)) as [->|]; [by rewrite Z.bits_0|].
      apply Z.bits_above_log2; [lia|]. apply Z.log2_lt_pow2; [lia|].
      apply Z.lt_le_trans with (2 ^ 64); [lia|]. apply Z.pow_le_mono_r; lia.
  - rewrite Z.ldiff_ones_r, Z.shiftl_mul_pow2, Z.shiftr_div_pow2 by lia. done.
Qed.

(** What [align_up] returns, when it does not overflow. *)
Lemma align_up_eq addr align :
  pow2 align → 0 ≤ addr → addr + align < 2 ^ 64 → align_up addr align = Ret (round_up addr align).
Proof.
  intros Hp Ha Hlt. pose proof (pow2_pos align Hp). unfold align_up, add64, sub64.
  rewrite checked_fits by (unfold fits; lia). cbn [mbind outcome_bind].
  rewrite checked_fits by (unfold fits; lia). cbn [mbind outcome_bind].
  rewrite checked_fits by (unfold fits; lia). cbn [mbind outcome_bind].
  destruct Hp as (k & Hk & ->). unfold round_up. f_equal.
  rewrite <- land_not_ones by (unfold fits; lia). do 2 f_equal. by rewrite Z.ones_equiv, Z.sub_1_r.
Qed.

Lemma align_up_over addr align :
  2 ^ 64 ≤ addr + align → align_up addr align = Panic POverflow.
Proof.
  intros. unfold align_up, add64. rewrite checked_over by (unfold fits; lia). done.
Qed.

Lemma round_up_spec addr align :
  0 < align → (align | round_up addr align) ∧ addr ≤ round_up addr align < addr + align.
Proof.
  intros Ha. unfold round_up. split; [by exists ((addr + align - 1) / align)|].
  pose proof (Z.div_mod (addr + align - 1) align). pose proof (Z.mod_pos_bound (addr + align - 1) align). lia.
Qed.

Lemma round_up_least addr align x :
  0 < align → (align | x) → addr ≤ x → round_up addr align ≤ x.
Proof.
  intros Ha [q ->] Hx. unfold round_up. apply Z.mul_le_mono_nonneg_r; [lia|].
  apply Z.lt_succ_r. apply Z.div_lt_upper_bound; lia.
Qed.

Lemma round_up_id addr align : 0 < align → (align | addr) → round_up addr align = addr.
Proof.
  intros Ha Hd. pose proof (round_up_least addr align addr Ha Hd).
  pose proof (round_up_spec addr align Ha). lia.
Qed.

(** [align_up] with a power of two returns the least multiple of [align]
    that is not below [addr] whenever [addr + align] fits a [usize], and panics
    on the overflow otherwise (also where the aligned address itself would
    fit). *)
Theorem align_up_correct (addr align : Z) (Haddr : is_u64 addr) (Halign : pow2 align) :
  (addr + align < 2 ^ 64 → ∃ r, align_up addr align = Ret r
     ∧ (align | r) ∧ addr ≤ r ∧ ∀ x, (align | x) → addr ≤ x → r ≤ x)
  ∧ (2 ^ 64 ≤ addr + align → align_up addr align = Panic POverflow).
Proof.
  pose proof (pow2_pos align Halign). split; intros Hlt; [|by apply align_up_over].
  exists (round_up addr align). destruct (round_up_spec addr align) as [? ?]; [done|].
  split_and!; [|done|lia|intros; by apply round_up_least].
  apply align_up_eq; [done|apply Haddr|done].
Qed.

Lemma align_up_correct_witness :
  align_up 13 8 = Ret 16 ∧ align_up (2 ^ 64 - 8) 8 = Panic POverflow.
Proof.
  assert (pow2 8) as Hp by (exists 3; split; [lia|done]). split.
  - destruct (align_up_correct 13 8 ltac:(solve_fits) Hp) as [(r & Hr & Hd & Hle & Hleast) _];
      [lia|]. rewrite Hr. f_equal.
    assert (r ≤ 16) by (apply Hleast; [by exists 2|lia]). destruct Hd as [q ->]. lia.
  - by apply (align_up_correct (2 ^ 64 - 8) 8 ltac:(solve_fits) Hp).
Defined.

(** * Blocks of memory: first address and length *)
Definition apart (b1 b2 : Z * Z) : Prop := b1.1 + b1.2 ≤ b2.1 ∨ b2.1 + b2.2 ≤ b1.1.

Fixpoint all_apart (l : list (Z * Z)) : Prop :=
  match l with
  | [] => True
  | b :: l => Forall (apart b) l ∧ all_apart l
  end.

(** [b] lies in the range from [lo] up to [hi]. *)
Definition within (lo hi : Z) (b : Z * Z) : Prop := lo ≤ b.1 ∧ b.1 + b.2 ≤ hi.

Lemma apart_sym b1 b2 : apart b1 b2 → apart b2 b1.
Proof. unfold apart. tauto. Qed.

(** The order of the blocks does not matter. *)
#[global] Instance all_apart_Permutation : Proper ((≡ₚ) ==> iff) all_apart.
Proof.
  intros l l' Hp. induction Hp as [|b l l' Hp IH|b1 b2 l|]; simpl; [done| | |by etrans].
  - by rewrite IH, Hp.
  - rewrite !Forall_cons. pose proof (apart_sym b1 b2). pose proof (apart_sym b2 b1). tauto.
Qed.

Lemma all_apart_cons b l : all_apart (b :: l) ↔ Forall (apart b) l ∧ all_apart l.
Proof. done. Qed.

(** A block may shrink, and be split in two. *)
Lemma apart_sub a s a' s' b : a ≤ a' → a' + s' ≤ a + s → apart (a, s) b → apart (a', s') b.
Proof. unfold apart. simpl. lia. Qed.

Lemma Forall_apart_sub a s a' s' l :
  a ≤ a' → a' + s' ≤ a + s → Forall (apart (a, s)) l → Forall (apart (a', s')) l.
Proof. intros ?? Hl. eapply Forall_impl; [exact Hl|]. intros b. by apply apart_sub. Qed.

Lemma apart_beyond lo hi a s l : hi ≤ a → Forall (within lo hi) l → Forall (apart (a, s)) l.
Proof.
  intros Ha Hl. eapply Forall_impl; [exact Hl|]. intros b [? ?]. right. simpl. lia.
Qed.

(** * The interface *)

(** [GlobalAlloc]: a null pointer is 0. *)
Class GlobalAlloc (A : Type) := {
  alloc : A → Layout → outcome (Z * A);
  dealloc : A → Z → Layout → outcome A;
}.

(** The bytes a client owns after an allocation. *)
Definition extent (pl : Z * Layout) : Z * Z := (pl.1, lsize pl.2).

(** What an allocator promises: [ga_inv a live] says that [a] is in a good
    state and that [live] are the allocations not yet given back; [ga_accepts]
    are the layouts it serves without a panic. *)
Class GlobalAllocLaws (A : Type) `{GlobalAlloc A} := {
  ga_inv : A → list (Z * Layout) → Prop;
  ga_accepts : Layout → Prop;
  ga_inv_apart a live : ga_inv a live → all_apart (extent <$> live);
  ga_inv_aligned a live : ga_inv a live → Forall (λ pl, pl.1 ≠ 0 ∧ (lalign pl.2 | pl.1)) live;
  alloc_law a live l :
    ga_inv a live → ga_accepts l →
    ∃ p a', alloc a l = Ret (p, a') ∧ ga_inv a' (if decide (p = 0) then live else (p, l) :: live);
  dealloc_law a live live' p l :
    ga_inv a live → live ≡ₚ (p, l) :: live' →
    ∃ a', dealloc a p l = Ret a' ∧ ga_inv a' live';
}.

(** * What a client sees *)
Inductive op :=
  | OAlloc (l : Layout)      (** allocate *)
  | OFree (i : nat).         (** give back the [i]-th live allocation *)

Definition op_ok (P : Layout → Prop) (o : op) : Prop :=
  match o with OAlloc l => P l | OFree _ => True end.

(** One operation of a client that keeps its live allocations in a list. *)
Definition client_step `{GlobalAlloc A} (o : op) (s : A * list (Z * Layout)) :
    outcome (A * list (Z * Layout)) :=
  let '(a, live) := s in
  match o with
  | OAlloc l =>
      '(p, a') ← alloc a l;
      Ret (a', if decide (p = 0) then live else (p, l) :: live)
  | OFree i =>
      match live !! i with
      | Some (p, l) => a' ← dealloc a p l; Ret (a', delete i live)
      | None => Ret (a, live)
      end
  end.

Fixpoint client_run `{GlobalAlloc A} (os : list op) (s : A * list (Z * Layout)) :
    outcome (A * list (Z * Layout)) :=
  match os with
  | [] => Ret s
  | o :: os => s' ← client_step o s; client_run os s'
  end.

Section client.
Context `{GlobalAllocLaws A}.

Lemma client_step_inv o a live :
  ga_inv a live → op_ok ga_accepts o →
  ensures (client_step o (a, live)) (λ s, ga_inv s.1 s.2).
Proof.
  intros Hinv Ho. destruct o as [l|i]; simpl.
  - destruct (alloc_law a live l Hinv Ho) as (p & a' & -> & Hinv'). exact Hinv'.
  - destruct (live !! i) as [[p l]|] eqn:Hi; [|done].
    destruct (dealloc_law a live (delete i live) p l Hinv) as (a' & -> & Hinv'); [|done].
    by apply delete_Permutation.
Qed.

(** Any sequence of valid operations runs without a panic and keeps the
    invariant. *)
Lemma client_run_inv os a live :
  ga_inv a live → Forall (op_ok ga_accepts) os →
  ensures (client_run os (a, live)) (λ s, ga_inv s.1 s.2).
Proof.
  intros Hinv Hos. revert a live Hinv. induction Hos as [|o os Ho Hos IH]; intros a live Hinv.
  - done.
  - cbn [client_run]. apply ensures_bind. eapply ensures_mono; [by apply client_step_inv|].
    intros [a' live'] Hinv'. by apply IH.
Qed.
End client.

(** * Sample layouts and operations *)
Lemma layout_ok_intro size k :
  0 ≤ k < 63 → 0 < size ≤ 2 ^ 63 - 2 ^ k → layout_ok (mkLayout size (2 ^ k)).
Proof. intros. split; [exists k; split; [lia|done]|done]. Qed.

(** Three allocations, of which the middle one is given back, and one too big. *)
Definition demo_ops : list op :=
  [OAlloc (mkLayout 10 1); OAlloc (mkLayout 24 8); OAlloc (mkLayout 5 16); OFree 1;
   OAlloc (mkLayout (2 ^ 40) 8)].

Lemma demo_ops_ok (P : Layout → Prop) :
  (∀ l, layout_ok l → lsize l ≤ 2 ^ 40 → P l) → Forall (op_ok P) demo_ops.
Proof.
  intros HP. unfold demo_ops. repeat apply Forall_cons_2; simpl; try done;
    apply HP; try (simpl; lia).
  - by apply (layout_ok_intro 10 0).
  - by apply (layout_ok_intro 24 3).
  - by apply (layout_ok_intro 5 4).
  - by apply (layout_ok_intro (2 ^ 40) 3).
Qed.
