(* ===== verification/Bump.v ===== *)
(** The bump allocator of src/src/allocator/bump.rs. The lock around it
    ([Locked]) only serialises the calls; each call is one step here. *)
From S2P Require Import Prelude Alloc.
Local Open Scope Z_scope.
Local Open Scope rust_scope.

Record BumpAllocator := mkBump {
  heap_start : Z;
  heap_end : Z;
  next : Z;
  allocations : Z;
}.

Definition BumpAllocator_new : BumpAllocator := mkBump 0 0 0 0.

Definition bump_init (b : BumpAllocator) (start size : Z) : outcome BumpAllocator :=
  stop ← start +! size;
  Ret (mkBump start stop start (allocations b)).

Definition bump_alloc (bump : BumpAllocator) (layout : Layout) : outcome (Z * BumpAllocator) :=
  alloc_start ← align_up (next bump) (lalign layout);
  match checked_add alloc_start (lsize layout) with
  | None => Ret (0, bump)
  | Some alloc_end =>
      if heap_end bump <? alloc_end then Ret (0, bump)
      else
        n ← allocations bump +! 1;
        Ret (alloc_start, mkBump (heap_start bump) (heap_end bump) alloc_end n)
  end.

Definition bump_dealloc (bump : BumpAllocator) (_ptr : Z) (_layout : Layout) :
    outcome BumpAllocator :=
  n ← allocations bump -! 1;
  Ret (mkBump (heap_start bump) (heap_end bump)
         (if n =? 0 then heap_start bump else next bump) n).

#[global] Instance bump_GlobalAlloc : GlobalAlloc BumpAllocator := {
  alloc := bump_alloc;
  dealloc := bump_dealloc;
}.

(** * The invariant *)
Record bump_inv (b : BumpAllocator) (live : list (Z * Layout)) : Prop := {
  bump_start : 0 < heap_start b;
  bump_end : heap_end b < 2 ^ 63;
  bump_next : heap_start b ≤ next b ≤ heap_end b;
  bump_count : allocations b = Z.of_nat (length live);
  bump_room : allocations b ≤ next b - heap_start b;
  bump_within : Forall (within (heap_start b) (next b)) (extent <$> live);
  bump_apart : all_apart (extent <$> live);
  bump_aligned : Forall (λ pl, pl.1 ≠ 0 ∧ (lalign pl.2 | pl.1)) live;
}.

Lemma within_mono lo hi hi' l : hi ≤ hi' → Forall (within lo hi) l → Forall (within lo hi') l.
Proof. intros ? Hl. eapply Forall_impl; [exact Hl|]. intros b []. split; lia. Qed.

(** The address [bump_alloc] tries. *)
Lemma bump_align b live l :
  bump_inv b live → layout_ok l →
  align_up (next b) (lalign l) = Ret (round_up (next b) (lalign l)).
Proof.
  intros [] [Hp [? ?]]. apply align_up_eq; [done|lia|]. pose proof (pow2_le _ Hp). lia.
Qed.

(** [alloc] as an equation: null with the state unchanged when the aligned
    block does not fit, else the aligned address, with [next] moved past the
    block. *)
Lemma bump_alloc_eq b live l :
  bump_inv b live → layout_ok l →
  let p := round_up (next b) (lalign l) in
  bump_alloc b l = Ret (if decide (p + lsize l ≤ heap_end b)
                        then (p, mkBump (heap_start b) (heap_end b) (p + lsize l) (allocations b + 1))
                        else (0, b)).
Proof.
  intros Hinv Hl p. unfold bump_alloc. rewrite (bump_align b live l) by done. fold p.
  cbn [mbind outcome_bind]. destruct Hinv, Hl as [Hp [? ?]].
  destruct (round_up_spec (next b) (lalign l)) as [_ Hr]; [by apply pow2_pos|]. fold p in Hr.
  pose proof (pow2_le _ Hp). unfold checked_add.
  destruct (decide (is_u64 (p + lsize l))) as [Hf|Hf].
  - case_decide; [rewrite (proj2 (Z.ltb_ge _ _)) by lia|by rewrite (proj2 (Z.ltb_lt _ _)) by lia].
    unfold add64. rewrite checked_fits; [done|]. unfold fits. lia.
  - rewrite decide_False; [done|]. unfold fits in Hf. lia.
Qed.

Lemma bump_alloc_inv b live l :
  bump_inv b live → layout_ok l →
  ∃ p b', bump_alloc b l = Ret (p, b') ∧
    bump_inv b' (if decide (p = 0) then live else (p, l) :: live).
Proof.
  intros Hinv Hl. rewrite (bump_alloc_eq b live l) by done.
  destruct (round_up_spec (next b) (lalign l)) as [Hd ?]; [by apply pow2_pos, Hl|].
  set (p := round_up (next b) (lalign l)) in *.
  case_decide; [|by exists 0, b]. eexists p, _. split; [done|].
  destruct Hinv, Hl as [Hp [? ?]]. rewrite decide_False by lia.
  split; simpl; try lia.
  - constructor; [split; simpl; lia|]. eapply within_mono; [|done]. lia.
  - split; [|done]. apply (apart_beyond (heap_start b) (next b) p (lsize l)); [lia|done].
  - constructor; [split; [simpl; lia|done]|done].
Qed.

Lemma bump_dealloc_inv b live live' p l :
  bump_inv b live → live ≡ₚ (p, l) :: live' →
  ∃ b', bump_dealloc b p l = Ret b' ∧ bump_inv b' live'.
Proof.
  intros [] Hp. pose proof (Permutation_length Hp) as Hlen. simpl in Hlen.
  unfold bump_dealloc, sub64. rewrite checked_fits by (unfold fits; lia).
  eexists. split; [done|].
  assert (extent <$> live ≡ₚ (p, lsize l) :: (extent <$> live')) as He by (by rewrite Hp).
  rewrite He in bump_apart0, bump_within0. rewrite Hp in bump_aligned0.
  inversion bump_within0; inversion bump_aligned0; subst. destruct bump_apart0.
  split; simpl; try done; try lia.
  - case_match; lia.
  - destruct (Z.eqb_spec (allocations b - 1) 0); lia.
  - destruct (Z.eqb_spec (allocations b - 1) 0); [|done].
    assert (live' = []) as -> by (apply nil_length_inv; lia). constructor.
Qed.

#[global, program] Instance bump_laws : GlobalAllocLaws BumpAllocator := {
  ga_inv := bump_inv;
  ga_accepts := layout_ok;
}.
Next Obligation. intros a live H. apply H. Qed.
Next Obligation. intros a live H. apply H. Qed.
Next Obligation. exact bump_alloc_inv. Qed.
Next Obligation. exact bump_dealloc_inv. Qed.

Lemma bump_init_inv start size :
  0 < start → 0 ≤ size → start + size < 2 ^ 63 →
  ∃ b, bump_init BumpAllocator_new start size = Ret b ∧ bump_inv b []
     ∧ heap_start b = start ∧ heap_end b = start + size ∧ next b = start.
Proof.
  intros. unfold bump_init, add64. rewrite checked_fits by (unfold fits; lia).
  eexists. split; [done|]. split; [|done]. split; simpl; try done; try lia; constructor.
Qed.

(** The bump allocator is a safe [GlobalAlloc]. Initialised with a heap in
    the lower half of the address space, any sequence of allocations with valid
    layouts and of deallocations of live blocks runs without a panic, and all
    blocks live at the end are non-null, aligned as requested, pairwise
    disjoint and inside the heap; the counter is their number. *)
Theorem bump_client_safe (start size : Z) (os : list op)
    (Hs : 0 < start) (Hz : 0 ≤ size) (Hend : start + size < 2 ^ 63) (Hos : Forall (op_ok layout_ok) os) :
  ∃ b b' live, bump_init BumpAllocator_new start size = Ret b
    ∧ client_run os (b, []) = Ret (b', live)
    ∧ all_apart (extent <$> live)
    ∧ Forall (λ pl, pl.1 ≠ 0 ∧ (lalign pl.2 | pl.1)) live
    ∧ Forall (within (heap_start b') (heap_end b')) (extent <$> live)
    ∧ allocations b' = Z.of_nat (length live).
Proof.
  destruct (bump_init_inv start size) as (b & -> & Hinv & _); [done..|].
  pose proof (client_run_inv os b [] Hinv Hos) as Hr.
  apply ensures_run in Hr as ([b' live] & Hr & Hinv'). exists b, b', live.
  simpl in Hinv'. destruct Hinv'. split_and!; try done. eapply within_mono; [|done]. lia.
Qed.

Lemma bump_client_safe_witness :
  Forall (op_ok layout_ok) demo_ops ∧
  ∃ b b' live, bump_init BumpAllocator_new HEAP_START HEAP_SIZE = Ret b
    ∧ client_run demo_ops (b, []) = Ret (b', live) ∧ all_apart (extent <$> live)
    ∧ length live = 2%nat.
Proof.
  split; [by apply demo_ops_ok|].
  destruct (bump_client_safe HEAP_START HEAP_SIZE demo_ops) as (b & b' & live & Hb & Hr & Ha & _);
    [done|done|done|by apply demo_ops_ok|].
  exists b, b', live. split_and!; try done.
  vm_compute in Hb. injection Hb as <-. vm_compute in Hr. by injection Hr as <- <-.
Defined.

(** Exactly when the bump allocator succeeds and when it reclaims. An
    allocation returns the aligned next address if the block ends inside the
    heap, and null with the state unchanged otherwise; giving a block back
    moves [next] only if it was the last live one, and then to the start of the
    heap. Giving back a block when none is live panics. *)
Theorem bump_alloc_reclaim (b : BumpAllocator) (live : list (Z * Layout)) (l : Layout)
    (Hinv : bump_inv b live) (Hl : layout_ok l) :
  (let p := round_up (next b) (lalign l) in
   bump_alloc b l = Ret (if decide (p + lsize l ≤ heap_end b)
                         then (p, mkBump (heap_start b) (heap_end b) (p + lsize l) (allocations b + 1))
                         else (0, b)))
  ∧ (∀ p live', live ≡ₚ (p, l) :: live' → ∃ b', bump_dealloc b p l = Ret b'
       ∧ next b' = if decide (live' = []) then heap_start b else next b)
  ∧ (∀ p, live = [] → bump_dealloc b p l = Panic POverflow).
Proof.
  split; [by apply (bump_alloc_eq b live l)|]. unfold bump_dealloc, sub64. split.
  - intros p live' Hp. apply Permutation_length in Hp. simpl in Hp. destruct Hinv.
    rewrite checked_fits by (unfold fits; lia). eexists. split; [done|]. simpl.
    case_decide as Hnil; [subst live'; simpl in *; by rewrite (proj2 (Z.eqb_eq _ _)) by lia|].
    rewrite (proj2 (Z.eqb_neq _ _)); [done|]. destruct live'; [done|]. simpl in *. lia.
  - intros p ->. destruct Hinv. rewrite checked_over; [done|]. unfold fits. simpl in *. lia.
Qed.

Definition demo_bump : BumpAllocator := mkBump HEAP_START (HEAP_START + HEAP_SIZE) HEAP_START 0.

Lemma bump_alloc_reclaim_witness :
  bump_alloc demo_bump (mkLayout 10 8)
    = Ret (HEAP_START, mkBump HEAP_START (HEAP_START + HEAP_SIZE) (HEAP_START + 10) 1)
  ∧ bump_dealloc demo_bump HEAP_START (mkLayout 10 8) = Panic POverflow.
Proof.
  assert (bump_inv demo_bump []) as Hinv by (split; simpl; try done; constructor).
  assert (layout_ok (mkLayout 10 8)) as Hl by by apply (layout_ok_intro 10 3).
  destruct (bump_alloc_reclaim demo_bump [] (mkLayout 10 8) Hinv Hl) as (Ha & _ & Hd).
  split; [rewrite Ha; by vm_compute|by apply Hd].
Defined.
