(* ===== verification/LinkedList.v ===== *)
(** The linked-list allocator of src/src/allocator/linked_list.rs, at the
    level of pointers: the free list is threaded through the heap itself, so
    the model has the nodes stored in memory, by address, beside the dummy
    head. Reading an address that holds no node is [PDangling], which the
    theorems exclude. *)
From S2P Require Import Prelude Alloc.
Local Open Scope Z_scope.
Local Open Scope rust_scope.

(** [ListNode]: [usize] and a nullable pointer, 16 bytes aligned to 8. *)
Record ListNode := mkNode { ln_size : Z; ln_next : option Z }.
Definition NODE_SIZE : Z := 16.
Definition NODE_ALIGN : Z := 8.

(** The allocator's struct, [head], and the nodes in heap memory. *)
Record LinkedListAllocator := mkLL {
  head : ListNode;
  mem : gmap Z ListNode;
}.

Definition LinkedListAllocator_new : LinkedListAllocator := mkLL (mkNode 0 None) ∅.

(** [ListNode::end_addr] of the node at [addr]. *)
Definition end_addr (addr : Z) (node : ListNode) : outcome Z := addr +! ln_size node.

Definition load (s : LinkedListAllocator) (addr : Z) : outcome ListNode :=
  match mem s !! addr with Some n => Ret n | None => Panic PDangling end.

Definition add_free_region (s : LinkedListAllocator) (addr size : Z) :
    outcome LinkedListAllocator :=
  aligned ← align_up addr NODE_ALIGN;
  _ ← assert (aligned =? addr);
  _ ← assert (NODE_SIZE <=? size);
  let node := mkNode size (ln_next (head s)) in
  Ret (mkLL (mkNode (ln_size (head s)) (Some addr)) (<[addr := node]> (mem s))).

Definition ll_init (s : LinkedListAllocator) (heap_start heap_size : Z) :
    outcome LinkedListAllocator :=
  add_free_region s heap_start heap_size.

Definition alloc_from_region (addr : Z) (region : ListNode) (size align : Z) :
    outcome (result Z unit) :=
  alloc_start ← align_up addr align;
  match checked_add alloc_start size with
  | None => Ret (Err tt)
  | Some alloc_end =>
      stop ← end_addr addr region;
      if stop <? alloc_end then Ret (Err tt)
      else
        stop ← end_addr addr region;
        excess_size ← stop -! alloc_end;
        if (0 <? excess_size) && (excess_size <? NODE_SIZE) then Ret (Err tt)
        else Ret (Ok alloc_start)
  end.

(** The cursor [current] of [find_region]: [None] is the dummy head. *)
Definition next_of (s : LinkedListAllocator) (cur : option Z) : outcome (option Z) :=
  match cur with
  | None => Ret (ln_next (head s))
  | Some a => n ← load s a; Ret (ln_next n)
  end.

Definition set_next (s : LinkedListAllocator) (cur nx : option Z) :
    outcome LinkedListAllocator :=
  match cur with
  | None => Ret (mkLL (mkNode (ln_size (head s)) nx) (mem s))
  | Some a => n ← load s a; Ret (mkLL (head s) (<[a := mkNode (ln_size n) nx]> (mem s)))
  end.

(** The loop of [find_region] from the cursor on. *)
Fixpoint find_loop (fuel : nat) (s : LinkedListAllocator) (current : option Z)
    (size align : Z) : outcome (option (Z * Z) * LinkedListAllocator) :=
  match fuel with
  | O => Ret (None, s)
  | S fuel =>
      nx ← next_of s current;
      match nx with
      | None => Ret (None, s)
      | Some region =>
          node ← load s region;
          r ← alloc_from_region region node size align;
          match r with
          | Ok alloc_start =>
              let next := ln_next node in
              s ← set_next s (Some region) None;
              taken ← next_of s current;
              s ← set_next s current None;
              suitable_region ← unwrap taken;
              s ← set_next s current next;
              Ret (Some (suitable_region, alloc_start), s)
          | Err _ => find_loop fuel s (Some region) size align
          end
      end
  end.

(** One more step than there are nodes in memory. *)
Definition find_region (s : LinkedListAllocator) (size align : Z) :
    outcome (option (Z * Z) * LinkedListAllocator) :=
  find_loop (S (base.size (mem s))) s None size align.

Definition size_align (layout : Layout) : outcome (Z * Z) :=
  layout ← expect (align_to layout NODE_ALIGN);
  let layout := pad_to_align layout in
  Ret (Z.max (lsize layout) NODE_SIZE, lalign layout).

Definition ll_alloc (s : LinkedListAllocator) (layout : Layout) :
    outcome (Z * LinkedListAllocator) :=
  '(size, align) ← size_align layout;
  '(o, s) ← find_region s size align;
  match o with
  | Some (region, alloc_start) =>
      alloc_end ← unwrap (checked_add alloc_start size);
      node ← load s region;
      stop ← end_addr region node;
      excess_size ← stop -! alloc_end;
      s ← (if 0 <? excess_size then add_free_region s alloc_end excess_size else Ret s);
      Ret (alloc_start, s)
  | None => Ret (0, s)
  end.

Definition ll_dealloc (s : LinkedListAllocator) (ptr : Z) (layout : Layout) :
    outcome LinkedListAllocator :=
  '(size, _) ← size_align layout;
  add_free_region s ptr size.

#[global] Instance ll_GlobalAlloc : GlobalAlloc LinkedListAllocator := {
  alloc := ll_alloc;
  dealloc := ll_dealloc;
}.

(** * The free list as a list of regions *)
Fixpoint chain (m : gmap Z ListNode) (p : option Z) (rs : list (Z * Z)) : Prop :=
  match rs with
  | [] => p = None
  | (a, sz) :: rs => p = Some a ∧ ∃ nx, m !! a = Some (mkNode sz nx) ∧ chain m nx rs
  end.

Definition cursor_chain (s : LinkedListAllocator) (cur : option Z) (rs : list (Z * Z)) : Prop :=
  ∃ p, next_of s cur = Ret p ∧ chain (mem s) p rs.

(** First fit on the list of regions: where [alloc_from_region] would place a
    block in a region, and the first region it accepts, with the others. *)
Definition fit (size align : Z) (r : Z * Z) : option Z :=
  let start := round_up r.1 align in
  let excess := r.1 + r.2 - (start + size) in
  if decide (excess = 0 ∨ NODE_SIZE ≤ excess) then Some start else None.

Fixpoint first_fit (size align : Z) (rs : list (Z * Z)) : option ((Z * Z) * Z * list (Z * Z)) :=
  match rs with
  | [] => None
  | r :: rs =>
      match fit size align r with
      | Some start => Some (r, start, rs)
      | None => '(r', start, rest) ← first_fit size align rs; Some (r', start, r :: rest)
      end
  end.

(** Addresses stay in the lower half of the address space. *)
Definition low_region (r : Z * Z) : Prop := 0 < r.1 ∧ 0 ≤ r.2 ∧ r.1 + r.2 < 2 ^ 63.

Lemma alloc_from_region_fit a sz nx size align :
  low_region (a, sz) → pow2 align → 0 < size ≤ 2 ^ 63 →
  alloc_from_region a (mkNode sz nx) size align =
    Ret (match fit size align (a, sz) with Some p => Ok p | None => Err tt end).
Proof.
  intros (Ha & Hsz & Hlt) Hp Hsize. simpl in *. pose proof (pow2_le _ Hp). pose proof (pow2_pos _ Hp).
  unfold alloc_from_region. rewrite align_up_eq by (done || lia). cbn [mbind outcome_bind].
  destruct (round_up_spec a align) as [_ Hr]; [done|]. unfold fit. cbn [fst snd].
  set (p := round_up a align) in *. unfold checked_add, end_addr, add64, sub64, NODE_SIZE.
  cbn [ln_size]. rewrite (checked_fits (a + sz)) by (unfold fits; lia). cbn [mbind outcome_bind].
  destruct (decide (is_u64 (p + size))) as [Hf|Hf].
  2: { rewrite decide_False; [done|]. unfold fits in Hf. lia. }
  destruct (Z.ltb_spec (a + sz) (p + size)).
  { rewrite decide_False by lia. done. }
  rewrite checked_fits by (unfold fits; lia). cbn [mbind outcome_bind].
  case_decide as Hd.
  - destruct (Z.ltb_spec 0 (a + sz - (p + size))), (Z.ltb_spec (a + sz - (p + size)) 16);
      simpl; done || lia.
  - rewrite (proj2 (Z.ltb_lt 0 _)), (proj2 (Z.ltb_lt _ 16)) by lia. done.
Qed.

Lemma chain_frame m m' p rs :
  (∀ a, a ∈ rs.*1 → m' !! a = m !! a) → chain m p rs → chain m' p rs.
Proof.
  revert p. induction rs as [|[a sz] rs IH]; intros p Hm; simpl; [done|].
  intros (-> & nx & Ha & Hc). split; [done|]. exists nx. split.
  - rewrite Hm; [done|]. simpl. set_solver.
  - apply IH; [|done]. intros b Hb. apply Hm. simpl. set_solver.
Qed.

Lemma chain_insert m a n p rs : a ∉ rs.*1 → chain m p rs → chain (<[a := n]> m) p rs.
Proof.
  intros Ha. apply chain_frame. intros b Hb. rewrite lookup_insert_ne; [done|]. set_solver.
Qed.

Lemma chain_dom m p rs : chain m p rs → Forall (λ a, is_Some (m !! a)) rs.*1.
Proof.
  revert p. induction rs as [|[a sz] rs IH]; intros p; simpl; [constructor|].
  intros (_ & nx & Ha & Hc). constructor; [by rewrite Ha|by eapply IH].
Qed.

(** The fuel of [find_region] suffices: the list is not longer than the memory. *)
Lemma chain_length m p rs : chain m p rs → NoDup rs.*1 → (length rs ≤ base.size m)%nat.
Proof.
  intros Hc Hnd. apply chain_dom in Hc. rewrite <- size_dom, <- (length_fmap fst rs).
  rewrite <- (size_list_to_set (C := gset Z)) by done. apply subseteq_size.
  intros a Ha. apply elem_of_list_to_set in Ha. rewrite Forall_forall in Hc.
  apply elem_of_dom. auto.
Qed.

(** [s'] differs from [s] only in nodes of [off] and in the [next] of the
    cursor. *)
Record unchanged (off : list Z) (cur : option Z) (s s' : LinkedListAllocator) : Prop := {
  unch_mem b : b ∉ off → cur ≠ Some b → mem s' !! b = mem s !! b;
  unch_head : cur ≠ None → head s' = head s;
  unch_cur c n : cur = Some c → mem s !! c = Some n →
    ∃ nx, mem s' !! c = Some (mkNode (ln_size n) nx);
}.

Lemma unchanged_trans off cur s1 s2 s3 :
  unchanged off cur s1 s2 → unchanged off cur s2 s3 → unchanged off cur s1 s3.
Proof.
  intros [M1 H1 C1] [M2 H2 C2]. split.
  - intros b ??. by rewrite M2, M1.
  - intros ?. by rewrite H2, H1.
  - intros c n Hc Hn. destruct (C1 c n Hc Hn) as [nx Hnx].
    destruct (C2 c _ Hc Hnx) as [nx' ?]. by exists nx'.
Qed.

Lemma unchanged_mono off off' cur s s' :
  (∀ a, a ∈ off → a ∈ off') → unchanged off cur s s' → unchanged off' cur s s'.
Proof. intros Hsub [M H C]. split; auto. Qed.

(** A step whose cursor was the node [r], seen from another cursor. *)
Lemma unchanged_cursor off cur r s s' :
  unchanged off (Some r) s s' → cur ≠ Some r → (∀ c, cur = Some c → c ∉ off) →
  unchanged (r :: off) cur s s'.
Proof.
  intros [M H C] Hr Hoff. split.
  - intros b Hb _. apply M; set_solver.
  - intros _. by apply H.
  - intros c n -> Hn. rewrite M; [|by apply Hoff|congruence]. exists (ln_next n).
    rewrite Hn. by destruct n.
Qed.

Lemma next_of_unchanged off cur c s s' :
  unchanged off (Some c) s s' → cur ≠ Some c → (∀ b, cur = Some b → b ∉ off) →
  next_of s' cur = next_of s cur.
Proof.
  intros [M H C] Hne Hoff. destruct cur as [b|]; simpl; [|by rewrite H].
  unfold load. rewrite M; [done|by apply Hoff|congruence].
Qed.

Lemma set_next_spec s cur p nx :
  next_of s cur = Ret p →
  ∃ s', set_next s cur nx = Ret s' ∧ next_of s' cur = Ret nx ∧ unchanged [] cur s s'.
Proof.
  destruct cur as [c|]; simpl; unfold load.
  - destruct (mem s !! c) as [n|] eqn:Hc; [|done]. intros _. eexists. split; [done|].
    split; [simpl; by rewrite lookup_insert_eq|]. split; simpl; [|done|].
    + intros b _ ?. rewrite lookup_insert_ne; [done|congruence].
    + intros c' n' ? ?. simplify_eq. exists nx. by rewrite lookup_insert_eq.
  - intros _. eexists. split; [done|]. split; [done|]. by split.
Qed.

(** Unlinking the node [a] the cursor points to. *)
Lemma unlink_spec s cur a sz nx rs :
  next_of s cur = Ret (Some a) → mem s !! a = Some (mkNode sz nx) → cur ≠ Some a →
  (∀ c, cur = Some c → c ∉ rs.*1) → a ∉ rs.*1 → chain (mem s) nx rs →
  ∃ s1 s2 s3, set_next s (Some a) None = Ret s1 ∧ next_of s1 cur = Ret (Some a)
    ∧ set_next s1 cur None = Ret s2 ∧ set_next s2 cur nx = Ret s3
    ∧ cursor_chain s3 cur rs ∧ mem s3 !! a = Some (mkNode sz None) ∧ unchanged [a] cur s s3.
Proof.
  intros Hcur Ha Hne Hc Hna Hch.
  destruct (set_next_spec s (Some a) nx None) as (s1 & H1 & Hn1 & U1).
  { simpl. unfold load. by rewrite Ha. }
  pose proof (next_of_unchanged [] cur a s s1 U1 Hne ltac:(set_solver)) as Hn1'.
  rewrite Hcur in Hn1'.
  destruct (set_next_spec s1 cur (Some a) None Hn1') as (s2 & H2 & Hn2 & U2).
  destruct (set_next_spec s2 cur None nx Hn2) as (s3 & H3 & Hn3 & U3).
  assert (unchanged [] cur s1 s3) as U13 by by eapply unchanged_trans.
  exists s1, s2, s3. split_and!; try done.
  - exists nx. split; [done|]. eapply chain_frame; [|exact Hch]. intros b Hb.
    rewrite (unch_mem _ _ _ _ U13), (unch_mem _ _ _ _ U1); try done; set_solver.
  - rewrite (unch_mem _ _ _ _ U13); [|set_solver|done].
    destruct (unch_cur _ _ _ _ U1 a _ eq_refl Ha) as [nx' Hnx']. rewrite Hnx'.
    simpl in Hn1. unfold load in Hn1. rewrite Hnx' in Hn1. by simplify_eq/=.
  - eapply unchanged_trans; [apply unchanged_cursor with (off := []); [done..|set_solver]|].
    eapply unchanged_mono; [|done]. set_solver.
Qed.

Lemma find_loop_spec fuel s cur size align rs :
  cursor_chain s cur rs → NoDup rs.*1 → Forall low_region rs →
  (∀ c, cur = Some c → c ∉ rs.*1) → (length rs < fuel)%nat → pow2 align → 0 < size ≤ 2 ^ 63 →
  match first_fit size align rs with
  | None => find_loop fuel s cur size align = Ret (None, s)
  | Some ((a, sz), start, rest) =>
      ∃ s', find_loop fuel s cur size align = Ret (Some (a, start), s')
        ∧ cursor_chain s' cur rest ∧ mem s' !! a = Some (mkNode sz None)
        ∧ unchanged rs.*1 cur s s'
  end.
Proof.
  intros Hch Hnd Hlow Hcur Hfuel Hp Hsize.
  revert s cur rs Hch Hnd Hlow Hcur Hfuel. induction fuel as [|fuel IH]; [lia|].
  intros s cur [|[a sz] rs] (p & Hnext & Hch) Hnd Hlow Hcur Hfuel; cbn [find_loop]; rewrite Hnext;
    cbn [mbind outcome_bind]; simpl in Hch; [by rewrite Hch|].
  destruct Hch as (-> & nx & Ha & Hch). simpl in Hnd. apply NoDup_cons in Hnd as [Hna Hnd].
  apply Forall_cons in Hlow as [Hlow1 Hlow]. simpl in Hcur, Hfuel.
  assert (load s a = Ret (mkNode sz nx)) as Hload by (unfold load; by rewrite Ha).
  rewrite Hload. cbn [mbind outcome_bind]. rewrite alloc_from_region_fit by done.
  cbn [mbind outcome_bind first_fit].
  assert (cur ≠ Some a) as Hne by (intros ->; destruct (Hcur a); set_solver).
  assert (∀ c, cur = Some c → c ∉ rs.*1) as Hcur' by (intros c ->; specialize (Hcur c); set_solver).
  destruct (fit size align (a, sz)) as [start|].
  - destruct (unlink_spec s cur a sz nx rs) as (s1 & s2 & s3 & H1 & H2 & H3 & H4 & Hc3 & Hm3 & U3); try done.
    exists s3. rewrite H1. cbn [mbind outcome_bind]. rewrite H2. cbn [mbind outcome_bind].
    rewrite H3. cbn [mbind outcome_bind unwrap ln_next]. rewrite H4.
    split; [done|]. split_and!; try done. eapply unchanged_mono; [|done]. set_solver.
  - specialize (IH s (Some a) rs).
    destruct (first_fit size align rs) as [[[[a' sz'] start] rest]|]; simpl.
    + destruct IH as (s' & Hrun & Hc' & Hm' & U'); try done.
      { exists nx. simpl. by rewrite Hload. } { naive_solver. } { lia. }
      exists s'. split; [done|]. split_and!; [|done|by apply unchanged_cursor].
      exists (Some a). split; [by rewrite (next_of_unchanged rs.*1 cur a s s')|].
      split; [done|]. destruct Hc' as (p' & Hp' & Hc'). exists p'. split; [|done].
      destruct (unch_cur _ _ _ _ U' a _ eq_refl Ha) as [nx' Hnx'].
      simpl in Hp'. unfold load in Hp'. rewrite Hnx' in Hp'. by simplify_eq/=.
    + apply IH; try done. { exists nx. simpl. by rewrite Hload. } { naive_solver. } { lia. }
Qed.

(** * Layout adjustment *)
Definition adj_align (l : Layout) : Z := Z.max (lalign l) NODE_ALIGN.
Definition adj_size (l : Layout) : Z := Z.max (round_up (lsize l) (adj_align l)) NODE_SIZE.

(** The layouts that can be aligned to a node; the others make [size_align]
    panic. *)
Definition ll_accepts (l : Layout) : Prop := layout_ok l ∧ lsize l ≤ 2 ^ 63 - NODE_ALIGN.

Lemma pow2_node_align : pow2 NODE_ALIGN.
Proof. by exists 3. Qed.

Lemma adj_align_pow2 l : layout_ok l → pow2 (adj_align l).
Proof. intros [? _]. apply pow2_max; [done|apply pow2_node_align]. Qed.

Lemma size_align_eq l : ll_accepts l → size_align l = Ret (adj_size l, adj_align l).
Proof.
  intros [Hl Hs]. pose proof (adj_align_pow2 l Hl) as Hp. destruct Hl as [Hp' [? ?]].
  unfold size_align, align_to. rewrite is_power_of_two_pow2 by apply pow2_node_align.
  unfold from_size_align. fold (adj_align l). rewrite is_power_of_two_pow2 by done.
  rewrite (proj2 (Z.leb_le _ _)); [done|]. unfold adj_align. lia.
Qed.

Lemma size_align_panic l :
  layout_ok l → 2 ^ 63 - NODE_ALIGN < lsize l → size_align l = Panic PUnwrap.
Proof.
  intros Hl Hs. pose proof (adj_align_pow2 l Hl) as Hp.
  unfold size_align, align_to. rewrite is_power_of_two_pow2 by apply pow2_node_align.
  unfold from_size_align. fold (adj_align l). rewrite is_power_of_two_pow2 by done.
  rewrite (proj2 (Z.leb_gt _ _)); [done|]. unfold adj_align. lia.
Qed.

Lemma adj_align_divide l : layout_ok l → (lalign l | adj_align l) ∧ (NODE_ALIGN | adj_align l).
Proof.
  intros Hl. pose proof (adj_align_pow2 l Hl). destruct Hl.
  split; apply pow2_divide; try done; try apply pow2_node_align; unfold adj_align; lia.
Qed.

Lemma adj_size_spec l :
  ll_accepts l → lsize l ≤ adj_size l ∧ NODE_SIZE ≤ adj_size l ≤ 2 ^ 63 ∧ (NODE_ALIGN | adj_size l).
Proof.
  intros [Hl Hs]. destruct (adj_align_divide l Hl) as [_ Hd].
  pose proof (pow2_pos _ (adj_align_pow2 l Hl)) as Hpos.
  destruct (round_up_spec (lsize l) (adj_align l) Hpos) as [Hr ?]. destruct Hl as [? [? ?]].
  unfold adj_size. split_and!; [lia|lia| |].
  - apply Z.max_lub; [|done]. apply round_up_least; [done| |unfold adj_align in *; lia].
    apply pow2_divide; [by apply adj_align_pow2|by exists 63|].
    unfold adj_align. apply Z.max_lub; [by apply pow2_le|done].
  - destruct (Z.max_spec (round_up (lsize l) (adj_align l)) NODE_SIZE) as [[_ ->]|[_ ->]].
    + by exists 2.
    + by etrans.
Qed.

(** * The invariant *)
Definition region_ok (r : Z * Z) : Prop := (NODE_ALIGN | r.1) ∧ NODE_SIZE ≤ r.2.

(** The free list of [s] is [rs]: regions that can hold a node, inside the heap
    from [lo] to [hi]. *)
Record free_list (lo hi : Z) (s : LinkedListAllocator) (rs : list (Z * Z)) : Prop := {
  fl_lo : 0 < lo;
  fl_hi : hi < 2 ^ 63;
  fl_chain : chain (mem s) (ln_next (head s)) rs;
  fl_ok : Forall region_ok rs;
  fl_within : Forall (within lo hi) rs;
  fl_apart : all_apart rs;
}.

Lemma region_notin a s b rs :
  Forall (apart (a, s)) rs → Forall region_ok rs → a ≤ b < a + s → b ∉ rs.*1.
Proof.
  intros Hap Hok Hb Hin. apply list_elem_of_fmap in Hin as ([b' sz] & -> & Hin).
  rewrite Forall_forall in Hap, Hok. destruct (Hok _ Hin) as [_ Hsz]. unfold NODE_SIZE in Hsz.
  destruct (Hap _ Hin); simpl in *; lia.
Qed.

Lemma regions_NoDup rs : Forall region_ok rs → all_apart rs → NoDup rs.*1.
Proof.
  induction rs as [|[a sz] rs IH]; simpl; intros Hok Hap; [constructor|].
  apply Forall_cons in Hok as [[_ Hsz] Hok]. destruct Hap as [Hap ?]. unfold NODE_SIZE in Hsz.
  apply NoDup_cons. split; [|auto]. simpl in *. by eapply region_notin; [exact Hap|done|lia].
Qed.

Lemma free_list_low lo hi s rs : free_list lo hi s rs → Forall low_region rs.
Proof.
  intros []. apply Forall_forall. intros r Hr. rewrite Forall_forall in fl_ok0, fl_within0.
  destruct (fl_ok0 r Hr) as [_ ?], (fl_within0 r Hr). unfold NODE_SIZE in *.
  unfold low_region. lia.
Qed.

(** Pushing a region. *)
Lemma add_free_region_spec lo hi s rs a sz :
  free_list lo hi s rs → region_ok (a, sz) → within lo hi (a, sz) → Forall (apart (a, sz)) rs →
  ∃ s', add_free_region s a sz = Ret s' ∧ free_list lo hi s' ((a, sz) :: rs).
Proof.
  intros [] [Ha Hsz] [Hw1 Hw2] Hap. unfold add_free_region. simpl in *.
  rewrite align_up_eq; [|apply pow2_node_align|lia|unfold NODE_ALIGN, NODE_SIZE in *; lia].
  rewrite round_up_id by done. cbn [mbind outcome_bind].
  rewrite Z.eqb_refl. cbn [mbind outcome_bind assert].
  rewrite (proj2 (Z.leb_le _ _)) by done. cbn [mbind outcome_bind].
  eexists. split; [done|]. split; simpl; try done.
  - split; [done|]. exists (ln_next (head s)). split; [by rewrite lookup_insert_eq|].
    apply chain_insert; [|done]. eapply region_notin; [done|done|]. unfold NODE_SIZE in *. lia.
  - by constructor.
  - by constructor.
Qed.

(** * Allocation on the list of regions *)
Definition abs_alloc (l : Layout) (rs : list (Z * Z)) : Z * list (Z * Z) :=
  match first_fit (adj_size l) (adj_align l) rs with
  | None => (0, rs)
  | Some ((a, sz), start, rest) =>
      let stop := start + adj_size l in
      let excess := a + sz - stop in
      (start, if 0 <? excess then (stop, excess) :: rest else rest)
  end.

Lemma first_fit_Some size align rs r start rest :
  first_fit size align rs = Some (r, start, rest) →
  rs ≡ₚ r :: rest ∧ fit size align r = Some start.
Proof.
  revert rest. induction rs as [|r0 rs IH]; intros rest; simpl; [done|].
  destruct (fit size align r0) eqn:Hf; [by intros [= <- <- <-]|].
  destruct (first_fit size align rs) as [[[r' start'] rest']|]; simpl; [|done].
  intros [= <- <- <-]. destruct (IH rest' eq_refl) as [Hp ?]. split; [|done].
  rewrite Hp. apply Permutation_swap.
Qed.

Lemma first_fit_None size align rs :
  first_fit size align rs = None → Forall (λ r, fit size align r = None) rs.
Proof.
  induction rs as [|r rs IH]; simpl; [constructor|].
  destruct (fit size align r) eqn:Hf; [done|].
  destruct (first_fit size align rs) as [[[? ?] ?]|]; [done|]. auto.
Qed.

(** Where a fitting block lies in its region. *)
Lemma fit_Some size align a sz start :
  0 < align → 0 < size → fit size align (a, sz) = Some start →
  (align | start) ∧ a ≤ start ∧ start + size ≤ a + sz
  ∧ (a + sz = start + size ∨ NODE_SIZE ≤ a + sz - (start + size)).
Proof.
  intros Hal Hs. unfold fit. cbn [fst snd]. destruct (round_up_spec a align Hal) as [? ?].
  case_decide; [|done]. intros [= <-]. unfold NODE_SIZE in *. split_and!; [done|lia..].
Qed.

Lemma free_list_perm lo hi s s' rs rs' :
  free_list lo hi s rs → (∃ r, rs ≡ₚ r :: rs') → chain (mem s') (ln_next (head s')) rs' →
  free_list lo hi s' rs'.
Proof.
  intros [] [r Hp] Hch. rewrite Hp in fl_ok0, fl_within0, fl_apart0.
  inversion fl_ok0; inversion fl_within0; destruct fl_apart0; by split.
Qed.

(** [find_region] is first fit; its fuel is enough for the whole list. *)
Lemma find_region_first_fit lo hi s rs size align :
  free_list lo hi s rs → pow2 align → 0 < size ≤ 2 ^ 63 →
  match first_fit size align rs with
  | None => find_region s size align = Ret (None, s)
  | Some ((a, sz), start, rest) =>
      ∃ s', find_region s size align = Ret (Some (a, start), s')
        ∧ free_list lo hi s' rest ∧ mem s' !! a = Some (mkNode sz None)
  end.
Proof.
  intros Hfl Hp Hs. pose proof (regions_NoDup rs (fl_ok _ _ _ _ Hfl) (fl_apart _ _ _ _ Hfl)) as Hnd.
  pose proof (chain_length _ _ _ (fl_chain _ _ _ _ Hfl) Hnd).
  pose proof (find_loop_spec (S (base.size (mem s))) s None size align rs) as Hfind.
  fold (find_region s size align) in Hfind.
  assert (cursor_chain s None rs) as Hc.
  { exists (ln_next (head s)). split; [done|apply Hfl]. }
  specialize (Hfind Hc Hnd (free_list_low _ _ _ _ Hfl) ltac:(done) ltac:(lia) Hp Hs).
  destruct (first_fit size align rs) as [[[[a sz] start] rest]|] eqn:Hff; [|done].
  destruct Hfind as (s1 & -> & (p & [= <-] & Hch) & Hm & _). exists s1. split; [done|].
  apply first_fit_Some in Hff as [Hperm _]. split; [|done]. eapply free_list_perm; eauto.
Qed.

(** [alloc] implements first fit on the list of regions. *)
Lemma ll_alloc_abs lo hi s rs l :
  free_list lo hi s rs → ll_accepts l →
  ∃ s', ll_alloc s l = Ret ((abs_alloc l rs).1, s') ∧ free_list lo hi s' (abs_alloc l rs).2.
Proof.
  intros Hfl Hl. pose proof (adj_size_spec l Hl) as (_ & [Hsz Hmax] & Hsd).
  pose proof (adj_align_pow2 l (proj1 Hl)) as Hp. pose proof (pow2_pos _ Hp) as Hpos.
  assert (0 < adj_size l) as Hs0 by (unfold NODE_SIZE in Hsz; lia).
  pose proof (find_region_first_fit lo hi s rs (adj_size l) (adj_align l) Hfl Hp (conj Hs0 Hmax)) as Hfind.
  unfold ll_alloc, abs_alloc. rewrite size_align_eq by done. cbn [mbind outcome_bind].
  destruct (first_fit _ _ rs) as [[[[a sz] start] rest]|] eqn:Hff; [|rewrite Hfind; by exists s].
  destruct Hfind as (s1 & -> & Hfl1 & Hm). apply first_fit_Some in Hff as [Hperm Hfit].
  apply fit_Some in Hfit as (Hd & Hlo & Hhi & Hex); [|done..].
  pose proof (fl_within _ _ _ _ Hfl) as Hw. rewrite Hperm in Hw. apply Forall_cons in Hw as [[Hw1 Hw2] _].
  pose proof (fl_lo _ _ _ _ Hfl). pose proof (fl_hi _ _ _ _ Hfl). simpl in Hw1, Hw2.
  cbn [mbind outcome_bind]. unfold checked_add. rewrite decide_True by (unfold fits; lia).
  cbn [mbind outcome_bind unwrap]. unfold load. rewrite Hm. cbn [mbind outcome_bind].
  unfold end_addr, add64, sub64. cbn [ln_size].
  rewrite checked_fits by (unfold fits; lia). cbn [mbind outcome_bind].
  rewrite checked_fits by (unfold fits; lia). cbn [mbind outcome_bind].
  destruct (Z.ltb_spec 0 (a + sz - (start + adj_size l))); [|by exists s1].
  pose proof (fl_apart _ _ _ _ Hfl) as Hap. rewrite Hperm in Hap. destruct Hap as [Hap _].
  destruct (add_free_region_spec lo hi s1 rest (start + adj_size l) (a + sz - (start + adj_size l)))
    as (s2 & -> & Hfl2); [done|..|by exists s2].
  - split; simpl; [|destruct Hex; lia]. apply Z.divide_add_r; [|done].
    etrans; [|exact Hd]. by apply adj_align_divide, Hl.
  - split; simpl; lia.
  - eapply Forall_apart_sub; [| |exact Hap]; lia.
Qed.

(** * The allocator as a [GlobalAlloc] *)

(** The memory an allocation really takes. *)
Definition block (pl : Z * Layout) : Z * Z := (pl.1, adj_size pl.2).

Definition live_ok (lo hi : Z) (pl : Z * Layout) : Prop :=
  ll_accepts pl.2 ∧ (adj_align pl.2 | pl.1) ∧ within lo hi (block pl).

Definition ll_inv (s : LinkedListAllocator) (live : list (Z * Layout)) : Prop :=
  ∃ lo hi rs, free_list lo hi s rs ∧ Forall (live_ok lo hi) live
    ∧ all_apart (rs ++ (block <$> live)).

Lemma all_apart_app_l l1 l2 : all_apart (l1 ++ l2) → all_apart l1.
Proof.
  induction l1 as [|b l1 IH]; simpl; [done|]. rewrite Forall_app. naive_solver.
Qed.

Lemma all_apart_extents live :
  Forall (λ pl, ll_accepts pl.2) live → all_apart (block <$> live) → all_apart (extent <$> live).
Proof.
  induction live as [|[p l] live IH]; [done|]. rewrite Forall_cons. cbn [fmap list_fmap all_apart].
  intros [Hl Hls] [Hap Haps]. split; [|auto].
  apply adj_size_spec in Hl as (Hl & _). apply Forall_fmap, Forall_forall. intros [p' l'] Hin.
  rewrite Forall_fmap, Forall_forall in Hap. rewrite Forall_forall in Hls.
  specialize (Hap _ Hin). specialize (Hls _ Hin). apply adj_size_spec in Hls as (Hl' & _).
  unfold apart, extent, block in *. simpl in *. lia.
Qed.

(** A region is split into a block and what is left of it. *)
Lemma all_apart_split a s a1 s1 a2 s2 l :
  a ≤ a1 → a1 + s1 ≤ a2 → a2 + s2 ≤ a + s → 0 ≤ s1 → 0 ≤ s2 →
  all_apart ((a, s) :: l) → all_apart ((a1, s1) :: (a2, s2) :: l).
Proof.
  intros ????? [Hap ?]. split; [constructor|split; [|done]].
  - left. simpl. lia.
  - eapply Forall_apart_sub; [| |exact Hap]; lia.
  - eapply Forall_apart_sub; [| |exact Hap]; lia.
Qed.

Lemma all_apart_shrink a s a1 s1 l :
  a ≤ a1 → a1 + s1 ≤ a + s → all_apart ((a, s) :: l) → all_apart ((a1, s1) :: l).
Proof. intros ?? [Hap ?]. split; [|done]. by eapply Forall_apart_sub; [| |exact Hap]. Qed.

(** An allocation that succeeds, on the level of regions. *)
Lemma abs_alloc_inv lo hi l rs bs :
  ll_accepts l → Forall (within lo hi) rs → 0 < lo → all_apart (rs ++ bs) →
  let '(p, rs') := abs_alloc l rs in
  (p = 0 ∧ rs' = rs) ∨
  (p ≠ 0 ∧ (adj_align l | p) ∧ within lo hi (p, adj_size l)
   ∧ all_apart (rs' ++ (p, adj_size l) :: bs)).
Proof.
  intros Hl Hw Hlo Hap. pose proof (adj_size_spec l Hl) as (_ & [Hsz _] & _).
  unfold NODE_SIZE in Hsz. pose proof (pow2_pos _ (adj_align_pow2 l (proj1 Hl))).
  unfold abs_alloc. destruct (first_fit _ _ rs) as [[[[a sz] start] rest]|] eqn:Hff; [|by left].
  apply first_fit_Some in Hff as [Hp Hfit].
  apply fit_Some in Hfit as (Hd & H1 & H2 & H3); [|lia..].
  rewrite Hp in Hw, Hap. apply Forall_cons in Hw as [[Hw1 Hw2] _]. simpl in Hw1, Hw2.
  right. split_and!; [lia|done|split; simpl; lia|].
  rewrite <- (Permutation_middle _ bs). destruct (Z.ltb_spec 0 (a + sz - (start + adj_size l))).
  - eapply all_apart_split; [| | | | |exact Hap]; lia.
  - eapply all_apart_shrink; [| |exact Hap]; lia.
Qed.

Lemma ll_alloc_inv s live l :
  ll_inv s live → ll_accepts l →
  ∃ p s', ll_alloc s l = Ret (p, s') ∧ ll_inv s' (if decide (p = 0) then live else (p, l) :: live).
Proof.
  intros (lo & hi & rs & Hfl & Hlive & Hap) Hl.
  destruct (ll_alloc_abs lo hi s rs l Hfl Hl) as (s' & -> & Hfl').
  pose proof (abs_alloc_inv lo hi l rs (block <$> live) Hl (fl_within _ _ _ _ Hfl)
    (fl_lo _ _ _ _ Hfl) Hap) as Ha.
  destruct (abs_alloc l rs) as [p rs']. simpl in *. exists p, s'. split; [done|].
  destruct Ha as [[-> ->]|(Hp & Hd & Hw & Hap')].
  - rewrite decide_True by done. by exists lo, hi, rs.
  - rewrite decide_False by done. exists lo, hi, rs'. split_and!; [done|by constructor|done].
Qed.

Lemma ll_dealloc_abs lo hi s rs p l :
  free_list lo hi s rs → ll_accepts l → (adj_align l | p) → within lo hi (p, adj_size l) →
  Forall (apart (p, adj_size l)) rs →
  ∃ s', ll_dealloc s p l = Ret s' ∧ free_list lo hi s' ((p, adj_size l) :: rs).
Proof.
  intros Hfl Hl Hd Hw Hap. unfold ll_dealloc. rewrite size_align_eq by done. cbn [mbind outcome_bind].
  apply add_free_region_spec; try done. split; [|by apply adj_size_spec].
  etrans; [|exact Hd]. by apply adj_align_divide, Hl.
Qed.

Lemma ll_dealloc_inv s live live' p l :
  ll_inv s live → live ≡ₚ (p, l) :: live' →
  ∃ s', ll_dealloc s p l = Ret s' ∧ ll_inv s' live'.
Proof.
  intros (lo & hi & rs & Hfl & Hlive & Hap) Hp. rewrite Hp in Hlive, Hap.
  apply Forall_cons in Hlive as [(Hl & Hd & Hw) Hlive]. cbn [fst snd block] in Hl, Hd, Hw.
  rewrite fmap_cons, <- Permutation_middle in Hap. destruct Hap as [Ha Hap].
  destruct (ll_dealloc_abs lo hi s rs p l) as (s' & -> & Hfl'); try done.
  - by apply Forall_app in Ha as [? _].
  - exists s'. split; [done|]. exists lo, hi, ((p, adj_size l) :: rs). by split_and!.
Qed.

Lemma ll_inv_extents s live : ll_inv s live → all_apart (extent <$> live).
Proof.
  intros (lo & hi & rs & Hfl & Hlive & Hap). apply all_apart_extents.
  - eapply Forall_impl; [exact Hlive|]. by intros pl [? _].
  - rewrite (Permutation_app_comm rs) in Hap. by apply all_apart_app_l in Hap.
Qed.

Lemma ll_inv_aligned s live :
  ll_inv s live → Forall (λ pl, pl.1 ≠ 0 ∧ (lalign pl.2 | pl.1)) live.
Proof.
  intros (lo & hi & rs & Hfl & Hlive & _). eapply Forall_impl; [exact Hlive|].
  intros pl (Hl & Hd & [Hw _]). pose proof (fl_lo _ _ _ _ Hfl). simpl in Hw. split; [lia|].
  etrans; [|exact Hd]. by apply adj_align_divide, Hl.
Qed.

#[global, program] Instance ll_laws : GlobalAllocLaws LinkedListAllocator := {
  ga_inv := ll_inv;
  ga_accepts := ll_accepts;
}.
Next Obligation. exact ll_inv_extents. Qed.
Next Obligation. exact ll_inv_aligned. Qed.
Next Obligation. exact ll_alloc_inv. Qed.
Next Obligation. exact ll_dealloc_inv. Qed.

Lemma ll_init_inv start size :
  0 < start → (NODE_ALIGN | start) → NODE_SIZE ≤ size → start + size < 2 ^ 63 →
  ∃ s, ll_init LinkedListAllocator_new start size = Ret s
     ∧ free_list start (start + size) s [(start, size)] ∧ ll_inv s [].
Proof.
  intros Hs Ha Hz Hlt. assert (free_list start (start + size) LinkedListAllocator_new []) as H0.
  { split; simpl; try done; constructor. }
  destruct (add_free_region_spec _ _ _ _ start size H0) as (s & Hrun & Hfl);
    [done|split; simpl; lia|constructor|].
  exists s. split; [done|]. split; [done|]. exists start, (start + size), [(start, size)].
  split; [done|]. split; [constructor|]. by repeat constructor.
Qed.

(** C6: the pointer-level allocator implements first fit on a list of regions.
    When the list threaded through the heap is [rs], [alloc] terminates without
    a panic or a dangling read and returns what first fit returns: the aligned
    start of the first region that holds the adjusted block exactly or with
    room for a node behind it, or null if there is none; the list left in
    memory is the one first fit leaves, with the rest of the region pushed in
    front. [dealloc] of a block that touches no free region pushes it in
    front. *)
Theorem ll_refines_first_fit (lo hi : Z) (s : LinkedListAllocator) (rs : list (Z * Z)) (l : Layout)
    (Hfl : free_list lo hi s rs) (Hl : ll_accepts l) :
  (∃ s', ll_alloc s l = Ret ((abs_alloc l rs).1, s') ∧ free_list lo hi s' (abs_alloc l rs).2)
  ∧ (∀ p, (adj_align l | p) → within lo hi (p, adj_size l) → Forall (apart (p, adj_size l)) rs →
       ∃ s', ll_dealloc s p l = Ret s' ∧ free_list lo hi s' ((p, adj_size l) :: rs)).
Proof.
  split; [by apply ll_alloc_abs|]. intros p Hd Hw Hap. by apply ll_dealloc_abs.
Qed.

(** A heap of 256 bytes. *)
Definition demo_ll : LinkedListAllocator := mkLL (mkNode 0 (Some 4096)) {[4096 := mkNode 256 None]}.

Lemma demo_ll_free : free_list 4096 4352 demo_ll [(4096, 256)].
Proof.
  split; simpl; try done.
  - split; [done|]. by exists None.
  - constructor; [|constructor]. split; [by exists 512|done].
  - constructor; [|constructor]. split; simpl; lia.
Qed.

Lemma ll_refines_first_fit_witness :
  free_list 4096 4352 demo_ll [(4096, 256)] ∧
  ∃ s', ll_alloc demo_ll (mkLayout 20 8) = Ret (4096, s')
    ∧ free_list 4096 4352 s' [(4120, 232)].
Proof.
  split; [exact demo_ll_free|].
  destruct (ll_refines_first_fit 4096 4352 demo_ll [(4096, 256)] (mkLayout 20 8)) as [(s' & Hr & Hf) _].
  - exact demo_ll_free.
  - split; [by apply (layout_ok_intro 20 3)|done].
  - by exists s'.
Defined.

(** C24: the linked-list allocator is a safe [GlobalAlloc]. Initialised with an
    aligned heap in the lower half of the address space, any sequence of
    allocations and of deallocations of live blocks runs without a panic, and
    the blocks live at the end are non-null, aligned as requested and pairwise
    disjoint. Layouts within seven bytes of the largest size are excluded:
    rounding them to a node's alignment panics. *)
Theorem ll_client_safe (start size : Z) (os : list op)
    (Hs : 0 < start) (Ha : (NODE_ALIGN | start)) (Hz : NODE_SIZE ≤ size)
    (Hend : start + size < 2 ^ 63) (Hos : Forall (op_ok ll_accepts) os) :
  ∃ s s' live, ll_init LinkedListAllocator_new start size = Ret s
    ∧ client_run os (s, []) = Ret (s', live)
    ∧ all_apart (extent <$> live)
    ∧ Forall (λ pl, pl.1 ≠ 0 ∧ (lalign pl.2 | pl.1)) live.
Proof.
  destruct (ll_init_inv start size) as (s & -> & _ & Hinv); [done..|].
  pose proof (client_run_inv os s [] Hinv Hos) as Hr.
  apply ensures_run in Hr as ([s' live] & Hr & Hinv'). simpl in Hinv'. exists s, s', live.
  split_and!; [done|done|by eapply ll_inv_extents|by eapply ll_inv_aligned].
Qed.

Lemma ll_client_safe_witness :
  Forall (op_ok ll_accepts) demo_ops ∧
  ∃ s s' live, ll_init LinkedListAllocator_new HEAP_START HEAP_SIZE = Ret s
    ∧ client_run demo_ops (s, []) = Ret (s', live) ∧ all_apart (extent <$> live).
Proof.
  assert (Forall (op_ok ll_accepts) demo_ops) as Hos.
  { apply demo_ops_ok. intros l Hl Hs. split; [done|]. unfold NODE_ALIGN. lia. }
  split; [exact Hos|].
  destruct (ll_client_safe HEAP_START HEAP_SIZE demo_ops) as (s & s' & live & Hi & Hr & Ha & _).
  - done.
  - by exists (HEAP_START / 8).
  - done.
  - done.
  - exact Hos.
  - by exists s, s', live.
Defined.

(** What a client stores inside a live allocation is outside the free list. *)
Lemma client_write_frame lo hi s rs live p l a n :
  free_list lo hi s rs → Forall (live_ok lo hi) live → all_apart (rs ++ (block <$> live)) →
  (p, l) ∈ live → p ≤ a < p + lsize l →
  free_list lo hi (mkLL (head s) (partial_alter (λ _, n) a (mem s))) rs.
Proof.
  intros [] Hlive Hap Hin Ha. split; try done. simpl. eapply chain_frame; [|done]. intros b Hb.
  apply lookup_partial_alter_ne. intros <-. revert Hb.
  rewrite Forall_forall in Hlive. destruct (Hlive _ Hin) as (Hl & _).
  apply adj_size_spec in Hl as (Hsz & _). simpl in Hsz.
  apply elem_of_Permutation in Hin as [live' Hp]. rewrite Hp in Hap.
  rewrite fmap_cons, <- Permutation_middle in Hap. destruct Hap as [Hap _].
  apply Forall_app in Hap as [Hap _]. eapply region_notin; [exact Hap|done|]. simpl. lia.
Qed.

(** Clients cannot disturb the allocator through their own memory. Whatever
    is stored at an address inside a live allocation, the allocator's invariant
    still holds, and the next [alloc] returns the same block as it would have
    without the store. *)
Theorem ll_client_writes (s : LinkedListAllocator) (live : list (Z * Layout)) (p a : Z)
    (l l' : Layout) (n : option ListNode)
    (Hinv : ll_inv s live) (Hin : (p, l) ∈ live) (Ha : p ≤ a < p + lsize l)
    (Hl' : ll_accepts l') :
  let sw := mkLL (head s) (partial_alter (λ _, n) a (mem s)) in
  ll_inv sw live ∧ ∃ q s1 s2, ll_alloc s l' = Ret (q, s1) ∧ ll_alloc sw l' = Ret (q, s2).
Proof.
  intros sw. destruct Hinv as (lo & hi & rs & Hfl & Hlive & Hap).
  assert (free_list lo hi sw rs) as Hflw by (by eapply client_write_frame).
  split; [by exists lo, hi, rs|].
  destruct (ll_alloc_abs lo hi s rs l') as (s1 & H1 & _); [done..|].
  destruct (ll_alloc_abs lo hi sw rs l') as (s2 & H2 & _); [done..|]. eauto.
Qed.

Lemma ll_client_writes_witness :
  ∃ s q s1 s2, ll_inv s [(4096, mkLayout 20 8)] ∧
    ll_alloc s (mkLayout 20 8) = Ret (q, s1) ∧
    ll_alloc (mkLL (head s) (partial_alter (λ _, Some (mkNode 7 None)) 4096 (mem s)))
      (mkLayout 20 8) = Ret (q, s2).
Proof.
  assert (ll_accepts (mkLayout 20 8)) as Hl by (split; [by apply (layout_ok_intro 20 3)|done]).
  destruct (ll_alloc_inv demo_ll [] (mkLayout 20 8)) as (p & s' & Hr & Hinv).
  - exists 4096, 4352, [(4096, 256)]. split; [exact demo_ll_free|]. by repeat constructor.
  - exact Hl.
  - assert (p = 4096) as -> by (vm_compute in Hr; by injection Hr). simpl in Hinv.
    destruct (ll_client_writes s' _ 4096 4096 (mkLayout 20 8) (mkLayout 20 8) (Some (mkNode 7 None))
      Hinv ltac:(set_solver) ltac:(simpl; lia) Hl) as (_ & q & s1 & s2 & H1 & H2).
    exists s', q, s1, s2. split; [exact Hinv|]. split; [exact H1|exact H2].
Defined.

Definition total (rs : list (Z * Z)) : Z := foldr Z.add 0 (rs.*2).

Lemma total_perm rs rs' : rs ≡ₚ rs' → total rs = total rs'.
Proof. unfold total. induction 1; csimpl in *; lia. Qed.

(** A fitting block and its padding are taken from the free bytes. *)
Lemma abs_alloc_total l rs :
  ll_accepts l → (abs_alloc l rs).1 ≠ 0 →
  let '(p, rs') := abs_alloc l rs in
  ∃ a sz, (a, sz) ∈ rs ∧ 0 ≤ p - a < adj_align l
    ∧ total rs' + adj_size l + (p - a) = total rs.
Proof.
  intros Hl. pose proof (adj_size_spec l Hl) as (_ & [Hsz _] & _). unfold NODE_SIZE in Hsz.
  pose proof (pow2_pos _ (adj_align_pow2 l (proj1 Hl))) as Hpos.
  unfold abs_alloc. destruct (first_fit _ _ rs) as [[[[a sz] start] rest]|] eqn:Hff; [|done].
  intros _. apply first_fit_Some in Hff as [Hp Hfit]. exists a, sz.
  split; [rewrite Hp; apply list_elem_of_here|].
  rewrite (total_perm _ _ Hp). unfold fit in Hfit. simpl in Hfit.
  destruct (round_up_spec a (adj_align l) Hpos) as [_ Hr].
  case_decide; [|done]. injection Hfit as <-. unfold total, NODE_SIZE in *. csimpl.
  split; [lia|]. destruct (Z.ltb_spec 0 (a + sz - (round_up a (adj_align l) + adj_size l)));
    csimpl; lia.
Qed.

(** Where the bytes go. A successful [alloc] takes the adjusted size and the
    padding in front of the block, less than the alignment, out of the free
    bytes. [dealloc] of the block gives back the adjusted size only: after the
    pair the free list is short of exactly the padding, which is lost for
    good. *)
Theorem ll_alloc_accounting (lo hi : Z) (s : LinkedListAllocator) (rs : list (Z * Z)) (l : Layout)
    (Hfl : free_list lo hi s rs) (Hl : ll_accepts l) :
  ∃ p s1 rs1, ll_alloc s l = Ret (p, s1) ∧ free_list lo hi s1 rs1 ∧
    if decide (p = 0) then rs1 = rs
    else ∃ a sz s2 rs2, (a, sz) ∈ rs ∧ 0 ≤ p - a < adj_align l
      ∧ total rs1 + adj_size l + (p - a) = total rs
      ∧ ll_dealloc s1 p l = Ret s2 ∧ free_list lo hi s2 rs2
      ∧ total rs2 + (p - a) = total rs.
Proof.
  destruct (ll_alloc_abs lo hi s rs l Hfl Hl) as (s1 & Hr & Hfl1).
  pose proof (abs_alloc_total l rs Hl) as Htot.
  pose proof (abs_alloc_inv lo hi l rs [] Hl (fl_within _ _ _ _ Hfl) (fl_lo _ _ _ _ Hfl)) as Ha.
  rewrite app_nil_r in Ha. specialize (Ha (fl_apart _ _ _ _ Hfl)).
  destruct (abs_alloc l rs) as [p rs1]. simpl in *. exists p, s1, rs1. split_and!; [done..|].
  destruct Ha as [[-> ->]|(Hp & Hd & Hw & Hap)]; [by rewrite decide_True|].
  rewrite decide_False by done. destruct (Htot Hp) as (a & sz & Hin & Hpad & Hsum).
  rewrite (Permutation_app_comm rs1) in Hap. destruct Hap as [Hap _].
  destruct (ll_dealloc_abs lo hi s1 rs1 p l) as (s2 & Hr2 & Hfl2); try done.
  exists a, sz, s2, ((p, adj_size l) :: rs1). split_and!; try done; try lia.
  unfold total in *. csimpl. lia.
Qed.

(** A region that starts 56 bytes before a multiple of 64. *)
Lemma ll_alloc_accounting_witness :
  free_list 4104 4360 (mkLL (mkNode 0 (Some 4104)) {[4104 := mkNode 256 None]}) [(4104, 256)] ∧
  ∃ p s1, ll_alloc (mkLL (mkNode 0 (Some 4104)) {[4104 := mkNode 256 None]}) (mkLayout 20 64)
    = Ret (p, s1) ∧ p = 4160 ∧ ∃ rs1, free_list 4104 4360 s1 rs1.
Proof.
  assert (free_list 4104 4360 (mkLL (mkNode 0 (Some 4104)) {[4104 := mkNode 256 None]})
    [(4104, 256)]) as Hfl.
  { split; simpl; try done.
    - split; [done|]. by exists None.
    - constructor; [|constructor]. split; [by exists 513|done].
    - constructor; [|constructor]. split; simpl; lia. }
  split; [exact Hfl|].
  destruct (ll_alloc_accounting 4104 4360 _ [(4104, 256)] (mkLayout 20 64) Hfl)
    as (p & s1 & rs1 & Hr & Hf & _).
  - split; [by apply (layout_ok_intro 20 6)|done].
  - exists p, s1. split; [exact Hr|]. split; [vm_compute in Hr; by injection Hr|by exists rs1].
Defined.
