(* ===== verification/FixedBlock.v ===== *)
(** The fixed-size block allocator of src/src/allocator/fixed_size_block.rs,
    the kernel's global allocator. Its fallback, [linked_list_allocator::Heap],
    is another crate's: the model takes its operations as a class and what the
    crate promises as the laws of [GlobalAlloc]. *)
From S2P Require Import Prelude Alloc Bump.
Local Open Scope Z_scope.
Local Open Scope rust_scope.

(** The calls of the fallback heap. *)
Class Heap (H : Type) := {
  heap_empty : H;
  heap_init : H → Z → Z → outcome H;
  allocate_first_fit : H → Layout → outcome (result Z unit * H);
  deallocate : H → Z → Layout → outcome H;
}.

Definition BLOCK_SIZES : list Z := [8; 16; 32; 64; 128; 256; 512; 1024; 2048].

(** Size and alignment of [ListNode]: one nullable pointer. *)
Definition FNODE_SIZE : Z := 8.
Definition FNODE_ALIGN : Z := 8.

(** The allocator, and the nodes in the free blocks: for each address the
    pointer stored there. *)
Record FixedSizeBlockAllocator (H : Type) := mkFsb {
  list_heads : list (option Z);
  fallback_allocator : H;
  fmem : gmap Z (option Z);
}.
Arguments mkFsb {H} _ _ _.
Arguments list_heads {H} _.
Arguments fallback_allocator {H} _.
Arguments fmem {H} _.

Definition list_index (layout : Layout) : option Z :=
  let required_block_size := Z.max (lsize layout) (lalign layout) in
  (λ p, Z.of_nat p.1) <$> list_find (λ s, required_block_size ≤ s) BLOCK_SIZES.

(** [NonNull::new(ptr).unwrap()]. *)
Definition nonnull (ptr : Z) : outcome Z :=
  unwrap (if ptr =? 0 then None else Some ptr).

Section fsb.
Context `{Heap H}.

Definition FixedSizeBlockAllocator_new : FixedSizeBlockAllocator H :=
  mkFsb (replicate (length BLOCK_SIZES) None) heap_empty ∅.

Definition fsb_init (s : FixedSizeBlockAllocator H) (start size : Z) :
    outcome (FixedSizeBlockAllocator H) :=
  h ← heap_init (fallback_allocator s) start size;
  Ret (mkFsb (list_heads s) h (fmem s)).

(** [fallback_alloc], on the fallback heap alone. *)
Definition fallback_alloc (h : H) (layout : Layout) : outcome (Z * H) :=
  '(r, h) ← allocate_first_fit h layout;
  match r with Ok ptr => Ret (ptr, h) | Err _ => Ret (0, h) end.

Definition fsb_alloc (s : FixedSizeBlockAllocator H) (layout : Layout) :
    outcome (Z * FixedSizeBlockAllocator H) :=
  match list_index layout with
  | Some i =>
      taken ← index (list_heads s) i;
      heads ← store (list_heads s) i None;
      match taken with
      | Some node =>
          next ← match fmem s !! node with Some nx => Ret nx | None => Panic PDangling end;
          heads ← store heads i next;
          Ret (node, mkFsb heads (fallback_allocator s) (<[node := None]> (fmem s)))
      | None =>
          block_size ← index BLOCK_SIZES i;
          let block_align := block_size in
          layout ← expect (from_size_align block_size block_align);
          '(p, h) ← fallback_alloc (fallback_allocator s) layout;
          Ret (p, mkFsb heads h (fmem s))
      end
  | None =>
      '(p, h) ← fallback_alloc (fallback_allocator s) layout;
      Ret (p, mkFsb (list_heads s) h (fmem s))
  end.

Definition fsb_dealloc (s : FixedSizeBlockAllocator H) (ptr : Z) (layout : Layout) :
    outcome (FixedSizeBlockAllocator H) :=
  match list_index layout with
  | Some i =>
      taken ← index (list_heads s) i;
      heads ← store (list_heads s) i None;
      block_size ← index BLOCK_SIZES i;
      _ ← assert (FNODE_SIZE <=? block_size);
      _ ← assert (FNODE_ALIGN <=? block_size);
      let fmem' := <[ptr := taken]> (fmem s) in
      heads ← store heads i (Some ptr);
      Ret (mkFsb heads (fallback_allocator s) fmem')
  | None =>
      ptr ← nonnull ptr;
      h ← deallocate (fallback_allocator s) ptr layout;
      Ret (mkFsb (list_heads s) h (fmem s))
  end.
End fsb.

(** The fallback heap as a [GlobalAlloc]: null for an error. *)
Definition heap_GlobalAlloc {H : Type} {HH : Heap H} : GlobalAlloc H := {|
  alloc := fallback_alloc;
  dealloc := deallocate;
|}.

#[global] Instance fsb_GlobalAlloc {H : Type} {HH : Heap H} :
    GlobalAlloc (FixedSizeBlockAllocator H) := {
  alloc := fsb_alloc;
  dealloc := fsb_dealloc;
}.

(** * Size classes *)

(** The layout of the blocks of class [i]. *)
Definition class_size (i : nat) : Z := 8 * 2 ^ Z.of_nat i.
Definition class_layout (i : nat) : Layout := mkLayout (class_size i) (class_size i).

Lemma BLOCK_SIZES_lookup i : (i < 9)%nat → BLOCK_SIZES !! i = Some (class_size i).
Proof. intros Hi. do 9 (destruct i as [|i]; [done|]). lia. Qed.

Lemma class_size_pow2 i : (i < 9)%nat → pow2 (class_size i).
Proof.
  intros. exists (3 + Z.of_nat i). split; [lia|]. unfold class_size.
  by rewrite Z.pow_add_r by lia.
Qed.

Lemma class_size_bounds i : (i < 9)%nat → 8 ≤ class_size i ≤ 2048.
Proof.
  intros. unfold class_size. pose proof (Z.pow_le_mono_r 2 0 (Z.of_nat i)).
  pose proof (Z.pow_le_mono_r 2 (Z.of_nat i) 8). lia.
Qed.

Lemma class_layout_ok i : (i < 9)%nat → layout_ok (class_layout i).
Proof.
  intros Hi. pose proof (class_size_bounds i Hi). split; simpl; [by apply class_size_pow2|lia].
Qed.

Lemma from_size_align_class i :
  (i < 9)%nat → from_size_align (class_size i) (class_size i) = Ok (class_layout i).
Proof.
  intros Hi. pose proof (class_size_bounds i Hi). unfold from_size_align.
  rewrite is_power_of_two_pow2 by (by apply class_size_pow2).
  by rewrite (proj2 (Z.leb_le _ _)) by lia.
Qed.

(** [list_index] picks the smallest class that holds the layout, and none
    exactly when the layout needs more than 2048 bytes. *)
Lemma list_index_spec l :
  match list_index l with
  | Some z => ∃ i, z = Z.of_nat i ∧ (i < 9)%nat ∧ lsize l ≤ class_size i ∧ lalign l ≤ class_size i
      ∧ ∀ j, (j < i)%nat → class_size j < Z.max (lsize l) (lalign l)
  | None => 2048 < Z.max (lsize l) (lalign l)
  end.
Proof.
  unfold list_index. destruct (list_find _ BLOCK_SIZES) as [[i s]|] eqn:Hf; simpl.
  - apply list_find_Some in Hf as (Hi & Hle & Hfirst).
    assert (i < 9)%nat as Hi9 by (by apply lookup_lt_Some in Hi).
    rewrite BLOCK_SIZES_lookup in Hi by done. injection Hi as <-. exists i.
    split_and!; [done|done|lia|lia|]. intros j Hj.
    specialize (Hfirst j (class_size j)). rewrite BLOCK_SIZES_lookup in Hfirst by lia.
    specialize (Hfirst eq_refl Hj). lia.
  - apply list_find_None in Hf. rewrite Forall_forall in Hf. specialize (Hf 2048).
    apply Z.nle_gt. apply Hf. unfold BLOCK_SIZES. set_solver.
Qed.

(** The layout the allocator really asks the fallback for. *)
Definition served (l : Layout) : Layout :=
  match list_index l with Some i => class_layout (Z.to_nat i) | None => l end.

Lemma served_covers l :
  layout_ok l → lsize l ≤ lsize (served l) ∧ (lalign l | lalign (served l)) ∧ 0 < lsize (served l).
Proof.
  intros Hl. pose proof (list_index_spec l) as Hi. unfold served.
  destruct (list_index l) as [z|].
  - destruct Hi as (i & -> & Hi & Hs & Ha & _). rewrite Nat2Z.id. simpl.
    pose proof (class_size_bounds i Hi). split_and!; [done| |lia].
    apply pow2_divide; [apply Hl|by apply class_size_pow2|done].
  - destruct Hl as [_ ?]. split_and!; [done|done|lia].
Qed.

(** * The free lists *)
Fixpoint bchain (m : gmap Z (option Z)) (p : option Z) (bs : list Z) : Prop :=
  match bs with
  | [] => p = None
  | a :: bs => p = Some a ∧ ∃ nx, m !! a = Some nx ∧ bchain m nx bs
  end.

Lemma bchain_insert m a nx p bs : a ∉ bs → bchain m p bs → bchain (<[a := nx]> m) p bs.
Proof.
  revert p. induction bs as [|b bs IH]; intros p Ha; simpl; [done|].
  intros (-> & n & Hb & Hc). split; [done|]. exists n.
  rewrite lookup_insert_ne by set_solver. split; [done|]. apply IH; [set_solver|done].
Qed.

(** All free blocks with their class, most recently freed first; those of one
    class. *)
Definition of_class (i : nat) (fr : list (Z * nat)) : list Z :=
  (filter (λ b, b.2 = i) fr).*1.

Lemma of_class_cons i b fr :
  of_class i (b :: fr) = if decide (b.2 = i) then b.1 :: of_class i fr else of_class i fr.
Proof. unfold of_class. rewrite filter_cons. by case_decide. Qed.

Lemma of_class_app i fr1 fr2 : of_class i (fr1 ++ fr2) = of_class i fr1 ++ of_class i fr2.
Proof. unfold of_class. by rewrite filter_app, fmap_app. Qed.

Lemma of_class_elem a i fr : a ∈ of_class i fr → (a, i) ∈ fr.
Proof.
  unfold of_class. rewrite list_elem_of_fmap. intros ([a' i'] & -> & Hin).
  apply list_elem_of_filter in Hin as [Hi Hin]. simpl in Hi. by subst.
Qed.

(** The first block of a class, taken out. *)
Lemma of_class_pop i fr a rest :
  of_class i fr = a :: rest →
  ∃ fr', fr ≡ₚ (a, i) :: fr' ∧ of_class i fr' = rest ∧ ∀ j, j ≠ i → of_class j fr' = of_class j fr.
Proof.
  induction fr as [|[b k] fr IH]; [done|]. rewrite of_class_cons. simpl.
  case_decide as Hk; intros Heq.
  - injection Heq as -> Hr. subst k. exists fr. split_and!; [done|done|].
    intros j Hj. rewrite of_class_cons. simpl. by rewrite decide_False.
  - destruct (IH Heq) as (fr' & Hp & Hi & Hj). exists ((b, k) :: fr'). split_and!.
    + rewrite Hp. apply Permutation_swap.
    + by rewrite of_class_cons; simpl; rewrite decide_False.
    + intros j Hne. rewrite !of_class_cons. simpl. by rewrite Hj.
Qed.

Lemma all_apart_notin p s l :
  all_apart ((p, s) :: l) → 0 < s → Forall (λ b, 0 < b.2) l → p ∉ l.*1.
Proof.
  intros [Hap _] Hs Hpos Hin. apply list_elem_of_fmap in Hin as ([p' s'] & -> & Hin).
  rewrite Forall_forall in Hap, Hpos. specialize (Hap _ Hin). specialize (Hpos _ Hin).
  unfold apart in Hap. simpl in *. lia.
Qed.

(** * The invariant *)
Section fsb_spec.
Context {H : Type} {HH : Heap H}.
#[local] Existing Instance heap_GlobalAlloc.
Context {HL : GlobalAllocLaws H}.
(** The fallback serves the nine block layouts without a panic. *)
Context (Hclass : ∀ i, (i < 9)%nat → ga_accepts (A := H) (class_layout i)).
Implicit Types (s : FixedSizeBlockAllocator H) (live : list (Z * Layout)) (fr : list (Z * nat)).

Definition fsb_accepts (l : Layout) : Prop := layout_ok l ∧ ga_accepts (A := H) l.

Definition pool fr : list (Z * Layout) := (λ b, (b.1, class_layout b.2)) <$> fr.
Definition taken live : list (Z * Layout) := (λ pl, (pl.1, served pl.2)) <$> live.

(** Every free block and every live allocation is an allocation of the
    fallback heap. *)
Record fsb_rep s live fr : Prop := {
  rep_heads : length (list_heads s) = 9%nat;
  rep_chains i p : list_heads s !! i = Some p → bchain (fmem s) p (of_class i fr);
  rep_classes : Forall (λ b, (b.2 < 9)%nat) fr;
  rep_used : ∃ used, ga_inv (fallback_allocator s) used ∧ used ≡ₚ pool fr ++ taken live;
  rep_live : Forall (λ pl, layout_ok pl.2) live;
}.

Definition fsb_inv s live : Prop := ∃ fr, fsb_rep s live fr.

Lemma rep_apart s live fr :
  fsb_rep s live fr → all_apart (extent <$> (pool fr ++ taken live)).
Proof.
  intros []. destruct rep_used0 as (used & Hinv & Hp). apply ga_inv_apart in Hinv.
  by rewrite Hp in Hinv.
Qed.

Lemma rep_aligned s live fr :
  fsb_rep s live fr →
  Forall (λ pl, pl.1 ≠ 0 ∧ (lalign pl.2 | pl.1)) (pool fr ++ taken live).
Proof.
  intros []. destruct rep_used0 as (used & Hinv & Hp). apply ga_inv_aligned in Hinv.
  by rewrite Hp in Hinv.
Qed.

Lemma extents_pos live fr :
  Forall (λ b, (b.2 < 9)%nat) fr → Forall (λ pl, layout_ok pl.2) live →
  Forall (λ b, 0 < b.2) (extent <$> (pool fr ++ taken live)).
Proof.
  intros Hfr Hlive. rewrite fmap_app. apply Forall_app. unfold pool, taken.
  rewrite !Forall_fmap. split.
  - eapply Forall_impl; [exact Hfr|]. intros [a i] Hi. simpl in *.
    pose proof (class_size_bounds i Hi). lia.
  - eapply Forall_impl; [exact Hlive|]. intros [p l] Hl. simpl in *.
    by apply served_covers in Hl as (_ & _ & ?).
Qed.

(** A block of the pool or of a client is at no address of a class's list. *)
Lemma notin_class (p sz : Z) live fr i :
  all_apart ((p, sz) :: (extent <$> (pool fr ++ taken live))) → 0 < sz →
  Forall (λ b, (b.2 < 9)%nat) fr → Forall (λ pl, layout_ok pl.2) live →
  p ∉ of_class i fr.
Proof.
  intros Hap Hs Hfr Hlive Hin. apply of_class_elem in Hin.
  eapply all_apart_notin; [exact Hap|done|by apply extents_pos|].
  apply list_elem_of_fmap. exists (p, class_size i). split; [done|].
  rewrite fmap_app. apply elem_of_app. left. unfold pool. rewrite <- list_fmap_compose.
  apply list_elem_of_fmap. by exists (p, i).
Qed.

Lemma fsb_inv_extents s live : fsb_inv s live → all_apart (extent <$> live).
Proof.
  intros [fr Hrep]. pose proof (rep_apart _ _ _ Hrep) as Hap. destruct Hrep.
  clear -rep_live0 Hap. induction rep_live0 as [|[p l] live Hl Hlive IH]; [done|].
  unfold taken in Hap. csimpl in Hap. rewrite <- Permutation_middle in Hap. csimpl in Hap.
  destruct Hap as [Hap1 Hap]. csimpl. split; [|by apply IH].
  apply served_covers in Hl as (Hl & _). rewrite fmap_app in Hap1. apply Forall_app in Hap1 as [_ Hap1].
  rewrite !Forall_fmap in Hap1. rewrite Forall_fmap. rewrite Forall_forall in Hap1, Hlive |- *.
  intros [p' l'] Hin. specialize (Hap1 _ Hin). specialize (Hlive _ Hin).
  apply served_covers in Hlive as (Hl' & _). unfold apart, extent in *. simpl in *. lia.
Qed.

Lemma fsb_inv_aligned s live :
  fsb_inv s live → Forall (λ pl, pl.1 ≠ 0 ∧ (lalign pl.2 | pl.1)) live.
Proof.
  intros [fr Hrep]. pose proof (rep_aligned _ _ _ Hrep) as Hal.
  apply Forall_app in Hal as [_ Hal]. unfold taken in Hal. rewrite Forall_fmap in Hal.
  destruct Hrep. rewrite Forall_forall in Hal, rep_live0 |- *. intros [p l] Hin.
  destruct (Hal _ Hin) as [Hp Hd]. specialize (rep_live0 _ Hin).
  apply served_covers in rep_live0 as (_ & Hd' & _). simpl in *. split; [done|]. by etrans.
Qed.

Lemma index_heads s live fr i :
  fsb_rep s live fr → (i < 9)%nat →
  ∃ hd, list_heads s !! i = Some hd ∧ index (list_heads s) (Z.of_nat i) = Ret hd
    ∧ ∀ x, store (list_heads s) (Z.of_nat i) x = Ret (<[i := x]> (list_heads s)).
Proof.
  intros [] Hi. destruct (lookup_lt_is_Some_2 (list_heads s) i) as [hd Hhd]; [lia|].
  exists hd. split_and!; [done|by apply index_Some; rewrite Nat2Z.id|].
  intros x. rewrite store_in by (rewrite Nat2Z.id; lia). by rewrite Nat2Z.id.
Qed.

Lemma store_heads heads i x y :
  length heads = 9%nat → (i < 9)%nat →
  store (<[i := x]> heads) (Z.of_nat i) y = Ret (<[i := y]> heads : list (option Z)).
Proof.
  intros Hl Hi. rewrite store_in by (rewrite Nat2Z.id, length_insert; lia).
  by rewrite Nat2Z.id, list_insert_insert_eq.
Qed.

(** Chains after the list of class [i] changed. *)
Lemma chains_update heads m m' fr fr' i nx :
  (∀ j p, heads !! j = Some p → bchain m p (of_class j fr)) →
  (∀ j p, j ≠ i → bchain m p (of_class j fr) → bchain m' p (of_class j fr')) →
  bchain m' nx (of_class i fr') → (i < length heads)%nat →
  ∀ j p, <[i := nx]> heads !! j = Some p → bchain m' p (of_class j fr').
Proof.
  intros Hch Hoth Hi Hlt j p Hj. rewrite list_lookup_insert in Hj. case_decide as Hd.
  - destruct Hd as [-> _]. by injection Hj as <-.
  - destruct (decide (j = i)) as [->|Hne]; [naive_solver|]. eauto.
Qed.

(** Reusing the first free block of a class. *)
Lemma rep_pop s live fr i node l :
  fsb_rep s live fr → (i < 9)%nat → list_index l = Some (Z.of_nat i) → layout_ok l →
  list_heads s !! i = Some (Some node) →
  ∃ nx, fmem s !! node = Some nx ∧ node ≠ 0 ∧
    fsb_inv (mkFsb (<[i := nx]> (list_heads s)) (fallback_allocator s) (<[node := None]> (fmem s)))
      ((node, l) :: live).
Proof.
  intros Hrep Hi Hl Hok Hhd. pose proof (rep_apart _ _ _ Hrep) as Hap.
  pose proof (rep_aligned _ _ _ Hrep) as Hal. destruct Hrep.
  pose proof (rep_chains0 _ _ Hhd) as Hch.
  destruct (of_class i fr) as [|a rest] eqn:Hcl; [done|].
  destruct Hch as ([= ->] & nx & Hnode & Hch). exists nx. split; [done|].
  destruct (of_class_pop i fr a rest Hcl) as (fr' & Hp & Hri & Hrj).
  assert (pool fr ≡ₚ (a, class_layout i) :: pool fr') as Hpool.
  { unfold pool. by rewrite Hp. }
  rewrite Hpool in Hap, Hal. csimpl in Hap. rewrite Hp in rep_classes0.
  apply Forall_cons in rep_classes0 as [_ Hcls]. apply Forall_cons in Hal as [[Hn0 _] _].
  split; [done|]. exists fr'.
  assert (∀ j, a ∉ of_class j fr') as Hnot.
  { intros j. eapply (notin_class a (class_size i) live fr'); try done.
    pose proof (class_size_bounds i Hi). lia. }
  split; simpl; [by rewrite length_insert| |done| |by constructor].
  - eapply chains_update; [done|..|lia].
    + intros j p Hne Hc. rewrite Hrj by done. apply bchain_insert; [|done].
      rewrite <- Hrj by done. apply Hnot.
    + rewrite Hri. apply bchain_insert; [|done]. rewrite <- Hri. apply Hnot.
  - destruct rep_used0 as (used & Hinv & Hu). exists used. split; [done|].
    rewrite Hu, Hpool. unfold taken. csimpl. unfold served at 2. rewrite Hl, Nat2Z.id.
    by rewrite Permutation_middle.
Qed.

(** Putting a block in front of the list of its class. *)
Lemma rep_push s live live' fr i hd p l :
  fsb_rep s live fr → (i < 9)%nat → list_index l = Some (Z.of_nat i) →
  live ≡ₚ (p, l) :: live' → list_heads s !! i = Some hd →
  fsb_inv (mkFsb (<[i := Some p]> (list_heads s)) (fallback_allocator s) (<[p := hd]> (fmem s))) live'.
Proof.
  intros Hrep Hi Hl Hp Hhd. pose proof (rep_apart _ _ _ Hrep) as Hap. destruct Hrep.
  assert (taken live ≡ₚ (p, class_layout i) :: taken live') as Ht.
  { unfold taken. rewrite Hp. csimpl. unfold served at 1. by rewrite Hl, Nat2Z.id. }
  rewrite Ht, <- Permutation_middle in Hap. csimpl in Hap. rewrite Hp in rep_live0.
  apply Forall_cons in rep_live0 as [_ Hlive].
  assert (∀ j, p ∉ of_class j fr) as Hnot.
  { intros j. eapply (notin_class p (class_size i) live' fr); try done.
    pose proof (class_size_bounds i Hi). lia. }
  exists ((p, i) :: fr). split; simpl; [by rewrite length_insert| |by constructor| |done].
  - eapply chains_update; [done|..|lia].
    + intros j q Hne Hc. rewrite of_class_cons. simpl. rewrite decide_False by done.
      by apply bchain_insert.
    + rewrite of_class_cons. simpl. rewrite decide_True by done. split; [done|].
      exists hd. rewrite lookup_insert_eq. split; [done|]. apply bchain_insert; auto.
  - destruct rep_used0 as (used & Hinv & Hu). exists used. split; [done|].
    rewrite Hu, Ht. unfold pool. csimpl. by rewrite Permutation_middle.
Qed.

(** A block fresh from the fallback heap. *)
Lemma rep_fresh s live fr h' p l used :
  fsb_rep s live fr → layout_ok l →
  used ≡ₚ pool fr ++ taken live →
  ga_inv h' (if decide (p = 0) then used else (p, served l) :: used) →
  fsb_inv (mkFsb (list_heads s) h' (fmem s)) (if decide (p = 0) then live else (p, l) :: live).
Proof.
  intros [] Hl Hu Hinv. exists fr. case_decide; split; simpl; try done.
  - by exists used.
  - eexists. split; [exact Hinv|]. rewrite Hu. unfold taken. csimpl. by rewrite Permutation_middle.
  - by constructor.
Qed.

Lemma fsb_alloc_inv s live l :
  fsb_inv s live → fsb_accepts l →
  ∃ p s', fsb_alloc s l = Ret (p, s') ∧ fsb_inv s' (if decide (p = 0) then live else (p, l) :: live).
Proof.
  intros [fr Hrep] [Hok Hacc]. destruct (rep_used _ _ _ Hrep) as (used & Hinv & Hu).
  pose proof (list_index_spec l) as Hi. unfold fsb_alloc.
  destruct (list_index l) as [z|] eqn:Hl.
  - destruct Hi as (i & -> & Hi & _). destruct (index_heads _ _ _ i Hrep Hi) as (hd & Hhd & -> & Hst).
    cbn [mbind outcome_bind]. rewrite Hst. cbn [mbind outcome_bind]. destruct hd as [node|].
    + destruct (rep_pop _ _ _ i node l Hrep Hi Hl Hok Hhd) as (nx & -> & Hn & Hinv').
      cbn [mbind outcome_bind]. rewrite store_heads by (apply Hrep || done).
      cbn [mbind outcome_bind]. eexists node, _. split; [done|]. by rewrite decide_False.
    + rewrite (index_Some _ _ (class_size i)) by (rewrite Nat2Z.id; by apply BLOCK_SIZES_lookup).
      cbn [mbind outcome_bind]. rewrite from_size_align_class by done. cbn [mbind outcome_bind expect].
      destruct (alloc_law _ used (class_layout i) Hinv (Hclass i Hi)) as (p & h' & Hr & Hinv').
      cbn [alloc heap_GlobalAlloc] in Hr. rewrite Hr. cbn [mbind outcome_bind].
      eexists p, _. split; [done|]. rewrite list_insert_id by done.
      eapply rep_fresh; [done|done|exact Hu|]. unfold served. by rewrite Hl, Nat2Z.id.
  - destruct (alloc_law _ used l Hinv Hacc) as (p & h' & Hr & Hinv').
    cbn [alloc heap_GlobalAlloc] in Hr. rewrite Hr. cbn [mbind outcome_bind].
    eexists p, _. split; [done|]. eapply rep_fresh; [done|done|exact Hu|]. unfold served. by rewrite Hl.
Qed.

Lemma fsb_dealloc_inv s live live' p l :
  fsb_inv s live → live ≡ₚ (p, l) :: live' →
  ∃ s', fsb_dealloc s p l = Ret s' ∧ fsb_inv s' live'.
Proof.
  intros [fr Hrep] Hp. pose proof (list_index_spec l) as Hi. unfold fsb_dealloc.
  destruct (list_index l) as [z|] eqn:Hl.
  - destruct Hi as (i & -> & Hi & _). destruct (index_heads _ _ _ i Hrep Hi) as (hd & Hhd & -> & Hst).
    cbn [mbind outcome_bind]. rewrite Hst. cbn [mbind outcome_bind].
    rewrite (index_Some _ _ (class_size i)) by (rewrite Nat2Z.id; by apply BLOCK_SIZES_lookup).
    cbn [mbind outcome_bind]. pose proof (class_size_bounds i Hi) as [Hb _].
    unfold FNODE_SIZE, FNODE_ALIGN. rewrite (proj2 (Z.leb_le 8 (class_size i))) by done.
    cbn [mbind outcome_bind assert]. rewrite store_heads by (apply Hrep || done).
    eexists. split; [done|]. by eapply rep_push.
  - pose proof (fsb_inv_aligned s live (ex_intro _ fr Hrep)) as Hal. rewrite Hp in Hal.
    apply Forall_cons in Hal as [[Hn _] _]. simpl in Hn. unfold nonnull.
    rewrite (proj2 (Z.eqb_neq _ _)) by done. cbn [mbind outcome_bind unwrap]. destruct Hrep.
    destruct rep_used0 as (used & Hinv & Hu).
    destruct (dealloc_law _ used (pool fr ++ taken live') p l Hinv) as (h' & Hr & Hinv').
    { rewrite Hu. unfold taken. rewrite Hp. csimpl. unfold served at 1. rewrite Hl.
      by rewrite Permutation_middle. }
    cbn [dealloc heap_GlobalAlloc] in Hr. rewrite Hr. eexists. split; [done|]. exists fr.
    split; simpl; try done; [by eexists|]. rewrite Hp in rep_live0. by apply Forall_cons in rep_live0 as [_ ?].
Qed.

#[program] Definition fsb_laws : GlobalAllocLaws (FixedSizeBlockAllocator H) := {|
  ga_inv := fsb_inv;
  ga_accepts := fsb_accepts;
|}.
Next Obligation. exact fsb_inv_extents. Qed.
Next Obligation. exact fsb_inv_aligned. Qed.
Next Obligation. exact fsb_alloc_inv. Qed.
Next Obligation. exact fsb_dealloc_inv. Qed.

(** With empty lists the allocator is as good as its fallback heap. *)
Lemma fsb_fresh_inv s :
  list_heads s = replicate 9 None → ga_inv (fallback_allocator s) [] → fsb_inv s [].
Proof.
  intros Hh Hinv. exists []. split; try constructor.
  - by rewrite Hh.
  - intros i p Hi. rewrite Hh in Hi. by apply lookup_replicate in Hi as [-> _].
  - by exists [].
Qed.

Lemma fsb_init_inv start size h :
  heap_init heap_empty start size = Ret h → ga_inv h [] →
  ∃ s, fsb_init FixedSizeBlockAllocator_new start size = Ret s ∧ fsb_inv s [].
Proof.
  intros Hh Hinv. unfold fsb_init. simpl. rewrite Hh. eexists. split; [done|]. by apply fsb_fresh_inv.
Qed.
End fsb_spec.

(** C4: the kernel's global allocator is safe, whatever fallback heap it sits
    on, as long as that heap keeps the promises of an allocator. From [init],
    any sequence of allocations with accepted layouts and of deallocations of
    live blocks runs without a panic or a dangling read, and the blocks live at
    the end are non-null, aligned as requested and pairwise disjoint: no block
    of a free list is handed out twice or shared with the fallback. *)
Theorem fsb_client_safe (H : Type) (HH : Heap H) (HL : @GlobalAllocLaws H heap_GlobalAlloc)
    (start size : Z) (h : H) (os : list op)
    (Hclass : ∀ i, (i < 9)%nat → @ga_accepts H _ HL (class_layout i))
    (Hinit : heap_init heap_empty start size = Ret h) (Hinv : @ga_inv H _ HL h [])
    (Hos : Forall (op_ok (λ l, layout_ok l ∧ @ga_accepts H _ HL l)) os) :
  ∃ s s' live, fsb_init FixedSizeBlockAllocator_new start size = Ret s
    ∧ client_run os (s, []) = Ret (s', live)
    ∧ all_apart (extent <$> live)
    ∧ Forall (λ pl, pl.1 ≠ 0 ∧ (lalign pl.2 | pl.1)) live.
Proof.
  destruct (fsb_init_inv (HL := HL) start size h Hinit Hinv) as (s & -> & Hs).
  pose proof (client_run_inv (H0 := fsb_laws (HL := HL) Hclass) os s [] Hs Hos) as Hr.
  apply ensures_run in Hr as ([s' live] & Hr & Hinv'). exists s, s', live.
  change (fsb_inv (HL := HL) s' live) in Hinv'.
  split_and!; [done|done|by eapply fsb_inv_extents|by eapply fsb_inv_aligned].
Qed.

(** A fallback heap that keeps the promises: the bump allocator. *)
Definition bump_Heap : Heap BumpAllocator := {|
  heap_empty := BumpAllocator_new;
  heap_init := bump_init;
  allocate_first_fit h l :=
    '(p, h) ← bump_alloc h l; Ret (if p =? 0 then Err tt else Ok p, h);
  deallocate := bump_dealloc;
|}.

#[program] Definition bump_heap_laws : @GlobalAllocLaws BumpAllocator (@heap_GlobalAlloc _ bump_Heap) := {|
  ga_inv := bump_inv;
  ga_accepts := layout_ok;
|}.
Next Obligation. intros a live Ha. apply Ha. Qed.
Next Obligation. intros a live Ha. apply Ha. Qed.
Next Obligation.
  intros b live l Hb Hl. destruct (bump_alloc_inv b live l Hb Hl) as (p & b' & Hr & Hinv).
  exists p, b'. split; [|done]. unfold alloc; simpl. unfold fallback_alloc; simpl. rewrite Hr. simpl.
  by destruct (Z.eqb_spec p 0) as [->|].
Qed.
Next Obligation. exact bump_dealloc_inv. Qed.

Lemma fsb_client_safe_witness :
  ∃ s s' live, @fsb_init _ bump_Heap (@FixedSizeBlockAllocator_new _ bump_Heap) HEAP_START HEAP_SIZE = Ret s
    ∧ @client_run _ (@fsb_GlobalAlloc _ bump_Heap) demo_ops (s, []) = Ret (s', live)
    ∧ all_apart (extent <$> live).
Proof.
  destruct (bump_init_inv HEAP_START HEAP_SIZE) as (b & Hb & Hinv & _); [done..|].
  destruct (fsb_client_safe BumpAllocator bump_Heap bump_heap_laws HEAP_START HEAP_SIZE b demo_ops)
    as (s & s' & live & Hi & Hr & Ha & _).
  - exact class_layout_ok.
  - exact Hb.
  - exact Hinv.
  - apply demo_ops_ok. intros l Hl _. split; exact Hl.
  - by exists s, s', live.
Defined.

(** A freed block is the next one handed out. After [dealloc] of a live
    block of a size class, an allocation of any layout of the same class
    returns that block, and the fallback heap is not asked. *)
Theorem fsb_reuses_freed (H : Type) (HH : Heap H) (HL : @GlobalAllocLaws H heap_GlobalAlloc)
    (s : FixedSizeBlockAllocator H) (live live' : list (Z * Layout)) (p i : Z) (l l' : Layout)
    (Hinv : fsb_inv (HL := HL) s live) (Hp : live ≡ₚ (p, l) :: live')
    (Hl : list_index l = Some i) (Hl' : list_index l' = Some i) :
  ∃ s1 s2, fsb_dealloc s p l = Ret s1 ∧ fsb_alloc s1 l' = Ret (p, s2)
    ∧ fallback_allocator s2 = fallback_allocator s ∧ list_heads s2 = list_heads s.
Proof.
  destruct Hinv as [fr Hrep]. pose proof (list_index_spec l) as Hi. rewrite Hl in Hi.
  destruct Hi as (n & -> & Hi & _). destruct (index_heads _ _ _ n Hrep Hi) as (hd & Hhd & Hx & Hst).
  pose proof (rep_heads _ _ _ Hrep) as Hlen.
  unfold fsb_dealloc. rewrite Hl, Hx. cbn [mbind outcome_bind]. rewrite Hst. cbn [mbind outcome_bind].
  rewrite (index_Some _ _ (class_size n)) by (rewrite Nat2Z.id; by apply BLOCK_SIZES_lookup).
  cbn [mbind outcome_bind]. pose proof (class_size_bounds n Hi) as [Hb _].
  unfold FNODE_SIZE, FNODE_ALIGN. rewrite (proj2 (Z.leb_le 8 (class_size n))) by done.
  cbn [mbind outcome_bind assert]. rewrite store_heads by done. cbn [mbind outcome_bind].
  eexists _, _. split; [done|]. unfold fsb_alloc. rewrite Hl'. cbn [list_heads fmem fallback_allocator].
  rewrite (index_Some _ _ (Some p)) by (rewrite Nat2Z.id; apply list_lookup_insert_eq; lia).
  cbn [mbind outcome_bind]. rewrite store_heads by (rewrite ?length_insert; done).
  cbn [mbind outcome_bind]. rewrite lookup_insert_eq. cbn [mbind outcome_bind].
  rewrite store_heads by done. cbn [mbind outcome_bind]. split; [done|].
  cbn [list_heads fallback_allocator]. split; [done|]. by apply list_insert_id.
Qed.

Lemma fsb_reuses_freed_witness :
  let HH := bump_Heap in let HL := bump_heap_laws in
  ∃ s s1 s2 p, fsb_inv (HL := HL) s [(p, mkLayout 10 1)]
    ∧ fsb_dealloc s p (mkLayout 10 1) = Ret s1 ∧ fsb_alloc s1 (mkLayout 12 4) = Ret (p, s2).
Proof.
  intros HH HL. destruct (bump_init_inv HEAP_START HEAP_SIZE) as (b & Hb & Hinv & _); [done..|].
  destruct (fsb_init_inv (HL := HL) HEAP_START HEAP_SIZE b Hb Hinv) as (s0 & Hs0 & Hinv0).
  destruct (fsb_alloc_inv (HL := HL) class_layout_ok s0 [] (mkLayout 10 1)) as (p & s & Ha & Hinv1).
  - exact Hinv0.
  - split; by apply (layout_ok_intro 10 0).
  - assert (p ≠ 0) as Hp.
    { vm_compute in Hb. injection Hb as <-. vm_compute in Hs0. injection Hs0 as <-.
      vm_compute in Ha. by injection Ha as <- _. }
    rewrite decide_False in Hinv1 by exact Hp.
    destruct (fsb_reuses_freed BumpAllocator HH HL s [(p, mkLayout 10 1)] [] p 1
      (mkLayout 10 1) (mkLayout 12 4)) as (s1 & s2 & H1 & H2 & _);
      [exact Hinv1|reflexivity|reflexivity|reflexivity|].
    exists s, s1, s2, p. split; [exact Hinv1|]. split; [exact H1|exact H2].
Defined.

(** The choice of a size class. [list_index] returns the smallest class
    whose blocks are as large and as aligned as the layout asks (a block of the
    class is aligned to its size, and the requested alignment divides it), and
    none exactly when the layout needs more than 2048 bytes. *)
Theorem list_index_smallest (l : Layout) (Hl : layout_ok l) :
  match list_index l with
  | Some z => ∃ s, BLOCK_SIZES !! Z.to_nat z = Some s ∧ lsize l ≤ s ∧ (lalign l | s)
      ∧ ∀ j s', (j < Z.to_nat z)%nat → BLOCK_SIZES !! j = Some s' → s' < lsize l ∨ s' < lalign l
  | None => Forall (λ s, s < lsize l ∨ s < lalign l) BLOCK_SIZES
  end.
Proof.
  pose proof (list_index_spec l) as Hi. destruct (list_index l) as [z|].
  - destruct Hi as (i & -> & Hi & Hs & Ha & Hj). rewrite Nat2Z.id. exists (class_size i).
    split_and!; [by apply BLOCK_SIZES_lookup|done| |].
    + apply pow2_divide; [apply Hl|by apply class_size_pow2|done].
    + intros j s' Hlt Hs'. rewrite BLOCK_SIZES_lookup in Hs' by lia. injection Hs' as <-.
      specialize (Hj j Hlt). lia.
  - apply Forall_forall. intros s Hs. apply list_elem_of_lookup in Hs as [i Hs].
    pose proof (lookup_lt_Some _ _ _ Hs) as Hi9. rewrite BLOCK_SIZES_lookup in Hs by done.
    injection Hs as <-. pose proof (class_size_bounds i Hi9). lia.
Qed.

Lemma list_index_smallest_witness : layout_ok (mkLayout 10 64) ∧ (64 | 64) ∧ list_index (mkLayout 10 64) = Some 3.
Proof.
  assert (layout_ok (mkLayout 10 64)) as Hl by by apply (layout_ok_intro 10 6).
  pose proof (list_index_smallest (mkLayout 10 64) Hl) as Hi.
  change (list_index (mkLayout 10 64)) with (Some 3) in *. cbv beta iota in Hi.
  destruct Hi as (s & Hs & _ & Hd & _). vm_compute in Hs. injection Hs as <-.
  split; [exact Hl|]. split; [exact Hd|reflexivity].
Defined.
