(* ===== verification/HeapTests.v ===== *)
(** The heap's clients: [Box] and [Vec] of the standard library on a
    [GlobalAlloc] and a memory of bytes, and the integration tests of
    src/tests/heap_allocation.rs, run on each of the allocators. *)
From S2P Require Import Prelude Bytes Alloc Bump LinkedList FixedBlock.
Local Open Scope Z_scope.
Local Open Scope rust_scope.

(** * Memory *)
Fixpoint write_bytes (m : gmap Z Z) (p : Z) (bs : list Z) : gmap Z Z :=
  match bs with [] => m | b :: bs => <[p := b]> (write_bytes m (p + 1) bs) end.

(** [None]: some byte was never written, or its block was freed. *)
Fixpoint read_bytes (m : gmap Z Z) (p : Z) (n : nat) : option (list Z) :=
  match n with
  | O => Some []
  | S n => b ← m !! p; bs ← read_bytes m (p + 1) n; Some (b :: bs)
  end.

Fixpoint free_bytes (m : gmap Z Z) (p : Z) (n : nat) : gmap Z Z :=
  match n with O => m | S n => delete p (free_bytes m (p + 1) n) end.

Lemma read_bytes_ext m m' p n :
  (∀ a, p ≤ a < p + Z.of_nat n → m !! a = m' !! a) → read_bytes m p n = read_bytes m' p n.
Proof.
  revert p. induction n as [|n IH]; intros p Hm; simpl; [done|].
  rewrite (Hm p) by lia. rewrite (IH (p + 1)); [done|]. intros a Ha. apply Hm. lia.
Qed.

Lemma write_bytes_out m p bs a :
  a < p ∨ p + Z.of_nat (length bs) ≤ a → write_bytes m p bs !! a = m !! a.
Proof.
  revert p. induction bs as [|b bs IH]; intros p Ha; simpl in *; [done|].
  rewrite lookup_insert_ne by lia. apply IH. lia.
Qed.

Lemma free_bytes_out m p n a : a < p ∨ p + Z.of_nat n ≤ a → free_bytes m p n !! a = m !! a.
Proof.
  revert p. induction n as [|n IH]; intros p Ha; simpl in *; [done|].
  rewrite lookup_delete_ne by lia. apply IH. lia.
Qed.

Lemma read_write_bytes m p bs : read_bytes (write_bytes m p bs) p (length bs) = Some bs.
Proof.
  revert p. induction bs as [|b bs IH]; intros p; simpl; [done|]. rewrite lookup_insert_eq. simpl.
  rewrite (read_bytes_ext _ (write_bytes m (p + 1) bs)), IH; [done|].
  intros a Ha. apply lookup_insert_ne. lia.
Qed.

Lemma read_bytes_app m p n k bs bs' :
  read_bytes m p n = Some bs → read_bytes m (p + Z.of_nat n) k = Some bs' →
  read_bytes m p (n + k) = Some (bs ++ bs').
Proof.
  revert p bs. induction n as [|n IH]; intros p bs; simpl.
  - intros [= <-] Hk. by rewrite Z.add_0_r in Hk.
  - destruct (m !! p) as [b|]; [|done]. simpl.
    destruct (read_bytes m (p + 1) n) as [bs1|] eqn:Hr; [|done]. intros [= <-] Hk.
    rewrite (IH (p + 1) bs1); [done|done|]. by replace (p + 1 + Z.of_nat n) with (p + Z.of_nat (S n)) by lia.
Qed.

Lemma read_bytes_sub m p n bs i k :
  read_bytes m p n = Some bs → (i + k ≤ n)%nat → read_bytes m (p + Z.of_nat i) k = Some (sub bs i k).
Proof.
  unfold sub. revert p n bs. induction i as [|i IH]; intros p n bs Hr Hle.
  - rewrite Z.add_0_r. simpl. revert p n bs Hr Hle.
    induction k as [|k IHk]; intros p [|n] bs Hr Hle; simpl in *; [done|done|lia|].
    destruct (m !! p) as [b|]; [|done]. simpl in *. destruct (read_bytes m (p + 1) n) as [bs1|] eqn:Hr1; [|done].
    injection Hr as <-. simpl. rewrite (IHk (p + 1) n bs1); [done|done|lia].
  - destruct n as [|n]; [lia|]. simpl in Hr. destruct (m !! p) as [b|]; [|done]. simpl in Hr.
    destruct (read_bytes m (p + 1) n) as [bs1|] eqn:Hr1; [|done]. injection Hr as <-. simpl.
    replace (p + Z.of_nat (S i)) with (p + 1 + Z.of_nat i) by lia. apply (IH _ n); [done|lia].
Qed.

(** The bytes of an array of [u64]s. *)
Definition u64s (xs : list Z) : list Z := xs ≫= le_bytes 8.

Lemma length_u64s xs : length (u64s xs) = (8 * length xs)%nat.
Proof.
  induction xs as [|x xs IH]; [done|]. change (u64s (x :: xs)) with (le_bytes 8 x ++ u64s xs).
  rewrite length_app, length_le_bytes, IH. simpl. lia.
Qed.

Lemma u64s_app xs ys : u64s (xs ++ ys) = u64s xs ++ u64s ys.
Proof. apply bind_app. Qed.

Lemma sub_u64s xs i x : xs !! i = Some x → sub (u64s xs) (8 * i) 8 = le_bytes 8 x.
Proof.
  intros Hx. apply take_drop_middle in Hx as Heq. rewrite <- Heq at 1. rewrite u64s_app.
  assert (length (u64s (take i xs)) = (8 * i)%nat) as Hl.
  { rewrite length_u64s, length_take. apply lookup_lt_Some in Hx. lia. }
  rewrite sub_app_r by lia. rewrite Hl, Nat.sub_diag. change (u64s (x :: drop (S i) xs)) with (le_bytes 8 x ++ u64s (drop (S i) xs)).
  rewrite sub_app_l by (by rewrite length_le_bytes). apply (sub_all (le_bytes 8 x)).
Qed.

(** * [Box] and [Vec] *)
Record heap (A : Type) := mkHeap { h_alloc : A; h_mem : gmap Z Z }.
Arguments mkHeap {A} _ _.
Arguments h_alloc {A} _.
Arguments h_mem {A} _.

(** The layouts of [i32], [usize] and [[u64; cap]]. *)
Definition i32_layout : Layout := mkLayout 4 4.
Definition usize_layout : Layout := mkLayout 8 8.
Definition array_layout (cap : Z) : Layout := mkLayout (8 * cap) 8.

Section clients.
Context {A : Type} {HA : GlobalAlloc A}.

(** Allocation with [handle_alloc_error], which panics. *)
Definition alloc_or_panic (l : Layout) (s : heap A) : outcome (Z * heap A) :=
  '(p, a) ← alloc (h_alloc s) l;
  if p =? 0 then Panic POom else Ret (p, mkHeap a (h_mem s)).

(** What a freed block held is gone. *)
Definition free (l : Layout) (p : Z) (s : heap A) : outcome (heap A) :=
  a ← dealloc (h_alloc s) p l;
  Ret (mkHeap a (free_bytes (h_mem s) p (Z.to_nat (lsize l)))).

Definition write_at (p : Z) (bs : list Z) (s : heap A) : heap A :=
  mkHeap (h_alloc s) (write_bytes (h_mem s) p bs).

Definition read_at (p : Z) (n : nat) (s : heap A) : outcome (list Z) :=
  match read_bytes (h_mem s) p n with Some bs => Ret bs | None => Panic PDangling end.

(** [Box::new(v)], [*b] and the drop of a box, for an integer type. *)
Definition Box_new (l : Layout) (v : Z) (s : heap A) : outcome (Z * heap A) :=
  '(p, s) ← alloc_or_panic l s;
  Ret (p, write_at p (le_bytes (Z.to_nat (lsize l)) v) s).

Definition Box_read (l : Layout) (b : Z) (s : heap A) : outcome Z :=
  bs ← read_at b (Z.to_nat (lsize l)) s;
  Ret (le_val bs).

(** [assert_eq!] *)
Definition assert_eq (x y : Z) : outcome unit := assert (x =? y).

(** [Vec<u64>]: buffer, capacity and length. *)
Record Vec := mkVec { v_ptr : Z; v_cap : Z; v_len : Z }.

Definition Vec_new : Vec := mkVec 8 0 0.

(** [RawVec::grow_amortized]: the capacity doubles, from at least 4; growing an
    existing buffer is [GlobalAlloc::realloc], which allocates, copies and
    frees. *)
Definition grow (v : Vec) (s : heap A) : outcome (Vec * heap A) :=
  required ← v_len v +! 1;
  let cap := Z.max 4 (Z.max (v_cap v * 2) required) in
  layout ← expect (from_size_align (8 * cap) 8);
  '(p, s) ← alloc_or_panic layout s;
  if v_cap v =? 0 then Ret (mkVec p cap (v_len v), s)
  else
    bs ← read_at (v_ptr v) (Z.to_nat (8 * v_len v)) s;
    let s := write_at p bs s in
    s ← free (array_layout (v_cap v)) (v_ptr v) s;
    Ret (mkVec p cap (v_len v), s).

Definition Vec_push (x : Z) (vs : Vec * heap A) : outcome (Vec * heap A) :=
  let '(v, s) := vs in
  '(v, s) ← (if v_len v =? v_cap v then grow v s else Ret (v, s));
  let s := write_at (v_ptr v + 8 * v_len v) (le_bytes 8 x) s in
  Ret (mkVec (v_ptr v) (v_cap v) (v_len v + 1), s).

(** [vec.iter().sum::<u64>()] *)
Definition Vec_sum (v : Vec) (s : heap A) : outcome Z :=
  for_each (seqZ 0 (v_len v)) (λ i acc,
    bs ← read_at (v_ptr v + 8 * i) 8 s;
    acc +! le_val bs) 0.

Definition Vec_drop (v : Vec) (s : heap A) : outcome (heap A) :=
  if v_cap v =? 0 then Ret s else free (array_layout (v_cap v)) (v_ptr v) s.

(** * The tests *)
Definition simple_allocation_box (s : heap A) : outcome (heap A) :=
  '(heap_value1, s) ← Box_new i32_layout 1 s;
  '(heap_value2, s) ← Box_new i32_layout 69 s;
  x ← Box_read i32_layout heap_value1 s;
  _ ← assert_eq x 1;
  x ← Box_read i32_layout heap_value2 s;
  _ ← assert_eq x 69;
  s ← free i32_layout heap_value2 s;
  free i32_layout heap_value1 s.

Definition large_vec_value_verification (s : heap A) : outcome (heap A) :=
  let n := 1000 in
  '(vec, s) ← for_each (seqZ 1 (n - 1)) Vec_push (Vec_new, s);
  sum ← Vec_sum vec s;
  _ ← assert_eq sum ((n - 1) * n / 2);
  Vec_drop vec s.

(** The body of the loops: a box that lives for one iteration. *)
Definition one_box (i : Z) (s : heap A) : outcome (heap A) :=
  '(x, s) ← Box_new usize_layout i s;
  v ← Box_read usize_layout x s;
  _ ← assert_eq v i;
  free usize_layout x s.

Definition many_allocation_boxes (s : heap A) : outcome (heap A) :=
  for_each (seqZ 0 HEAP_SIZE) one_box s.

Definition many_boxes_long_lived_memory_reuse (s : heap A) : outcome (heap A) :=
  '(long_lived, s) ← Box_new i32_layout 1 s;
  s ← for_each (seqZ 0 HEAP_SIZE) one_box s;
  v ← Box_read i32_layout long_lived s;
  _ ← assert_eq v 1;
  free i32_layout long_lived s.
End clients.

(** * What the blocks hold *)

(** A block, with the bytes its owner has written at its start. *)
Definition holds (m : gmap Z Z) (b : Z * Layout * list Z) : Prop :=
  Z.of_nat (length b.2) ≤ lsize b.1.2 ∧ read_bytes m b.1.1 (length b.2) = Some b.2.

(** [o] gives a result that satisfies [Q], or the memory is exhausted. *)
Definition passes {B} (o : outcome B) (Q : B → Prop) : Prop :=
  match o with Ret b => Q b | Panic w => w = POom end.

Lemma passes_bind {B C} (o : outcome B) (k : B → outcome C) Q :
  passes o (λ b, passes (k b) Q) → passes (mbind k o) Q.
Proof. by destruct o. Qed.

Lemma passes_mono {B} (o : outcome B) (Q Q' : B → Prop) :
  passes o Q → (∀ b, Q b → Q' b) → passes o Q'.
Proof. destruct o; simpl; auto. Qed.

Lemma passes_for_each {T} (Inv : nat → T → Prop) (body : Z → T → outcome T) lo (n : nat) s :
  Inv O s →
  (∀ k s, (k < n)%nat → Inv k s → passes (body (lo + Z.of_nat k) s) (Inv (S k))) →
  passes (for_each (seqZ lo (Z.of_nat n)) body s) (Inv n).
Proof.
  revert Inv lo s. induction n as [|n IH]; intros Inv lo s H0 Hstep; [done|].
  rewrite seqZ_cons by lia. cbn [for_each]. apply passes_bind.
  pose proof (Hstep O s ltac:(lia) H0) as H1. rewrite Z.add_0_r in H1.
  eapply passes_mono; [exact H1|]. intros s1 Hs1. replace (Z.pred (Z.of_nat (S n))) with (Z.of_nat n) by lia.
  apply (IH (λ k, Inv (S k))); [done|]. intros k s2 Hk Hs2.
  replace (Z.succ lo + Z.of_nat k) with (lo + Z.of_nat (S k)) by lia. apply Hstep; [lia|done].
Qed.

Section facts.
Context `{GlobalAllocLaws A}.
Implicit Types (s : heap A) (boxes : list (Z * Layout * list Z)).

(** The blocks [boxes] are allocated and hold their bytes. *)
Definition heap_at s boxes : Prop :=
  ga_inv (h_alloc s) boxes.*1 ∧ Forall (holds (h_mem s)) boxes.

Lemma holds_frame m m' p n b :
  apart (p, n) (extent b.1) → (∀ a, a < p ∨ p + n ≤ a → m' !! a = m !! a) →
  holds m b → holds m' b.
Proof.
  intros Hap Hm [Hl Hr]. split; [done|]. rewrite <- Hr. apply read_bytes_ext.
  intros a Ha. apply Hm. unfold apart, extent in Hap. simpl in Hap. lia.
Qed.

(** A change inside one block leaves the others alone. *)
Lemma heap_frame s boxes boxes' p l bs m' :
  heap_at s boxes → boxes ≡ₚ (p, l, bs) :: boxes' →
  (∀ a, a < p ∨ p + lsize l ≤ a → m' !! a = h_mem s !! a) → Forall (holds m') boxes'.
Proof.
  intros [Hinv Hh] Hp Hm. apply ga_inv_apart in Hinv. rewrite Hp in Hinv, Hh.
  destruct Hinv as [Hap _]. apply Forall_cons in Hh as [_ Hh].
  rewrite <- list_fmap_compose, Forall_fmap in Hap. rewrite Forall_forall in Hap, Hh |- *.
  intros b Hb. eapply holds_frame; [exact (Hap b Hb)|exact Hm|by apply Hh].
Qed.

Lemma heap_alloc l s boxes :
  heap_at s boxes → ga_accepts l →
  ∃ p a, alloc (h_alloc s) l = Ret (p, a) ∧
    (p = 0 ∧ alloc_or_panic l s = Panic POom
     ∨ p ≠ 0 ∧ alloc_or_panic l s = Ret (p, mkHeap a (h_mem s))
       ∧ (0 ≤ lsize l → heap_at (mkHeap a (h_mem s)) ((p, l, []) :: boxes))).
Proof.
  intros [Hinv Hh] Hl. destruct (alloc_law (h_alloc s) boxes.*1 l Hinv Hl) as (p & a & Ha & Hinv').
  exists p, a. split; [done|]. unfold alloc_or_panic. rewrite Ha. cbn [mbind outcome_bind].
  destruct (Z.eqb_spec p 0) as [->|Hp]; [by left|right]. rewrite decide_False in Hinv' by done.
  split; [done|]. split; [done|]. intros Hsz. split; [exact Hinv'|]. constructor; [|done]. by split; simpl.
Qed.

(** Writing behind the bytes a block holds. *)
Lemma heap_append s p l bs bs' boxes :
  heap_at s ((p, l, bs) :: boxes) → Z.of_nat (length bs + length bs') ≤ lsize l →
  heap_at (write_at (p + Z.of_nat (length bs)) bs' s) ((p, l, bs ++ bs') :: boxes).
Proof.
  intros Hat Hlen. assert (Forall (holds (write_bytes (h_mem s) (p + Z.of_nat (length bs)) bs')) boxes) as Hoth.
  { eapply heap_frame; [exact Hat|done|]. intros a Ha. apply write_bytes_out. lia. }
  destruct Hat as [Hinv Hh]. apply Forall_cons in Hh as [[Hl Hr] _]. split; [exact Hinv|].
  constructor; [|exact Hoth]. simpl in *. split; simpl; [rewrite length_app; lia|]. rewrite length_app.
  apply read_bytes_app; [|apply read_write_bytes].
  etrans; [|exact Hr]. apply read_bytes_ext. intros a Ha. apply write_bytes_out. lia.
Qed.

Lemma heap_free s boxes boxes' p l bs :
  heap_at s boxes → boxes ≡ₚ (p, l, bs) :: boxes' → 0 ≤ lsize l →
  ∃ a m, dealloc (h_alloc s) p l = Ret a ∧ free l p s = Ret (mkHeap a m) ∧ heap_at (mkHeap a m) boxes'.
Proof.
  intros Hat Hp Hl.
  assert (Forall (holds (free_bytes (h_mem s) p (Z.to_nat (lsize l)))) boxes') as Hoth.
  { eapply heap_frame; [exact Hat|exact Hp|]. intros a Ha. apply free_bytes_out. lia. }
  destruct Hat as [Hinv _]. destruct (dealloc_law (h_alloc s) boxes.*1 boxes'.*1 p l Hinv) as (a & Ha & Hinv').
  { by rewrite Hp. }
  exists a. eexists. split; [done|]. unfold free. rewrite Ha. split; [reflexivity|]. by split.
Qed.

(** A box holds its value until it is dropped. *)
Definition box (l : Layout) (p v : Z) : Z * Layout * list Z := (p, l, le_bytes (Z.to_nat (lsize l)) v).

Lemma Box_new_spec l v s boxes :
  heap_at s boxes → ga_accepts l → 0 ≤ lsize l →
  ∃ p a, alloc (h_alloc s) l = Ret (p, a) ∧
    (p = 0 ∧ Box_new l v s = Panic POom
     ∨ p ≠ 0 ∧ ∃ m, Box_new l v s = Ret (p, mkHeap a m) ∧ heap_at (mkHeap a m) (box l p v :: boxes)).
Proof.
  intros Hat Hl Hsz. destruct (heap_alloc l s boxes Hat Hl) as (p & a & Ha & Hr). exists p, a. split; [done|].
  unfold Box_new. destruct Hr as [[-> ->]|(Hp & -> & Hat')]; [by left|right]. split; [done|].
  cbn [mbind outcome_bind]. eexists. split; [reflexivity|].
  pose proof (heap_append _ p l [] (le_bytes (Z.to_nat (lsize l)) v) boxes (Hat' Hsz)) as Happ.
  simpl in Happ. rewrite Z.add_0_r in Happ. apply Happ. rewrite length_le_bytes. lia.
Qed.

Lemma Box_read_spec l p v s boxes :
  heap_at s boxes → box l p v ∈ boxes → fits (8 * Z.of_nat (Z.to_nat (lsize l))) v → Box_read l p s = Ret v.
Proof.
  intros [_ Hh] Hin Hv. rewrite Forall_forall in Hh. destruct (Hh _ Hin) as [_ Hr]. simpl in Hr.
  rewrite length_le_bytes in Hr. unfold Box_read, read_at. rewrite Hr. cbn [mbind outcome_bind].
  by rewrite le_val_bytes.
Qed.

(** One iteration of the loops, completely. *)
Lemma one_box_spec i s boxes :
  heap_at s boxes → ga_accepts usize_layout → is_u64 i →
  ∃ p a, alloc (h_alloc s) usize_layout = Ret (p, a) ∧
    (p = 0 ∧ one_box i s = Panic POom
     ∨ p ≠ 0 ∧ ∃ a' m, dealloc a p usize_layout = Ret a' ∧ one_box i s = Ret (mkHeap a' m)
         ∧ heap_at (mkHeap a' m) boxes).
Proof.
  intros Hat Hl Hi. destruct (Box_new_spec usize_layout i s boxes Hat Hl) as (p & a & Ha & Hr); [done|].
  exists p, a. split; [done|]. unfold one_box. destruct Hr as [[-> ->]|(Hp & m & -> & Hat')]; [by left|right].
  split; [done|]. cbn [mbind outcome_bind].
  rewrite (Box_read_spec usize_layout p i _ _ Hat') by (done || apply list_elem_of_here).
  cbn [mbind outcome_bind]. unfold assert_eq, assert. rewrite Z.eqb_refl. cbn [mbind outcome_bind].
  destruct (heap_free _ _ boxes p usize_layout (le_bytes 8 i) Hat') as (a' & m' & Hd & -> & Hat''); [done..|].
  by exists a', m'.
Qed.

(** The allocator serves the layouts of the tests. *)
Context (Hacc : ∀ l, layout_ok l → lsize l ≤ 2 ^ 32 → ga_accepts (A := A) l).

Definition vec_block (v : Vec) (xs : list Z) : list (Z * Layout * list Z) :=
  if v_cap v =? 0 then [] else [(v_ptr v, array_layout (v_cap v), u64s xs)].

(** The vector [v] holds [xs]. *)
Record vec_at (v : Vec) s (xs : list Z) boxes : Prop := {
  va_heap : heap_at s (vec_block v xs ++ boxes);
  va_len : v_len v = Z.of_nat (length xs);
  va_cap : v_len v ≤ v_cap v ≤ 2 * v_len v + 4;
}.

Lemma array_layout_ok cap : 0 < cap ≤ 2 ^ 29 → layout_ok (array_layout cap).
Proof. intros Hc. split; simpl; [exists 3; split; [lia|done]|]. lia. Qed.

Lemma grow_spec v s xs boxes :
  vec_at v s xs boxes → v_len v = v_cap v → v_len v ≤ 2 ^ 20 →
  passes (grow v s) (λ vs, vec_at vs.1 vs.2 xs boxes ∧ v_len vs.1 < v_cap vs.1).
Proof.
  intros [Hat Hlen Hcap] Heq Hb. unfold grow, add64. rewrite checked_fits by (unfold fits; lia).
  cbn [mbind outcome_bind]. set (cap := Z.max 4 _).
  assert (v_cap v < cap ≤ 2 * v_len v + 4) as Hc by lia.
  assert (layout_ok (array_layout cap)) as Hlo by (apply array_layout_ok; lia).
  assert (from_size_align (8 * cap) 8 = Ok (array_layout cap)) as ->.
  { unfold from_size_align. by rewrite (proj2 (Z.leb_le _ _)) by lia. }
  cbn [expect mbind outcome_bind].
  destruct (heap_alloc (array_layout cap) s _ Hat) as (p & a & _ & [[_ ->]|(Hp & -> & Hat1)]);
    [apply Hacc; [done|simpl; lia]|done|].
  cbn [mbind outcome_bind]. specialize (Hat1 ltac:(simpl; lia)). unfold vec_block in Hat1, Hat.
  destruct (Z.eqb_spec (v_cap v) 0) as [Hz|Hz].
  - assert (xs = []) as -> by (apply nil_length_inv; lia). simpl. split; [|lia].
    split; simpl; [|done|lia]. unfold vec_block. simpl. rewrite (proj2 (Z.eqb_neq _ _)) by lia. exact Hat1.
  - assert (read_bytes (h_mem s) (v_ptr v) (length (u64s xs)) = Some (u64s xs)) as Hrd.
    { destruct Hat as [_ Hh]. simpl in Hh. apply Forall_cons in Hh as [[_ Hr] _]. exact Hr. }
    unfold read_at. cbn [h_mem]. rewrite length_u64s in Hrd.
    replace (Z.to_nat (8 * v_len v)) with (8 * length xs)%nat by lia. rewrite Hrd. cbn [mbind outcome_bind].
    apply (heap_append _ p (array_layout cap) [] (u64s xs)) in Hat1; [|rewrite length_u64s; simpl; lia].
    simpl length in Hat1. rewrite Z.add_0_r in Hat1.
    destruct (heap_free _ _ ((p, array_layout cap, u64s xs) :: boxes) (v_ptr v) (array_layout (v_cap v)) (u64s xs) Hat1)
      as (a' & m' & _ & -> & Hat2); [apply Permutation_swap|simpl; lia|].
    cbn [mbind outcome_bind passes fst snd v_len v_cap]. split; [|lia]. split; simpl; [|done|lia].
    unfold vec_block. simpl. by rewrite (proj2 (Z.eqb_neq _ _)) by lia.
Qed.

Lemma Vec_push_spec x v s xs boxes :
  vec_at v s xs boxes → v_len v ≤ 2 ^ 20 →
  passes (Vec_push x (v, s)) (λ vs, vec_at vs.1 vs.2 (xs ++ [x]) boxes).
Proof.
  intros Hv Hb. unfold Vec_push. apply passes_bind.
  apply (passes_mono _ (λ vs, vec_at vs.1 vs.2 xs boxes ∧ v_len vs.1 < v_cap vs.1)).
  { destruct (Z.eqb_spec (v_len v) (v_cap v)) as [Heq|Hne]; [by apply grow_spec|].
    simpl. split; [done|]. destruct Hv. lia. }
  intros [v1 s1] [[Hat Hlen Hcap] Hroom]. cbn [fst snd passes] in *. unfold vec_block in Hat.
  rewrite (proj2 (Z.eqb_neq _ _)) in Hat by lia. simpl in Hat.
  apply (heap_append _ _ _ _ (le_bytes 8 x)) in Hat;
    [|rewrite length_u64s, length_le_bytes; simpl; lia].
  rewrite length_u64s in Hat. split; simpl; [|rewrite length_app; simpl; lia|lia].
  unfold vec_block. simpl. rewrite (proj2 (Z.eqb_neq _ _)) by lia. rewrite u64s_app.
  change (u64s [x]) with (le_bytes 8 x ++ []). rewrite app_nil_r.
  by replace (8 * v_len v1) with (Z.of_nat (8 * length xs)) by lia.
Qed.

Definition sum (xs : list Z) : Z := foldr Z.add 0 xs.

Lemma sum_bound b xs : Forall (λ x, 0 ≤ x ≤ b) xs → 0 ≤ sum xs ≤ b * Z.of_nat (length xs).
Proof. induction 1 as [|x xs Hx _ IH]; simpl in *; [lia|]. unfold sum in *. simpl. lia. Qed.

Lemma Vec_sum_spec v s xs boxes :
  vec_at v s xs boxes → Forall is_u64 xs → (∀ k, (k ≤ length xs)%nat → is_u64 (sum (take k xs))) →
  Vec_sum v s = Ret (sum xs).
Proof.
  intros [[_ Hh] Hlen Hcap] Hu Hs. unfold Vec_sum. rewrite Hlen.
  assert (ensures (for_each (seqZ 0 (Z.of_nat (length xs)))
    (λ i acc, bs ← read_at (v_ptr v + 8 * i) 8 s; acc +! le_val bs) 0) (λ acc, acc = sum xs)) as Hr.
  { eapply ensures_mono; [apply (for_each_seqZ (λ k acc, acc = sum (take k xs))); [done|]|].
    2: { intros acc ->. by rewrite firstn_all. }
    intros k acc Hk ->. unfold vec_block in Hh. rewrite (proj2 (Z.eqb_neq _ _)) in Hh by lia.
    simpl in Hh. apply Forall_cons in Hh as [[_ Hrd] _]. cbn [fst snd] in Hrd. rewrite length_u64s in Hrd.
    destruct (lookup_lt_is_Some_2 xs k Hk) as [x Hx].
    pose proof (read_bytes_sub _ _ _ _ (8 * k) 8 Hrd ltac:(lia)) as Hsub. rewrite (sub_u64s xs k x Hx) in Hsub.
    unfold read_at. replace (v_ptr v + 8 * (0 + Z.of_nat k)) with (v_ptr v + Z.of_nat (8 * k)) by lia.
    rewrite Hsub. cbn [mbind outcome_bind]. rewrite le_val_bytes by (by apply (Forall_lookup_1 _ _ _ _ Hu Hx)).
    assert (sum (take (S k) xs) = sum (take k xs) + x) as Hstep.
    { rewrite (take_S_r _ _ _ Hx). unfold sum. rewrite foldr_app. simpl.
      generalize (take k xs). intros l. induction l as [|y l IHl]; simpl; [lia|]. rewrite IHl. lia. }
    unfold add64. rewrite checked_fits; [by rewrite Hstep|]. rewrite <- Hstep. apply Hs. lia. }
  apply ensures_run in Hr as (acc & -> & ->). done.
Qed.

Lemma Vec_drop_spec v s xs boxes :
  vec_at v s xs boxes → passes (Vec_drop v s) (λ s', heap_at s' boxes).
Proof.
  intros [Hat Hlen Hcap]. unfold Vec_drop. unfold vec_block in Hat.
  destruct (v_cap v =? 0); [exact Hat|].
  destruct (heap_free _ _ boxes (v_ptr v) (array_layout (v_cap v)) (u64s xs) Hat) as (a & m & _ & -> & Hat');
    [done|simpl; lia|exact Hat'].
Qed.

Lemma i32_accepted : ga_accepts (A := A) i32_layout.
Proof. apply Hacc; [split; simpl; [by exists 2|lia]|simpl; lia]. Qed.

Lemma usize_accepted : ga_accepts (A := A) usize_layout.
Proof. apply Hacc; [split; simpl; [by exists 3|lia]|simpl; lia]. Qed.

Lemma Box_new_passes l v s boxes :
  heap_at s boxes → ga_accepts l → 0 ≤ lsize l →
  passes (Box_new l v s) (λ ps, heap_at ps.2 (box l ps.1 v :: boxes)).
Proof.
  intros Hat Hl Hsz. by destruct (Box_new_spec l v s boxes Hat Hl Hsz) as (p & a & _ & [[_ ->]|(_ & m & -> & ?)]).
Qed.

(** Reading a box and comparing it with its value. *)
Lemma check_box l p v s boxes {B} (k : unit → outcome B) Q :
  heap_at s boxes → box l p v ∈ boxes → fits (8 * Z.of_nat (Z.to_nat (lsize l))) v →
  passes (k tt) Q → passes (x ← Box_read l p s; y ← assert_eq x v; k y) Q.
Proof.
  intros Hat Hin Hv Hk. rewrite (Box_read_spec l p v s boxes) by done. cbn [mbind outcome_bind].
  unfold assert_eq, assert. by rewrite Z.eqb_refl.
Qed.

Lemma free_passes l p v s boxes boxes' :
  heap_at s boxes → boxes ≡ₚ box l p v :: boxes' → 0 ≤ lsize l →
  passes (free l p s) (λ s', heap_at s' boxes').
Proof.
  intros Hat Hp Hl. by destruct (heap_free s boxes boxes' p l _ Hat Hp Hl) as (a & m & _ & -> & ?).
Qed.

Lemma simple_allocation_box_passes s boxes :
  heap_at s boxes → passes (simple_allocation_box s) (λ s', heap_at s' boxes).
Proof.
  intros Hat. unfold simple_allocation_box. apply passes_bind.
  eapply passes_mono; [by apply Box_new_passes; [|apply i32_accepted|]|]. intros [p1 s1] Hat1.
  apply passes_bind. eapply passes_mono; [by apply Box_new_passes; [|apply i32_accepted|]|].
  intros [p2 s2] Hat2. cbn [fst snd] in *.
  eapply check_box; [exact Hat2|set_solver|done|]. eapply check_box; [exact Hat2|set_solver|done|].
  apply passes_bind.
  eapply passes_mono; [by apply (free_passes _ _ 69 _ _ (box i32_layout p1 1 :: boxes) Hat2)|].
  intros s3 Hat3. by apply (free_passes _ _ 1 _ _ boxes Hat3).
Qed.

Lemma one_box_loop_passes s boxes :
  heap_at s boxes → passes (for_each (seqZ 0 HEAP_SIZE) one_box s) (λ s', heap_at s' boxes).
Proof.
  intros Hat. change HEAP_SIZE with (Z.of_nat (Z.to_nat HEAP_SIZE)).
  apply (passes_for_each (λ _ s, heap_at s boxes)); [done|]. intros k s1 Hk Hat1.
  destruct (one_box_spec (0 + Z.of_nat k) s1 boxes Hat1 usize_accepted)
    as (p & a & _ & [[_ ->]|(_ & a' & m & _ & -> & Hat2)]); [|done|done].
  unfold fits. unfold HEAP_SIZE in Hk. lia.
Qed.

Lemma many_boxes_long_lived_passes s boxes :
  heap_at s boxes → passes (many_boxes_long_lived_memory_reuse s) (λ s', heap_at s' boxes).
Proof.
  intros Hat. unfold many_boxes_long_lived_memory_reuse. apply passes_bind.
  eapply passes_mono; [by apply Box_new_passes; [|apply i32_accepted|]|]. intros [p1 s1] Hat1.
  cbn [fst snd] in *. apply passes_bind. eapply passes_mono; [by apply one_box_loop_passes|].
  intros s2 Hat2. eapply check_box; [exact Hat2|set_solver|done|].
  by apply (free_passes _ _ 1 _ _ boxes Hat2).
Qed.

Lemma large_vec_passes s boxes :
  heap_at s boxes → passes (large_vec_value_verification s) (λ s', heap_at s' boxes).
Proof.
  intros Hat. unfold large_vec_value_verification. apply passes_bind.
  eapply passes_mono.
  { change (1000 - 1) with (Z.of_nat 999).
    apply (passes_for_each (λ k vs, vec_at vs.1 vs.2 (seqZ 1 (Z.of_nat k)) boxes)).
    - split; [exact Hat|done|simpl; lia].
    - intros k [v1 s1] Hk Hv. replace (seqZ 1 (Z.of_nat (S k))) with (seqZ 1 (Z.of_nat k) ++ [1 + Z.of_nat k]).
      + apply Vec_push_spec; [exact Hv|]. destruct Hv as [_ Hl _]. simpl in Hl. rewrite Hl, length_seqZ. simpl. lia.
      + replace (Z.of_nat (S k)) with (Z.of_nat k + 1) by lia. by rewrite seqZ_app by lia. }
  intros [v s1] Hv. cbn [fst snd] in Hv.
  rewrite (Vec_sum_spec v s1 _ boxes Hv).
  - change (sum (seqZ 1 (Z.of_nat 999))) with 499500. cbn [mbind outcome_bind]. by eapply Vec_drop_spec.
  - apply Forall_forall. intros x Hx. apply elem_of_seqZ in Hx. unfold fits. lia.
  - intros k Hk. rewrite length_seqZ in Hk. pose proof (sum_bound 999 (take k (seqZ 1 (Z.of_nat 999)))) as Hb.
    rewrite length_take, length_seqZ in Hb. unfold fits.
    assert (Forall (λ x, 0 ≤ x ≤ 999) (take k (seqZ 1 (Z.of_nat 999)))) as Hall.
    { apply Forall_take, Forall_forall. intros x Hx. apply elem_of_seqZ in Hx. lia. }
    specialize (Hb Hall). lia.
Qed.

(** An allocator that gives the block of an iteration back to the next one:
    [J] holds between iterations. *)
Definition reuses (J : A → Prop) : Prop :=
  ∀ a, J a → ∃ p a1 a2, alloc a usize_layout = Ret (p, a1) ∧ p ≠ 0
    ∧ dealloc a1 p usize_layout = Ret a2 ∧ J a2.

Lemma one_box_returns i s boxes p a a' :
  heap_at s boxes → is_u64 i → alloc (h_alloc s) usize_layout = Ret (p, a) → p ≠ 0 →
  dealloc a p usize_layout = Ret a' → ∃ m, one_box i s = Ret (mkHeap a' m) ∧ heap_at (mkHeap a' m) boxes.
Proof.
  intros Hat Hi Ha Hp Hd.
  destruct (one_box_spec i s boxes Hat usize_accepted Hi) as (p' & a1 & Ha1 & Hr).
  rewrite Ha1 in Ha. injection Ha as -> ->. destruct Hr as [[-> _]|(_ & a2 & m & Hd2 & Hr & Hat2)]; [done|].
  rewrite Hd2 in Hd. injection Hd as ->. by exists m.
Qed.

Lemma one_box_loop_returns (J : A → Prop) lo (n : nat) s boxes :
  reuses J → heap_at s boxes → J (h_alloc s) → 0 ≤ lo → lo + Z.of_nat n < 2 ^ 64 →
  ensures (for_each (seqZ lo (Z.of_nat n)) one_box s) (λ s', heap_at s' boxes ∧ J (h_alloc s')).
Proof.
  intros HJ Hat Hs Hlo Hn. apply (for_each_seqZ (λ _ s, heap_at s boxes ∧ J (h_alloc s))); [done|].
  intros k s1 Hk [Hat1 Hs1]. destruct (HJ _ Hs1) as (p & a1 & a2 & Ha & Hp & Hd & Hs2).
  destruct (one_box_returns (lo + Z.of_nat k) s1 boxes p a1 a2) as (m & -> & Hat2); try done.
  unfold fits. lia.
Qed.

(** With enough room for the first iteration, such an allocator passes. *)
Lemma long_lived_returns (J : A → Prop) s boxes p0 a0 p1 a1 a2 :
  reuses J → heap_at s boxes →
  alloc (h_alloc s) i32_layout = Ret (p0, a0) → p0 ≠ 0 →
  alloc a0 usize_layout = Ret (p1, a1) → p1 ≠ 0 → dealloc a1 p1 usize_layout = Ret a2 → J a2 →
  ∃ s', many_boxes_long_lived_memory_reuse s = Ret s' ∧ heap_at s' boxes.
Proof.
  intros HJ Hat Ha0 Hp0 Ha1 Hp1 Hd Ha2.
  unfold many_boxes_long_lived_memory_reuse.
  destruct (Box_new_spec i32_layout 1 s boxes Hat i32_accepted) as (p & a & Ha & Hr); [done|].
  rewrite Ha in Ha0. injection Ha0 as -> ->. destruct Hr as [[-> _]|(_ & m & Hb & Hat0)]; [done|].
  rewrite Hb. cbn [mbind outcome_bind].
  assert (∃ s', for_each (seqZ 0 HEAP_SIZE) one_box (mkHeap a0 m) = Ret s' ∧ heap_at s' (box i32_layout p0 1 :: boxes))
    as (s1 & Hs1 & Hat1).
  { rewrite seqZ_cons by done. cbn [for_each].
    destruct (one_box_returns 0 (mkHeap a0 m) _ p1 a1 a2 Hat0) as (m1 & -> & Hat1); try done.
    cbn [mbind outcome_bind].
    assert (∃ n : nat, Z.pred HEAP_SIZE = Z.of_nat n) as [n Hn] by (exists (Z.to_nat (Z.pred HEAP_SIZE)); unfold HEAP_SIZE; lia).
    pose proof (one_box_loop_returns J (Z.succ 0) n _ _ HJ Hat1 Ha2 ltac:(lia)) as Hl.
    rewrite Hn. unfold HEAP_SIZE in Hn. apply ensures_run in Hl as (s' & -> & ? & _); [by exists s'|lia]. }
  rewrite Hs1. cbn [mbind outcome_bind].
  rewrite (Box_read_spec i32_layout p0 1 s1 _ Hat1) by (done || apply list_elem_of_here).
  cbn [mbind outcome_bind]. change (assert_eq 1 1) with (Ret tt). cbn [mbind outcome_bind].
  destruct (heap_free s1 _ boxes p0 i32_layout (le_bytes 4 1) Hat1) as (a' & m' & _ & -> & Hat2); [done..|].
  by eexists.
Qed.
End facts.

(** * The allocators *)

(** ** The fixed-size block allocator *)
Section fsb.
Context {H : Type} {HH : Heap H}.

(** A block of the class of 8 bytes is free. *)
Definition fsb_recycles (s : FixedSizeBlockAllocator H) : Prop :=
  ∃ node nx hs, list_heads s = Some node :: hs ∧ fmem s !! node = Some nx ∧ node ≠ 0.

Lemma fsb_dealloc_recycles s p l hd hs :
  list_index l = Some 0 → list_heads s = hd :: hs → p ≠ 0 →
  ∃ s', fsb_dealloc s p l = Ret s' ∧ fsb_recycles s'.
Proof.
  intros Hl Hs Hp. unfold fsb_dealloc. rewrite Hl, Hs, index_0. cbn [mbind outcome_bind].
  rewrite store_0. change (index BLOCK_SIZES 0) with (Ret 8). cbn [mbind outcome_bind].
  change (assert (FNODE_SIZE <=? 8)) with (Ret tt). change (assert (FNODE_ALIGN <=? 8)) with (Ret tt).
  cbn [mbind outcome_bind]. rewrite store_0. cbn [mbind outcome_bind]. eexists. split; [reflexivity|].
  exists p, hd, hs. split; [done|]. split; [apply lookup_insert_eq|done].
Qed.

Lemma fsb_reuses_blocks : reuses fsb_recycles.
Proof.
  intros s (node & nx & hs & Hs & Hm & Hn). unfold alloc, dealloc, fsb_GlobalAlloc.
  assert (∃ s1, fsb_alloc s usize_layout = Ret (node, s1) ∧ list_heads s1 = nx :: hs) as (s1 & Ha & Hs1).
  { unfold fsb_alloc. change (list_index usize_layout) with (Some 0). rewrite Hs, index_0.
    cbn [mbind outcome_bind]. rewrite store_0. cbn [mbind outcome_bind]. rewrite Hm. cbn [mbind outcome_bind].
    rewrite store_0. by eexists. }
  destruct (fsb_dealloc_recycles s1 node usize_layout nx hs) as (s2 & Hd & Hs2); [done..|].
  by exists node, s1, s2.
Qed.

(** An allocation that finds its list empty asks the fallback heap. *)
Lemma fsb_alloc_fallback s l hs p h :
  list_index l = Some 0 → list_heads s = None :: hs →
  fallback_alloc (fallback_allocator s) (class_layout 0) = Ret (p, h) →
  fsb_alloc s l = Ret (p, mkFsb (None :: hs) h (fmem s)).
Proof.
  intros Hl Hs Hf. unfold fsb_alloc. rewrite Hl, Hs, index_0. cbn [mbind outcome_bind].
  rewrite store_0. change (index BLOCK_SIZES 0) with (Ret 8). cbn [mbind outcome_bind].
  change (from_size_align 8 8) with (Ok (class_layout 0) : result Layout unit).
  cbn [mbind outcome_bind expect]. by rewrite Hf.
Qed.
End fsb.

(** ** The linked-list allocator *)

(** The region a box was freed to is the first of the list. *)
Definition ll_recycles (s : LinkedListAllocator) : Prop :=
  ∃ lo hi p rs, free_list lo hi s ((p, 16) :: rs) ∧ (8 | p).

Lemma abs_alloc_exact p rs : (8 | p) → abs_alloc usize_layout ((p, 16) :: rs) = (p, rs).
Proof.
  intros Hp. unfold abs_alloc. change (adj_size usize_layout) with 16. change (adj_align usize_layout) with 8.
  cbn [first_fit]. unfold fit. cbn [fst snd]. rewrite round_up_id by done.
  rewrite decide_True by (left; lia). rewrite (proj2 (Z.ltb_ge _ _)) by lia. done.
Qed.

Lemma usize_ll_accepts : ll_accepts usize_layout.
Proof. split; [|by vm_compute]. split; simpl; [by exists 3|lia]. Qed.

(** Freeing a box pushes its region in front. *)
Lemma ll_dealloc_recycles lo hi s p rs :
  free_list lo hi s rs → (8 | p) → within lo hi (p, 16) → Forall (apart (p, 16)) rs →
  ∃ s', ll_dealloc s p usize_layout = Ret s' ∧ ll_recycles s'.
Proof.
  intros Hfl Hp Hw Hap.
  destruct (ll_dealloc_abs lo hi s rs p usize_layout Hfl usize_ll_accepts) as (s' & Hd & Hfl'); [done..|].
  exists s'. split; [done|]. by exists lo, hi, p, rs.
Qed.

Lemma ll_reuses_regions : reuses ll_recycles.
Proof.
  intros s (lo & hi & p & rs & Hfl & Hp). unfold alloc, dealloc, ll_GlobalAlloc.
  destruct (ll_alloc_abs lo hi s _ usize_layout Hfl usize_ll_accepts) as (s1 & Ha & Hfl1).
  rewrite (abs_alloc_exact p rs Hp) in Ha, Hfl1. simpl in Ha, Hfl1.
  destruct Hfl as [Hlo Hhi _ _ Hw [Hap _]]. apply Forall_cons in Hw as [Hw _].
  destruct (ll_dealloc_recycles lo hi s1 p rs Hfl1 Hp Hw Hap) as (s2 & Hd & Hs2).
  exists p, s1, s2. split; [done|]. split; [|done]. destruct Hw as [Hw _]. simpl in Hw. lia.
Qed.

Lemma ll_long_lived :
  ∃ a s', ll_init LinkedListAllocator_new HEAP_START HEAP_SIZE = Ret a
    ∧ many_boxes_long_lived_memory_reuse (mkHeap a ∅) = Ret s'.
Proof.
  destruct (ll_init_inv HEAP_START HEAP_SIZE) as (a & Hi & Hfl & Hinv); [done|by exists 0x88888888000|done..|].
  assert (∀ l, layout_ok l → lsize l ≤ 2 ^ 32 → ga_accepts (A := LinkedListAllocator) l) as Hacc.
  { intros l Hl Hs. split; [done|]. unfold NODE_ALIGN. lia. }
  destruct (ll_alloc_abs _ _ a _ i32_layout Hfl) as (a0 & Ha0 & Hfl0); [exact (i32_accepted Hacc)|].
  change (abs_alloc i32_layout [(HEAP_START, HEAP_SIZE)])
    with (HEAP_START, [(HEAP_START + 16, HEAP_SIZE - 16)]) in Ha0, Hfl0.
  cbn [fst snd] in Ha0, Hfl0.
  destruct (ll_alloc_abs _ _ a0 _ usize_layout Hfl0 usize_ll_accepts) as (a1 & Ha1 & Hfl1).
  change (abs_alloc usize_layout [(HEAP_START + 16, HEAP_SIZE - 16)])
    with (HEAP_START + 16, [(HEAP_START + 32, HEAP_SIZE - 32)]) in Ha1, Hfl1.
  cbn [fst snd] in Ha1, Hfl1.
  destruct (ll_dealloc_recycles _ _ a1 (HEAP_START + 16) _ Hfl1) as (a2 & Hd & Ha2);
    [by exists 0x88888888002|split; by vm_compute|apply Forall_singleton; unfold apart; simpl; lia|].
  destruct (long_lived_returns Hacc ll_recycles (mkHeap a ∅) [] HEAP_START a0 (HEAP_START + 16) a1 a2
    ll_reuses_regions) as (s' & Hs' & _); try done.
  exists a, s'. by split.
Qed.

Lemma fsb_long_lived {H} {HH : Heap H} {HL : @GlobalAllocLaws H heap_GlobalAlloc} (h h1 h2 : H) (p1 p2 : Z) :
  (∀ l, layout_ok l → lsize l ≤ 2 ^ 32 → @ga_accepts H _ HL l) → @ga_inv H _ HL h [] →
  fallback_alloc h (class_layout 0) = Ret (p1, h1) → p1 ≠ 0 →
  fallback_alloc h1 (class_layout 0) = Ret (p2, h2) → p2 ≠ 0 →
  ∃ s', many_boxes_long_lived_memory_reuse (mkHeap (mkFsb (replicate 9 None) h ∅) ∅) = Ret s'.
Proof.
  intros Hacc Hinv H1 Hp1 H2 Hp2.
  assert (∀ i, (i < 9)%nat → @ga_accepts H _ HL (class_layout i)) as Hclass.
  { intros i Hi. apply Hacc; [by apply class_layout_ok|]. pose proof (class_size_bounds i Hi). simpl. lia. }
  set (a := mkFsb (replicate 9 None) h ∅). set (hs := replicate 8 (None : option Z)).
  pose proof (fsb_alloc_fallback a i32_layout hs p1 h1 eq_refl eq_refl H1) as Ha0.
  pose proof (fsb_alloc_fallback (mkFsb (None :: hs) h1 ∅) usize_layout hs p2 h2 eq_refl eq_refl H2) as Ha1.
  destruct (fsb_dealloc_recycles (mkFsb (None :: hs) h2 ∅) p2 usize_layout None hs) as (a2 & Hd & Ha2); [done..|].
  destruct (long_lived_returns (H0 := fsb_laws (HL := HL) Hclass)) with
    (J := fsb_recycles (H := H)) (s := mkHeap a ∅) (boxes := @nil (Z * Layout * list Z)) (p0 := p1) (a0 := mkFsb (None :: hs) h1 ∅)
    (p1 := p2) (a1 := mkFsb (None :: hs) h2 ∅) (a2 := a2) as (s' & Hs' & _); try done.
  - intros l Hl Hs. split; [done|by apply Hacc].
  - apply fsb_reuses_blocks.
  - split; [|constructor]. by apply (fsb_fresh_inv (HL := HL)).
  - by exists s'.
Qed.

(** ** The bump allocator *)
Definition bump_heap (next n : Z) : BumpAllocator := mkBump HEAP_START (HEAP_START + HEAP_SIZE) next n.

Lemma bump_accepts l : layout_ok l → lsize l ≤ 2 ^ 32 → ga_accepts (A := BumpAllocator) l.
Proof. by intros. Qed.

Lemma bump_fresh : heap_at (mkHeap (bump_heap HEAP_START 0) ∅) [].
Proof.
  destruct (bump_init_inv HEAP_START HEAP_SIZE) as (b & Hb & Hinv & _); [done..|].
  split; [|constructor]. by injection Hb as <-.
Qed.

(** With no other box, the only one starts the heap anew when it is dropped. *)
Lemma bump_reuses_heap : reuses (λ b, b = bump_heap HEAP_START 0).
Proof. intros b ->. exists HEAP_START. do 2 eexists. split; [reflexivity|]. split; [done|]. by split. Qed.

Lemma bump_many_boxes : ∃ s', many_allocation_boxes (mkHeap (bump_heap HEAP_START 0) ∅) = Ret s'.
Proof.
  unfold many_allocation_boxes.
  assert (∃ n : nat, HEAP_SIZE = Z.of_nat n) as [n Hn] by (exists (Z.to_nat HEAP_SIZE); unfold HEAP_SIZE; lia).
  pose proof (one_box_loop_returns bump_accepts _ 0 n _ [] bump_reuses_heap bump_fresh eq_refl ltac:(lia)) as Hl.
  rewrite Hn. unfold HEAP_SIZE in Hn. apply ensures_run in Hl as (s' & -> & _); [by exists s'|lia].
Qed.

(** With the other box alive, an iteration takes eight bytes for ever. *)
Lemma bump_one_box i k n s boxes :
  heap_at s boxes → h_alloc s = bump_heap n 1 → 0 ≤ k → is_u64 i → round_up n 8 = HEAP_START + 8 + 8 * k →
  if decide (k < 12799)
  then ∃ m, one_box i s = Ret (mkHeap (bump_heap (HEAP_START + 16 + 8 * k) 1) m)
         ∧ heap_at (mkHeap (bump_heap (HEAP_START + 16 + 8 * k) 1) m) boxes
  else one_box i s = Panic POom.
Proof.
  intros Hat Hs Hk0 Hi Hn. pose proof (usize_accepted bump_accepts) as Hacc.
  pose proof (bump_alloc_eq (h_alloc s) boxes.*1 usize_layout (proj1 Hat) Hacc) as Ha. cbn zeta in Ha.
  rewrite Hs in Ha. cbn [bump_heap next lalign lsize heap_end heap_start allocations usize_layout] in Ha.
  rewrite Hn in Ha. destruct (one_box_spec i s boxes Hat Hacc Hi) as (p & a & Ha' & Hr).
  change (bump_alloc (h_alloc s) usize_layout = Ret (p, a)) in Ha'. rewrite Hs, Ha in Ha'. clear Ha.
  unfold HEAP_SIZE in Ha'. destruct (decide (k < 12799)) as [Hk|Hk].
  - rewrite decide_True in Ha' by lia. injection Ha' as <- <-.
    destruct Hr as [[? _]|(_ & a' & m & Hd & Hr & Hat')]; [unfold HEAP_START in *; lia|].
    assert (a' = bump_heap (HEAP_START + 16 + 8 * k) 1) as ->; [|by exists m].
    change (Ret (bump_heap (HEAP_START + 8 + 8 * k + 8) 1) = Ret a') in Hd.
    injection Hd as <-. f_equal. lia.
  - rewrite decide_False in Ha' by lia. injection Ha' as <- <-. by destruct Hr as [[_ Hr]|[? _]].
Qed.

Lemma bump_long_lived : many_boxes_long_lived_memory_reuse (mkHeap (bump_heap HEAP_START 0) ∅) = Panic POom.
Proof.
  unfold many_boxes_long_lived_memory_reuse.
  destruct (Box_new_spec i32_layout 1 _ [] bump_fresh (i32_accepted bump_accepts)) as (p & a & Ha & Hr); [done|].
  change (Ret (HEAP_START, bump_heap (HEAP_START + 4) 1) = Ret (p, a)) in Ha. injection Ha as <- <-.
  destruct Hr as [[Hz _]|(_ & m & -> & Hat)]; [exfalso; discriminate Hz|]. cbn [mbind outcome_bind].
  assert (∃ N : nat, Z.of_nat N = 12799) as [N HN] by (exists (Z.to_nat 12799); lia).
  replace (seqZ 0 HEAP_SIZE) with (seqZ 0 (Z.of_nat N + 89601)) by (rewrite HN; done).
  rewrite seqZ_app, for_each_app by lia.
  set (boxes := [_] : list (Z * Layout * list Z)) in Hat. set (body := one_box).
  assert (ensures (for_each (seqZ 0 (Z.of_nat N)) body (mkHeap (bump_heap (HEAP_START + 4) 1) m))
    (λ s, heap_at s boxes ∧ ∃ n, h_alloc s = bump_heap n 1 ∧ round_up n 8 = HEAP_START + 8 + 8 * Z.of_nat N)) as Hl.
  { apply (for_each_seqZ (λ k s, heap_at s boxes ∧ ∃ n, h_alloc s = bump_heap n 1
      ∧ round_up n 8 = HEAP_START + 8 + 8 * Z.of_nat k)); [by split; [|eexists]|].
    intros k s Hk (Hs & n & Hn & Hr). pose proof (bump_one_box (0 + Z.of_nat k) (Z.of_nat k) n s boxes Hs Hn ltac:(lia)) as Hone.
    rewrite decide_True in Hone by lia. destruct Hone as (m' & Hrun & Hs'); [unfold fits; lia|done|].
    unfold body. rewrite Hrun. split; [done|]. eexists. split; [done|].
    rewrite round_up_id; [lia|lia|]. exists (0x88888888002 + Z.of_nat k). unfold HEAP_START. lia. }
  apply ensures_run in Hl as (s & -> & Hs & n & Hn & Hr). cbn [mbind outcome_bind].
  rewrite seqZ_cons by lia. cbn [for_each]. unfold body.
  pose proof (bump_one_box (0 + Z.of_nat N) (Z.of_nat N) n s boxes Hs Hn ltac:(lia)) as Hone.
  rewrite decide_False in Hone by lia. rewrite Hone; [done|unfold fits; lia|done].
Qed.

(** * Properties *)

(** C19: a heap test can only fail for want of memory. On any allocator that
    keeps the promises of [GlobalAlloc], from any state of the heap, each of the
    four tests runs to its end or stops at an allocation the heap cannot serve:
    no assertion fails, no freed or unwritten memory is read, boxes and vectors
    that lived before keep their contents, and nothing is leaked. *)
Theorem heap_tests_sound (A : Type) (HA : GlobalAlloc A) (HL : GlobalAllocLaws A)
    (s : heap A) (boxes : list (Z * Layout * list Z))
    (Hacc : ∀ l, layout_ok l → lsize l ≤ 2 ^ 32 → ga_accepts (A := A) l)
    (Hat : heap_at s boxes) :
  Forall (λ t, passes (t s) (λ s', heap_at s' boxes))
    [simple_allocation_box; large_vec_value_verification; many_allocation_boxes;
     many_boxes_long_lived_memory_reuse].
Proof.
  repeat constructor.
  - by apply simple_allocation_box_passes.
  - by apply large_vec_passes.
  - by apply one_box_loop_passes.
  - by apply many_boxes_long_lived_passes.
Qed.

Lemma heap_tests_sound_witness :
  Forall (λ t, passes (t (mkHeap (bump_heap HEAP_START 0) ∅)) (λ s', heap_at s' []))
    [simple_allocation_box; large_vec_value_verification; many_allocation_boxes;
     many_boxes_long_lived_memory_reuse].
Proof.
  apply (heap_tests_sound BumpAllocator _ _ (mkHeap (bump_heap HEAP_START 0) ∅) []).
  - exact bump_accepts.
  - exact bump_fresh.
Defined.

(** C18: which allocator passes the test of memory reuse, as the comments on it
    say. The kernel's allocator passes on any lawful fallback heap that can
    serve its first two small blocks, for a block freed is the next one handed
    out; so does the linked-list allocator on the kernel's heap; the bump
    allocator passes as long as no other box is alive, but with one long-lived
    box it runs out of memory. *)
Theorem heap_tests_by_allocator (H : Type) (HH : Heap H) (HL : @GlobalAllocLaws H heap_GlobalAlloc)
    (h h1 h2 : H) (p1 p2 : Z)
    (Hacc : ∀ l, layout_ok l → lsize l ≤ 2 ^ 32 → @ga_accepts H _ HL l)
    (Hinv : @ga_inv H _ HL h [])
    (H1 : fallback_alloc h (class_layout 0) = Ret (p1, h1)) (Hp1 : p1 ≠ 0)
    (H2 : fallback_alloc h1 (class_layout 0) = Ret (p2, h2)) (Hp2 : p2 ≠ 0) :
  (∃ s, many_boxes_long_lived_memory_reuse (mkHeap (mkFsb (replicate 9 None) h ∅) ∅) = Ret s)
  ∧ (∃ a s, ll_init LinkedListAllocator_new HEAP_START HEAP_SIZE = Ret a
       ∧ many_boxes_long_lived_memory_reuse (mkHeap a ∅) = Ret s)
  ∧ (∃ b s, bump_init BumpAllocator_new HEAP_START HEAP_SIZE = Ret b
       ∧ many_allocation_boxes (mkHeap b ∅) = Ret s
       ∧ many_boxes_long_lived_memory_reuse (mkHeap b ∅) = Panic POom).
Proof.
  split; [|split].
  - by apply (fsb_long_lived (HL := HL) h h1 h2 p1 p2).
  - exact ll_long_lived.
  - destruct bump_many_boxes as [s Hs]. exists (bump_heap HEAP_START 0), s.
    split; [reflexivity|]. split; [exact Hs|exact bump_long_lived].
Qed.

Lemma heap_tests_by_allocator_witness :
  ∃ s, many_boxes_long_lived_memory_reuse (HA := @fsb_GlobalAlloc _ bump_Heap)
    (mkHeap (mkFsb (replicate 9 None) (bump_heap HEAP_START 0) ∅) ∅) = Ret s.
Proof.
  destruct (heap_tests_by_allocator BumpAllocator bump_Heap bump_heap_laws (bump_heap HEAP_START 0)
    (bump_heap (HEAP_START + 8) 1) (bump_heap (HEAP_START + 16) 2) HEAP_START (HEAP_START + 8)) as [Hs _].
  - exact bump_accepts.
  - exact (proj1 bump_fresh).
  - reflexivity.
  - discriminate.
  - reflexivity.
  - discriminate.
  - exact Hs.
Defined.
