(* ===== verification/Memory.v ===== *)
(** Physical frames and the heap's pages: src/src/memory.rs (the frame
    allocators and the page-table walk) and [init_heap] of
    src/src/allocator.rs. The paging types of the [x86_64] crate and the memory
    map of the [bootloader] crate are other code: addresses are numbers, and
    the calls are parameters with what their documentation says. *)
From S2P Require Import Prelude Alloc.
Local Open Scope Z_scope.
Local Open Scope rust_scope.

(** * The boot-info frame allocator *)

(** A region of the boot loader's memory map; [usable] says whether its type is
    [MemoryRegionType::Usable]. *)
Record MemoryRegion := mkRegion { start_addr : Z; end_addr : Z; usable : bool }.

Record BootInfoFrameAllocator := mkBoot { memory_map : list MemoryRegion; next : Z }.

Definition BootInfo_init (memory_map : list MemoryRegion) : BootInfoFrameAllocator :=
  mkBoot memory_map 0.

(** [(a..b).step_by(n)] *)
Definition step_by (a b n : Z) : list Z :=
  (λ k, a + n * k) <$> seqZ 0 (Z.max 0 ((b - a + n - 1) / n)).

Section frames.
(** [PhysFrame::containing_address(PhysAddr::new(addr))], as the start of the
    frame. *)
Context (containing_address : Z → Z).

Definition usable_frames (fa : BootInfoFrameAllocator) : list Z :=
  let usable_regions := filter (λ r, usable r = true) (memory_map fa) in
  let frame_addresses := usable_regions ≫= λ r, step_by (start_addr r) (end_addr r) 4096 in
  containing_address <$> frame_addresses.

Definition boot_allocate_frame (fa : BootInfoFrameAllocator) :
    outcome (option Z * BootInfoFrameAllocator) :=
  let frame := usable_frames fa !! Z.to_nat (next fa) in
  n ← next fa +! 1;
  Ret (frame, mkBoot (memory_map fa) n).

(** [n] calls in a row. *)
Fixpoint allocate_frames (n : nat) (fa : BootInfoFrameAllocator) :
    outcome (list (option Z) * BootInfoFrameAllocator) :=
  match n with
  | O => Ret ([], fa)
  | S n =>
      '(f, fa) ← boot_allocate_frame fa;
      '(fs, fa) ← allocate_frames n fa;
      Ret (f :: fs, fa)
  end.

Lemma allocate_frames_eq n mm k :
  Z.of_nat k + Z.of_nat n < 2 ^ 64 →
  allocate_frames n (mkBoot mm (Z.of_nat k)) =
    Ret ((λ i, usable_frames (mkBoot mm 0) !! i) <$> seq k n, mkBoot mm (Z.of_nat (k + n))).
Proof.
  revert k. induction n as [|n IH]; intros k Hk; simpl.
  - by rewrite Nat.add_0_r.
  - unfold boot_allocate_frame, add64. simpl.
    rewrite checked_fits by (unfold fits; lia). cbn [mbind outcome_bind].
    replace (Z.of_nat k + 1) with (Z.of_nat (S k)) by lia. rewrite IH by lia.
    cbn [mbind outcome_bind]. rewrite Nat2Z.id. do 3 f_equal. lia.
Qed.
End frames.

(** What the boot loader guarantees of its memory map. *)
Definition region_block (r : MemoryRegion) : Z * Z := (start_addr r, end_addr r - start_addr r).

Record map_ok (mm : list MemoryRegion) : Prop := {
  map_aligned : Forall (λ r, (4096 | start_addr r) ∧ (4096 | end_addr r)) mm;
  map_range : Forall (λ r, 0 ≤ start_addr r ≤ end_addr r ∧ end_addr r ≤ 2 ^ 52) mm;
  map_apart : all_apart (region_block <$> mm);
}.

(** [containing_address] rounds down to a frame. *)
Definition rounds_down (containing_address : Z → Z) : Prop :=
  ∀ a, 0 ≤ a < 2 ^ 52 →
    (4096 | containing_address a) ∧ containing_address a ≤ a < containing_address a + 4096.

Lemma rounds_down_aligned f a : rounds_down f → 0 ≤ a < 2 ^ 52 → (4096 | a) → f a = a.
Proof. intros Hf Ha [q Hq]. destruct (Hf a Ha) as [[p Hp] ?]. lia. Qed.

(** The addresses of a region's frames. *)
Lemma elem_of_step_by a b x :
  (4096 | a) → (4096 | b) → a ≤ b →
  x ∈ step_by a b 4096 ↔ (4096 | x) ∧ a ≤ x ∧ x + 4096 ≤ b.
Proof.
  intros [p ->] [q ->] Hab. unfold step_by. rewrite list_elem_of_fmap. split.
  - intros (k & -> & Hk). apply elem_of_seqZ in Hk.
    replace (q * 4096 - p * 4096 + 4096 - 1) with ((q - p) * 4096 + 4095) in Hk by lia.
    rewrite Z.div_add_l in Hk by lia. change (4095 / 4096) with 0 in Hk.
    split; [exists (p + k); lia|lia].
  - intros ([c ->] & H1 & H2). exists (c - p). split; [lia|]. apply elem_of_seqZ.
    replace (q * 4096 - p * 4096 + 4096 - 1) with ((q - p) * 4096 + 4095) by lia.
    rewrite Z.div_add_l by lia. change (4095 / 4096) with 0. lia.
Qed.

Lemma NoDup_step_by a b : NoDup (step_by a b 4096).
Proof.
  unfold step_by. apply NoDup_fmap_2; [|apply NoDup_seqZ]. intros x y Hxy. lia.
Qed.

(** Frame addresses, before rounding. *)
Definition frame_addresses (mm : list MemoryRegion) : list Z :=
  filter (λ r, usable r = true) mm ≫= λ r, step_by (start_addr r) (end_addr r) 4096.

Lemma frame_addresses_cons r mm :
  frame_addresses (r :: mm) =
    (if decide (usable r = true) then step_by (start_addr r) (end_addr r) 4096 else [])
    ++ frame_addresses mm.
Proof. unfold frame_addresses. rewrite filter_cons. by case_decide. Qed.

Lemma map_ok_cons r mm : map_ok (r :: mm) → map_ok mm.
Proof.
  intros [Ha Hr [_ Hp]]. apply Forall_cons in Ha as [_ ?]. apply Forall_cons in Hr as [_ ?]. by split.
Qed.

Lemma elem_of_frame_addresses mm x :
  map_ok mm → x ∈ frame_addresses mm ↔
    ∃ r, r ∈ mm ∧ usable r = true ∧ (4096 | x) ∧ start_addr r ≤ x ∧ x + 4096 ≤ end_addr r.
Proof.
  induction mm as [|r mm IH]; intros Hok; [set_solver|].
  rewrite frame_addresses_cons, elem_of_app, IH by (by eapply map_ok_cons).
  destruct Hok as [Ha Hr _]. apply Forall_cons in Ha as [[? ?] _]. apply Forall_cons in Hr as [[? ?] _].
  setoid_rewrite elem_of_cons. case_decide; [rewrite elem_of_step_by by (done || lia)|]; set_solver.
Qed.

Lemma NoDup_frame_addresses mm : map_ok mm → NoDup (frame_addresses mm).
Proof.
  induction mm as [|r mm IH]; intros Hok; [constructor|].
  rewrite frame_addresses_cons. pose proof (map_ok_cons r mm Hok) as Hok'. apply NoDup_app.
  split_and!; [case_decide; [apply NoDup_step_by|constructor]| |by apply IH].
  intros x Hx Hx'. case_decide; [|set_solver]. apply (elem_of_frame_addresses mm x Hok') in Hx'.
  destruct Hok as [Ha Hr [Hp _]]. apply Forall_cons in Ha as [[? ?] _]. apply Forall_cons in Hr as [[? ?] _].
  apply elem_of_step_by in Hx as (_ & ? & ?); [|done|done|lia].
  destruct Hx' as (r' & Hin & _ & _ & ? & ?). rewrite Forall_fmap, Forall_forall in Hp.
  specialize (Hp r' Hin). unfold apart, region_block in Hp. simpl in Hp. lia.
Qed.

Lemma usable_frames_eq c mm :
  rounds_down c → map_ok mm → usable_frames c (BootInfo_init mm) = frame_addresses mm.
Proof.
  intros Hrd Hok. unfold usable_frames. simpl. fold (frame_addresses mm).
  rewrite <- (list_fmap_id (frame_addresses mm)) at 2.
  apply list_fmap_ext. intros i x Hx. apply list_elem_of_lookup_2 in Hx.
  apply elem_of_frame_addresses in Hx as (r & Hr & _ & Hd & ? & ?); [|done].
  pose proof (map_range _ Hok) as Hrange. rewrite Forall_forall in Hrange.
  specialize (Hrange r Hr). apply (rounds_down_aligned _ _ Hrd); [lia|done].
Qed.

(** C25: the frame allocator hands out every usable frame once. With a memory
    map of aligned, disjoint regions, [n] calls return the usable frames in
    order and [None] for ever after; the frames are pairwise distinct, and they
    are exactly the aligned frames that lie entirely inside a usable region. *)
Theorem boot_frames_distinct (containing_address : Z → Z) (mm : list MemoryRegion) (n : nat)
    (Hrd : rounds_down containing_address) (Hok : map_ok mm) (Hn : Z.of_nat n < 2 ^ 64) :
  let frames := usable_frames containing_address (BootInfo_init mm) in
  (∃ fa', allocate_frames containing_address n (BootInfo_init mm)
            = Ret ((λ i, frames !! i) <$> seq 0 n, fa'))
  ∧ NoDup frames
  ∧ (∀ x, x ∈ frames ↔ ∃ r, r ∈ mm ∧ usable r = true ∧ (4096 | x)
                            ∧ start_addr r ≤ x ∧ x + 4096 ≤ end_addr r).
Proof.
  intros frames. pose proof (usable_frames_eq _ mm Hrd Hok : frames = _) as Heq.
  split_and!.
  - eexists. unfold BootInfo_init. change 0 with (Z.of_nat 0). by rewrite allocate_frames_eq.
  - rewrite Heq. by apply NoDup_frame_addresses.
  - rewrite Heq. intros x. by apply elem_of_frame_addresses.
Qed.

Definition demo_map : list MemoryRegion :=
  [mkRegion 0 4096 false; mkRegion 4096 12288 true; mkRegion 12288 16384 false;
   mkRegion 16384 20480 true].

Lemma demo_rounds_down : rounds_down (λ a, a / 4096 * 4096).
Proof.
  intros a Ha. split; [by exists (a / 4096)|]. pose proof (Z.div_mod a 4096).
  pose proof (Z.mod_pos_bound a 4096). lia.
Qed.

Lemma demo_map_ok : map_ok demo_map.
Proof.
  split; unfold demo_map.
  - repeat apply Forall_cons_2; try apply Forall_nil; simpl; split; by apply Z.mod_divide.
  - repeat apply Forall_cons_2; try apply Forall_nil; simpl; lia.
  - unfold all_apart, region_block; simpl. split_and!; try done;
      repeat apply Forall_cons_2; try apply Forall_nil; unfold apart; simpl; lia.
Qed.

Lemma boot_frames_distinct_witness :
  ∃ fa', allocate_frames (λ a, a / 4096 * 4096) 4 (BootInfo_init demo_map)
    = Ret ([Some 4096; Some 8192; Some 16384; None], fa').
Proof.
  destruct (boot_frames_distinct (λ a, a / 4096 * 4096) demo_map 4) as [[fa' Hrun] _].
  - exact demo_rounds_down.
  - exact demo_map_ok.
  - lia.
  - exists fa'. rewrite Hrun. by vm_compute.
Defined.

(** * [init_heap] *)

(** [FrameAllocator] and [Mapper] of the [x86_64] crate. *)
Class FrameAllocator (FA : Type) := allocate_frame : FA → outcome (option Z * FA).
Class Mapper (M FA E : Type) :=
  map_to : M → Z → Z → Z → FA → outcome (result unit E * M * FA).

#[global] Instance boot_FrameAllocator (c : Z → Z) : FrameAllocator BootInfoFrameAllocator :=
  boot_allocate_frame c.

(** [EmptyFrameAllocator]. *)
#[global] Instance empty_FrameAllocator : FrameAllocator unit := λ fa, Ret (None, fa).

Definition PRESENT : Z := 1.
Definition WRITABLE : Z := 2.

Section init_heap.
Context {M FA E A : Type} `{FrameAllocator FA, Mapper M FA E}.
Context (FrameAllocationFailed : E).
(** [Page::range_inclusive] of the pages containing two addresses. *)
Context (page_range : Z → Z → list Z).
(** [ALLOCATOR.lock().init] *)
Context (allocator_init : A → Z → Z → outcome A).

Record kernel := mkKernel { mapper : M; frame_allocator : FA; ALLOCATOR : A }.

(** The loop over the pages, with the two [?]s. *)
Fixpoint init_pages (pages : list Z) (k : kernel) : outcome (result unit E * kernel) :=
  match pages with
  | [] => Ret (Ok tt, k)
  | page :: pages =>
      '(o, fa) ← allocate_frame (frame_allocator k);
      match o with
      | None => Ret (Err FrameAllocationFailed, mkKernel (mapper k) fa (ALLOCATOR k))
      | Some frame =>
          let flags := Z.lor PRESENT WRITABLE in
          '(r, m, fa) ← map_to (mapper k) page frame flags fa;
          match r with
          | Err e => Ret (Err e, mkKernel m fa (ALLOCATOR k))
          | Ok _ =>
              a ← allocator_init (ALLOCATOR k) HEAP_START HEAP_SIZE;
              init_pages pages (mkKernel m fa a)
          end
      end
  end.

Definition init_heap (k : kernel) : outcome (result unit E * kernel) :=
  let heap_start := HEAP_START in
  let heap_end := heap_start + HEAP_SIZE - 1 in
  init_pages (page_range heap_start heap_end) k.
End init_heap.
#[global] Arguments kernel : clear implicits.

(** [create_example_mapping]; [containing_address] rounds down to a frame. *)
Definition create_example_mapping {M FA E} `{FrameAllocator FA, Mapper M FA E}
    (containing_address : Z → Z) (page : Z) (m : M) (fa : FA) : outcome (M * FA) :=
  let frame := containing_address 0xb8000 in
  let flags := Z.lor PRESENT WRITABLE in
  '(map_to_result, m, fa) ← map_to m page frame flags fa;
  _ ← expect (map_to_result : result unit E);
  Ret (m, fa).

(** What the callers rely on: frames are allocated without a panic, and
    [map_to] either maps the page, which was unmapped, or reports an error and
    maps nothing. *)
Class MapperLaws (M FA E : Type) `{FrameAllocator FA, Mapper M FA E} := {
  mapped : M → gmap Z Z;
  allocate_frame_total (fa : FA) : ∃ o fa', allocate_frame fa = Ret (o, fa');
  map_to_law m page frame flags fa :
    ∃ r m' fa', map_to m page frame flags fa = Ret (r, m', fa') ∧
      match r with
      | Ok _ => mapped m !! page = None ∧ mapped m' = <[page := frame]> (mapped m)
      | Err _ => mapped m' = mapped m
      end;
}.

(** The example maps the screen's memory, or panics where the mapper refuses. *)
Lemma create_example_mapping_spec {M FA E} `{MapperLaws M FA E} c page (m : M) (fa : FA) :
  c 0xb8000 = 0xb8000 →
  match create_example_mapping c page m fa with
  | Ret (m', _) => mapped m' = <[page := 0xb8000]> (mapped m) ∧ mapped m !! page = None
  | Panic w => w = PUnwrap
  end.
Proof.
  intros Hc. unfold create_example_mapping. rewrite Hc.
  destruct (map_to_law m page 0xb8000 (Z.lor PRESENT WRITABLE) fa) as ([[]|e] & m' & fa' & -> & Hm);
    cbn [mbind outcome_bind expect]; [|done]. by destruct Hm.
Qed.

(** Inclusive ranges of pages. *)
Definition pages_between (page_range : Z → Z → list Z) : Prop :=
  ∀ a b, a ≤ b →
    page_range a b = (λ k, 4096 * k) <$> seqZ (a / 4096) (b / 4096 - a / 4096 + 1).

Section init_heap_facts.
Context {M FA E A : Type} `{MapperLaws M FA E}.
Context (FrameAllocationFailed : E).
Context (allocator_init : A → Z → Z → outcome A).
Context (Hinit : ∀ a, ∃ a', allocator_init a HEAP_START HEAP_SIZE = Ret a').

(** [n] initialisations of the allocator. *)
Definition init_times (n : nat) (a : A) : outcome A :=
  for_each (replicate n tt) (λ _ a, allocator_init a HEAP_START HEAP_SIZE) a.

Lemma init_pages_spec pages (k : kernel M FA A) :
  ∃ r k' done rest, init_pages FrameAllocationFailed allocator_init pages k = Ret (r, k')
    ∧ pages = done ++ rest ∧ init_times (length done) (ALLOCATOR k) = Ret (ALLOCATOR k')
    ∧ (∀ p, is_Some (mapped (mapper k') !! p) ↔ is_Some (mapped (mapper k) !! p) ∨ p ∈ done)
    ∧ (∀ p, p ∉ done → mapped (mapper k') !! p = mapped (mapper k) !! p)
    ∧ (is_ok r = true ↔ rest = []).
Proof.
  revert k. induction pages as [|page pages IH]; intros k; simpl.
  { exists (Ok tt), k, [], []. split_and!; try done. set_solver. }
  destruct (allocate_frame_total (frame_allocator k)) as (o & fa & ->). cbn [mbind outcome_bind].
  destruct o as [frame|].
  2: { eexists _, _, [], (page :: pages). split_and!; try done. set_solver. }
  destruct (map_to_law (mapper k) page frame (Z.lor PRESENT WRITABLE) fa) as (r & m & fa' & -> & Hm).
  cbn [mbind outcome_bind]. destruct r as [[]|e].
  2: { exists (Err e), (mkKernel m fa' (ALLOCATOR k)), [], (page :: pages). simpl. rewrite Hm.
       split_and!; try done. set_solver. }
  destruct Hm as [Hnone Hm]. destruct (Hinit (ALLOCATOR k)) as [a Ha]. rewrite Ha.
  cbn [mbind outcome_bind]. destruct (IH (mkKernel m fa' a)) as (r & k' & done_ & rest & -> & -> & Hi & Hd & Ho & Hr).
  exists r, k', (page :: done_), rest. simpl in *. split_and!; try done.
  - unfold init_times. simpl. rewrite Ha. exact Hi.
  - intros p. rewrite Hd, Hm, lookup_insert_is_Some, elem_of_cons.
    destruct (decide (page = p)); naive_solver.
  - intros p Hp. rewrite not_elem_of_cons in Hp. rewrite Ho, Hm by naive_solver.
    rewrite lookup_insert_ne; naive_solver.
Qed.
End init_heap_facts.

(** The pages of the heap. *)
Definition heap_pages : list Z := (λ k, 4096 * k) <$> seqZ (HEAP_START / 4096) 25.

Lemma heap_pages_cover a :
  HEAP_START ≤ a < HEAP_START + HEAP_SIZE → a / 4096 * 4096 ∈ heap_pages.
Proof.
  intros Ha. apply list_elem_of_fmap. exists (a / 4096). split; [lia|]. apply elem_of_seqZ.
  change (HEAP_START / 4096) with 0x444444440. unfold HEAP_START, HEAP_SIZE in Ha.
  pose proof (Z.div_mod a 4096). pose proof (Z.mod_pos_bound a 4096). lia.
Qed.

(** C36: what [init_heap] maps. It always returns. On success every address of
    the heap lies in a mapped page and no other page changed; on failure only a
    proper prefix of the heap's 25 pages was mapped. The allocator is
    initialised once for every mapped page, not once: the call is inside the
    loop, although [init] says that it must be called only once. *)
Theorem init_heap_maps (M FA E A : Type) (HF : FrameAllocator FA) (HM : Mapper M FA E)
    (HL : MapperLaws M FA E) (FrameAllocationFailed : E) (page_range : Z → Z → list Z)
    (allocator_init : A → Z → Z → outcome A) (k : kernel M FA A)
    (Hinit : ∀ a, ∃ a', allocator_init a HEAP_START HEAP_SIZE = Ret a')
    (Hpages : pages_between page_range) :
  ∃ r k' n, init_heap FrameAllocationFailed page_range allocator_init k = Ret (r, k')
    ∧ init_times allocator_init n (ALLOCATOR k) = Ret (ALLOCATOR k')
    ∧ (∀ p, p ∉ heap_pages → mapped (mapper k') !! p = mapped (mapper k) !! p)
    ∧ match r with
      | Ok _ => n = 25%nat ∧ ∀ a, HEAP_START ≤ a < HEAP_START + HEAP_SIZE →
                  is_Some (mapped (mapper k') !! (a / 4096 * 4096))
      | Err _ => (n < 25)%nat
      end.
Proof.
  unfold init_heap. rewrite Hpages by (unfold HEAP_SIZE; lia).
  change ((λ k0, 4096 * k0) <$> seqZ (HEAP_START / 4096) _) with heap_pages.
  destruct (init_pages_spec FrameAllocationFailed allocator_init Hinit heap_pages k)
    as (r & k' & done_ & rest & -> & Hp & Hi & Hd & Ho & Hr).
  exists r, k', (length done_). split; [done|]. split; [done|].
  assert (length heap_pages = 25%nat) as Hlen by done. split.
  - intros p Hnot. apply Ho. intros Hin. apply Hnot. rewrite Hp. apply elem_of_app. by left.
  - destruct r as [[]|e].
    + assert (rest = []) as -> by (by apply Hr). rewrite app_nil_r in Hp. subst done_.
      split; [done|]. intros a Ha. apply Hd. right. by apply heap_pages_cover.
    + destruct rest as [|x rest]; [by assert (is_ok (Err e : result unit E) = true) by by apply Hr|].
      rewrite Hp, length_app in Hlen. simpl in Hlen. lia.
Qed.

(** A mapper that is a finite map, fed with numbered frames, and an allocator
    that counts how often it is initialised. *)
#[global] Instance count_FrameAllocator : FrameAllocator nat := λ fa,
  Ret (match fa with O => None | S n => Some (4096 * Z.of_nat n) end, Nat.pred fa).
#[global] Instance map_Mapper : Mapper (gmap Z Z) nat unit := λ m page frame _ fa,
  Ret (match m !! page with
       | None => (Ok tt, <[page := frame]> m, fa)
       | Some _ => (Err tt, m, fa)
       end).

#[global, program] Instance map_MapperLaws : MapperLaws (gmap Z Z) nat unit := {
  mapped := Datatypes.id;
}.
Next Obligation. eauto. Qed.
Next Obligation.
  intros m page frame flags fa. unfold map_to, map_Mapper.
  destruct (m !! page) as [f|] eqn:Hm; eexists _, _, _; split; simpl; done.
Qed.

Definition count_init (a : nat) (_ _ : Z) : outcome nat := Ret (S a).
Definition demo_range (a b : Z) : list Z :=
  (λ k, 4096 * k) <$> seqZ (a / 4096) (b / 4096 - a / 4096 + 1).

Lemma init_heap_maps_witness :
  ∃ k', init_heap tt demo_range count_init (mkKernel (∅ : gmap Z Z) 30%nat O) = Ret (Ok tt, k')
    ∧ ALLOCATOR k' = 25%nat.
Proof.
  destruct (init_heap_maps (gmap Z Z) nat unit nat _ _ _ tt demo_range count_init
    (mkKernel ∅ 30%nat O)) as (r & k' & n & Hrun & Hi & _ & Hr).
  - intros a. by eexists.
  - done.
  - exists k'. assert (match init_heap tt demo_range count_init (mkKernel (∅ : gmap Z Z) 30%nat O) with
                       | Ret (r, _) => is_ok r | Panic _ => false end = true) as Hok by reflexivity.
    rewrite Hrun in Hok. destruct r as [[]|e]; [|discriminate].
    split; [exact Hrun|]. destruct Hr as [-> _].
    change (Ret 25%nat = Ret (ALLOCATOR k')) in Hi. by injection Hi as <-.
Defined.

(** * Translation of addresses *)

(** [FrameError] of the [x86_64] crate. *)
Inductive FrameError := FrameNotPresent | HugeFrame.

Section translate.
Context {Entry : Type}.
(** The level-4 frame in CR3; the entry at an index of the table at a virtual
    address; [PageTableEntry::frame]; [VirtAddr + u64]; the four indexes and
    the page offset of an address. *)
Context (cr3 : Z) (read_entry : Z → Z → Entry) (entry_frame : Entry → result Z FrameError).
Context (virt_add : Z → Z → outcome Z) (p4_index p3_index p2_index p1_index page_offset : Z → Z).

(** The loop over the indexes that are left. *)
Fixpoint walk_tables (physical_memory_offset : Z) (indexes : list Z) (frame : Z) :
    outcome (option Z) :=
  match indexes with
  | [] => Ret (Some frame)
  | index :: indexes =>
      virt ← virt_add physical_memory_offset frame;
      match entry_frame (read_entry virt index) with
      | Ok frame => walk_tables physical_memory_offset indexes frame
      | Err FrameNotPresent => Ret None
      | Err HugeFrame => Panic PExplicit
      end
  end.

Definition translate_addr_inner (addr physical_memory_offset : Z) : outcome (option Z) :=
  let table_indexes := [p4_index addr; p3_index addr; p2_index addr; p1_index addr] in
  o ← walk_tables physical_memory_offset table_indexes cr3;
  match o with
  | Some frame => Ret (Some (frame + page_offset addr))
  | None => Ret None
  end.

Definition translate_addr (addr physical_memory_offset : Z) : outcome (option Z) :=
  translate_addr_inner addr physical_memory_offset.

(** Where the level-4 table is in virtual memory, and the mapper on it;
    [offset_page_table] is [OffsetPageTable::new]. *)
Definition active_level_4_table (physical_memory_offset : Z) : outcome Z :=
  virt_add physical_memory_offset cr3.

Definition memory_init {M} (offset_page_table : Z → Z → M) (physical_memory_offset : Z) : outcome M :=
  level_4_table ← active_level_4_table physical_memory_offset;
  Ret (offset_page_table level_4_table physical_memory_offset).
End translate.

(** ** The tables as the processor sees them *)

(** [path mem is f f']: following the indexes [is] through the tables in
    physical memory leads from the table in frame [f] to the frame [f']. *)
Inductive path (mem : Z → Z → result Z FrameError) : list Z → Z → Z → Prop :=
  | path_nil f : path mem [] f f
  | path_cons i idx f f1 f2 : mem f i = Ok f1 → path mem idx f1 f2 → path mem (i :: idx) f f2.

(** [stuck mem idx f e]: a present prefix of the path ends in the error [e]. *)
Inductive stuck (mem : Z → Z → result Z FrameError) : list Z → Z → FrameError → Prop :=
  | stuck_here i idx f e : mem f i = Err e → stuck mem (i :: idx) f e
  | stuck_later i idx f f1 e : mem f i = Ok f1 → stuck mem idx f1 e → stuck mem (i :: idx) f e.

(** What the caller of [translate_addr] guarantees, for the page tables that can
    be reached from the one in frame [cr3]: each is mapped at [offset], so that
    its address there is canonical and shows the entries the processor sees. *)
Definition mapped_at {Entry} (read_entry : Z → Z → Entry) (entry_frame : Entry → result Z FrameError)
    (virt_add : Z → Z → outcome Z) (mem : Z → Z → result Z FrameError) (cr3 offset : Z) : Prop :=
  ∀ idx f, (length idx < 4)%nat → path mem idx cr3 f →
    ∃ v, virt_add offset f = Ret v ∧ ∀ i, entry_frame (read_entry v i) = mem f i.

Section translate_facts.
Context {Entry : Type} (cr3 : Z) (read_entry : Z → Z → Entry).
Context (entry_frame : Entry → result Z FrameError) (virt_add : Z → Z → outcome Z).
Context (mem : Z → Z → result Z FrameError) (offset : Z).
Context (Hmapped : mapped_at read_entry entry_frame virt_add mem cr3 offset).

Lemma path_snoc idx f f1 f2 i : path mem idx f f1 → mem f1 i = Ok f2 → path mem (idx ++ [i]) f f2.
Proof.
  induction 1 as [f|j idx f g1 g2 Hj Hp IH]; intros Hi; simpl; eapply path_cons; eauto. constructor.
Qed.

Lemma walk_tables_from pre idx f :
  path mem pre cr3 f → (length pre + length idx ≤ 4)%nat →
  (∃ f', path mem idx f f' ∧ walk_tables read_entry entry_frame virt_add offset idx f = Ret (Some f'))
  ∨ (stuck mem idx f FrameNotPresent ∧ walk_tables read_entry entry_frame virt_add offset idx f = Ret None)
  ∨ (stuck mem idx f HugeFrame
     ∧ walk_tables read_entry entry_frame virt_add offset idx f = Panic PExplicit).
Proof.
  revert pre f. induction idx as [|i idx IH]; intros pre f Hpre Hlen; simpl in *.
  { left. exists f. split; [constructor|done]. }
  destruct (Hmapped pre f) as (v & -> & Hv); [lia|done|]. cbn [mbind outcome_bind]. rewrite Hv. destruct (mem f i) as [f1|[]] eqn:Hm.
  - destruct (IH (pre ++ [i]) f1) as [(f' & ? & ?)|[[? ?]|[? ?]]];
      [by eapply path_snoc|rewrite length_app; simpl; lia|..].
    + left. exists f'. split; [by econstructor|done].
    + right. left. split; [by eapply stuck_later|done].
    + right. right. split; [by eapply stuck_later|done].
  - right. left. split; [by constructor|done].
  - right. right. split; [by constructor|done].
Qed.

(** The walk from the level-4 table. *)
Lemma walk_tables_cases idx :
  (length idx ≤ 4)%nat →
  (∃ f', path mem idx cr3 f' ∧ walk_tables read_entry entry_frame virt_add offset idx cr3 = Ret (Some f'))
  ∨ (stuck mem idx cr3 FrameNotPresent ∧ walk_tables read_entry entry_frame virt_add offset idx cr3 = Ret None)
  ∨ (stuck mem idx cr3 HugeFrame
     ∧ walk_tables read_entry entry_frame virt_add offset idx cr3 = Panic PExplicit).
Proof. intros Hlen. apply (walk_tables_from [] idx); [constructor|done]. Qed.

Lemma path_det idx f f1 f2 : path mem idx f f1 → path mem idx f f2 → f1 = f2.
Proof.
  intros H1. revert f2. induction H1 as [|i idx f g1 g2 Hi Hp IH]; intros f2 H2; inversion H2; subst.
  - done.
  - apply IH. congruence.
Qed.

Lemma path_not_stuck idx f f' e : path mem idx f f' → ¬ stuck mem idx f e.
Proof.
  induction 1 as [|i idx f g1 g2 Hi Hp IH]; intros Hs; inversion Hs; subst; [congruence|].
  apply IH. congruence.
Qed.

Lemma stuck_det idx f e1 e2 : stuck mem idx f e1 → stuck mem idx f e2 → e1 = e2.
Proof.
  intros H1. induction H1 as [i idx f e Hi|i idx f f1 e Hi Hs IH]; intros H2; inversion H2; subst;
    try congruence. apply IH. congruence.
Qed.
End translate_facts.

(** C27: [translate_addr] walks the page tables like the processor. When the
    page tables are mapped at the given offset, as the caller guarantees for all
    of physical memory, it returns the frame at the
    end of the four-level path plus the page offset exactly when that path is
    present, [None] exactly when it is cut off by an entry that is not present,
    and panics exactly when it runs into a huge frame. *)
Theorem translate_addr_walks (Entry : Type) (cr3 : Z) (read_entry : Z → Z → Entry)
    (entry_frame : Entry → result Z FrameError) (virt_add : Z → Z → outcome Z)
    (p4 p3 p2 p1 page_offset : Z → Z) (mem : Z → Z → result Z FrameError) (addr offset : Z)
    (Hmapped : mapped_at read_entry entry_frame virt_add mem cr3 offset) :
  let idx := [p4 addr; p3 addr; p2 addr; p1 addr] in
  let t := translate_addr cr3 read_entry entry_frame virt_add p4 p3 p2 p1 page_offset addr offset in
  (∀ f, t = Ret (Some (f + page_offset addr)) ↔ path mem idx cr3 f)
  ∧ (t = Ret None ↔ stuck mem idx cr3 FrameNotPresent)
  ∧ (t = Panic PExplicit ↔ stuck mem idx cr3 HugeFrame).
Proof.
  intros idx t. unfold t, translate_addr, translate_addr_inner. fold idx.
  pose proof (path_det mem idx cr3) as Hdet. pose proof (stuck_det mem idx cr3) as Hsd.
  pose proof (path_not_stuck mem idx cr3) as Hns.
  destruct (walk_tables_cases cr3 read_entry entry_frame virt_add mem offset Hmapped idx)
    as [(f' & Hp & ->)|[[Hs ->]|[Hs ->]]]; [simpl; lia|..]; simpl; split_and!.
  - intros f. split; [intros Heq; by replace f with f' by (simplify_eq; lia)|].
    intros Hf. by rewrite (Hdet _ _ Hf Hp).
  - split; [done|]. intros Hst. by destruct (Hns _ _ Hp Hst).
  - split; [done|]. intros Hst. by destruct (Hns _ _ Hp Hst).
  - intros f. split; [done|]. intros Hf. by destruct (Hns _ _ Hf Hs).
  - done.
  - split; [done|]. intros Hst. by pose proof (Hsd _ _ Hs Hst).
  - intros f. split; [done|]. intros Hf. by destruct (Hns _ _ Hf Hs).
  - split; [done|]. intros Hst. by pose proof (Hsd _ _ Hs Hst).
  - done.
Qed.

(** Tables whose entries count down to a missing one; index [i] of the table in
    frame [f] leads to frame [f + 4096 * (i + 1)]. *)
Definition demo_mem (f i : Z) : result Z FrameError :=
  if i =? 511 then Err FrameNotPresent else Ok (f + 4096 * (i + 1)).

Lemma translate_addr_walks_witness :
  let idx n a := Z.land (Z.shiftr a (12 + 9 * n)) 511 in
  let t a := translate_addr 8192 (λ v i, demo_mem (v - 65536) i) Datatypes.id (λ a b, Ret (a + b))
               (idx 3) (idx 2) (idx 1) (idx 0) (λ a, a mod 4096) a 65536 in
  t 0x1234 = Ret (Some (8192 + 4096 * 5 + 0x234)) ∧ path demo_mem [0; 0; 0; 1] 8192 (8192 + 4096 * 5).
Proof.
  intros idx t. split; [reflexivity|].
  assert (mapped_at (λ v i, demo_mem (v - 65536) i) Datatypes.id (λ a b, Ret (a + b)) demo_mem 8192 65536) as Hm.
  { intros pre f _ _. eexists. split; [reflexivity|]. intros i. unfold Datatypes.id. f_equal. lia. }
  destruct (translate_addr_walks (result Z FrameError) 8192 (λ v i, demo_mem (v - 65536) i)
    Datatypes.id (λ a b, Ret (a + b)) (idx 3) (idx 2) (idx 1) (idx 0) (λ a, a mod 4096) demo_mem 0x1234 65536 Hm)
    as [Hp _].
  apply (Hp (8192 + 4096 * 5)). reflexivity.
Defined.
