(* ===== verification/Vga.v ===== *)
(** The text-mode writer of src/src/vga_buffer.rs. The buffer is the memory at
    0xb8000; [Volatile] reads and writes are plain reads and writes of it. *)
From S2P Require Import Prelude.
Local Open Scope Z_scope.
Local Open Scope rust_scope.

Inductive Color :=
  | Black | Blue | Green | Cyan | Red | Magenta | Brown | LightGray
  | DarkGray | LightBlue | LightGreen | LightCyan | LightRed | Pink | Yellow | White.

(** [color as u8]. *)
Definition Color_u8 (c : Color) : Z :=
  match c with
  | Black => 0 | Blue => 1 | Green => 2 | Cyan => 3 | Red => 4 | Magenta => 5 | Brown => 6
  | LightGray => 7 | DarkGray => 8 | LightBlue => 9 | LightGreen => 10 | LightCyan => 11
  | LightRed => 12 | Pink => 13 | Yellow => 14 | White => 15
  end.

(** [ColorCode::new]: [<<] on a [u8] drops the bits above. *)
Definition ColorCode_new (foreground background : Color) : Z :=
  Z.lor (Z.land (Z.shiftl (Color_u8 background) 4) 255) (Color_u8 foreground).

Record ScreenChar := mkChar { ascii_character : Z; color : Z }.

Definition BUFFER_HEIGHT : Z := 25.
Definition BUFFER_WIDTH : Z := 80.

Abbreviation Buffer := (list (list ScreenChar)).

Record Writer := mkWriter {
  column_position : Z;
  color_code : Z;
  buffer : Buffer;
}.

(** [chars[row][col].read()] and [chars[row][col].write(c)]. *)
Definition read_cell (b : Buffer) (row col : Z) : outcome ScreenChar :=
  r ← index b row; index r col.
Definition write_cell (b : Buffer) (row col : Z) (c : ScreenChar) : outcome Buffer :=
  r ← index b row; r ← store r col c; store b row r.

Definition clear_row (w : Writer) (row : Z) : outcome Writer :=
  let blank := mkChar 32 (color_code w) in
  b ← for_each (seqZ 0 BUFFER_WIDTH) (λ col b, write_cell b row col blank) (buffer w);
  Ret (mkWriter (column_position w) (color_code w) b).

Definition new_line (w : Writer) : outcome Writer :=
  b ← for_each (seqZ 1 (BUFFER_HEIGHT - 1)) (λ row b,
        for_each (seqZ 0 BUFFER_WIDTH) (λ col b,
          character ← read_cell b row col;
          up ← row -! 1;
          write_cell b up col character) b) (buffer w);
  last ← BUFFER_HEIGHT -! 1;
  w ← clear_row (mkWriter (column_position w) (color_code w) b) last;
  Ret (mkWriter 0 (color_code w) (buffer w)).

Definition write_byte (w : Writer) (byte : Z) : outcome Writer :=
  if byte =? 10 then new_line w
  else
    w ← (if BUFFER_WIDTH <=? column_position w then new_line w else Ret w);
    row ← BUFFER_HEIGHT -! 1;
    let col := column_position w in
    let code := color_code w in
    b ← write_cell (buffer w) row col (mkChar byte code);
    col' ← col +! 1;
    Ret (mkWriter col' code b).

(** The byte shown for a byte of the string. *)
Definition shown (byte : Z) : Z :=
  if ((0x20 <=? byte) && (byte <=? 0x7e)) || (byte =? 10) then byte else 0xfe.

Definition write_string (w : Writer) (s : list Z) : outcome Writer :=
  for_each s (λ byte w, write_byte w (shown byte)) w.

(** * The buffer as a grid *)
Record writer_ok (w : Writer) : Prop := {
  ok_col : 0 ≤ column_position w ≤ 80;
  ok_rows : length (buffer w) = 25%nat;
  ok_width : Forall (λ r, length r = 80%nat) (buffer w);
}.

Lemma read_cell_eq b row col r c :
  b !! Z.to_nat row = Some r → r !! Z.to_nat col = Some c → read_cell b row col = Ret c.
Proof. intros Hr Hc. unfold read_cell. rewrite (index_Some _ _ r) by done. by apply index_Some. Qed.

Lemma write_cell_eq b row col r c :
  b !! Z.to_nat row = Some r → (Z.to_nat col < length r)%nat →
  write_cell b row col c = Ret (<[Z.to_nat row := <[Z.to_nat col := c]> r]> b).
Proof.
  intros Hr Hc. unfold write_cell. rewrite (index_Some _ _ r) by done. cbn [mbind outcome_bind].
  rewrite store_in by done. cbn [mbind outcome_bind]. apply store_in.
  by eapply lookup_lt_Some.
Qed.

(** Overwriting a row column by column. *)
Lemma fill_row b row (new : list ScreenChar) (f : Z → Buffer → outcome Buffer) old :
  b !! Z.to_nat row = Some old → length old = 80%nat → length new = 80%nat →
  (∀ k c b', new !! k = Some c → b' !! Z.to_nat row = Some (take k new ++ drop k old) →
     (∀ j, j ≠ Z.to_nat row → b' !! j = b !! j) →
     f (Z.of_nat k) b' = write_cell b' row (Z.of_nat k) c) →
  for_each (seqZ 0 80) f b = Ret (<[Z.to_nat row := new]> b).
Proof.
  intros Hrow Hold Hnew Hf.
  pose proof (for_each_seqZ (λ k b', b' = <[Z.to_nat row := take k new ++ drop k old]> b) f 0 80 b) as Hl.
  apply ensures_run in Hl as (b' & Hrun & ->).
  - change (seqZ 0 80) with (seqZ 0 (Z.of_nat 80)). rewrite Hrun.
    by rewrite take_ge, drop_ge, app_nil_r by lia.
  - by rewrite take_0, drop_0, list_insert_id.
  - intros k b' Hk ->. rewrite Z.add_0_l.
    destruct (lookup_lt_is_Some_2 new k) as [c Hc]; [lia|].
    pose proof (lookup_lt_Some _ _ _ Hrow) as Hlt.
    erewrite Hf; [|exact Hc|by apply list_lookup_insert_eq|intros; by rewrite list_lookup_insert_ne].
    erewrite write_cell_eq; [|by apply list_lookup_insert_eq|rewrite Nat2Z.id; len].
    wp_step. rewrite list_insert_insert_eq, Nat2Z.id. f_equal.
    rewrite insert_app_r_alt by len. rewrite length_take_le by lia. rewrite Nat.sub_diag.
    rewrite (take_S_r _ _ c) by done. rewrite <- app_assoc. f_equal.
    destruct (lookup_lt_is_Some_2 old k) as [o Ho]; [lia|]. by rewrite (drop_S _ o k) by done.
Qed.

Definition blank_row (code : Z) : list ScreenChar := replicate 80 (mkChar 32 code).

Lemma clear_row_eq w row old :
  buffer w !! Z.to_nat row = Some old → length old = 80%nat →
  clear_row w row = Ret (mkWriter (column_position w) (color_code w)
                           (<[Z.to_nat row := blank_row (color_code w)]> (buffer w))).
Proof.
  intros Hrow Hlen. unfold clear_row. change BUFFER_WIDTH with 80.
  rewrite (fill_row _ row (blank_row (color_code w)) _ old); [done..|].
  intros k c b' Hc _ _. apply lookup_replicate in Hc as [-> _]. done.
Qed.

(** One row moved up. *)
Lemma copy_row_eq b (k : nat) old new :
  (k < 24)%nat → b !! k = Some old → b !! S k = Some new → length old = 80%nat → length new = 80%nat →
  for_each (seqZ 0 80) (λ col b,
    character ← read_cell b (1 + Z.of_nat k) col;
    up ← (1 + Z.of_nat k) -! 1;
    write_cell b up col character) b = Ret (<[k := new]> b).
Proof.
  intros Hk Hold Hnew Hlo Hln. rewrite (fill_row b (Z.of_nat k) new _ old).
  - by rewrite Nat2Z.id.
  - by rewrite Nat2Z.id.
  - done.
  - done.
  - intros j c b' Hc _ Hoth. rewrite (read_cell_eq _ _ _ new c).
    + cbn [mbind outcome_bind]. unfold sub64. rewrite checked_fits by (unfold fits; lia).
      cbn [mbind outcome_bind]. f_equal. lia.
    + rewrite Hoth by lia. replace (Z.to_nat (1 + Z.of_nat k)) with (S k) by lia. done.
    + by rewrite Nat2Z.id.
Qed.

(** All rows moved up: the last one is left twice. *)
Lemma copy_rows_eq b :
  length b = 25%nat → Forall (λ r, length r = 80%nat) b →
  for_each (seqZ 1 24) (λ row b,
    for_each (seqZ 0 80) (λ col b,
      character ← read_cell b row col;
      up ← row -! 1;
      write_cell b up col character) b) b = Ret (drop 1 b ++ drop 24 b).
Proof.
  intros Hl Hw. set (f := λ row : Z, _).
  pose proof (for_each_seqZ (λ k b', b' = take k (drop 1 b) ++ drop k b) f 1 24 b) as Hloop.
  apply ensures_run in Hloop as (b' & Hrun & ->).
  - change (seqZ 1 24) with (seqZ 1 (Z.of_nat 24)). rewrite Hrun. by rewrite take_ge by (rewrite ?length_take, ?length_drop; lia).
  - done.
  - intros k b' Hk ->. subst f. cbv beta.
    destruct (lookup_lt_is_Some_2 b k) as [old Hold]; [lia|].
    destruct (lookup_lt_is_Some_2 b (S k)) as [new Hnew]; [lia|].
    rewrite Forall_forall in Hw.
    rewrite (copy_row_eq _ k old new).
    + wp_step. rewrite insert_app_r_alt by (rewrite ?length_take, ?length_drop; lia). rewrite length_take_le by (rewrite ?length_take, ?length_drop; lia). rewrite Nat.sub_diag.
      rewrite (take_S_r _ _ new) by (by rewrite lookup_drop). rewrite <- app_assoc. f_equal.
      by rewrite (drop_S b old k) by done.
    + done.
    + rewrite lookup_app_r by (rewrite ?length_take, ?length_drop; lia). rewrite length_take_le by (rewrite ?length_take, ?length_drop; lia).
      by rewrite Nat.sub_diag, lookup_drop, Nat.add_0_r.
    + rewrite lookup_app_r by (rewrite ?length_take, ?length_drop; lia). rewrite length_take_le by (rewrite ?length_take, ?length_drop; lia).
      by replace (S k - k)%nat with 1%nat by lia; rewrite lookup_drop, Nat.add_1_r.
    + apply Hw. by eapply list_elem_of_lookup_2.
    + apply Hw. by eapply list_elem_of_lookup_2.
Qed.

Lemma new_line_eq w :
  writer_ok w →
  new_line w = Ret (mkWriter 0 (color_code w) (drop 1 (buffer w) ++ [blank_row (color_code w)])).
Proof.
  intros [Hc Hr Hw]. unfold new_line. change (BUFFER_HEIGHT - 1) with 24. change BUFFER_WIDTH with 80.
  rewrite copy_rows_eq by done. cbn [mbind outcome_bind].
  change (BUFFER_HEIGHT -! 1) with (Ret 24). cbn [mbind outcome_bind].
  destruct (lookup_lt_is_Some_2 (buffer w) 24) as [old Hold]; [lia|].
  assert (drop 24 (buffer w) = [old]) as Hd.
  { rewrite (drop_S _ old 24) by done. by rewrite drop_ge by lia. }
  rewrite Hd. erewrite clear_row_eq.
  - simpl. do 2 f_equal. change (Z.to_nat 24) with 24%nat.
    rewrite insert_app_r_alt by len. len. by replace (24 - (length (buffer w) - 1))%nat with O by lia.
  - simpl. change (Z.to_nat 24) with 24%nat. rewrite lookup_app_r by len. len.
    by replace (24 - (length (buffer w) - 1))%nat with O by lia.
  - rewrite Forall_forall in Hw. apply Hw. by eapply list_elem_of_lookup_2.
Qed.

(** * The terminal the writer implements *)

(** Everything ever scrolled off or shown above the last line, and the line
    being written. *)
Record tty := mkTty { t_hist : list (list ScreenChar); t_cur : list ScreenChar; t_col : Z }.

Definition tty_newline (code : Z) (t : tty) : tty :=
  mkTty (t_hist t ++ [t_cur t]) (blank_row code) 0.

Definition tty_put (code : Z) (t : tty) (byte : Z) : tty :=
  if byte =? 10 then tty_newline code t
  else
    let t := if 80 <=? t_col t then tty_newline code t else t in
    mkTty (t_hist t) (<[Z.to_nat (t_col t) := mkChar byte code]> (t_cur t)) (t_col t + 1).

Definition tty_write (code : Z) (t : tty) (s : list Z) : tty :=
  foldl (λ t byte, tty_put code t (shown byte)) t s.

(** The screen shows the last 24 lines of the history and the current line. *)
Record shows (w : Writer) (t : tty) : Prop := {
  shows_hist : (24 ≤ length (t_hist t))%nat;
  shows_buffer : buffer w = drop (length (t_hist t) - 24) (t_hist t) ++ [t_cur t];
  shows_col : column_position w = t_col t;
  shows_ok : writer_ok w;
}.

Lemma shows_width w t : shows w t → length (t_cur t) = 80%nat.
Proof.
  intros [Hh Hb _ [_ _ Hw]]. rewrite Hb in Hw. apply Forall_app in Hw as [_ Hw].
  rewrite Forall_singleton in Hw. exact Hw.
Qed.

Lemma new_line_shows w t :
  shows w t → ∃ w', new_line w = Ret w' ∧ shows w' (tty_newline (color_code w) t)
    ∧ color_code w' = color_code w.
Proof.
  intros Hs. pose proof (shows_width w t Hs) as Hcur. destruct Hs as [Hh Hb Hc Hok].
  rewrite new_line_eq by done. eexists. split; [done|]. split; [|done].
  destruct Hok as [? Hr Hw]. split; simpl.
  - len.
  - rewrite Hb, drop_app_le, drop_drop by len. rewrite drop_app_le by len. do 3 f_equal. len.
  - done.
  - split; simpl; [lia|len|]. apply Forall_app. split; [by apply Forall_drop|].
    by apply Forall_singleton.
Qed.

Lemma write_byte_shows w t byte :
  shows w t → ∃ w', write_byte w byte = Ret w' ∧ shows w' (tty_put (color_code w) t byte)
    ∧ color_code w' = color_code w.
Proof.
  intros Hs. unfold write_byte, tty_put. destruct (Z.eqb_spec byte 10); [by apply new_line_shows|].
  rewrite (shows_col w t Hs). change BUFFER_WIDTH with 80.
  assert (∃ w1 t1, (if 80 <=? t_col t then new_line w else Ret w) = Ret w1
    ∧ (if 80 <=? t_col t then tty_newline (color_code w) t else t) = t1
    ∧ shows w1 t1 ∧ color_code w1 = color_code w ∧ 0 ≤ t_col t1 < 80) as (w1 & t1 & -> & -> & Hs1 & Hcc & Hcol).
  { destruct (Z.leb_spec 80 (t_col t)).
    - destruct (new_line_shows w t Hs) as (w1 & Hw1 & Hs1 & Hc1). exists w1. eexists. by split_and!.
    - exists w, t. pose proof (ok_col w (shows_ok w t Hs)) as Hk. rewrite (shows_col w t Hs) in Hk.
      split_and!; [done..|lia|lia]. }
  cbn [mbind outcome_bind]. change (BUFFER_HEIGHT -! 1) with (Ret 24). cbn [mbind outcome_bind].
  pose proof (shows_width w1 t1 Hs1) as Hcur. destruct Hs1 as [Hh Hb Hc [_ Hr Hw]].
  assert (buffer w1 !! 24%nat = Some (t_cur t1)) as Hlast.
  { rewrite Hb, lookup_app_r by len. len.
    by replace (24 - (length (t_hist t1) - (length (t_hist t1) - 24)))%nat with O by lia. }
  rewrite Hc, (write_cell_eq _ 24 _ (t_cur t1)) by (done || lia). cbn [mbind outcome_bind].
  unfold add64. rewrite checked_fits by (unfold fits; lia). cbn [mbind outcome_bind].
  eexists. split; [done|]. split; [|done]. rewrite Hcc. change (Z.to_nat 24) with 24%nat. split; simpl.
  - done.
  - rewrite Hb, insert_app_r_alt by len. len.
    by replace (24 - (length (t_hist t1) - (length (t_hist t1) - 24)))%nat with O by lia.
  - done.
  - split; simpl; [lia|by rewrite length_insert|]. apply Forall_insert; [done|]. by rewrite length_insert.
Qed.

Lemma write_string_shows s w t :
  shows w t → ∃ w', write_string w s = Ret w' ∧ shows w' (tty_write (color_code w) t s)
    ∧ color_code w' = color_code w.
Proof.
  unfold write_string, tty_write. revert w t.
  induction s as [|byte s IH]; intros w t Hs; cbn [for_each foldl]; [by exists w|].
  destruct (write_byte_shows w t (shown byte) Hs) as (w1 & -> & Hs1 & Hc1).
  cbn [mbind outcome_bind]. destruct (IH w1 _ Hs1) as (w2 & Hr & Hs2 & Hc2). rewrite Hc1 in *.
  by exists w2.
Qed.

(** The terminal a screen is the window of. *)
Definition tty_of (w : Writer) : tty :=
  mkTty (take 24 (buffer w)) (default [] (buffer w !! 24%nat)) (column_position w).

Lemma tty_of_shows w : writer_ok w → shows w (tty_of w).
Proof.
  intros [Hc Hr Hw]. destruct (lookup_lt_is_Some_2 (buffer w) 24) as [r Hlast]; [lia|].
  split; [simpl; rewrite length_take; lia| |done|done]. cbn [tty_of t_hist t_cur]. rewrite Hlast. simpl.
  rewrite length_take_le by lia. rewrite drop_0. rewrite <- (take_S_r _ _ r) by done.
  by rewrite take_ge by lia.
Qed.

(** C14: the writer is a scrolling terminal. From any well-formed screen and for
    any bytes, [write_string] runs without a panic and the buffer shows exactly
    the last 25 lines of the terminal that received the bytes: lines wrap after
    80 columns, a newline starts a blank line, unprintable bytes appear as
    0xfe, lines that scroll off the top are gone and nothing else changes. *)
Theorem write_string_terminal (w : Writer) (s : list Z) (Hw : writer_ok w) :
  let t := tty_write (color_code w) (tty_of w) s in
  ∃ w', write_string w s = Ret w' ∧ writer_ok w'
    ∧ buffer w' = drop (length (t_hist t) - 24) (t_hist t) ++ [t_cur t]
    ∧ column_position w' = t_col t ∧ color_code w' = color_code w.
Proof.
  intros t. destruct (write_string_shows s w (tty_of w)) as (w' & Hr & Hs & Hc).
  - by apply tty_of_shows.
  - exists w'. destruct Hs. by split_and!.
Qed.

Definition demo_writer : Writer := mkWriter 0 0x4e (replicate 25 (blank_row 0)).

Lemma demo_writer_ok : writer_ok demo_writer.
Proof. split; simpl; [lia|done|]. by repeat constructor. Qed.

Lemma write_string_terminal_witness :
  writer_ok demo_writer ∧
  ∃ w', write_string demo_writer [72; 105; 10; 7] = Ret w' ∧ column_position w' = 1.
Proof.
  split; [exact demo_writer_ok|].
  destruct (write_string_terminal demo_writer [72; 105; 10; 7] demo_writer_ok)
    as (w' & Hr & _ & _ & Hc & _).
  exists w'. split; [exact Hr|]. rewrite Hc. by vm_compute.
Defined.

(** * What appears on the screen *)
Definition printable (c : ScreenChar) : Prop :=
  0x20 ≤ ascii_character c ≤ 0x7e ∨ ascii_character c = 0xfe.

Lemma shown_printable byte code : shown byte ≠ 10 → printable (mkChar (shown byte) code).
Proof.
  unfold shown, printable. simpl.
  destruct (Z.leb_spec 0x20 byte), (Z.leb_spec byte 0x7e), (Z.eqb_spec byte 10); simpl; lia.
Qed.

Definition tty_printable (t : tty) : Prop :=
  Forall (Forall printable) (t_hist t) ∧ Forall printable (t_cur t).

Lemma tty_newline_printable code t : tty_printable t → tty_printable (tty_newline code t).
Proof.
  intros [? ?]. split; simpl; [apply Forall_app; split; [done|by constructor]|].
  apply Forall_replicate. by left.
Qed.

Lemma tty_put_printable code t byte :
  tty_printable t → tty_printable (tty_put code t (shown byte)).
Proof.
  intros Ht. unfold tty_put. destruct (Z.eqb_spec (shown byte) 10); [by apply tty_newline_printable|].
  assert (tty_printable (if 80 <=? t_col t then tty_newline code t else t)) as [? ?]
    by (case_match; [by apply tty_newline_printable|done]).
  split; simpl; [done|]. apply Forall_insert; [done|]. by apply shown_printable.
Qed.

Lemma tty_write_printable code t s : tty_printable t → tty_printable (tty_write code t s).
Proof.
  unfold tty_write. revert t. induction s; intros t Ht; simpl; [done|].
  by apply IHs, tty_put_printable.
Qed.

(** No control byte ever reaches the screen through [write_string]: if
    every cell holds a printable ASCII character or the block 0xfe, then so
    does every cell afterwards, whatever bytes were written. *)
Theorem write_string_printable (w : Writer) (s : list Z) (Hw : writer_ok w)
    (Hp : Forall (Forall printable) (buffer w)) :
  ∃ w', write_string w s = Ret w' ∧ Forall (Forall printable) (buffer w').
Proof.
  destruct (write_string_shows s w (tty_of w)) as (w' & Hr & Hs & _); [by apply tty_of_shows|].
  exists w'. split; [exact Hr|].
  assert (tty_printable (tty_of w)) as Ht.
  { split; simpl; [by apply Forall_take|].
    destruct (buffer w !! 24%nat) as [r|] eqn:Hl; simpl; [|constructor].
    rewrite Forall_lookup in Hp. eauto. }
  apply (tty_write_printable (color_code w) _ s) in Ht as [Hh Hc].
  destruct Hs as [_ -> _ _]. apply Forall_app. split; [by apply Forall_drop|].
  by apply Forall_singleton.
Qed.

Lemma write_string_printable_witness :
  ∃ w', write_string demo_writer [7; 65; 200] = Ret w' ∧ Forall (Forall printable) (buffer w').
Proof.
  apply (write_string_printable demo_writer [7; 65; 200]); [exact demo_writer_ok|].
  apply Forall_replicate, Forall_replicate. left. simpl. lia.
Defined.
