(* ===== verification/Print.v ===== *)
(** Formatted output: [core::fmt::Write] and its [write_fmt], the adapter and
    the global writer of src/src/vga_buffer.rs with its tests, the serial port's
    [_print] of src/src/serial.rs, and the printing macros. Locks and interrupts
    are the subject of Console.v; here each print runs alone. *)
From S2P Require Import Prelude Vga.
Local Open Scope Z_scope.
Local Open Scope rust_scope.

(** * [core::fmt] *)

(** [fmt::Write]; [fmt::Error] carries nothing. *)
Class FmtWrite (W : Type) := write_str : W → list Z → outcome (result unit unit * W).

(** [fmt::Arguments]: the pieces that formatting hands to [write_str], in
    order; [write_fmt] stops at the first error. *)
Abbreviation Arguments := (list (list Z)) (only parsing).

Fixpoint write_fmt {W} `{FmtWrite W} (w : W) (args : Arguments) : outcome (result unit unit * W) :=
  match args with
  | [] => Ret (Ok tt, w)
  | s :: args =>
      '(r, w) ← write_str w s;
      match r with Ok _ => write_fmt w args | Err e => Ret (Err e, w) end
  end.

(** [println!(..)] is [print!] of the arguments and a newline. *)
Definition println_args (args : Arguments) : Arguments := args ++ [[10]].

(** * The VGA buffer *)
#[global] Instance Writer_write : FmtWrite Writer := λ w s,
  w ← write_string w s;
  Ret (Ok tt, w).

(** The writer [WRITER] starts with; [buffer] is what the memory at 0xb8000
    holds. *)
Definition WRITER_init (buffer : Buffer) : Writer :=
  mkWriter 0 (ColorCode_new Yellow Red) buffer.

(** [vga_buffer::_print] on the locked writer. *)
Definition vga_print (args : Arguments) (w : Writer) : outcome Writer :=
  '(r, w) ← write_fmt w args;
  _ ← expect r;
  Ret w.

(** [print_something]; [third] is how [1.0 / 3.0] is rendered. *)
Definition print_something (third : list Z) (buffer : Buffer) : outcome Writer :=
  let writer := mkWriter 0 (ColorCode_new Yellow Blue) buffer in
  writer ← write_byte writer 72;
  writer ← write_string writer (str_of "ello ");
  '(r, writer) ← write_fmt writer [str_of "The numbers are "; str_of "42"; str_of " and "; third];
  _ ← expect r;
  Ret writer.

(** The body of [test_println_output] for a string [s]: print it on a line of
    its own and compare the row above the last with it. *)
Definition println_output (s : list Z) (writer : Writer) : outcome Writer :=
  '(r, writer) ← write_fmt writer [[10]; s; [10]];
  _ ← expect r;
  row ← BUFFER_HEIGHT -! 2;
  _ ← for_each (zip (seqZ 0 (Z.of_nat (length s))) s) (λ '(i, c) _,
        screen_char ← read_cell (buffer writer) row i;
        assert (ascii_character screen_char =? c)) tt;
  Ret writer.

Definition test_println_output : Writer → outcome Writer :=
  println_output (str_of "Some test string that fits on a single line").

(** * The serial port *)

(** [SerialPort] of the [uart_16550] crate; [sent] is what went down the line. *)
Class Uart (P : Type) `{FmtWrite P} := {
  SerialPort_new : Z → P;
  serial_init : P → P;
}.
Class UartLaws (P : Type) `{Uart P} := {
  sent : P → list Z;
  uart_ready : P → Prop;
  serial_init_ready port : uart_ready (serial_init (SerialPort_new port))
    ∧ sent (serial_init (SerialPort_new port)) = [];
  uart_write p s : uart_ready p →
    ∃ p', write_str p s = Ret (Ok tt, p') ∧ uart_ready p' ∧ sent p' = sent p ++ s;
}.

Definition SERIAL1_init {P} `{Uart P} : P :=
  let serial_port := SerialPort_new 0x3F8 in
  serial_init serial_port.

(** [serial::_print]. *)
Definition serial_print {P} `{FmtWrite P} (args : Arguments) (SERIAL1 : P) : outcome P :=
  '(r, SERIAL1) ← write_fmt SERIAL1 args;
  _ ← expect r;
  Ret SERIAL1.

(** * Facts *)
Lemma write_string_app w s s' :
  write_string w (s ++ s') = (w ← write_string w s; write_string w s').
Proof. apply for_each_app. Qed.

Lemma write_fmt_concat w args :
  write_fmt w args = (w ← write_string w (concat args); Ret (Ok tt, w)).
Proof.
  revert w. induction args as [|s args IH]; intros w; [done|]. cbn [write_fmt concat].
  rewrite write_string_app. unfold write_str, Writer_write.
  destruct (write_string w s) as [w1|]; [|done]. cbn [mbind outcome_bind]. apply IH.
Qed.

(** Characters of one line put into a row from column [col] on. *)
Definition put_row (code : Z) (col : nat) (s : list Z) (r : list ScreenChar) : list ScreenChar :=
  take col r ++ ((λ b, mkChar (shown b) code) <$> s) ++ drop (col + length s) r.

Lemma tty_write_line code t s :
  Forall (λ b, b ≠ 10) s → 0 ≤ t_col t → t_col t + Z.of_nat (length s) ≤ 80 →
  length (t_cur t) = 80%nat →
  tty_write code t s =
    mkTty (t_hist t) (put_row code (Z.to_nat (t_col t)) s (t_cur t)) (t_col t + Z.of_nat (length s)).
Proof.
  intros Hs. revert t. unfold tty_write, put_row. induction Hs as [|b s Hb _ IH]; intros t H0 Hle Hlen.
  { destruct t; simpl. by rewrite Nat.add_0_r, Z.add_0_r, take_drop. }
  cbn [foldl length] in *.
  assert (shown b ≠ 10) as Hsh by
    (unfold shown; destruct (Z.leb_spec 0x20 b), (Z.leb_spec b 0x7e), (Z.eqb_spec b 10); simpl; lia).
  unfold tty_put at 2. rewrite (proj2 (Z.eqb_neq _ _)) by done.
  rewrite (proj2 (Z.leb_gt _ _)) by lia. cbv zeta.
  rewrite IH; simpl; [|lia|lia|by rewrite length_insert].
  f_equal; [|lia]. replace (Z.to_nat (t_col t + 1)) with (S (Z.to_nat (t_col t))) by lia.
  rewrite (take_S_r _ _ (mkChar (shown b) code)) by (apply list_lookup_insert_eq; lia).
  rewrite take_insert_ge, drop_insert_lt by lia. rewrite <- app_assoc. by rewrite Nat.add_succ_comm.
Qed.

Lemma tty_write_app code t s s' :
  tty_write code t (s ++ s') = tty_write code (tty_write code t s) s'.
Proof. apply foldl_app. Qed.

Lemma tty_write_newline code t : tty_write code t [10] = tty_newline code t.
Proof. done. Qed.

(** The screen after a string on a line of its own. *)
Lemma own_line_shows w s :
  writer_ok w → Forall (λ b, b ≠ 10) s → (length s ≤ 80)%nat →
  ∃ w', write_string w ([10] ++ s ++ [10]) = Ret w' ∧ writer_ok w'
    ∧ buffer w' !! 23%nat = Some (put_row (color_code w) 0 s (blank_row (color_code w))).
Proof.
  intros Hw Hs Hlen. destruct (write_string_shows ([10] ++ s ++ [10]) w (tty_of w)) as (w' & Hr & Hsh & _).
  { by apply tty_of_shows. }
  exists w'. split; [done|]. split; [apply Hsh|]. destruct Hsh as [Hh Hb _ _].
  rewrite !tty_write_app, !tty_write_newline in Hh, Hb.
  set (t := tty_newline (color_code w) (tty_of w)) in *.
  rewrite (tty_write_line _ t s) in Hh, Hb by (done || simpl; lia).
  cbn [tty_newline t_hist t_cur t_col t] in Hh, Hb.
  set (hist := t_hist (tty_of w) ++ [t_cur (tty_of w)]) in *. set (row := put_row _ _ _ _) in *.
  rewrite length_app in Hb, Hh. simpl in Hb, Hh. rewrite drop_app_le in Hb by lia.
  rewrite Hb, lookup_app_l by (rewrite length_app, length_drop; simpl; lia).
  rewrite lookup_app_r by (rewrite length_drop; lia). rewrite length_drop.
  by replace (23 - (length hist - (length hist + 1 - 24)))%nat with O by lia.
Qed.

Lemma check_row b s (row : list ScreenChar) i0 :
  b !! 23%nat = Some row →
  (∀ k c, s !! k = Some c → ascii_character <$> row !! (i0 + k)%nat = Some c) →
  for_each (zip (seqZ (Z.of_nat i0) (Z.of_nat (length s))) s) (λ '(i, c) _,
    screen_char ← read_cell b 23 i; assert (ascii_character screen_char =? c)) tt = Ret tt.
Proof.
  intros Hrow. revert i0. induction s as [|c s IH]; intros i0 Hs; [done|].
  cbn [length]. rewrite seqZ_cons by lia. cbn [zip zip_with for_each].
  specialize (Hs 0%nat c eq_refl) as Hc. rewrite Nat.add_0_r in Hc.
  destruct (row !! i0) as [ch|] eqn:Hch; [|done]. simpl in Hc. injection Hc as Hc.
  rewrite (read_cell_eq b 23 (Z.of_nat i0) row ch) by (done || by rewrite Nat2Z.id).
  cbn [mbind outcome_bind]. rewrite (proj2 (Z.eqb_eq _ _)) by done. cbn [assert mbind outcome_bind].
  replace (Z.succ (Z.of_nat i0)) with (Z.of_nat (S i0)) by lia.
  replace (Z.pred (Z.of_nat (S (length s)))) with (Z.of_nat (length s)) by lia.
  apply IH. intros k c' Hk. specialize (Hs (S k) c' Hk).
  by rewrite <- Nat.add_succ_comm in Hs.
Qed.

(** Printing formatted text to the screen is writing the string the pieces
    make up, however formatting cuts it, and no error is ever reported; so
    [print_something] shows one line of text. *)
Theorem vga_print_concat (args : list (list Z)) (w : Writer) (third : list Z) (b : list (list ScreenChar)) :
  vga_print args w = write_string w (concat args)
  ∧ print_something third b
    = write_string (mkWriter 0 (ColorCode_new Yellow Blue) b)
        (str_of "Hello The numbers are 42 and " ++ third).
Proof.
  split.
  - unfold vga_print. rewrite write_fmt_concat. by destruct (write_string w (concat args)).
  - unfold print_something. set (w0 := mkWriter _ _ b).
    change (write_byte w0 72) with (write_byte w0 (shown 72)).
    assert (∀ s, write_string w0 (72 :: s) = (w ← write_byte w0 (shown 72); write_string w s)) as Hcons
      by done.
    change (str_of "Hello The numbers are 42 and ")
      with (72 :: str_of "ello " ++ str_of "The numbers are 42 and ").
    rewrite <- app_comm_cons, Hcons. destruct (write_byte w0 (shown 72)) as [w1|]; [|done].
    cbn [mbind outcome_bind]. rewrite <- app_assoc, write_string_app.
    destruct (write_string w1 (str_of "ello ")) as [w2|]; [|done].
    cbn [mbind outcome_bind]. rewrite write_fmt_concat.
    replace (concat [str_of "The numbers are "; str_of "42"; str_of " and "; third])
      with (str_of "The numbers are 42 and " ++ third) by (simpl; by rewrite app_nil_r).
    by destruct (write_string w2 _).
Qed.

Lemma println_output_ok w s :
  writer_ok w → Forall (λ b, 0x20 ≤ b ≤ 0x7e) s → (length s ≤ 80)%nat →
  ∃ w', println_output s w = Ret w' ∧ writer_ok w'.
Proof.
  intros Hw Hs Hlen. unfold println_output. rewrite write_fmt_concat.
  change (concat [[10]; s; [10]]) with ([10] ++ s ++ [10]).
  destruct (own_line_shows w s) as (w' & -> & Hw' & Hrow); [done| |done|].
  { eapply Forall_impl; [exact Hs|]. simpl. lia. }
  cbn [mbind outcome_bind expect]. change (BUFFER_HEIGHT -! 2) with (Ret 23). cbn [mbind outcome_bind].
  change (seqZ 0) with (seqZ (Z.of_nat 0)).
  rewrite (check_row _ s _ 0 Hrow); [by exists w'|]. intros k c Hk. unfold put_row. simpl.
  rewrite lookup_app_l by (rewrite length_fmap; by eapply lookup_lt_Some).
  rewrite list_lookup_fmap, Hk. simpl. f_equal. unfold shown.
  rewrite Forall_forall in Hs. specialize (Hs c (list_elem_of_lookup_2 _ _ _ Hk)).
  by rewrite (proj2 (Z.leb_le 0x20 c)), (proj2 (Z.leb_le c 0x7e)) by lia.
Qed.

Lemma test_println_output_ok w : writer_ok w → ∃ w', test_println_output w = Ret w' ∧ writer_ok w'.
Proof. intros Hw. apply println_output_ok; [done|by_decide|vm_compute; lia]. Qed.

(** What is printed goes down the line, however formatting cuts it: from the
    initialised port on, any sequence of prints sends exactly their text. *)
Lemma serial_print_sends {P} `{UartLaws P} (p : P) args :
  uart_ready p → ∃ p', serial_print args p = Ret p' ∧ uart_ready p' ∧ sent p' = sent p ++ concat args.
Proof.
  intros Hp. assert (∃ p', write_fmt p args = Ret (Ok tt, p') ∧ uart_ready p' ∧ sent p' = sent p ++ concat args)
    as (p' & Hw & Hr).
  { revert p Hp. induction args as [|s args IH]; intros p Hp; cbn [write_fmt concat].
    - exists p. by rewrite app_nil_r.
    - destruct (uart_write p s Hp) as (p1 & -> & Hp1 & Hs1). cbn [mbind outcome_bind].
      destruct (IH p1 Hp1) as (p2 & -> & Hp2 & Hs2). exists p2. by rewrite Hs2, Hs1, app_assoc. }
  exists p'. unfold serial_print. by rewrite Hw.
Qed.

Lemma serial_prints_send {P} `{UartLaws P} (msgs : list (list (list Z))) :
  ∃ p' : P, for_each msgs serial_print SERIAL1_init = Ret p' ∧ sent p' = concat ((λ m, concat m) <$> msgs).
Proof.
  assert (∀ p : P, uart_ready p → ∃ p', for_each msgs serial_print p = Ret p'
    ∧ sent p' = sent p ++ concat ((λ m, concat m) <$> msgs)) as Hall.
  { induction msgs as [|m msgs IH]; intros p Hp; cbn [for_each].
    - exists p. by rewrite app_nil_r.
    - destruct (serial_print_sends p m Hp) as (p1 & -> & Hp1 & Hs1). cbn [mbind outcome_bind].
      destruct (IH p1 Hp1) as (p2 & -> & Hs2). exists p2. rewrite Hs2, Hs1. csimpl. by rewrite app_assoc. }
  destruct (serial_init_ready (P := P) 0x3F8) as [Hr Hs]. destruct (Hall _ Hr) as (p' & Hp' & Hs').
  exists p'. split; [exact Hp'|]. by rewrite Hs', Hs.
Qed.

(** The kernel's own test of the screen passes, from whatever the screen
    shows, and not only for its string: any printable text of at most 80
    characters printed on a line of its own stands in the row above the last,
    character by character. *)
Theorem println_output_passes (s : list Z) (w : Writer) (Hw : writer_ok w)
    (Hs : Forall (λ b, 0x20 ≤ b ≤ 0x7e) s) (Hlen : (length s ≤ 80)%nat) :
  (∃ w', println_output s w = Ret w' ∧ writer_ok w')
  ∧ (∃ w', test_println_output w = Ret w' ∧ writer_ok w').
Proof. split; [by apply println_output_ok|by apply test_println_output_ok]. Qed.

Lemma println_output_passes_witness :
  ∃ w', test_println_output demo_writer = Ret w' ∧ writer_ok w'.
Proof.
  apply (println_output_passes (str_of "ok") demo_writer); [exact demo_writer_ok|by_decide|].
  vm_compute. lia.
Defined.
