(* ===== verification/Scanc.v ===== *)
(** The scancode table of src/src/scanc.rs: make codes of set 1 and the keys
    they stand for on a US keyboard. *)
From S2P Require Import Prelude Bytes Vga.
Local Open Scope Z_scope.

Definition get_key (scancode : Z) : option string :=
  match scancode with
  | 0x02 => Some "1"
  | 0x03 => Some "2"
  | 0x04 => Some "3"
  | 0x05 => Some "4"
  | 0x06 => Some "5"
  | 0x07 => Some "6"
  | 0x08 => Some "7"
  | 0x09 => Some "8"
  | 0x0a => Some "9"
  | 0x0b => Some "0"
  | 0x1e => Some "a"
  | 0x30 => Some "b"
  | 0x2e => Some "c"
  | 0x20 => Some "d"
  | 0x12 => Some "e"
  | 0x21 => Some "f"
  | 0x22 => Some "g"
  | 0x23 => Some "h"
  | 0x17 => Some "i"
  | 0x24 => Some "j"
  | 0x25 => Some "k"
  | 0x26 => Some "l"
  | 0x32 => Some "m"
  | 0x31 => Some "n"
  | 0x18 => Some "o"
  | 0x19 => Some "p"
  | 0x10 => Some "q"
  | 0x13 => Some "r"
  | 0x1f => Some "s"
  | 0x14 => Some "t"
  | 0x16 => Some "u"
  | 0x2f => Some "v"
  | 0x11 => Some "w"
  | 0x2d => Some "x"
  | 0x15 => Some "y"
  | 0x2c => Some "z"
  | 0x39 => Some " "
  | 0x0c => Some "-"
  | 0x0d => Some "="
  | 0x1a => Some "["
  | 0x1b => Some "]"
  | 0x2b => Some "\"
  | 0x27 => Some ";"
  | 0x28 => Some "'"
  | 0x33 => Some ","
  | 0x34 => Some "."
  | 0x35 => Some "/"
  | _ => None
  end%string.

(** The same keys as they lie on the keyboard: scancodes are consecutive along
    its rows. *)
Definition rows : list (Z * string) :=
  [(0x02, "1234567890-="); (0x10, "qwertyuiop[]"); (0x1e, "asdfghjkl;'");
   (0x2b, "\zxcvbnm,./"); (0x39, " ")]%string.

Fixpoint key_at (rs : list (Z * string)) (scancode : Z) : option string :=
  match rs with
  | [] => None
  | (first, keys) :: rs =>
      if decide (first ≤ scancode < first + Z.of_nat (String.length keys))
      then (λ c, String c EmptyString) <$> String.get (Z.to_nat (scancode - first)) keys
      else key_at rs scancode
  end.

(** The scancodes of a byte, and those among them that are in the table. *)
Definition scancodes : list Z := seqZ 0 256.
Definition known : list Z := filter (λ c, is_Some (get_key c)) scancodes.

Lemma get_key_known c s : is_u8 c → get_key c = Some s → c ∈ known.
Proof.
  intros Hc Hs. apply list_elem_of_filter. split; [by rewrite Hs|].
  apply elem_of_seqZ. unfold fits in Hc. lia.
Qed.

Lemma get_key_rows c : is_u8 c → get_key c = key_at rows c.
Proof.
  intros Hc. assert (Forall (λ c, get_key c = key_at rows c) scancodes) as Hall by by_decide.
  rewrite Forall_forall in Hall. apply Hall, elem_of_seqZ. unfold fits in Hc. lia.
Qed.

(** The scancode table is the US keyboard. For every byte [get_key] gives
    the key in that place of the rows of the keyboard and nothing elsewhere, in
    particular not for the codes of released keys; no two scancodes give the
    same key; and every key is one printable character, which the screen shows
    as it is. *)
Theorem get_key_keyboard (c : Z) (Hc : is_u8 c) :
  get_key c = key_at rows c
  ∧ (∀ c' s, is_u8 c' → get_key c = Some s → get_key c' = Some s → c = c')
  ∧ (∀ s, get_key c = Some s → c < 0x80 ∧ ∃ b, str_of s = [b] ∧ shown b = b ∧ b ≠ 10).
Proof.
  split; [by apply get_key_rows|]. split.
  - intros c' s Hc' H1 H2. assert (NoDup (get_key <$> known)) as Hnd by by_decide.
    pose proof (get_key_known c s Hc H1) as [i Hi]%list_elem_of_lookup.
    pose proof (get_key_known c' s Hc' H2) as [j Hj]%list_elem_of_lookup.
    assert (i = j) as ->; [|congruence].
    apply (NoDup_lookup _ i j (Some s) Hnd); rewrite list_lookup_fmap, ?Hi, ?Hj; simpl; congruence.
  - intros s Hs. pose proof (get_key_known c s Hc Hs) as Hin.
    assert (Forall (λ c, c < 0x80 ∧ Forall (λ b, shown b = b ∧ b ≠ 10) (str_of (default EmptyString (get_key c)))
              ∧ length (str_of (default EmptyString (get_key c))) = 1%nat) known) as Hall by by_decide.
    rewrite Forall_forall in Hall. specialize (Hall c Hin). rewrite Hs in Hall. simpl in Hall.
    destruct Hall as (Hlt & Hsh & Hlen). split; [done|].
    destruct (str_of s) as [|b [|]]; [done| |done]. exists b. apply Forall_singleton in Hsh as [? ?]. done.
Qed.

Lemma get_key_keyboard_witness : get_key 0x1e = key_at rows 0x1e ∧ get_key 0x1e = Some "a"%string.
Proof. split; [apply (get_key_keyboard 0x1e); unfold fits; lia|reflexivity]. Defined.
