(* ===== verification/Queue.v ===== *)
(** The lock-free primitives the tasks rely on, all of other crates: the
    bounded queue [crossbeam_queue::ArrayQueue] and
    [futures_util::task::AtomicWaker]. Their operations are classes, their
    documented behaviour classes of laws; a list and an option satisfy them. *)
From S2P Require Import Prelude.
Local Open Scope Z_scope.

(** [ArrayQueue<T>] for a [T] coded as a number. [push] gives the element back
    when the queue is full. *)
Class ArrayQueue (Q : Type) := {
  aq_new : Z → Q;
  aq_push : Q → Z → result unit Z * Q;
  aq_pop : Q → option Z * Q;
  aq_is_empty : Q → bool;
}.

(** A bounded FIFO queue: [aq_items] are its elements, oldest first. *)
Class ArrayQueueLaws (Q : Type) `{ArrayQueue Q} := {
  aq_items : Q → list Z;
  aq_cap : Q → Z;
  aq_new_items n : 0 < n → aq_items (aq_new n) = [] ∧ aq_cap (aq_new n) = n;
  aq_push_ok q x : Z.of_nat (length (aq_items q)) < aq_cap q →
    ∃ q', aq_push q x = (Ok tt, q') ∧ aq_items q' = aq_items q ++ [x] ∧ aq_cap q' = aq_cap q;
  aq_push_full q x : aq_cap q ≤ Z.of_nat (length (aq_items q)) → aq_push q x = (Err x, q);
  aq_pop_empty q : aq_items q = [] → aq_pop q = (None, q);
  aq_pop_cons q x xs : aq_items q = x :: xs →
    ∃ q', aq_pop q = (Some x, q') ∧ aq_items q' = xs ∧ aq_cap q' = aq_cap q;
  aq_is_empty_spec q : aq_is_empty q = bool_decide (aq_items q = []);
}.

(** What [push] does, by cases. *)
Lemma aq_push_cases `{ArrayQueueLaws Q} q x r q' :
  aq_push q x = (r, q') → aq_cap q' = aq_cap q ∧
    ((r = Ok tt ∧ aq_items q' = aq_items q ++ [x] ∧ Z.of_nat (length (aq_items q)) < aq_cap q)
     ∨ (r = Err x ∧ q' = q ∧ aq_cap q ≤ Z.of_nat (length (aq_items q)))).
Proof.
  intros Hp. destruct (decide (Z.of_nat (length (aq_items q)) < aq_cap q)) as [Hlt|Hge].
  - destruct (aq_push_ok q x Hlt) as (q1 & Hq1 & Hi & Hc). rewrite Hp in Hq1. simplify_eq. auto.
  - rewrite aq_push_full in Hp by lia. simplify_eq. auto with lia.
Qed.

Lemma aq_pop_cases `{ArrayQueueLaws Q} q o q' :
  aq_pop q = (o, q') → aq_cap q' = aq_cap q ∧
    match o with
    | None => aq_items q = [] ∧ q' = q
    | Some x => aq_items q = x :: aq_items q'
    end.
Proof.
  intros Hp. destruct (aq_items q) as [|x xs] eqn:Hq.
  - rewrite aq_pop_empty in Hp by done. by simplify_eq.
  - destruct (aq_pop_cons q x xs Hq) as (q1 & Hq1 & Hi & Hc). rewrite Hp in Hq1.
    injection Hq1 as -> ->. by rewrite Hi.
Qed.

(** [AtomicWaker], for wakers coded as numbers: [wake] and [take] return the
    waker that was registered and leave none. *)
Class AtomicWaker (A : Type) := {
  aw_new : A;
  aw_register : A → Z → A;
  aw_take : A → option Z * A;
}.

Class AtomicWakerLaws (A : Type) `{AtomicWaker A} := {
  aw_waker : A → option Z;
  aw_new_none : aw_waker aw_new = None;
  aw_register_some a w : aw_waker (aw_register a w) = Some w;
  aw_take_law a : (aw_take a).1 = aw_waker a ∧ aw_waker (aw_take a).2 = None;
}.

(** * Instances *)
Record ListQueue := mkListQueue { lq_cap : Z; lq_items : list Z }.

#[global] Instance ListQueue_queue : ArrayQueue ListQueue := {
  aq_new n := mkListQueue n [];
  aq_push q x :=
    if decide (Z.of_nat (length (lq_items q)) < lq_cap q)
    then (Ok tt, mkListQueue (lq_cap q) (lq_items q ++ [x])) else (Err x, q);
  aq_pop q :=
    match lq_items q with
    | [] => (None, q)
    | x :: xs => (Some x, mkListQueue (lq_cap q) xs)
    end;
  aq_is_empty q := match lq_items q with [] => true | _ => false end;
}.

#[global, program] Instance ListQueue_laws : ArrayQueueLaws ListQueue := {
  aq_items := lq_items;
  aq_cap := lq_cap;
}.
Next Obligation. done. Qed.
Next Obligation. intros q x Hlt. simpl. rewrite decide_True by done. eauto. Qed.
Next Obligation. intros q x Hle. simpl. by rewrite decide_False by lia. Qed.
Next Obligation. intros q Hq. simpl. by rewrite Hq. Qed.
Next Obligation. intros q x xs Hq. simpl. rewrite Hq. eauto. Qed.
Next Obligation. intros [n [|x xs]]; done. Qed.

#[global] Instance option_waker : AtomicWaker (option Z) := {
  aw_new := None;
  aw_register _ w := Some w;
  aw_take a := (a, None);
}.

#[global, program] Instance option_waker_laws : AtomicWakerLaws (option Z) := {
  aw_waker := id;
}.
Next Obligation. done. Qed.
Next Obligation. done. Qed.
Next Obligation. done. Qed.
