(* ===== verification/Keyboard.v ===== *)
(** The keyboard queue of src/src/task/keyboard.rs: the interrupt handler's
    [add_scancode], [ScancodeStream] and its [poll_next], as functions with room
    for interrupts between their accesses, and as a step relation in which
    interrupts interleave with the atomic steps of the task. *)
From stdpp Require Import relations.
From S2P Require Import Prelude Queue.
Local Open Scope Z_scope.

Section keyboard.
Context {Q A : Type} `{ArrayQueueLaws Q, AtomicWakerLaws A}.

(** The two statics, and the wakers called so far, which is how the executor
    learns of them. *)
Record kbd := mkKbd {
  SCANCODE_QUEUE : option Q;
  SCANCODE_WAKER : A;
  woken : list Z;
}.

(** [SCANCODE_WAKER.wake()] *)
Definition wake (k : kbd) : kbd :=
  let '(w, a) := aw_take (SCANCODE_WAKER k) in
  mkKbd (SCANCODE_QUEUE k) a (woken k ++ option_list w).

(** The warnings it prints are left out. *)
Definition add_scancode (k : kbd) (scancode : Z) : kbd :=
  match SCANCODE_QUEUE k with
  | Some queue =>
      match aq_push queue scancode with
      | (Err _, queue') => mkKbd (Some queue') (SCANCODE_WAKER k) (woken k)
      | (Ok _, queue') => wake (mkKbd (Some queue') (SCANCODE_WAKER k) (woken k))
      end
  | None => k
  end.

Definition ScancodeStream_new (k : kbd) : outcome kbd :=
  match SCANCODE_QUEUE k with
  | None => Ret (mkKbd (Some (aq_new 100)) (SCANCODE_WAKER k) (woken k))
  | Some _ => Panic PUnwrap
  end.

Definition try_get (k : kbd) : outcome Q := unwrap (SCANCODE_QUEUE k).

(** [queue.pop()] on the static. *)
Definition pop_queue (k : kbd) : outcome (option Z * kbd) :=
  queue ← try_get k;
  let '(o, queue') := aq_pop queue in
  Ret (o, mkKbd (Some queue') (SCANCODE_WAKER k) (woken k)).

Definition register (k : kbd) (waker : Z) : kbd :=
  mkKbd (SCANCODE_QUEUE k) (aw_register (SCANCODE_WAKER k) waker) (woken k).

Definition take_waker (k : kbd) : kbd :=
  mkKbd (SCANCODE_QUEUE k) (aw_take (SCANCODE_WAKER k)).2 (woken k).

(** [poll_next]: [Some c] is [Ready(Some(c))], [None] is [Pending]. The statics
    are part of a larger state, read by [view] and written by [put]; [point] is
    what interrupts do to that state between two accesses. *)
Definition poll_next {S : Type} (view : S → kbd) (put : kbd → S → S) (point : S → S)
    (cx_waker : Z) (s : S) : outcome (option Z * S) :=
  let s := point s in
  '(o, k) ← pop_queue (view s);
  let s := put k s in
  match o with
  | Some scancode => Ret (Some scancode, s)
  | None =>
      let s := point s in
      let s := put (register (view s) cx_waker) s in
      let s := point s in
      '(o, k) ← pop_queue (view s);
      let s := put k s in
      match o with
      | Some scancode =>
          let s := point s in
          Ret (Some scancode, put (take_waker (view s)) s)
      | None => Ret (None, s)
      end
  end.

(** * Interleaving with interrupts

    Each step below is atomic on the one processor of the machine; between any
    two of them the keyboard interrupt may run [add_scancode] to its end. *)
Inductive pc :=
  | Running             (** the task runs, outside [poll_next] *)
  | FastPop             (** before the first [pop] *)
  | Registering         (** before [register] *)
  | SecondPop           (** before the second [pop] *)
  | Taking (c : Z)      (** before [take], with [c] popped *)
  | Parked.             (** [Pending] returned *)

(** The machine with the history a property needs: scancodes the handler put
    into the queue, scancodes the stream returned. *)
Record machine := mkMachine {
  m_kbd : kbd;
  m_pc : pc;
  accepted : list Z;
  delivered : list Z;
}.

(** A scancode [add_scancode] does not drop. *)
Definition accepts (k : kbd) (c : Z) : bool :=
  match SCANCODE_QUEUE k with Some q => is_ok (aq_push q c).1 | None => false end.

Definition irq (m : machine) (c : Z) : machine :=
  mkMachine (add_scancode (m_kbd m) c) (m_pc m)
    (accepted m ++ if accepts (m_kbd m) c then [c] else []) (delivered m).

(** One step of the task [me]. *)
Definition task_step (me : Z) (m : machine) : outcome machine :=
  let goto k p := mkMachine k p (accepted m) (delivered m) in
  let return_ k c := mkMachine k Running (accepted m) (delivered m ++ [c]) in
  match m_pc m with
  | Running | Parked => Ret (goto (m_kbd m) FastPop)
  | FastPop =>
      '(o, k) ← pop_queue (m_kbd m);
      match o with Some c => Ret (return_ k c) | None => Ret (goto k Registering) end
  | Registering => Ret (goto (register (m_kbd m) me) SecondPop)
  | SecondPop =>
      '(o, k) ← pop_queue (m_kbd m);
      match o with Some c => Ret (goto k (Taking c)) | None => Ret (goto k Parked) end
  | Taking c => Ret (return_ (take_waker (m_kbd m)) c)
  end.

(** The executor polls a parked task again only once it was woken, and forgets
    that wake-up; see the executor for the order. *)
Inductive step (me : Z) : machine → machine → Prop :=
  | step_irq m c : step me m (irq m c)
  | step_task m m' : m_pc m ≠ Parked → task_step me m = Ret m' → step me m m'
  | step_resume m m' ws :
      m_pc m = Parked → woken (m_kbd m) = me :: ws →
      task_step me (mkMachine (mkKbd (SCANCODE_QUEUE (m_kbd m)) (SCANCODE_WAKER (m_kbd m)) ws)
                      Parked (accepted m) (delivered m)) = Ret m' →
      step me m m'.

(** The state in which the stream exists and nothing happened yet. *)
Definition start : machine :=
  mkMachine (mkKbd (Some (aq_new 100)) aw_new []) Running [] [].
End keyboard.
#[global] Arguments kbd : clear implicits.
#[global] Arguments machine : clear implicits.

#[global] Instance pc_eq_dec : EqDecision pc.
Proof. solve_decision. Defined.

Section keyboard_facts.
Context {Q A : Type} `{ArrayQueueLaws Q, AtomicWakerLaws A}.
Implicit Types (k : kbd Q A) (m : machine Q A).

(** The scancodes waiting in the queue. *)
Definition items k : list Z :=
  match SCANCODE_QUEUE k with Some q => aq_items q | None => [] end.

(** The popped scancode the task holds. *)
Definition held (p : pc) : list Z := match p with Taking c => [c] | _ => [] end.

(** [me] is about to be woken: its waker is registered, or was called. *)
Definition covered (me : Z) k : Prop := aw_waker (SCANCODE_WAKER k) = Some me ∨ me ∈ woken k.

Record inv (me : Z) m : Prop := {
  inv_queue : ∃ q, SCANCODE_QUEUE (m_kbd m) = Some q ∧ 0 < aq_cap q;
  inv_waker : aw_waker (SCANCODE_WAKER (m_kbd m)) = None
              ∨ aw_waker (SCANCODE_WAKER (m_kbd m)) = Some me;
  inv_woken : Forall (eq me) (woken (m_kbd m));
  inv_fifo : accepted m = delivered m ++ held (m_pc m) ++ items (m_kbd m);
  inv_second : m_pc m = SecondPop → covered me (m_kbd m);
  inv_parked : m_pc m = Parked →
    me ∈ woken (m_kbd m)
    ∨ (items (m_kbd m) = [] ∧ aw_waker (SCANCODE_WAKER (m_kbd m)) = Some me);
}.

(** [add_scancode], by cases: dropped, or queued with the waker called. *)
Lemma add_scancode_cases k c q :
  SCANCODE_QUEUE k = Some q →
  (accepts k c = false ∧ add_scancode k c = k ∧ aq_cap q ≤ Z.of_nat (length (aq_items q))) ∨
  (accepts k c = true ∧ ∃ q', SCANCODE_QUEUE (add_scancode k c) = Some q'
     ∧ aq_cap q' = aq_cap q ∧ items (add_scancode k c) = items k ++ [c]
     ∧ aw_waker (SCANCODE_WAKER (add_scancode k c)) = None
     ∧ woken (add_scancode k c) = woken k ++ option_list (aw_waker (SCANCODE_WAKER k))).
Proof.
  intros Hq. unfold accepts, add_scancode, items. rewrite Hq.
  destruct (aq_push q c) as [r q'] eqn:Hp. pose proof (aq_push_cases _ _ _ _ Hp) as [Hcap Hr].
  destruct Hr as [(-> & Hi & _)|(-> & -> & Hfull)]; simpl.
  - right. split; [done|]. unfold wake. simpl. destruct (aw_take_law (SCANCODE_WAKER k)) as [Ht1 Ht2].
    destruct (aw_take (SCANCODE_WAKER k)) as [w a]. simpl in *. subst w.
    exists q'. by split_and!.
  - left. split; [done|]. split; [|done]. destruct k. simpl in *. by subst.
Qed.

Lemma pop_queue_cases k q :
  SCANCODE_QUEUE k = Some q →
  ∃ o q', pop_queue k = Ret (o, mkKbd (Some q') (SCANCODE_WAKER k) (woken k))
    ∧ aq_cap q' = aq_cap q
    ∧ match o with None => aq_items q = [] ∧ q' = q | Some x => aq_items q = x :: aq_items q' end.
Proof.
  intros Hq. unfold pop_queue, try_get. rewrite Hq. simpl.
  destruct (aq_pop q) as [o q'] eqn:Hp. apply aq_pop_cases in Hp as [? ?]. by exists o, q'.
Qed.

Lemma irq_inv me m c : inv me m → inv me (irq m c).
Proof.
  intros [(q & Hq & Hcap) Hw Hwk Hf Hs Hp].
  destruct (add_scancode_cases (m_kbd m) c q Hq)
    as [(Ha & Hk & Hfull)|(Ha & q' & Hq' & Hcap' & Hi & Hw' & Hwo)];
    unfold irq; rewrite Ha; split; simpl; rewrite ?Hk; try done.
  - by exists q.
  - by rewrite app_nil_r.
  - exists q'. split; [done|lia].
  - by left.
  - rewrite Hwo. apply Forall_app. split; [done|].
    destruct Hw as [-> | ->]; simpl; by repeat constructor.
  - by rewrite Hf, Hi, !app_assoc.
  - intros Hpc. right. rewrite Hwo. apply elem_of_app.
    destruct (Hs Hpc) as [-> |?]; [right; set_solver|by left].
  - intros Hpc. left. rewrite Hwo. apply elem_of_app.
    destruct (Hp Hpc) as [?|[_ ->]]; [by left|right; set_solver].
Qed.

Lemma task_step_inv me m :
  inv me m → m_pc m ≠ Parked → ∃ m', task_step me m = Ret m' ∧ inv me m'.
Proof.
  intros [(q & Hq & Hcap) Hw Hwk Hf Hs Hp] Hpc.
  destruct (pop_queue_cases (m_kbd m) q Hq) as (o & q' & Hpop & Hc' & Ho).
  assert (items (m_kbd m) = aq_items q) as Hit by (unfold items; by rewrite Hq).
  rewrite Hit in *. destruct (aw_take_law (SCANCODE_WAKER (m_kbd m))) as [_ Htake].
  unfold task_step. destruct (m_pc m) as [| | | |c|] eqn:Hm; simpl in *; try done.
  - eexists. split; [done|]. split; simpl; try done; first [by exists q|by rewrite Hit].
  - rewrite Hpop. cbn [mbind outcome_bind]. destruct o as [x|].
    + eexists. split; [done|]. split; simpl; try done; [exists q'; split; [done|lia]|].
      by rewrite Hf, Ho, <- app_assoc.
    + destruct Ho as [Ho ->]. eexists. split; [done|]. split; simpl; try done; first [by exists q|by rewrite Hf].
  - eexists. split; [done|]. split; simpl; try done.
    + by exists q.
    + right. apply aw_register_some.
    + unfold items. simpl. by rewrite Hq.
    + intros _. left. apply aw_register_some.
  - rewrite Hpop. cbn [mbind outcome_bind]. destruct o as [x|].
    + eexists. split; [done|]. split; simpl; try done; [exists q'; split; [done|lia]|].
      by rewrite Hf, Ho.
    + destruct Ho as [Ho ->]. eexists. split; [done|]. split; simpl; try done; [by exists q|].
      intros _. destruct (Hs eq_refl); [right; by split|by left].
  - eexists. split; [done|]. split; simpl; try done.
    + by exists q.
    + by left.
    + unfold items. simpl. rewrite Hq, Hf. by rewrite <- app_assoc.
Qed.

Lemma step_inv me m m' : step me m m' → inv me m → inv me m'.
Proof.
  intros [m0 c|m0 m1 Hpc Hrun|m0 m1 ws Hpc Hws Hrun] Hinv.
  - by apply irq_inv.
  - destruct (task_step_inv me m0 Hinv Hpc) as (m2 & Hrun' & Hinv'). congruence.
  - unfold task_step in Hrun. simpl in Hrun. injection Hrun as <-.
    destruct Hinv as [Hq Hw Hwk Hf Hs Hp]. rewrite Hws in Hwk. rewrite Hpc in Hf.
    split; simpl; try done. by apply Forall_cons in Hwk as [_ ?].
Qed.

Lemma start_inv me : inv me start.
Proof.
  destruct (aq_new_items (Q := Q) 100) as [Hi Hc]; [lia|].
  split; simpl; try done.
  - exists (aq_new 100). split; [done|lia].
  - left. apply aw_new_none.
Qed.

Lemma reachable_inv me m : rtc (step me) start m → inv me m.
Proof.
  intros Hr. pattern m. eapply rtc_ind_r; [apply start_inv| |exact Hr].
  intros m1 m2 _ Hstep Hinv. by eapply step_inv.
Qed.

(** ** [poll_next] as a path of steps

    The state of a poll among interrupts: the machine, and the scancodes that
    arrive at each of the next points. *)
Definition scheduled : Type := machine Q A * list (list Z).

Definition irqs (s : scheduled) : scheduled :=
  match s.2 with
  | [] => s
  | cs :: due => (foldl irq s.1 cs, due)
  end.

Definition with_kbd k (s : scheduled) : scheduled :=
  (mkMachine k (m_pc s.1) (accepted s.1) (delivered s.1), s.2).

(** The machine at another step of the task. *)
Definition at_pc (p : pc) m : machine Q A := mkMachine (m_kbd m) p (accepted m) (delivered m).

Lemma foldl_irq_steps me p m cs : rtc (step me) (at_pc p m) (at_pc p (foldl irq m cs)).
Proof.
  revert m. induction cs as [|c cs IH]; intros m; [apply rtc_refl|].
  eapply rtc_l; [apply step_irq|apply (IH (irq m c))].
Qed.

Lemma irqs_steps me p s : rtc (step me) (at_pc p s.1) (at_pc p (irqs s).1).
Proof. unfold irqs. destruct s as [m [|cs due]]; [apply rtc_refl|apply foldl_irq_steps]. Qed.

Lemma task_steps me p m m' : p ≠ Parked → task_step me (at_pc p m) = Ret m' → rtc (step me) (at_pc p m) m'.
Proof. intros Hp Hs. apply rtc_once. by apply step_task. Qed.

(** A run of [poll_next], with interrupts at every point, takes the machine from
    the first look into the queue to the task running with the scancode, or to the
    task parked. *)
Lemma poll_next_steps me (s s' : scheduled) o :
  poll_next (m_kbd ∘ fst) with_kbd irqs me s = Ret (o, s') →
  rtc (step me) (at_pc FastPop s.1)
    (match o with
     | Some c => mkMachine (m_kbd s'.1) Running (accepted s'.1) (delivered s'.1 ++ [c])
     | None => at_pc Parked s'.1
     end).
Proof.
  unfold poll_next. intros Hrun. etrans; [apply (irqs_steps me FastPop s)|].
  set (s1 := irqs s) in *. simpl in Hrun.
  destruct (pop_queue (m_kbd s1.1)) as [[o1 k1]|] eqn:Hp1; [|done]. cbn [mbind outcome_bind] in Hrun.
  destruct o1 as [c|].
  { injection Hrun as <- <-. apply task_steps; [done|]. unfold task_step. simpl. by rewrite Hp1. }
  etrans. { apply task_steps; [done|]. unfold task_step. simpl. by rewrite Hp1. }
  etrans; [apply (irqs_steps me Registering (with_kbd k1 s1))|]. set (s2 := irqs (with_kbd k1 s1)) in *.
  etrans; [by apply task_steps|]. set (s3 := with_kbd (register (m_kbd s2.1) me) s2) in *.
  etrans; [apply (irqs_steps me SecondPop s3)|]. set (s4 := irqs s3) in *. simpl in Hrun.
  destruct (pop_queue (m_kbd s4.1)) as [[o2 k2]|] eqn:Hp2; [|done]. cbn [mbind outcome_bind] in Hrun.
  destruct o2 as [c|]; injection Hrun as <- <-.
  2: { apply task_steps; [done|]. unfold task_step. simpl. by rewrite Hp2. }
  etrans. { apply task_steps; [done|]. unfold task_step. simpl. by rewrite Hp2. }
  etrans; [apply (irqs_steps me (Taking c) (with_kbd k2 s4))|]. by apply task_steps.
Qed.
End keyboard_facts.

(** C7: no wake-up is lost. In every state reachable by interleaving keyboard
    interrupts with the atomic steps of [poll_next], if the task is parked
    ([Pending] was returned) while a scancode waits in the queue, then its
    waker has been called: the executor can poll it again. This is why
    [poll_next] registers the waker before it looks into the queue a second
    time. *)
Theorem no_lost_wakeup (Q A : Type) (HQ : ArrayQueue Q) (HQL : ArrayQueueLaws Q)
    (HA : AtomicWaker A) (HAL : AtomicWakerLaws A) (me : Z) (m : machine Q A)
    (Hreach : rtc (step me) start m) (Hpark : m_pc m = Parked) (Hitems : items (m_kbd m) ≠ []) :
  ∃ ws m', woken (m_kbd m) = me :: ws ∧ step me m m' ∧ m_pc m' = FastPop.
Proof.
  apply reachable_inv in Hreach. destruct Hreach as [_ _ Hwk _ _ Hp].
  destruct (Hp Hpark) as [Hin|[? _]]; [|done].
  destruct (woken (m_kbd m)) as [|w ws] eqn:Hw; [set_solver|].
  apply Forall_cons in Hwk as [<- _]. exists ws. eexists. split; [done|]. split.
  - by apply (step_resume me m _ ws Hpark Hw).
  - done.
Qed.

(** The task parks on the empty queue, then a scancode arrives. *)
Definition demo_trace (m : machine ListQueue (option Z)) : machine ListQueue (option Z) :=
  let run m := match task_step 7 m with Ret m' => m' | Panic _ => m end in
  irq (run (run (run (run m)))) 42.

Lemma no_lost_wakeup_witness :
  ∃ ws m', woken (m_kbd (demo_trace start)) = 7 :: ws
    ∧ step 7 (demo_trace start) m' ∧ m_pc m' = FastPop.
Proof.
  apply (no_lost_wakeup ListQueue (option Z) _ _ _ _ 7 (demo_trace start)).
  - unfold demo_trace. eapply rtc_r; [|apply step_irq].
    do 4 (eapply rtc_l; [apply step_task; [|reflexivity]; simpl; discriminate|]).
    apply rtc_refl.
  - vm_compute. reflexivity.
  - vm_compute. discriminate.
Defined.

(** C26: scancodes are delivered in order, each exactly once. In every reachable
    state the scancodes accepted by the handler are those already returned by
    the stream, then the one the task is about to return, then those waiting
    in the queue; and the task's next step never panics. *)
Theorem scancodes_in_order (Q A : Type) (HQ : ArrayQueue Q) (HQL : ArrayQueueLaws Q)
    (HA : AtomicWaker A) (HAL : AtomicWakerLaws A) (me : Z) (m : machine Q A)
    (Hreach : rtc (step me) start m) :
  accepted m = delivered m ++ held (m_pc m) ++ items (m_kbd m)
  ∧ ∃ m', task_step me m = Ret m'.
Proof.
  apply reachable_inv in Hreach. split; [apply Hreach|].
  destruct (decide (m_pc m = Parked)) as [Hp|Hp].
  - unfold task_step. rewrite Hp. eauto.
  - destruct (task_step_inv me m Hreach Hp) as (m' & Hr & _). eauto.
Qed.

Lemma scancodes_in_order_witness :
  rtc (step 7) start (demo_trace start) ∧ accepted (demo_trace start) = [42]
  ∧ items (m_kbd (demo_trace start)) = [42] ∧ ∃ m', task_step 7 (demo_trace start) = Ret m'.
Proof.
  assert (rtc (step 7) start (demo_trace start)) as Hreach.
  { unfold demo_trace. eapply rtc_r; [|apply step_irq].
    do 4 (eapply rtc_l; [apply step_task; [|reflexivity]; simpl; discriminate|]).
    apply rtc_refl. }
  destruct (scancodes_in_order ListQueue (option Z) _ _ _ _ 7 (demo_trace start) Hreach)
    as [Hf Hstep].
  split; [exact Hreach|]. split; [reflexivity|]. split; [reflexivity|exact Hstep].
Defined.
