(* ===== verification/Executor.v ===== *)
(** Tasks and the two executors: src/src/task/mod.rs, simple_executor.rs and
    executor.rs. A future is whatever has a [poll]; polling may change the
    world it shares with the rest of the kernel and may call wakers, its own
    or others, as may interrupts that arrive meanwhile. *)
From S2P Require Import Prelude Queue.
Local Open Scope Z_scope.

Inductive Poll := Ready | Pending.

#[global] Instance Poll_eq_dec : EqDecision Poll.
Proof. solve_decision. Defined.

(** [dyn Future<Output = ()>]: [poll f waker w] gives the result, the future
    after the poll, the world after it, and the wakers called meanwhile, unless
    the future's code panics. A waker is the task it wakes. *)
Class Future (F W : Type) := poll : F → Z → W → outcome (Poll * F * W * list Z).

Record Task (F : Type) := mkTask { id : Z; future : F }.
Arguments mkTask {F} _ _.
Arguments id {F} _.
Arguments future {F} _.

(** [TaskId::new]: [NEXT_ID.fetch_add(1)], which wraps around. *)
Definition TaskId_new (NEXT_ID : Z) : Z * Z := (NEXT_ID, (NEXT_ID + 1) mod 2 ^ 64).

Definition Task_new {F} (NEXT_ID : Z) (f : F) : Task F * Z :=
  let '(i, n) := TaskId_new NEXT_ID in (mkTask i f, n).

Section tasks.
Context {F W : Type} `{Future F W}.

(** [Task::poll]. *)
Definition Task_poll (task : Task F) (context : Z) (w : W) : outcome (Poll * Task F * W * list Z) :=
  '(r, f, w, wakes) ← poll (future task) context w;
  Ret (r, mkTask (id task) f, w, wakes).

(** * [SimpleExecutor] *)

(** The dummy waker: nobody reads what it wakes. *)
Definition dummy_waker : Z := 0.

Definition SimpleExecutor_new : list (Task F) := [].

Definition simple_spawn (task_queue : list (Task F)) (task : Task F) : list (Task F) :=
  task_queue ++ [task].

(** One iteration of the loop of [run]: the poll it made, the queue and the world
    after it; [None] when the queue is empty. *)
Definition simple_step (s : list (Task F) * W) : outcome (option (Z * Poll * (list (Task F) * W))) :=
  match s.1 with
  | [] => Ret None
  | task :: task_queue =>
      '(r, task, w, _) ← Task_poll task dummy_waker s.2;
      match r with
      | Ready => Ret (Some (id task, r, (task_queue, w)))
      | Pending => Ret (Some (id task, r, (task_queue ++ [task], w)))
      end
  end.

(** [run]: the polls it made, with their results, and the world it ends in, or
    [None] if the fuel runs out first. *)
Fixpoint simple_run (fuel : nat) (s : list (Task F) * W) : outcome (option (list (Z * Poll) * W)) :=
  match fuel with
  | O => Ret None
  | S fuel =>
      o ← simple_step s;
      match o with
      | None => Ret (Some ([], s.2))
      | Some (p, s') =>
          o ← simple_run fuel s';
          Ret ('(polls, w) ← o; Some (p :: polls, w))
      end
  end.

(** ** Rounds: every task once, in order *)
Fixpoint simple_round (task_queue : list (Task F)) (w : W) : outcome (list (Task F) * W) :=
  match task_queue with
  | [] => Ret ([], w)
  | task :: task_queue =>
      '(r, task, w, _) ← Task_poll task dummy_waker w;
      '(rest, w) ← simple_round task_queue w;
      Ret (match r with Ready => rest | Pending => task :: rest end, w)
  end.

Fixpoint simple_steps (n : nat) (s : list (Task F) * W) : outcome (option (list (Task F) * W)) :=
  match n with
  | O => Ret (Some s)
  | S n =>
      o ← simple_step s;
      match o with None => Ret None | Some (_, s') => simple_steps n s' end
  end.

(** As many iterations as there are tasks make a round; tasks that wait behind
    them are not touched. *)
Lemma simple_steps_round q q' w :
  simple_steps (length q) (q ++ q', w) =
    ('(rest, w') ← simple_round q w; Ret (Some (q' ++ rest, w'))).
Proof.
  revert q' w. induction q as [|task q IH]; intros q' w; simpl; [by rewrite app_nil_r|].
  unfold simple_step. simpl.
  destruct (Task_poll task dummy_waker w) as [[[[r task'] w'] wakes]|]; [|done]. simpl.
  pose proof (IH (match r with Ready => q' | Pending => q' ++ [task'] end) w') as IH'.
  destruct r; simpl; rewrite <- ?app_assoc, IH'; destruct (simple_round q w') as [[rest w2]|]; simpl;
    by rewrite <- ?app_assoc.
Qed.

(** ** Termination *)

(** [Inv] holds of the queue and the world before every poll of a run; then the
    poll of the first task does not panic, [left_] bounds how many polls that task
    still needs, and [Inv] holds again. *)
Definition finite_tasks (Inv : list (Task F) → W → Prop) (left_ : F → nat) : Prop :=
  ∀ task q w, Inv (task :: q) w →
    ∃ r f w' ws, poll (future task) dummy_waker w = Ret (r, f, w', ws)
    ∧ match r with
      | Ready => Inv q w'
      | Pending => (left_ f < left_ (future task))%nat ∧ Inv (q ++ [mkTask (id task) f]) w'
      end.

Definition work (left_ : F → nat) (q : list (Task F)) : nat :=
  foldr (λ task n, S (left_ (future task)) + n)%nat O q.

Lemma work_app left_ q1 q2 : work left_ (q1 ++ q2) = (work left_ q1 + work left_ q2)%nat.
Proof. induction q1; simpl; lia. Qed.

(** The tasks that some poll found ready. *)
Definition finished (polls : list (Z * Poll)) : list Z :=
  polls ≫= λ p, match p.2 with Ready => [p.1] | Pending => [] end.

Lemma simple_run_finishes Inv left_ fuel q w :
  finite_tasks Inv left_ → Inv q w → (work left_ q < fuel)%nat →
  ∃ polls w', simple_run fuel (q, w) = Ret (Some (polls, w')) ∧ Inv [] w'
    ∧ finished polls ≡ₚ id <$> q ∧ (length polls ≤ work left_ q)%nat.
Proof.
  intros Hfin. revert q w. induction fuel as [|fuel IH]; intros q w Hinv Hf; [lia|].
  destruct q as [|task q]; [by exists [], w|]. cbn [simple_run]. unfold simple_step, Task_poll. simpl.
  destruct (Hfin task q w Hinv) as (r & f & w' & ws & -> & Hr). simpl in *. destruct r; simpl.
  - destruct (IH q w' Hr) as (polls & w2 & -> & Hinv2 & Hp & Hl); [lia|]. simpl.
    exists ((id task, Ready) :: polls), w2. split_and!; [done|done|by apply Permutation_cons|simpl; lia].
  - destruct Hr as [Hlt Hinv']. destruct (IH _ _ Hinv') as (polls & w2 & -> & Hinv2 & Hp & Hl).
    { rewrite work_app. simpl. lia. }
    rewrite work_app in Hl. rewrite fmap_app in Hp. simpl in *.
    exists ((id task, Pending) :: polls), w2. split_and!; [done|done| |simpl; lia].
    change (finished ((id task, Pending) :: polls)) with (finished polls).
    rewrite Hp. symmetry. apply Permutation_cons_append.
Qed.
End tasks.

(** * [Executor] *)
Section executor.
Context {F W Q : Type} `{Future F W} `{ArrayQueue Q}.

(** A cached waker is coded as the task it wakes, as in [TaskWaker]. *)
Record Executor := mkExecutor {
  tasks : gmap Z (Task F);
  task_queue : Q;
  waker_cache : gmap Z Z;
}.

Definition Executor_new : Executor := mkExecutor ∅ (aq_new 100) ∅.

(** [self.task_queue.push(id).expect(..)] *)
Definition push_expect (q : Q) (i : Z) : outcome Q :=
  let '(r, q') := aq_push q i in
  _ ← expect r;
  Ret q'.

Definition spawn (e : Executor) (task : Task F) : outcome Executor :=
  let task_id := id task in
  let old := tasks e !! id task in
  let tasks' := <[id task := task]> (tasks e) in
  match old with
  | Some _ => Panic PExplicit
  | None =>
      q ← push_expect (task_queue e) task_id;
      Ret (mkExecutor tasks' q (waker_cache e))
  end.

(** [TaskWaker::wake_task], which [wake] and [wake_by_ref] call. *)
Definition wake_task (q : Q) (task_id : Z) : outcome Q := push_expect q task_id.

Definition wake_all (q : Q) (ws : list Z) : outcome Q := for_each ws (λ i q, wake_task q i) q.

(** What an iteration of the loop of [run_ready_tasks] did. *)
Inductive event :=
  | Polled (i : Z) (r : Poll)
  | Stale (i : Z)      (** the task was gone: [continue] *)
  | Idle.              (** the queue was empty: the loop ends *)

Definition run_one (e : Executor) (w : W) : outcome (event * Executor * W) :=
  let '(o, q) := aq_pop (task_queue e) in
  match o with
  | None => Ret (Idle, mkExecutor (tasks e) q (waker_cache e), w)
  | Some task_id =>
      match tasks e !! task_id with
      | None => Ret (Stale task_id, mkExecutor (tasks e) q (waker_cache e), w)
      | Some task =>
          let waker := default task_id (waker_cache e !! task_id) in
          let cache := <[task_id := waker]> (waker_cache e) in
          '(r, task, w, wakes) ← Task_poll task waker w;
          q ← wake_all q wakes;
          match r with
          | Ready =>
              Ret (Polled task_id r,
                   mkExecutor (delete task_id (tasks e)) q (delete task_id cache), w)
          | Pending =>
              Ret (Polled task_id r, mkExecutor (<[task_id := task]> (tasks e)) q cache, w)
          end
      end
  end.

(** [run_ready_tasks]: the loop until the queue is empty; [fuel] bounds the
    iterations, and the result says whether it ended. *)
Fixpoint run_ready_tasks (fuel : nat) (e : Executor) (w : W) : outcome (bool * Executor * W) :=
  match fuel with
  | O => Ret (false, e, w)
  | S fuel =>
      '(ev, e, w) ← run_one e w;
      match ev with Idle => Ret (true, e, w) | _ => run_ready_tasks fuel e w end
  end.

(** The loop with interrupts: the [n]-th element of [env] is what the handlers do
    to the world before the [n]-th iteration, and which wakers they call. [run]
    goes on for ever, so an empty queue does not end it. *)
Fixpoint run_with (env : list (W → W * list Z)) (e : Executor) (w : W) :
    outcome (list event * Executor * W) :=
  match env with
  | [] => Ret ([], e, w)
  | arrive :: env =>
      let '(w, ws) := arrive w in
      q ← wake_all (task_queue e) ws;
      '(ev, e, w) ← run_one (mkExecutor (tasks e) q (waker_cache e)) w;
      '(evs, e, w) ← run_with env e w;
      Ret (ev :: evs, e, w)
  end.
End executor.
#[global] Arguments Executor : clear implicits.

Section executor_facts.
Context {F W Q : Type} `{Future F W} `{ArrayQueueLaws Q}.
Implicit Types (e : Executor F Q) (q : Q).

(** Calling wakers fills the queue, and panics beyond its capacity. *)
Lemma wake_all_spec ws q :
  (Z.of_nat (length (aq_items q) + length ws) ≤ aq_cap q →
   ∃ q', wake_all q ws = Ret q' ∧ aq_items q' = aq_items q ++ ws ∧ aq_cap q' = aq_cap q)
  ∧ (Z.of_nat (length (aq_items q)) ≤ aq_cap q →
     aq_cap q < Z.of_nat (length (aq_items q) + length ws) → wake_all q ws = Panic PUnwrap).
Proof.
  unfold wake_all. revert q. induction ws as [|i ws IH]; intros q; simpl.
  - split; [intros _; exists q; by rewrite app_nil_r|lia].
  - destruct (aq_push q i) as [r q1] eqn:Hp.
    assert (wake_task q i = match r with Ok _ => Ret q1 | Err _ => Panic PUnwrap end) as Hw.
    { unfold wake_task, push_expect. rewrite Hp. by destruct r. }
    rewrite Hw.
    pose proof (aq_push_cases _ _ _ _ Hp) as [Hcap Hr].
    destruct Hr as [(-> & Hi & Hlt)|(-> & -> & Hfull)]; simpl; [|split; [lia|intros; reflexivity]].
    destruct (IH q1) as [IH1 IH2]. rewrite Hi, Hcap, length_app in *. simpl in *. split.
    + intros Hle. destruct IH1 as (q2 & Hr & Hi2 & Hc2); [lia|]. exists q2.
      rewrite Hr, Hi2, <- app_assoc. by split_and!; [..|congruence].
    + intros _ Hlt2. apply IH2; lia.
Qed.

Lemma wake_all_items ws q q' :
  Z.of_nat (length (aq_items q)) ≤ aq_cap q → wake_all q ws = Ret q' →
  aq_items q' = aq_items q ++ ws ∧ aq_cap q' = aq_cap q
  ∧ Z.of_nat (length (aq_items q')) ≤ aq_cap q'.
Proof.
  intros Hle Hr. destruct (wake_all_spec ws q) as [Hok Hover].
  destruct (decide (Z.of_nat (length (aq_items q) + length ws) ≤ aq_cap q)) as [Hd|Hd].
  - destruct (Hok Hd) as (q1 & Hr1 & Hi & Hc). rewrite Hr in Hr1. injection Hr1 as <-.
    rewrite Hi, Hc, length_app. split_and!; [done|done|lia].
  - rewrite Hover in Hr by lia. done.
Qed.

(** Tasks are stored under their ids, a cached waker wakes the task it is
    cached for, which is alive, and the queue is within its capacity. *)
Record exec_inv e : Prop := {
  ei_ids i t : tasks e !! i = Some t → id t = i;
  ei_cache i v : waker_cache e !! i = Some v → v = i ∧ is_Some (tasks e !! i);
  ei_queue : Z.of_nat (length (aq_items (task_queue e))) ≤ aq_cap (task_queue e);
}.

(** What one iteration does to the queue and to the tasks. *)
Definition advances (ev : event) e e' : Prop :=
  match ev with
  | Idle => aq_items (task_queue e) = [] ∧ e' = e
  | Stale i => tasks e !! i = None ∧ tasks e' = tasks e
      ∧ aq_items (task_queue e) = i :: aq_items (task_queue e')
  | Polled i r => is_Some (tasks e !! i) ∧ (is_Some (tasks e' !! i) ↔ r = Pending)
      ∧ (∀ j, j ≠ i → tasks e' !! j = tasks e !! j)
      ∧ ∃ xs ws, aq_items (task_queue e) = i :: xs ∧ aq_items (task_queue e') = xs ++ ws
  end.

Lemma run_one_spec e (w : W) ev e' w' :
  exec_inv e → run_one e w = Ret (ev, e', w') →
  exec_inv e' ∧ advances ev e e' ∧ aq_cap (task_queue e') = aq_cap (task_queue e).
Proof.
  intros [Hids Hcache Hq] Hrun. unfold run_one in Hrun.
  destruct (aq_pop (task_queue e)) as [o q] eqn:Hpop. apply aq_pop_cases in Hpop as [Hcap Ho].
  destruct o as [i|].
  2: { destruct Ho as [Ho ->]. injection Hrun as <- <- <-. destruct e. by split. }
  rewrite Ho in Hq. simpl in Hq.
  destruct (tasks e !! i) as [t|] eqn:Ht.
  2: { injection Hrun as <- <- <-. split; [split; simpl; [done|done|lia]|]. by split. }
  destruct (Task_poll t _ w) as [[[[r t'] w1] ws]|] eqn:Hpoll; [|done].
  cbn [mbind outcome_bind] in Hrun.
  destruct (wake_all q ws) as [q1|] eqn:Hw; [|done]. cbn [mbind outcome_bind] in Hrun.
  apply wake_all_items in Hw as (Hi1 & Hc1 & Hle1); [|lia].
  assert (id t' = i) as Ht'.
  { unfold Task_poll in Hpoll. destruct (poll _ _ _) as [[[[? ?] ?] ?]|]; [|done]. simpl in Hpoll.
    simplify_eq. simpl. by apply Hids. }
  assert (default i (waker_cache e !! i) = i) as Hdef.
  { destruct (waker_cache e !! i) as [v|] eqn:Hv; [|done]. by destruct (Hcache _ _ Hv) as [-> _]. }
  rewrite Hdef in Hrun. destruct r; injection Hrun as <- <- <-; (split; [split; simpl|]).
  - intros j t1. rewrite lookup_delete_Some. naive_solver.
  - intros j v. rewrite lookup_delete_Some, lookup_insert_Some. intros [? [[]|[? ?]]]; [done|].
    rewrite lookup_delete_ne by done. by apply Hcache.
  - done.
  - split; [|simpl; congruence]. simpl. rewrite Ht, lookup_delete_eq. split_and!; [done| | |].
    + split; [by intros []|done].
    + intros j Hj. by rewrite lookup_delete_ne.
    + by exists (aq_items q), ws.
  - intros j t1. rewrite lookup_insert_Some. naive_solver.
  - intros j v. rewrite !lookup_insert_Some. intros [[<- <-]|[? ?]].
    + by rewrite lookup_insert_eq.
    + rewrite lookup_insert_ne by done. by apply Hcache.
  - done.
  - split; [|simpl; congruence]. simpl. rewrite Ht, lookup_insert_eq. split_and!; [done|done| |].
    + intros j Hj. by rewrite lookup_insert_ne.
    + by exists (aq_items q), ws.
Qed.

Lemma run_with_inv env e (w : W) evs e' w' :
  exec_inv e → run_with env e w = Ret (evs, e', w') → exec_inv e'.
Proof.
  revert e w evs. induction env as [|arrive env IH]; intros e w evs Hinv Hrun; simpl in Hrun.
  { by injection Hrun as <- <- <-. }
  destruct (arrive w) as [w0 ws].
  destruct (wake_all (task_queue e) ws) as [q|] eqn:Hw; [|done]. cbn [mbind outcome_bind] in Hrun.
  destruct Hinv as [Hids Hcache Hq]. apply wake_all_items in Hw as (_ & _ & Hle); [|done].
  destruct (run_one _ w0) as [[[ev e1] w1]|] eqn:Hone; [|done]. cbn [mbind outcome_bind] in Hrun.
  apply run_one_spec in Hone as (Hinv1 & _ & _); [|by split].
  destruct (run_with env e1 w1) as [[[evs1 e2] w2]|] eqn:Hrec; [|done].
  cbn [mbind outcome_bind] in Hrun. injection Hrun as <- <- <-. by eapply IH.
Qed.

(** A task in the queue is polled when its turn comes. *)
Lemma run_with_polls pre env e (w : W) evs e' w' i post :
  exec_inv e → aq_items (task_queue e) = pre ++ i :: post → is_Some (tasks e !! i) →
  (length pre < length env)%nat → run_with env e w = Ret (evs, e', w') →
  ∃ k r, (k ≤ length pre)%nat ∧ evs !! k = Some (Polled i r).
Proof.
  revert pre e w evs post. induction env as [|arrive env IH]; intros pre e w evs post Hinv Hq Hi Hlen Hrun;
    simpl in *; [lia|].
  destruct (arrive w) as [w0 ws].
  destruct (wake_all (task_queue e) ws) as [q|] eqn:Hw; [|done]. cbn [mbind outcome_bind] in Hrun.
  destruct Hinv as [Hids Hcache Hqc]. apply wake_all_items in Hw as (Hitems & _ & Hle); [|done].
  destruct (run_one _ w0) as [[[ev e1] w1]|] eqn:Hone; [|done]. cbn [mbind outcome_bind] in Hrun.
  apply run_one_spec in Hone as (Hinv1 & Hadv & _); [|by split].
  destruct (run_with env e1 w1) as [[[evs1 e2] w2]|] eqn:Hrec; [|done].
  cbn [mbind outcome_bind] in Hrun. injection Hrun as <- <- <-.
  rewrite Hq in Hitems. destruct ev as [j r|j|]; simpl in Hadv.
  - destruct Hadv as (_ & _ & Hoth & xs & ws' & Hpop & Hxs). rewrite Hitems in Hpop.
    destruct pre as [|h pre]; injection Hpop as -> Hpop; [exists O, r; by split; [lia|]|].
    destruct (decide (i = j)) as [<-|Hne]; [exists O, r; by split; [lia|]|].
    destruct (IH pre e1 w1 evs1 (post ++ ws ++ ws')) as (k & r' & Hk & Hev); try done.
    + rewrite Hxs, <- Hpop. by rewrite <- !app_assoc.
    + by rewrite Hoth.
    + simpl in Hlen. lia.
    + exists (S k), r'. split; [simpl; lia|done].
  - destruct Hadv as (Hnone & Htasks & Hpop). rewrite Hitems in Hpop.
    destruct pre as [|h pre]; injection Hpop as -> Hpop.
    { rewrite Hnone in Hi. by destruct Hi. }
    destruct (IH pre e1 w1 evs1 (post ++ ws)) as (k & r' & Hk & Hev); try done.
    + rewrite <- Hpop. by rewrite <- app_assoc.
    + by rewrite Htasks.
    + simpl in Hlen. lia.
    + exists (S k), r'. split; [simpl; lia|done].
  - destruct Hadv as [Hnil _]. rewrite Hitems in Hnil. by destruct pre.
Qed.

(** ** Totality

    [Inv] relates the tasks that are alive to the world they share. *)
Definition task_inv : Type := gmap Z (Task F) → W → Prop.

(** Polling a live task, under [Inv], does not panic, calls at most [b] wakers,
    and keeps [Inv] for the tasks that are alive afterwards. Nothing is asked of
    futures that are finished, which a poll may make panic. *)
Definition polls_fine (b : nat) (Inv : task_inv) : Prop :=
  ∀ ts w i t, Inv ts w → ts !! i = Some t →
    ∃ r f w' ws, poll (future t) i w = Ret (r, f, w', ws) ∧ (length ws ≤ b)%nat
    ∧ Inv (match r with Ready => delete i ts | Pending => <[i := mkTask (id t) f]> ts end) w'.

(** What the handlers do keeps [Inv] and calls at most [c] wakers. *)
Definition arrival_fine (c : nat) (Inv : task_inv) (arrive : W → W * list Z) : Prop :=
  ∀ ts w, Inv ts w → Inv ts (arrive w).1 ∧ (length (arrive w).2 ≤ c)%nat.

Lemma run_one_total b Inv e (w : W) :
  polls_fine b Inv → exec_inv e → Inv (tasks e) w →
  Z.of_nat (length (aq_items (task_queue e)) + b) ≤ aq_cap (task_queue e) →
  ∃ ev e' w', run_one e w = Ret (ev, e', w') ∧ Inv (tasks e') w'
    ∧ (length (aq_items (task_queue e')) ≤ length (aq_items (task_queue e)) + b)%nat
    ∧ aq_cap (task_queue e') = aq_cap (task_queue e).
Proof.
  intros Hb Hei Hinv Hroom. unfold run_one.
  destruct (aq_pop (task_queue e)) as [[i|] q] eqn:Hpop; apply aq_pop_cases in Hpop as [Hcap Ho].
  2: { destruct Ho as [_ ->]. do 3 eexists. split; [reflexivity|]. simpl. by split_and!; [|lia|]. }
  rewrite Ho in *. simpl in Hroom.
  destruct (tasks e !! i) as [t|] eqn:Ht;
    [|do 3 eexists; split; [reflexivity|]; simpl; by split_and!; [|lia|]].
  assert (default i (waker_cache e !! i) = i) as ->.
  { destruct (waker_cache e !! i) as [v|] eqn:Hv; [|done]. by destruct (ei_cache _ Hei _ _ Hv) as [-> _]. }
  unfold Task_poll. destruct (Hb _ w i t Hinv Ht) as (r & f & w1 & ws & -> & Hlen & Hinv').
  cbn [mbind outcome_bind].
  destruct (proj1 (wake_all_spec ws q)) as (q1 & Hw & Hi & Hc); [lia|].
  rewrite Hw. cbn [mbind outcome_bind].
  destruct r; do 3 eexists; (split; [reflexivity|]); simpl;
    rewrite Hi, length_app; (split_and!; [exact Hinv'|simpl; lia|congruence]).
Qed.

Lemma run_with_total b c Inv env e (w : W) :
  polls_fine b Inv → Forall (arrival_fine c Inv) env → exec_inv e → Inv (tasks e) w →
  Z.of_nat (length (aq_items (task_queue e)) + (b + c) * length env) ≤ aq_cap (task_queue e) →
  ∃ evs e' w', run_with env e w = Ret (evs, e', w') ∧ Inv (tasks e') w'.
Proof.
  intros Hb Henv. revert e w. induction Henv as [|arrive env Ha _ IH]; intros e w Hei Hinv Hroom;
    cbn [run_with length] in *; [by exists [], e, w|].
  destruct (Ha _ _ Hinv) as [Hinv0 Hc0]. destruct (arrive w) as [w0 ws]. simpl in Hinv0, Hc0.
  destruct (proj1 (wake_all_spec ws (task_queue e))) as (q & Hw & Hi & Hc); [lia|].
  rewrite Hw. cbn [mbind outcome_bind].
  assert (exec_inv (mkExecutor (tasks e) q (waker_cache e))) as Hei0.
  { destruct Hei as [Hids Hcache Hq]. split; simpl; [done|done|]. rewrite Hi, Hc, length_app. lia. }
  destruct (run_one_total b Inv (mkExecutor (tasks e) q (waker_cache e)) w0) as
    (ev & e1 & w1 & Hone & Hinv1 & Hlen & Hcap); [done..|simpl; rewrite Hi, Hc, length_app; lia|].
  rewrite Hone. cbn [mbind outcome_bind]. simpl in Hlen, Hcap. rewrite Hi, length_app in Hlen.
  apply run_one_spec in Hone as (Hei1 & _ & _); [|done].
  destruct (IH e1 w1) as (evs & e2 & w2 & Hrec & Hinv2); [done|done|rewrite Hcap, Hc; lia|].
  rewrite Hrec. simpl. eauto.
Qed.
End executor_facts.

(** A future for the examples: ready after [n] more polls, calling its own
    waker each time before that. Like an [async] block, it must not be polled
    again once it was ready. *)
#[global] Instance countdown : Future (option nat) unit := λ n waker w,
  match n with
  | None => Panic PExplicit
  | Some O => Ret (Ready, None, w, [])
  | Some (S n) => Ret (Pending, Some n, w, [waker])
  end.

(** C37: [SimpleExecutor::run] finishes its tasks. If the polls of a run do not
    panic and every task is ready after finitely many of them, [left_] bounding how
    many are left, then the loop ends, within as many polls as all tasks together
    need. Every task was polled until it was ready, exactly once: the tasks found
    ready are those of the queue, and the invariant holds for the empty queue. *)
Theorem simple_run_total (F W : Type) (HF : Future F W) (Inv : list (Task F) → W → Prop)
    (left_ : F → nat) (q : list (Task F)) (w : W)
    (Hfin : finite_tasks Inv left_) (Hinv : Inv q w) :
  ∃ polls w', simple_run (S (work left_ q)) (q, w) = Ret (Some (polls, w')) ∧ Inv [] w'
    ∧ finished polls ≡ₚ id <$> q ∧ (length polls ≤ work left_ q)%nat.
Proof. apply simple_run_finishes; [done|done|lia]. Qed.

Lemma simple_run_total_witness :
  finite_tasks (F := option nat) (W := unit) (λ q _, Forall (λ t, is_Some (future t)) q) (default O)
  ∧ ∃ polls w', simple_run 7 ([mkTask 1 (Some 3%nat); mkTask 2 (Some 1%nat)], tt) = Ret (Some (polls, w'))
      ∧ finished polls ≡ₚ [1; 2].
Proof.
  assert (finite_tasks (F := option nat) (W := unit) (λ q _, Forall (λ t, is_Some (future t)) q) (default O))
    as Hfin.
  { intros task q w Hq. apply Forall_cons in Hq as [[n Hn] Hq]. rewrite Hn.
    destruct n as [|n]; do 4 eexists; (split; [reflexivity|]); [exact Hq|].
    split; [simpl; lia|]. apply Forall_app. split; [exact Hq|]. by repeat constructor; eexists. }
  split; [exact Hfin|].
  destruct (simple_run_total (option nat) unit _ (λ q _, Forall (λ t, is_Some (future t)) q) (default O)
    [mkTask 1 (Some 3%nat); mkTask 2 (Some 1%nat)] tt Hfin) as (polls & w' & Hrun & _ & Hp & _).
  - by repeat constructor; eexists.
  - exists polls, w'. split; [exact Hrun|exact Hp].
Defined.

(** [SimpleExecutor] is fair: as many iterations of its loop as there are
    tasks in the queue are one round, in which every task is polled exactly
    once, in queue order, and the unfinished ones stay in that order; tasks
    behind them are not touched. The round panics where one of the polls does. *)
Theorem simple_round_robin (F W : Type) (HF : Future F W) (q q' : list (Task F)) (w : W) :
  simple_steps (length q) (q ++ q', w) =
    ('(rest, w') ← simple_round q w; Ret (Some (q' ++ rest, w'))).
Proof. apply simple_steps_round. Qed.

(** C13: a woken task is polled. Let [Inv] relate the live tasks to the world, be
    kept by the polls of live tasks, which do not panic and call at most [b]
    wakers, and by whatever interrupts do before each iteration, calling at most
    [c] wakers. If the id of a live task is in the queue behind [length pre] others
    and the queue has room for the wake-ups of the next iterations, the executor's
    loop runs them without a panic and polls the task within [length pre + 1] of
    them. *)
Theorem woken_task_polled (F W Q : Type) (HF : Future F W) (HQ : ArrayQueue Q)
    (HL : ArrayQueueLaws Q) (Inv : task_inv (F := F) (W := W)) (b c : nat)
    (env : list (W → W * list Z)) (e : Executor F Q) (w : W) (pre post : list Z) (i : Z)
    (Hei : exec_inv e) (Hinv : Inv (tasks e) w)
    (Hpolls : polls_fine b Inv) (Henv : Forall (arrival_fine c Inv) env)
    (Hq : aq_items (task_queue e) = pre ++ i :: post)
    (Hlive : is_Some (tasks e !! i)) (Hlen : (length pre < length env)%nat)
    (Hroom : Z.of_nat (length (pre ++ i :: post) + (b + c) * length env) ≤ aq_cap (task_queue e)) :
  ∃ evs e' w' k r, run_with env e w = Ret (evs, e', w') ∧ Inv (tasks e') w'
    ∧ (k ≤ length pre)%nat ∧ evs !! k = Some (Polled i r).
Proof.
  destruct (run_with_total b c Inv env e w) as (evs & e' & w' & Hrun & Hinv'); [done..|by rewrite Hq|].
  edestruct run_with_polls as (k & r & Hk & Hev); [done..|]. by exists evs, e', w', k, r.
Qed.

Definition demo_executor : Executor (option nat) ListQueue :=
  mkExecutor {[1 := mkTask 1 (Some 2%nat); 2 := mkTask 2 (Some 0%nat)]} (mkListQueue 100 [1; 2]) ∅.

Lemma demo_executor_inv : exec_inv demo_executor.
Proof.
  split; simpl; [|done|lia]. intros i t Ht.
  apply lookup_insert_Some in Ht as [[<- <-]|[_ Ht]]; [done|].
  by apply lookup_singleton_Some in Ht as [<- <-].
Qed.

(** The executor's bookkeeping. Spawning a task and running the loop under
    any interrupts keep every task stored under its own id, every cached waker
    waking the task it is cached for, no waker cached for a finished task, and
    the queue within its capacity. *)
Theorem executor_invariant (F W Q : Type) (HF : Future F W) (HQ : ArrayQueue Q)
    (HL : ArrayQueueLaws Q) (e : Executor F Q) (Hinv : exec_inv e) :
  (∀ t e', spawn e t = Ret e' → exec_inv e')
  ∧ (∀ env (w : W) evs e' w', run_with env e w = Ret (evs, e', w') → exec_inv e').
Proof.
  split; [|intros; by eapply run_with_inv].
  intros t e' Hs. unfold spawn, push_expect in Hs. destruct Hinv as [Hids Hcache Hq].
  destruct (tasks e !! id t) as [old|] eqn:Hold; [done|].
  destruct (aq_push (task_queue e) (id t)) as [r q] eqn:Hp. apply aq_push_cases in Hp as [Hcap Hr].
  destruct Hr as [(-> & Hi & Hlt)|(-> & _)]; [|done]. simpl in Hs. injection Hs as <-. split; simpl.
  - intros i t'. rewrite lookup_insert_Some. naive_solver.
  - intros i v Hv. destruct (Hcache i v Hv) as [-> Hs]. split; [done|].
    rewrite lookup_insert_is_Some. destruct (decide (id t = i)); auto.
  - rewrite Hi, length_app. simpl. lia.
Qed.

Lemma executor_invariant_witness :
  exec_inv demo_executor ∧
  ∃ e', spawn demo_executor (mkTask 3 (Some 5%nat)) = Ret e' ∧ exec_inv e'.
Proof.
  split; [exact demo_executor_inv|].
  destruct (spawn demo_executor (mkTask 3 (Some 5%nat))) as [e'|] eqn:Hs; [|by vm_compute in Hs].
  exists e'. split; [reflexivity|].
  exact (proj1 (executor_invariant (option nat) unit ListQueue _ _ _ demo_executor demo_executor_inv)
    (mkTask 3 (Some 5%nat)) e' Hs).
Defined.

(** When the queue overflows. Wakers do not look whether their task is in
    the queue already: between two iterations [length ws] calls of wakers
    succeed exactly when the queue has room for all of them, and otherwise the
    kernel panics, even if they all wake the same task. *)
Theorem wake_overflow (Q : Type) (HQ : ArrayQueue Q) (HL : ArrayQueueLaws Q)
    (q : Q) (ws : list Z) (Hq : Z.of_nat (length (aq_items q)) ≤ aq_cap q) :
  if decide (Z.of_nat (length (aq_items q) + length ws) ≤ aq_cap q)
  then ∃ q', wake_all q ws = Ret q' ∧ aq_items q' = aq_items q ++ ws
  else wake_all q ws = Panic PUnwrap.
Proof.
  destruct (wake_all_spec ws q) as [Hok Hover]. case_decide.
  - destruct Hok as (q' & ? & ? & _); [done|]. eauto.
  - apply Hover; lia.
Qed.

Lemma wake_overflow_witness :
  wake_all (mkListQueue 100 []) (replicate 101 7) = Panic PUnwrap.
Proof.
  assert (Z.of_nat (length (aq_items (mkListQueue 100 []))) ≤ aq_cap (mkListQueue 100 [])) as Hq
    by (simpl; lia).
  pose proof (wake_overflow ListQueue _ _ (mkListQueue 100 []) (replicate 101 7) Hq) as Ho.
  rewrite decide_False in Ho by (simpl; lia). exact Ho.
Defined.
