(* ===== verification/Sleep.v ===== *)
(** [Executor::sleep_if_idle] of src/src/task/executor.rs, with interrupts
    arriving between its instructions. The caller is a loop that empties the
    task queue and then calls it, the use it is written for. *)
From stdpp Require Import relations.
From S2P Require Import Prelude Queue Executor.
Local Open Scope Z_scope.

Section sleep.
Context {Q : Type} `{ArrayQueue Q}.

(** Where the processor is: at an instruction of [sleep_if_idle], or back in
    the loop. *)
Inductive point :=
  | Disabling               (** before [interrupts::disable()] *)
  | Checking                (** before [self.task_queue.is_empty()] *)
  | Deciding (empty : bool) (** before [enable_and_hlt()] or [enable()] *)
  | Working.                (** returned *)

Record cpu := mkCpu {
  c_queue : Q;
  c_if : bool;       (** interrupts are enabled *)
  c_halted : bool;   (** waiting in [hlt] *)
  c_point : point;
}.

(** The next instruction of [sleep_if_idle]. [enable_and_hlt] is one step: the
    processor takes no interrupt between [sti] and [hlt]. *)
Definition sleep_step (m : cpu) : option cpu :=
  match c_point m with
  | Disabling => Some (mkCpu (c_queue m) false false Checking)
  | Checking => Some (mkCpu (c_queue m) (c_if m) false (Deciding (aq_is_empty (c_queue m))))
  | Deciding true => Some (mkCpu (c_queue m) true true Working)
  | Deciding false => Some (mkCpu (c_queue m) true false Working)
  | Working => None
  end.

Inductive idle_step : cpu → cpu → Prop :=
  (** An instruction of [sleep_if_idle], unless the processor is halted. *)
  | idle_sleep m m' : c_halted m = false → sleep_step m = Some m' → idle_step m m'
  (** The loop runs a task that is ready, or calls [sleep_if_idle]. *)
  | idle_pop m o q : c_halted m = false → c_point m = Working → aq_pop (c_queue m) = (o, q) →
      idle_step m (mkCpu q (c_if m) false Working)
  | idle_call m : c_halted m = false → c_point m = Working →
      idle_step m (mkCpu (c_queue m) (c_if m) false Disabling)
  (** An interrupt wakes a task; it also ends a [hlt]. *)
  | idle_irq m i q : c_if m = true → wake_task (c_queue m) i = Ret q →
      idle_step m (mkCpu q true false (c_point m))
  (** An interrupt that wakes no task. *)
  | idle_tick m : c_if m = true → idle_step m (mkCpu (c_queue m) true false (c_point m)).
End sleep.
#[global] Arguments cpu : clear implicits.

Section sleep_facts.
Context {Q : Type} `{ArrayQueueLaws Q}.
Implicit Types (m : cpu Q).

(** Between the check and its use nothing can be pushed, for interrupts are
    off. *)
Definition idle_inv m : Prop :=
  match c_point m with
  | Working => c_if m = true ∧ (c_halted m = true → aq_items (c_queue m) = [])
  | Disabling => c_if m = true ∧ c_halted m = false
  | Checking => c_if m = false ∧ c_halted m = false
  | Deciding b => c_if m = false ∧ c_halted m = false ∧ (b = true → aq_items (c_queue m) = [])
  end.

Lemma sleep_step_inv m m' : idle_inv m → sleep_step m = Some m' → idle_inv m'.
Proof.
  unfold idle_inv, sleep_step. intros Hinv Hs.
  destruct (c_point m) as [| |[]|]; simplify_eq; simpl.
  - done.
  - destruct Hinv as [-> _]. split_and!; [done..|]. rewrite aq_is_empty_spec.
    apply bool_decide_eq_true.
  - destruct Hinv as (_ & _ & He). auto.
  - done.
Qed.

Lemma idle_step_inv m m' : idle_inv m → idle_step m m' → idle_inv m'.
Proof.
  intros Hinv. inversion 1 as [? ? ? Hs|? ? ? ? Hp|? ? Hp|? ? ? Hif|? Hif]; subst.
  - by eapply sleep_step_inv.
  - unfold idle_inv in *. rewrite Hp in Hinv. simpl. split; [apply Hinv|done].
  - unfold idle_inv in *. rewrite Hp in Hinv. simpl. split; [apply Hinv|done].
  - unfold idle_inv in *. simpl. destruct (c_point m); destruct Hinv; try done; congruence.
  - unfold idle_inv in *. simpl. destruct (c_point m); destruct Hinv; try done; congruence.
Qed.
End sleep_facts.

(** C21: the processor never sleeps while a task is ready. However interrupts
    fall between the instructions of [sleep_if_idle] and the loop around it,
    whenever the processor is halted the task queue is empty and interrupts are
    enabled, so the next wake-up gets it out of [hlt]. The check and [hlt] are
    safe because interrupts are off from before the check until [hlt]. *)
Theorem sleep_no_lost_wakeup (Q : Type) (HQ : ArrayQueue Q) (HL : ArrayQueueLaws Q)
    (q : Q) (m : cpu Q)
    (Hreach : rtc idle_step (mkCpu q true false Working) m) (Hhalt : c_halted m = true) :
  aq_items (c_queue m) = [] ∧ c_if m = true
  ∧ ∀ i q', wake_task (c_queue m) i = Ret q' →
      ∃ m', idle_step m m' ∧ c_halted m' = false ∧ aq_items (c_queue m') = [i].
Proof.
  assert (idle_inv m) as Hinv.
  { assert (idle_inv (mkCpu q true false Working)) as H0 by done.
    revert H0. induction Hreach; [done|]. intros H0. apply IHHreach; [done|].
    by eapply idle_step_inv. }
  assert (aq_items (c_queue m) = [] ∧ c_if m = true) as [He Hif].
  { unfold idle_inv in Hinv. rewrite Hhalt in Hinv.
    destruct (c_point m); destruct Hinv as [? Hi]; try done; [by destruct Hi|auto]. }
  split; [done|]. split; [done|].
  intros i q' Hw. exists (mkCpu q' true false (c_point m)). split; [by econstructor|]. split; [done|].
  unfold wake_task, push_expect in Hw. destruct (aq_push (c_queue m) i) as [r q1] eqn:Hpush.
  apply aq_push_cases in Hpush as [_ [(-> & Hi & _)|(-> & _)]]; [|done].
  simpl in Hw. injection Hw as <-. simpl. by rewrite Hi, He.
Qed.

Lemma sleep_no_lost_wakeup_witness :
  ∃ m : cpu ListQueue, rtc idle_step (mkCpu (mkListQueue 100 []) true false Working) m
    ∧ c_halted m = true ∧ aq_items (c_queue m) = [].
Proof.
  set (q := mkListQueue 100 []). exists (mkCpu q true true Working).
  assert (rtc idle_step (mkCpu q true false Working) (mkCpu q true true Working)) as Hr.
  { eapply rtc_l; [by apply idle_call|]. eapply rtc_l; [by apply idle_sleep|].
    eapply rtc_l; [by apply idle_sleep|]. eapply rtc_l; [by apply idle_sleep|]. apply rtc_refl. }
  split; [exact Hr|]. split; [reflexivity|].
  exact (proj1 (sleep_no_lost_wakeup ListQueue _ _ q _ Hr eq_refl)).
Defined.
