(* ===== verification/Interrupts.v ===== *)
(** Exceptions and interrupts: the segment tables of src/src/gdt.rs, the
    interrupt table and the handlers of src/src/interrupts.rs, and [init] of
    src/src/lib.rs. The tables and the interrupt controller are types of the
    [x86_64] and [pic8259] crates: classes of operations, with what the crates
    and the processor's manual say of them as laws. *)
From S2P Require Import Prelude Queue Keyboard.
Local Open Scope Z_scope.
Local Open Scope rust_scope.

(** * Interfaces *)

(** [TaskStateSegment], of which the kernel uses one field. *)
Record TaskStateSegment := mkTSS { interrupt_stack_table : list Z }.

(** [GlobalDescriptorTable] and [Descriptor]. *)
Class Gdt (G D : Type) := {
  gdt_new : G;
  add_entry : G → D → outcome (Z * G);
  kernel_code_segment : D;
  tss_segment : TaskStateSegment → D;
}.

(** [gdt_get g s] is the descriptor the processor finds through the selector
    [s]; adding one panics when the table is full. *)
Class GdtLaws (G D : Type) `{Gdt G D} := {
  gdt_get : G → Z → option D;
  gdt_free : G → nat;
  slots : D → nat;
  gdt_new_free : (3 ≤ gdt_free gdt_new)%nat;
  code_slots : slots kernel_code_segment = 1%nat;
  tss_slots t : slots (tss_segment t) = 2%nat;
  add_entry_law g d : (slots d ≤ gdt_free g)%nat →
    ∃ sel g', add_entry g d = Ret (sel, g') ∧ gdt_get g' sel = Some d
      ∧ (∀ s d', gdt_get g s = Some d' → gdt_get g' s = Some d')
      ∧ gdt_free g' = (gdt_free g - slots d)%nat;
}.

(** [InterruptDescriptorTable]: its entries by vector. *)
Class Idt (I H : Type) := {
  idt_new : I;
  set_handler_fn : I → Z → H → I;
  set_stack_index : I → Z → Z → I;
}.

(** [idt_entry i v]: the handler of vector [v] and the index of the stack to
    switch to. *)
Class IdtLaws (I H : Type) `{Idt I H} := {
  idt_entry : I → Z → option (H * option Z);
  idt_new_entry v : idt_entry idt_new v = None;
  set_handler_fn_entry i v h v' : idt_entry i v = None →
    idt_entry (set_handler_fn i v h) v' = if decide (v = v') then Some (h, None) else idt_entry i v';
  set_stack_index_entry i v h o k v' : idt_entry i v = Some (h, o) →
    idt_entry (set_stack_index i v k) v' = if decide (v = v') then Some (h, Some k) else idt_entry i v';
}.

(** [ChainedPics], and [pic_raise]: the controller passes an interrupt request
    on to the processor and tells it the vector. *)
Class Pics (P : Type) := {
  pics_new : Z → Z → P;
  initialize : P → P;
  notify_end_of_interrupt : P → Z → P;
  pic_raise : P → Z → option (Z * P);
}.

(** The vector of a request line, for controllers at the offsets [o]. *)
Definition irq_vector (o : Z * Z) (irq : Z) : Z :=
  if irq <? 8 then o.1 + irq else o.2 + (irq - 8).

(** A line is blocked while one of the same or a higher priority is in service,
    until the end of that interrupt is notified. *)
Class PicsLaws (P : Type) `{Pics P} := {
  offsets : P → Z * Z;
  in_service : P → gset Z;
  masked : P → gset Z;
  pics_new_offsets a b : offsets (pics_new a b) = (a, b);
  initialize_law p : offsets (initialize p) = offsets p ∧ in_service (initialize p) = ∅
    ∧ masked (initialize p) = masked p;
  pic_raise_law p irq : 0 ≤ irq < 16 → irq ∉ masked p → in_service p = ∅ →
    ∃ p', pic_raise p irq = Some (irq_vector (offsets p) irq, p')
      ∧ offsets p' = offsets p ∧ masked p' = masked p ∧ in_service p' = {[irq]};
  pic_blocked p irq irq' : irq' ∈ in_service p → irq' ≤ irq < 8 → pic_raise p irq = None;
  notify_law p irq : 0 ≤ irq < 16 → in_service p = {[irq]} →
    let p' := notify_end_of_interrupt p (irq_vector (offsets p) irq) in
    offsets p' = offsets p ∧ masked p' = masked p ∧ in_service p' = ∅;
}.

(** * gdt.rs *)
Definition DOUBLE_FAULT_IST_INDEX : Z := 0.
Definition STACK_SIZE : Z := 4096 * 5.

Record Selectors := mkSelectors { code_selector : Z; tss_selector : Z }.

(** The registers [init] sets. *)
Record registers (G I : Type) := mkRegs {
  gdtr : option G;
  cs : Z;
  tr : Z;
  idtr : option I;
  interrupts_enabled : bool;
}.
Arguments mkRegs {G I} _ _ _ _ _.
Arguments gdtr {G I} _.
Arguments cs {G I} _.
Arguments tr {G I} _.
Arguments idtr {G I} _.
Arguments interrupts_enabled {G I} _.

Section gdt.
Context {G D : Type} `{Gdt G D}.
(** [TaskStateSegment::new()], the address of [STACK], [VirtAddr + usize]. *)
Context (tss_new : TaskStateSegment) (STACK : Z) (virt_add : Z → Z → outcome Z).

Definition TSS : outcome TaskStateSegment :=
  let stack_start := STACK in
  stack_end ← virt_add stack_start STACK_SIZE;
  ist ← store (interrupt_stack_table tss_new) DOUBLE_FAULT_IST_INDEX stack_end;
  Ret (mkTSS ist).

Definition GDT : outcome (G * Selectors) :=
  let gdt := gdt_new in
  '(code, gdt) ← add_entry gdt kernel_code_segment;
  tss ← TSS;
  '(t, gdt) ← add_entry gdt (tss_segment tss);
  Ret (gdt, mkSelectors code t).

Definition gdt_init {I} (r : registers G I) : outcome (registers G I) :=
  '(gdt, sel) ← GDT;
  Ret (mkRegs (Some gdt) (code_selector sel) (tss_selector sel) (idtr r) (interrupts_enabled r)).
End gdt.

(** * interrupts.rs *)
Definition PIC_1_OFFSET : Z := 32.
Definition PIC_2_OFFSET : Z := PIC_1_OFFSET + 8.

Inductive InterruptIndex := Timer | Keyboard.

Definition as_u8 (i : InterruptIndex) : Z :=
  match i with Timer => PIC_1_OFFSET | Keyboard => PIC_1_OFFSET + 1 end.
Definition as_usize (i : InterruptIndex) : Z := as_u8 i.

(** The handlers as values to put into the table. *)
Inductive handler :=
  | breakpoint_handler
  | double_fault_handler
  | page_fault_handler
  | timer_interrupt_handler
  | keyboard_interrupt_handler.

#[global] Instance handler_eq_dec : EqDecision handler.
Proof. solve_decision. Defined.

(** The vectors of the named fields of [InterruptDescriptorTable]. *)
Definition BREAKPOINT : Z := 3.
Definition DOUBLE_FAULT : Z := 8.
Definition PAGE_FAULT : Z := 14.

Section interrupts.
Context {I P Q A : Type} `{Idt I handler, Pics P, ArrayQueue Q, AtomicWaker A}.

Definition IDT : I :=
  let idt := idt_new in
  let idt := set_handler_fn idt BREAKPOINT breakpoint_handler in
  let idt := set_handler_fn idt DOUBLE_FAULT double_fault_handler in
  let idt := set_stack_index idt DOUBLE_FAULT DOUBLE_FAULT_IST_INDEX in
  let idt := set_handler_fn idt (as_usize Timer) timer_interrupt_handler in
  let idt := set_handler_fn idt (as_usize Keyboard) keyboard_interrupt_handler in
  set_handler_fn idt PAGE_FAULT page_fault_handler.

Definition init_idt {G} (r : registers G I) : registers G I :=
  mkRegs (gdtr r) (cs r) (tr r) (Some IDT) (interrupts_enabled r).

Definition PICS_init : P := pics_new PIC_1_OFFSET PIC_2_OFFSET.

(** What the handlers work on: the controller and the keyboard queue. *)
Record devices := mkDevices { pics : P; keyboard : kbd Q A }.

(** Running a handler; [data] is what port 0x60 holds. The handlers of page and
    double faults do not return. Output is left out. *)
Definition run_handler (h : handler) (data : Z) (d : devices) : option devices :=
  match h with
  | breakpoint_handler => Some d
  | double_fault_handler => None
  | page_fault_handler => None
  | timer_interrupt_handler =>
      Some (mkDevices (notify_end_of_interrupt (pics d) (as_u8 Timer)) (keyboard d))
  | keyboard_interrupt_handler =>
      let scancode := data in
      let k := add_scancode (keyboard d) scancode in
      Some (mkDevices (notify_end_of_interrupt (pics d) (as_u8 Keyboard)) k)
  end.

(** [init] of lib.rs. *)
Definition init {G D} `{Gdt G D} (tss_new : TaskStateSegment) (STACK : Z)
    (virt_add : Z → Z → outcome Z) (r : registers G I) (PICS : P) : outcome (registers G I * P) :=
  r ← gdt_init tss_new STACK virt_add r;
  let r := init_idt r in
  let PICS := initialize PICS in
  Ret (mkRegs (gdtr r) (cs r) (tr r) (idtr r) true, PICS).
End interrupts.
#[global] Arguments devices : clear implicits.

(** * What the processor does with the table *)

(** A request of the timer or of the keyboard, which puts a scancode at its
    data port. *)
Inductive request := Tick | Key (scancode : Z).
Definition irq_line (r : request) : Z := match r with Tick => 0 | Key _ => 1 end.
Definition port_data (r : request) : Z := match r with Tick => 0 | Key c => c end.
Definition scancodes_of (rs : list request) : list Z :=
  rs ≫= λ r, match r with Tick => [] | Key c => [c] end.

Section delivery.
Context {I P Q A : Type} `{IdtLaws I handler, PicsLaws P, ArrayQueue Q, AtomicWaker A}.

(** The controller passes the request on, the processor looks up the vector and
    runs the handler to its end: the gates of the table turn interrupts off.
    [None]: the request is not passed on, the vector has no handler, or the
    handler does not return. *)
Definition deliver (table : I) (r : request) (d : devices P Q A) : option (devices P Q A) :=
  '(v, p) ← pic_raise (pics d) (irq_line r);
  '(h, _) ← idt_entry table v;
  run_handler h (port_data r) (mkDevices p (keyboard d)).

Fixpoint deliver_all (table : I) (rs : list request) (d : devices P Q A) : option (devices P Q A) :=
  match rs with
  | [] => Some d
  | r :: rs => d ← deliver table r d; deliver_all table rs d
  end.

(** The entries of the table the kernel builds. *)
Definition idt_spec (v : Z) : option (handler * option Z) :=
  if decide (v = 3) then Some (breakpoint_handler, None)
  else if decide (v = 8) then Some (double_fault_handler, Some 0)
  else if decide (v = 14) then Some (page_fault_handler, None)
  else if decide (v = 32) then Some (timer_interrupt_handler, None)
  else if decide (v = 33) then Some (keyboard_interrupt_handler, None)
  else None.

Lemma IDT_entries v : idt_entry (IDT : I) v = idt_spec v.
Proof.
  unfold IDT, BREAKPOINT, DOUBLE_FAULT, PAGE_FAULT, as_usize, as_u8, PIC_1_OFFSET, DOUBLE_FAULT_IST_INDEX.
  set (i1 := set_handler_fn idt_new 3 breakpoint_handler).
  assert (∀ v, idt_entry i1 v = if decide (3 = v) then Some (breakpoint_handler, None) else None) as E1.
  { intros v'. unfold i1. by rewrite set_handler_fn_entry, idt_new_entry by apply idt_new_entry. }
  set (i2 := set_handler_fn i1 8 double_fault_handler).
  assert (∀ v, idt_entry i2 v = if decide (8 = v) then Some (double_fault_handler, None) else idt_entry i1 v)
    as E2 by (intros v'; apply set_handler_fn_entry; by rewrite E1).
  set (i3 := set_stack_index i2 8 0).
  assert (∀ v, idt_entry i3 v = if decide (8 = v) then Some (double_fault_handler, Some 0) else idt_entry i2 v)
    as E3 by (intros v'; eapply set_stack_index_entry; by rewrite E2).
  set (i4 := set_handler_fn i3 32 timer_interrupt_handler).
  assert (∀ v, idt_entry i4 v = if decide (32 = v) then Some (timer_interrupt_handler, None) else idt_entry i3 v)
    as E4 by (intros v'; apply set_handler_fn_entry; by rewrite E3, E2, E1).
  set (i5 := set_handler_fn i4 (32 + 1) keyboard_interrupt_handler).
  assert (∀ v, idt_entry i5 v = if decide (33 = v) then Some (keyboard_interrupt_handler, None) else idt_entry i4 v)
    as E5 by (intros v'; apply set_handler_fn_entry; by rewrite E4, E3, E2, E1).
  rewrite set_handler_fn_entry by (by rewrite E5, E4, E3, E2, E1).
  rewrite E5, E4, E3, E2, E1. unfold idt_spec. repeat case_decide; try done; lia.
Qed.

(** The controller between two interrupts. *)
Record ready (d : devices P Q A) : Prop := {
  rd_offsets : offsets (pics d) = (PIC_1_OFFSET, PIC_2_OFFSET);
  rd_service : in_service (pics d) = ∅;
  rd_masked : (0 ∉ masked (pics d)) ∧ (1 ∉ masked (pics d));
}.

Lemma deliver_ready r d :
  ready d → ∃ d', deliver IDT r d = Some d' ∧ ready d'
    ∧ keyboard d' = match r with Tick => keyboard d | Key c => add_scancode (keyboard d) c end.
Proof.
  intros [Ho Hs [Hm0 Hm1]]. unfold deliver.
  assert (0 ≤ irq_line r < 16 ∧ irq_line r ∉ masked (pics d)) as [Hl Hm] by (destruct r; simpl; split; lia || done).
  destruct (pic_raise_law (pics d) (irq_line r) Hl Hm Hs) as (p & -> & Ho' & Hm' & Hs').
  assert (idt_entry (IDT : I) (irq_vector (offsets (pics d)) (irq_line r)) =
    Some (match r with Tick => timer_interrupt_handler | Key _ => keyboard_interrupt_handler end, None)) as He
    by (rewrite IDT_entries, Ho; by destruct r).
  pose proof (notify_law p (irq_line r) Hl Hs') as (Ho2 & Hm2 & Hs2). rewrite Ho', Ho in *.
  change (∃ d', (('(h, _) ← idt_entry (IDT : I) (irq_vector (PIC_1_OFFSET, PIC_2_OFFSET) (irq_line r));
     run_handler h (port_data r) (mkDevices p (keyboard d))) = Some d') ∧ ready d'
    ∧ keyboard d' = match r with Tick => keyboard d | Key c => add_scancode (keyboard d) c end).
  rewrite He. pose proof (eq_trans Hm2 Hm') as Hmm.
  assert (∀ i k, irq_vector (PIC_1_OFFSET, PIC_2_OFFSET) (irq_line r) = as_u8 i →
    ready (mkDevices (notify_end_of_interrupt p (as_u8 i)) k)) as Hready.
  { intros i k <-. split; simpl; [done..|]. by rewrite Hmm. }
  destruct r; eexists; (split; [reflexivity|]); (split; [|done]);
    [by apply (Hready Timer)|by apply (Hready Keyboard)].
Qed.

Lemma deliver_all_ready rs d :
  ready d → ∃ d', deliver_all IDT rs d = Some d' ∧ ready d'
    ∧ keyboard d' = foldl add_scancode (keyboard d) (scancodes_of rs).
Proof.
  revert d. induction rs as [|r rs IH]; intros d Hd; simpl; [by exists d|].
  destruct (deliver_ready r d Hd) as (d1 & -> & Hd1 & Hk1). simpl.
  destruct (IH d1 Hd1) as (d2 & -> & Hd2 & Hk2). exists d2. split; [done|]. split; [done|].
  rewrite Hk2, Hk1. by destruct r.
Qed.
End delivery.

(** The tables [gdt_init] sets up, given room in the descriptor table: the code
    and task selectors resolve, in the table that was loaded, to the kernel's
    code segment and to a task state whose first interrupt stack is the end of
    the 20 KiB reserved for double faults. *)
Definition tables_ok {G D I} `{GdtLaws G D} (STACK : Z) (r : registers G I) : Prop :=
  ∃ g tss, gdtr r = Some g ∧ gdt_get g (cs r) = Some kernel_code_segment
    ∧ gdt_get g (tr r) = Some (tss_segment tss)
    ∧ interrupt_stack_table tss !! Z.to_nat DOUBLE_FAULT_IST_INDEX = Some (STACK + 20480).

Lemma gdt_init_tables {G D I : Type} `{GdtLaws G D} tss_new STACK virt_add (r : registers G I) :
  length (interrupt_stack_table tss_new) = 7%nat →
  virt_add STACK 20480 = Ret (STACK + 20480) →
  ∃ r', gdt_init tss_new STACK virt_add r = Ret r' ∧ tables_ok STACK r'
    ∧ idtr r' = idtr r ∧ interrupts_enabled r' = interrupts_enabled r.
Proof.
  intros Htss Hadd. unfold gdt_init, GDT, TSS. pose proof gdt_new_free as Hfree.
  destruct (add_entry_law gdt_new kernel_code_segment) as (c & g1 & -> & Hc & _ & Hf1).
  { rewrite code_slots. lia. }
  cbn [mbind outcome_bind]. change STACK_SIZE with 20480. rewrite Hadd. cbn [mbind outcome_bind].
  rewrite store_in by (rewrite Htss; change (Z.to_nat DOUBLE_FAULT_IST_INDEX) with O; lia). cbn [mbind outcome_bind].
  set (tss := mkTSS _). destruct (add_entry_law g1 (tss_segment tss)) as (t & g2 & -> & Ht & Hold & _).
  { rewrite tss_slots, Hf1, code_slots. lia. }
  cbn [mbind outcome_bind]. eexists. split; [reflexivity|]. split; [|done].
  exists g2, tss. simpl. split_and!; [done|by apply Hold|done|].
  apply list_lookup_insert_eq. rewrite Htss. unfold DOUBLE_FAULT_IST_INDEX. lia.
Qed.

(** What [init] sets up: those tables, the interrupt table, an initialised
    controller, and interrupts on. *)
Lemma init_tables {G D I P : Type} `{GdtLaws G D, IdtLaws I handler, Pics P}
    tss_new STACK virt_add (r : registers G I) (p : P) :
  length (interrupt_stack_table tss_new) = 7%nat →
  virt_add STACK 20480 = Ret (STACK + 20480) →
  ∃ r', init tss_new STACK virt_add r p = Ret (r', initialize p) ∧ tables_ok STACK r'
    ∧ idtr r' = Some IDT ∧ interrupts_enabled r' = true.
Proof.
  intros Htss Hadd. unfold init.
  destruct (gdt_init_tables tss_new STACK virt_add r Htss Hadd) as (r' & -> & (g & tss & Hr) & _).
  cbn [mbind outcome_bind]. eexists. split; [reflexivity|]. split; [|done]. by exists g, tss.
Qed.

(** * Properties *)

(** No interrupt is lost for want of an acknowledgement. From a controller
    that was just initialised, with the lines of the timer and the keyboard
    open, any sequence of their interrupts is passed on, handled by the right
    handler and acknowledged: afterwards nothing is in service, so that the next
    interrupt gets through as well, and the keyboard queue received exactly the
    scancodes, in order. *)
Theorem interrupts_served (I P Q A : Type) (HI : Idt I handler) (HIL : IdtLaws I handler)
    (HP : Pics P) (HPL : PicsLaws P) (HQ : ArrayQueue Q) (HA : AtomicWaker A)
    (rs : list request) (k : kbd Q A)
    (H0 : 0 ∉ masked (PICS_init : P)) (H1 : 1 ∉ masked (PICS_init : P)) :
  ∃ d', deliver_all (IDT : I) rs (mkDevices (initialize (PICS_init : P)) k) = Some d'
    ∧ keyboard d' = foldl add_scancode k (scancodes_of rs)
    ∧ in_service (pics d') = ∅
    ∧ ∀ r, is_Some (deliver (IDT : I) r d').
Proof.
  destruct (initialize_law (PICS_init : P)) as (Ho & Hs & Hm).
  destruct (deliver_all_ready (I := I) rs (mkDevices (initialize (PICS_init : P)) k)) as (d' & Hr & Hd' & Hk).
  { split; simpl; [by rewrite Ho; apply pics_new_offsets|done|by rewrite Hm]. }
  exists d'. split; [done|]. split; [done|]. split; [apply Hd'|].
  intros r. destruct (deliver_ready (I := I) r d' Hd') as (d2 & -> & _). by eexists.
Qed.

(** * A controller, tables and their laws, for the examples *)
Record Pic := mkPic { pic_offsets : Z * Z; pic_isr : gset Z; pic_mask : gset Z }.

#[global] Instance Pic_pics : Pics Pic := {
  pics_new a b := mkPic (a, b) ∅ ∅;
  initialize p := mkPic (pic_offsets p) ∅ (pic_mask p);
  notify_end_of_interrupt p v :=
    mkPic (pic_offsets p) (filter (λ irq, irq_vector (pic_offsets p) irq ≠ v) (pic_isr p)) (pic_mask p);
  pic_raise p irq :=
    if decide (set_Exists (λ i, i ≤ irq) (pic_isr p) ∨ irq ∈ pic_mask p) then None
    else Some (irq_vector (pic_offsets p) irq, mkPic (pic_offsets p) ({[irq]} ∪ pic_isr p) (pic_mask p));
}.

#[global, program] Instance Pic_laws : PicsLaws Pic := {
  offsets := pic_offsets;
  in_service := pic_isr;
  masked := pic_mask;
}.
Next Obligation. done. Qed.
Next Obligation. done. Qed.
Next Obligation.
  intros [o isr mask] irq Hirq Hm Hs. simpl in *. rewrite Hs. rewrite decide_False.
  - eexists. split; [reflexivity|]. simpl. split_and!; [done..|]. by rewrite union_empty_r_L.
  - intros [(i & Hi & _)|?]; [set_solver|done].
Qed.
Next Obligation.
  intros p irq irq' Hin Hle. simpl. rewrite decide_True; [done|]. left. exists irq'. split; [done|lia].
Qed.
Next Obligation.
  intros [o isr mask] irq Hirq Hs. simpl in *. split_and!; [done..|]. rewrite Hs.
  apply set_eq. intros x. rewrite elem_of_filter, elem_of_singleton. set_solver.
Qed.

#[global] Instance map_idt {H} : Idt (gmap Z (H * option Z)) H := {
  idt_new := ∅;
  set_handler_fn i v h := <[v := (h, None)]> i;
  set_stack_index i v k := alter (λ e, (e.1, Some k)) v i;
}.

#[global, program] Instance map_idt_laws {H} : IdtLaws (gmap Z (H * option Z)) H := {
  idt_entry i v := i !! v;
}.
Next Obligation. intros H v. apply lookup_empty. Qed.
Next Obligation.
  intros H i v h v' _. simpl. case_decide; subst; [by rewrite lookup_insert_eq|by rewrite lookup_insert_ne].
Qed.
Next Obligation.
  intros H i v h o k v' He. simpl. case_decide; subst; [by rewrite lookup_alter_eq, He|by rewrite lookup_alter_ne].
Qed.

(** Descriptors: a task state, or the code segment. *)
Abbreviation desc := (option TaskStateSegment).
Definition desc_slots (d : desc) : nat := match d with Some _ => 2 | None => 1 end.
Definition used (g : list desc) : nat := sum_list_with desc_slots g.

#[global] Instance list_gdt : Gdt (list desc) desc := {
  gdt_new := [];
  add_entry g d := if decide (desc_slots d + used g ≤ 7)%nat
                   then Ret (Z.of_nat (length g), g ++ [d]) else Panic PExplicit;
  kernel_code_segment := None;
  tss_segment := Some;
}.

#[global, program] Instance list_gdt_laws : GdtLaws (list desc) desc := {
  gdt_get g s := if s <? 0 then None else g !! Z.to_nat s;
  gdt_free g := (7 - used g)%nat;
  slots := desc_slots;
}.
Next Obligation. unfold used. simpl. lia. Qed.
Next Obligation. done. Qed.
Next Obligation. done. Qed.
Next Obligation.
  intros g d Hd. simpl in *. destruct (decide _) as [Hle|Hle].
  - do 2 eexists. split; [reflexivity|]. rewrite (proj2 (Z.ltb_ge _ _)), Nat2Z.id by lia.
    split_and!.
    + apply list_lookup_middle. done.
    + intros s d'. destruct (s <? 0); [done|]. apply lookup_app_l_Some.
    + unfold used in *. rewrite sum_list_with_app. simpl. lia.
  - destruct d; simpl in *; lia.
Qed.

Definition demo_kbd : kbd ListQueue (option Z) := mkKbd (Some (mkListQueue 100 [])) None [].

Lemma interrupts_served_witness :
  ∃ d', deliver_all (IDT : gmap Z (handler * option Z)) [Tick; Key 0x1e; Tick; Key 0x30]
          (mkDevices (initialize (PICS_init : Pic)) demo_kbd) = Some d'
    ∧ keyboard d' = foldl add_scancode demo_kbd [0x1e; 0x30].
Proof.
  destruct (interrupts_served (gmap Z (handler * option Z)) Pic ListQueue (option Z) _ _ _ _ _ _
    [Tick; Key 0x1e; Tick; Key 0x30] demo_kbd) as (d' & Hr & Hk & _).
  - apply not_elem_of_empty.
  - apply not_elem_of_empty.
  - exists d'. split; [exact Hr|exact Hk].
Defined.
