(* ===== verification/Console.v ===== *)
(** Locks and interrupts: the kernel's spin locks on its one processor. A print
    ([_print] of src/src/serial.rs and of src/src/vga_buffer.rs) takes its device's
    lock with interrupts off; a heap call takes the allocator's lock
    ([Locked::lock] of src/src/allocator.rs) with interrupts on; an interrupt
    handler of src/src/interrupts.rs may run between any two instructions while
    interrupts are on, and itself prints a warning ([add_scancode] of
    src/src/task/keyboard.rs) and locks the interrupt controller. A context that
    meets a lock another one holds spins; on one processor it then spins for
    ever. The waker a keyboard interrupt calls only pushes into a queue without a
    lock; dropping it frees no memory as long as the executor caches another
    reference to it, as it does for every task that has not finished. *)
From stdpp Require Import relations.
From S2P Require Import Prelude.
Local Open Scope Z_scope.

(** * Code *)
Inductive lock := SERIAL1 | WRITER | PICS | ALLOCATOR.

#[global] Instance lock_eq_dec : EqDecision lock.
Proof. solve_decision. Defined.

Inductive instr :=
  | Enter                         (** entry of [without_interrupts]: save the flag, turn it off *)
  | Leave                         (** its exit: put the flag back *)
  | Acquire (l : lock)            (** [lock()]; spins while [l] is held *)
  | Release (l : lock)            (** drop of the guard *)
  | Put (l : lock) (s : list Z).  (** [write_str] on the locked device *)

(** [interrupts::without_interrupts] and a guarded region. *)
Definition without_interrupts (body : list instr) : list instr := Enter :: body ++ [Leave].
Definition with_lock (l : lock) (body : list instr) : list instr := Acquire l :: body ++ [Release l].

(** [serial::_print] and [vga_buffer::_print]; the arguments are the pieces
    formatting hands to [write_str]. *)
Definition serial_print_code (args : list (list Z)) : list instr :=
  without_interrupts (with_lock SERIAL1 (Put SERIAL1 <$> args)).
Definition vga_print_code (args : list (list Z)) : list instr :=
  without_interrupts (with_lock WRITER (Put WRITER <$> args)).

(** [alloc] or [dealloc] of the global allocator, as far as locks go. *)
Definition heap_code : list instr := with_lock ALLOCATOR [].

(** The handlers. A scancode that cannot be queued gives one of two warnings. *)
Inductive warning := Full | Uninitialized.
Definition warning_args (w : warning) : list (list Z) :=
  match w with
  | Full => [str_of "WARNING: SCANCODE_QUEUE full; dropping keyboard input"; [10]]
  | Uninitialized => [str_of "WARNING: scancode queue uninitialized!"; [10]]
  end.

Inductive isr := TimerIsr | KeyboardIsr (w : option warning).

Definition add_scancode_code (w : option warning) : list instr :=
  match w with None => [] | Some w => serial_print_code (warning_args w) end.

Definition isr_code (h : isr) : list instr :=
  match h with
  | TimerIsr => with_lock PICS []
  | KeyboardIsr w => add_scancode_code w ++ with_lock PICS []
  end.

(** What the kernel's thread does: any sequence of prints and heap calls. *)
Inductive call := SerialPrint (args : list (list Z)) | VgaPrint (args : list (list Z)) | HeapCall.

Definition call_code (c : call) : list instr :=
  match c with
  | SerialPrint args => serial_print_code args
  | VgaPrint args => vga_print_code args
  | HeapCall => heap_code
  end.

Definition program (cs : list call) : list instr := cs ≫= call_code.

(** * The machine *)

(** The interrupt flag, the flags saved by [Enter], the locks held, and what was
    put on the devices. *)
Record context := mkCtx {
  iflag : bool;
  saved : list bool;
  held : list lock;
  log : list (lock * list Z);
}.

Definition exec1 (i : instr) (c : context) : option context :=
  match i with
  | Enter => Some (mkCtx false (iflag c :: saved c) (held c) (log c))
  | Leave =>
      match saved c with
      | b :: s => Some (mkCtx b s (held c) (log c))
      | [] => None
      end
  | Acquire l =>
      if decide (l ∈ held c) then None else Some (mkCtx (iflag c) (saved c) (l :: held c) (log c))
  | Release l => Some (mkCtx (iflag c) (saved c) (filter (λ l', l' ≠ l) (held c)) (log c))
  | Put l s =>
      if decide (l ∈ held c) then Some (mkCtx (iflag c) (saved c) (held c) (log c ++ [(l, s)])) else None
  end.

(** The kernel's thread, and the handler that interrupted it. *)
Record mach := mkMach { m_ctx : context; m_main : list instr; m_isr : option (list instr) }.

Definition with_flag (b : bool) (c : context) : context := mkCtx b (saved c) (held c) (log c).

(** The running context goes on: the handler if there is one. *)
Inductive run_step : mach → mach → Prop :=
  | run_main c i code c' : exec1 i c = Some c' →
      run_step (mkMach c (i :: code) None) (mkMach c' code None)
  | run_isr c code i hs c' : exec1 i c = Some c' →
      run_step (mkMach c code (Some (i :: hs))) (mkMach c' code (Some hs))
  | run_iret c code : run_step (mkMach c code (Some [])) (mkMach (with_flag true c) code None).

Inductive mach_step : mach → mach → Prop :=
  | step_run m m' : run_step m m' → mach_step m m'
  | step_interrupt c code h : iflag c = true →
      mach_step (mkMach c code None) (mkMach (with_flag false c) code (Some (isr_code h))).

Definition boot (cs : list call) : mach := mkMach (mkCtx true [] [] []) (program cs) None.

(** What a call or a handler puts on a device. *)
Definition message (c : call) : list (lock * list Z) :=
  match c with
  | SerialPrint args => (SERIAL1,.) <$> args
  | VgaPrint args => (WRITER,.) <$> args
  | HeapCall => []
  end.
Definition isr_message (h : isr) : list (lock * list Z) :=
  match h with KeyboardIsr (Some w) => (SERIAL1,.) <$> warning_args w | _ => [] end.

(** * Executing code *)
Fixpoint exec (code : list instr) (c : context) : option context :=
  match code with
  | [] => Some c
  | i :: code => c' ← exec1 i c; exec code c'
  end.

Lemma exec_app code1 code2 c : exec (code1 ++ code2) c = c' ← exec code1 c; exec code2 c'.
Proof.
  revert c. induction code1 as [|i code1 IH]; intros c; simpl; [done|].
  destruct (exec1 i c); simpl; auto.
Qed.

(** An instruction of code that executes as a whole. *)
Lemma exec_next pre i suf c x y :
  exec (pre ++ i :: suf) c = Some y → exec pre c = Some x →
  ∃ x', exec1 i x = Some x' ∧ exec (pre ++ [i]) c = Some x'.
Proof.
  rewrite !exec_app. intros He Hx. rewrite Hx in *. simpl in *.
  destruct (exec1 i x); simpl in *; [eauto|done].
Qed.

Definition log_more (l : list (lock * list Z)) (c : context) : context :=
  mkCtx (iflag c) (saved c) (held c) (log c ++ l).

Lemma exec_puts l args c :
  l ∈ held c → exec (Put l <$> args) c = Some (log_more ((l,.) <$> args) c).
Proof.
  revert c. induction args as [|s args IH]; intros c Hl; csimpl.
  { unfold log_more. rewrite app_nil_r. by destruct c. }
  rewrite decide_True by done. simpl. rewrite IH by done. unfold log_more. simpl.
  by rewrite <- app_assoc.
Qed.

Lemma filter_fresh (l : lock) (ls : list lock) : l ∉ ls → filter (λ l', l' ≠ l) ls = ls.
Proof.
  intros Hl. induction ls as [|x ls IH]; [done|]. rewrite not_elem_of_cons in Hl.
  rewrite filter_cons_True by naive_solver. f_equal. naive_solver.
Qed.

Lemma release_head (l : lock) (ls : list lock) : l ∉ ls → filter (λ l', l' ≠ l) (l :: ls) = ls.
Proof. intros Hl. rewrite filter_cons_False by naive_solver. by apply filter_fresh. Qed.

(** A print, from any context in which its lock is free. *)
Definition print_code (l : lock) (args : list (list Z)) : list instr :=
  without_interrupts (with_lock l (Put l <$> args)).

Lemma exec_print l args c :
  l ∉ held c → exec (print_code l args) c = Some (log_more ((l,.) <$> args) c).
Proof.
  intros Hl. unfold print_code, without_interrupts, with_lock. cbn [app exec exec1 mbind option_bind].
  simpl. rewrite decide_False by done. simpl. rewrite <- app_assoc, exec_app, exec_puts by set_solver.
  simpl. rewrite release_head by done. by destruct c.
Qed.

Lemma exec_lock l c : l ∉ held c → exec (with_lock l []) c = Some c.
Proof.
  intros Hl. simpl. rewrite decide_False by done. simpl. rewrite release_head by done. by destruct c.
Qed.

(** In the middle of a print interrupts are off, and while its lock is free the
    log holds none of the message or all of it. *)
Lemma print_prefix l args c pre suf x :
  l ∉ held c → print_code l args = pre ++ suf → exec pre c = Some x →
  (pre = [] ∧ x = c)
  ∨ (suf = [] ∧ x = log_more ((l,.) <$> args) c)
  ∨ (iflag x = false
     ∧ (l ∈ held x ∨ log x = log c ∨ log x = log c ++ ((l,.) <$> args))).
Proof.
  intros Hl Hcode Hx. destruct pre as [|i0 pre]; [left; by injection Hx as <-|]. right.
  unfold print_code, without_interrupts, with_lock in Hcode. injection Hcode as <- Hcode.
  cbn [exec exec1 mbind option_bind] in Hx.
  destruct pre as [|i1 pre]; [injection Hx as <-; right; simpl; auto|].
  injection Hcode as <- Hcode. simpl in Hx. rewrite decide_False in Hx by done. simpl in Hx.
  rewrite <- app_assoc in Hcode. simpl in Hcode. symmetry in Hcode.
  apply app_eq_app in Hcode as (k & [[-> Hk]|[Hp Hk]]).
  - rewrite exec_app, exec_puts in Hx by set_solver. simpl in Hx.
    destruct k as [|i2 k]; [injection Hx as <-; right; simpl; split; [done|]; left; set_solver|].
    injection Hk as <- Hk. simpl in Hx. rewrite release_head in Hx by done.
    destruct k as [|i3 k]; [injection Hx as <-; right; simpl; auto|].
    injection Hk as <- Hk. symmetry in Hk. apply app_eq_nil in Hk as [-> ->].
    simpl in Hx. injection Hx as <-. left. by destruct c.
  - right. apply fmap_app_inv in Hp as (a1 & a2 & -> & -> & ->).
    rewrite exec_puts in Hx by set_solver. injection Hx as <-. simpl. split; [done|]. left. set_solver.
Qed.

(** * Calls and handlers *)

(** The thread between two calls; [h] are locks taken with interrupts on. *)
Definition quiet (h : list lock) (l : list (lock * list Z)) : context := mkCtx true [] h l.

Lemma exec_call c l : exec (call_code c) (quiet [] l) = Some (quiet [] (l ++ message c)).
Proof.
  destruct c; simpl call_code.
  - unfold serial_print_code. fold (print_code SERIAL1 args). rewrite exec_print; [done|set_solver].
  - unfold vga_print_code. fold (print_code WRITER args). rewrite exec_print; [done|set_solver].
  - unfold heap_code. rewrite exec_lock by set_solver. simpl. by rewrite app_nil_r.
Qed.

(** Devices nobody is writing to. *)
Definition devices_free (c : context) : Prop := (SERIAL1 ∉ held c) ∧ (WRITER ∉ held c).

(** Inside a call: when interrupts are on, only the allocator may be locked and
    nothing was put, whatever the log held before; when the devices are free,
    nothing or all of the message was put. *)
Lemma call_prefix c pre i suf l x :
  call_code c = pre ++ i :: suf → exec pre (quiet [] l) = Some x →
  (iflag x = true → ∃ h, h ⊆ [ALLOCATOR] ∧ ∀ l', exec pre (quiet [] l') = Some (quiet h l'))
  ∧ (devices_free x → log x = l ∨ log x = l ++ message c).
Proof.
  intros Hc Hx.
  assert (∀ d args, d = SERIAL1 ∨ d = WRITER → print_code d args = pre ++ i :: suf →
    (iflag x = true → ∃ h, h ⊆ [ALLOCATOR] ∧ ∀ l', exec pre (quiet [] l') = Some (quiet h l'))
    ∧ (devices_free x → log x = l ∨ log x = l ++ ((d,.) <$> args))) as Hprint.
  { intros d args Hd Hp. assert (d ∉ held (quiet [] l)) as Hfree by set_solver.
    destruct (print_prefix d args _ _ _ _ Hfree Hp Hx) as [[-> ->]|[[? _]|[Hif Hlog]]]; [|done|].
    - split; [intros _; exists []; split; [set_solver|done]|by left].
    - split; [congruence|]. intros [? ?]. destruct Hd as [-> | ->]; naive_solver. }
  destruct c; simpl in Hc; [by apply Hprint; [left|]|by apply Hprint; [right|]|].
  clear Hprint. unfold heap_code, with_lock in Hc. simpl in Hc.
  destruct pre as [|i0 [|i1 pre]]; simplify_eq/=.
  - split; [intros _; exists []; split; [set_solver|done]|by left].
  - split; [intros _; exists [ALLOCATOR]; split; [done|done]|by left].
  - by destruct pre.
Qed.

(** A handler, whatever the thread had locked with interrupts on. *)
Definition in_isr (h : list lock) (l : list (lock * list Z)) : context := mkCtx false [] h l.

Lemma exec_isr k h l :
  h ⊆ [ALLOCATOR] → exec (isr_code k) (in_isr h l) = Some (in_isr h (l ++ isr_message k)).
Proof.
  intros Hh. assert ((PICS ∉ h) ∧ (SERIAL1 ∉ h)) as [Hp Hs] by set_solver.
  destruct k as [|[w|]]; cbn [isr_code add_scancode_code isr_message app].
  - rewrite exec_lock by done. by rewrite app_nil_r.
  - rewrite exec_app. unfold serial_print_code. fold (print_code SERIAL1 (warning_args w)).
    rewrite exec_print by done. cbn [mbind option_bind]. by rewrite exec_lock.
  - rewrite exec_lock by done. by rewrite app_nil_r.
Qed.

Lemma isr_prefix k h l pre suf x :
  h ⊆ [ALLOCATOR] → isr_code k = pre ++ suf → exec pre (in_isr h l) = Some x → devices_free x →
  log x = l ∨ log x = l ++ isr_message k.
Proof.
  intros Hh Hc Hx Hfree. assert ((PICS ∉ h) ∧ (SERIAL1 ∉ h)) as [Hp Hs] by set_solver.
  assert (∀ p s c, with_lock PICS [] = p ++ s → PICS ∉ held c → exec p c = Some x → log x = log c) as Hlock.
  { intros p s c Hw Hn He. destruct p as [|i0 p]; [by injection He as <-|].
    apply (inj2 cons) in Hw as [<- Hw]. simpl in He. rewrite decide_False in He by done.
    destruct p as [|i1 p]; [by injection He as <-|]. apply (inj2 cons) in Hw as [<- Hw].
    destruct p; [|done]. simpl in He. by injection He as <-. }
  destruct k as [|[w|]]; cbn [isr_code add_scancode_code isr_message app] in *.
  - left. by eapply (Hlock _ _ (in_isr h l)).
  - symmetry in Hc. apply app_eq_app in Hc as (m & [[-> Hm]|[Hm _]]).
    + right. rewrite exec_app in Hx. unfold serial_print_code in Hx.
      fold (print_code SERIAL1 (warning_args w)) in Hx. rewrite exec_print in Hx by done.
      by apply (Hlock m suf (log_more _ (in_isr h l)) Hm Hp Hx).
    + destruct (print_prefix SERIAL1 (warning_args w) (in_isr h l) pre m x) as [[_ ->]|[[_ ->]|[_ Hlog]]];
        [done|done|done|by left|by right|]. destruct Hfree. naive_solver.
  - left. by eapply (Hlock _ _ (in_isr h l)).
Qed.

(** * The invariant *)

(** A record of the complete messages: those of the thread, in the order of its
    calls, among those of handlers. *)
Record history (done_ : list call) (ms : list (bool * list (lock * list Z))) : Prop := {
  hist_main : (filter (λ m, m.1 = true) ms).*2 = message <$> done_;
  hist_isr : Forall (λ m, ∃ h, m.2 = isr_message h) (filter (λ m, m.1 = false) ms);
}.

Definition flat (ms : list (bool * list (lock * list Z))) : list (lock * list Z) := concat (ms.*2).

Lemma flat_snoc ms b m : flat (ms ++ [(b, m)]) = flat ms ++ m.
Proof. unfold flat. rewrite fmap_app, concat_app. simpl. by rewrite app_nil_r. Qed.

Lemma history_call done_ ms c : history done_ ms → history (done_ ++ [c]) (ms ++ [(true, message c)]).
Proof.
  intros [Hm Hi]. split; rewrite filter_app.
  - rewrite fmap_app, Hm, fmap_app. by rewrite filter_cons_True.
  - by rewrite filter_cons_False, app_nil_r.
Qed.

Lemma history_isr done_ ms h : history done_ ms → history done_ (ms ++ [(false, isr_message h)]).
Proof.
  intros [Hm Hi]. split; rewrite filter_app.
  - by rewrite filter_cons_False, app_nil_r.
  - rewrite filter_cons_True by done. apply Forall_app. split; [done|]. apply Forall_singleton. by exists h.
Qed.

(** Where the thread is: at an instruction of the next call, or at its end. *)
Inductive at_call : list call → list instr → list instr → Prop :=
  | at_end : at_call [] [] []
  | at_instr c rest pre i suf : call_code c = pre ++ i :: suf →
      at_call (c :: rest) pre (i :: suf ++ program rest).

Lemma at_call_start rest : at_call rest [] (program rest).
Proof.
  destruct rest as [|c rest]; [constructor|]. unfold program. cbn [mbind list_bind].
  destruct c; eapply (at_instr _ _ []); reflexivity.
Qed.

Definition console_inv (calls : list call) (m : mach) : Prop :=
  ∃ done_ todo ms pre, calls = done_ ++ todo ∧ history done_ ms ∧ at_call todo pre (m_main m) ∧
    match m_isr m with
    | None => exec pre (quiet [] (flat ms)) = Some (m_ctx m)
    | Some hs => ∃ h k hpre, h ⊆ [ALLOCATOR]
        ∧ (∀ l, exec pre (quiet [] l) = Some (quiet h l))
        ∧ isr_code k = hpre ++ hs ∧ exec hpre (in_isr h (flat ms)) = Some (m_ctx m)
    end.

Lemma boot_inv calls : console_inv calls (boot calls).
Proof.
  exists [], calls, [], []. split; [done|]. split; [by split|]. split; [apply at_call_start|done].
Qed.

Lemma main_inv calls c i code c' :
  console_inv calls (mkMach c (i :: code) None) → exec1 i c = Some c' →
  console_inv calls (mkMach c' code None).
Proof.
  intros (done_ & todo & ms & pre & -> & Hh & Hat & Hx) Hi. simpl in Hat, Hx.
  inversion Hat as [|call rest ? ? suf Hcode]; subst.
  pose proof (exec_call call (flat ms)) as Hall. rewrite Hcode in Hall.
  destruct (exec_next _ _ _ _ _ _ Hall Hx) as (x' & Hi' & Hx').
  assert (x' = c') as -> by congruence. destruct suf as [|i' suf].
  - rewrite Hx' in Hall. injection Hall as ->.
    exists (done_ ++ [call]), rest, (ms ++ [(true, message call)]), []. simpl.
    split; [by rewrite <- app_assoc|]. split; [by apply history_call|].
    split; [apply at_call_start|]. by rewrite flat_snoc.
  - exists done_, (call :: rest), ms, (pre ++ [i]). simpl. split; [done|]. split; [done|].
    split; [|done]. apply at_instr. by rewrite <- app_assoc.
Qed.

Lemma interrupt_inv calls c code h :
  console_inv calls (mkMach c code None) → iflag c = true →
  console_inv calls (mkMach (with_flag false c) code (Some (isr_code h))).
Proof.
  intros (done_ & todo & ms & pre & -> & Hh & Hat & Hx) Hif. simpl in Hat, Hx.
  assert (∃ hl, hl ⊆ [ALLOCATOR] ∧ ∀ l, exec pre (quiet [] l) = Some (quiet hl l)) as (hl & Hhl & Hpre).
  { inversion Hat as [|call rest ? ? suf Hcode]; subst; [exists []; split; [set_solver|done]|].
    by apply (proj1 (call_prefix _ _ _ _ _ _ Hcode Hx)). }
  exists done_, todo, ms, pre. do 3 (split; [done|]). exists hl, h, []. do 2 (split; [done|]).
  split; [done|]. rewrite Hpre in Hx. by injection Hx as <-.
Qed.

Lemma isr_inv calls c code i hs c' :
  console_inv calls (mkMach c code (Some (i :: hs))) → exec1 i c = Some c' →
  console_inv calls (mkMach c' code (Some hs)).
Proof.
  intros (done_ & todo & ms & pre & -> & Hh & Hat & h & k & hpre & Hhl & Hpre & Hk & Hx) Hi. simpl in *.
  pose proof (exec_isr k h (flat ms) Hhl) as Hall. rewrite Hk in Hall.
  destruct (exec_next _ _ _ _ _ _ Hall Hx) as (x' & Hi' & Hx').
  exists done_, todo, ms, pre. do 3 (split; [done|]). exists h, k, (hpre ++ [i]).
  rewrite <- app_assoc. split_and!; [done..|]. simpl. congruence.
Qed.

Lemma iret_inv calls c code :
  console_inv calls (mkMach c code (Some [])) → console_inv calls (mkMach (with_flag true c) code None).
Proof.
  intros (done_ & todo & ms & pre & -> & Hh & Hat & h & k & hpre & Hhl & Hpre & Hk & Hx). simpl in *.
  rewrite app_nil_r in Hk. subst hpre. rewrite exec_isr in Hx by done. injection Hx as <-.
  exists done_, todo, (ms ++ [(false, isr_message k)]), pre. split; [done|].
  split; [by apply history_isr|]. split; [done|]. simpl. by rewrite flat_snoc, Hpre.
Qed.

Lemma console_inv_reach calls m : rtc mach_step (boot calls) m → console_inv calls m.
Proof.
  intros Hr. assert (∀ m', rtc mach_step m' m → console_inv calls m' → console_inv calls m) as Hall.
  2: { eapply Hall; [exact Hr|apply boot_inv]. }
  clear Hr. induction 1 as [|m1 m2 m3 Hs _ IH]; [done|]. intros Hinv. apply IH. clear IH.
  destruct Hs as [m1 m2 Hrun|]; [|by apply interrupt_inv].
  destruct Hrun; [by eapply main_inv|by eapply isr_inv|by apply iret_inv].
Qed.

(** C8: the kernel's locks never deadlock with its interrupt handlers. However
    timer and keyboard interrupts fall between the instructions of prints and
    heap calls, the running context, thread or handler, can always execute its
    next instruction: no handler meets a lock that the thread it interrupted
    holds. Prints are safe because they turn interrupts off, heap calls because
    no handler uses the heap. *)
Theorem locks_no_deadlock (calls : list call) (m : mach) (Hreach : rtc mach_step (boot calls) m) :
  (∃ m', run_step m m') ∨ (m_main m = [] ∧ m_isr m = None ∧ held (m_ctx m) = []).
Proof.
  destruct (console_inv_reach _ _ Hreach) as (done_ & todo & ms & pre & -> & Hh & Hat & Hm).
  destruct m as [c code [hs|]]; simpl in *.
  - left. destruct Hm as (h & k & hpre & Hhl & Hpre & Hk & Hx). destruct hs as [|i hs]; [eexists; constructor|].
    pose proof (exec_isr k h (flat ms) Hhl) as Hall. rewrite Hk in Hall.
    destruct (exec_next _ _ _ _ _ _ Hall Hx) as (x' & Hi' & _). eexists. by constructor.
  - inversion Hat as [|call rest ? i suf Hcode]; subst.
    + right. by injection Hm as <-.
    + left. pose proof (exec_call call (flat ms)) as Hall. rewrite Hcode in Hall.
      destruct (exec_next _ _ _ _ _ _ Hall Hm) as (x' & Hi' & _). eexists. by constructor.
Qed.

(** C29: output is not interleaved. Whenever neither device is being written to,
    what was put on the devices is a sequence of whole messages: those of the
    calls the thread has made so far, in order, and between them whole warnings
    of interrupt handlers. *)
Theorem messages_atomic (calls : list call) (m : mach)
    (Hreach : rtc mach_step (boot calls) m) (Hfree : devices_free (m_ctx m)) :
  ∃ done_ todo ms, calls = done_ ++ todo ∧ history done_ ms ∧ log (m_ctx m) = flat ms.
Proof.
  destruct (console_inv_reach _ _ Hreach) as (done_ & todo & ms & pre & -> & Hh & Hat & Hm).
  destruct (m_isr m) as [hs|].
  - destruct Hm as (h & k & hpre & Hhl & Hpre & Hk & Hx).
    destruct (isr_prefix k h (flat ms) hpre hs (m_ctx m)) as [-> | ->]; [done..|by exists done_, todo, ms|].
    exists done_, todo, (ms ++ [(false, isr_message k)]). split; [done|].
    split; [by apply history_isr|]. by rewrite flat_snoc.
  - inversion Hat as [|call rest ? i suf Hcode]; subst.
    { injection Hm as <-. by exists done_, [], ms. }
    destruct (proj2 (call_prefix _ _ _ _ _ _ Hcode Hm) Hfree) as [-> | ->]; [by exists done_, (call :: rest), ms|].
    exists (done_ ++ [call]), rest, (ms ++ [(true, message call)]).
    split; [by rewrite <- app_assoc|]. split; [by apply history_call|]. by rewrite flat_snoc.
Qed.

(** The allocator is locked, a scancode arrives and the handler has printed its
    warning. *)
Definition demo_calls : list call := [HeapCall; SerialPrint [[72]; [105]]].

Definition demo_mach : mach :=
  mkMach (mkCtx false [] [ALLOCATOR] (isr_message (KeyboardIsr (Some Full))))
    (Release ALLOCATOR :: program [SerialPrint [[72]; [105]]]) (Some (with_lock PICS [])).

Lemma demo_mach_reach : rtc mach_step (boot demo_calls) demo_mach.
Proof.
  eapply rtc_l; [apply step_run, run_main; reflexivity|].
  eapply rtc_l; [apply (step_interrupt _ _ (KeyboardIsr (Some Full))); reflexivity|].
  do 6 (eapply rtc_l; [apply step_run, run_isr; reflexivity|]). apply rtc_refl.
Qed.

Lemma locks_no_deadlock_witness : ∃ m', run_step demo_mach m'.
Proof.
  destruct (locks_no_deadlock demo_calls demo_mach demo_mach_reach) as [H|[H _]]; [exact H|].
  discriminate H.
Defined.

Lemma messages_atomic_witness :
  devices_free (m_ctx demo_mach) ∧
  ∃ done_ todo ms, demo_calls = done_ ++ todo ∧ history done_ ms ∧ log (m_ctx demo_mach) = flat ms.
Proof.
  assert (devices_free (m_ctx demo_mach)) as Hf by (split; simpl; set_solver).
  split; [exact Hf|]. exact (messages_atomic demo_calls demo_mach demo_mach_reach Hf).
Defined.
