(* ===== verification/Keypresses.v ===== *)
(** The tasks the kernel spawns, [example_task] of src/src/main.rs and
    [print_keypresses] of src/src/task/keyboard.rs, as futures, and the run of the
    executor while interrupts arrive: from the scancode to the printed character.
    An interrupt may come between any two accesses of a poll to what the handlers
    share with it. *)
From stdpp Require Import pretty.
From S2P Require Import Prelude Queue Keyboard Executor Interrupts Console.
Local Open Scope Z_scope.

(** * The decoder of the [pc_keyboard] crate *)
Inductive DecodedKey := RawKey (code : Z) | Unicode (character : Z).

Class PcKeyboard (K V : Type) := {
  Keyboard_new : K;
  add_byte : K → Z → result (option V) unit * K;
  process_keyevent : K → V → option DecodedKey * K;
}.

(** * The machine the tasks run on *)
Section world.
Context {G I P Q A : Type} `{IdtLaws I handler, PicsLaws P, ArrayQueue Q, AtomicWaker A}.

(** The registers, the interrupt controller, the statics of the keyboard, the
    characters printed so far, the warnings of [add_scancode] in order, and two
    histories: the requests that reached no handler are counted in [w_lost], the
    scancodes that were queued are in [w_queued]. [w_due] is what the devices will
    do: the requests that arrive at each of the next points. *)
Record world := mkWorld {
  w_regs : registers G I;
  w_pics : P;
  w_kbd : kbd Q A;
  w_out : list Z;
  w_warnings : list warning;
  w_lost : nat;
  w_queued : list Z;
  w_due : list (list request);
}.

Definition put_kbd (k : kbd Q A) (w : world) : world :=
  mkWorld (w_regs w) (w_pics w) k (w_out w) (w_warnings w) (w_lost w) (w_queued w) (w_due w).
Definition put_due (due : list (list request)) (w : world) : world :=
  mkWorld (w_regs w) (w_pics w) (w_kbd w) (w_out w) (w_warnings w) (w_lost w) (w_queued w) due.
Definition print (chars : list Z) (w : world) : world :=
  mkWorld (w_regs w) (w_pics w) (w_kbd w) (w_out w ++ chars) (w_warnings w) (w_lost w) (w_queued w) (w_due w).

(** What [add_scancode] prints. *)
Definition scancode_warning (k : kbd Q A) (scancode : Z) : option warning :=
  match SCANCODE_QUEUE k with
  | Some queue => match aq_push queue scancode with (Err _, _) => Some Full | (Ok _, _) => None end
  | None => Some Uninitialized
  end.

Definition request_warning (k : kbd Q A) (r : request) : option warning :=
  match r with Tick => None | Key c => scancode_warning k c end.

(** The scancodes a request adds to the queue. *)
Definition request_accepted (k : kbd Q A) (r : request) : list Z :=
  match r with Tick => [] | Key c => if accepts k c then [c] else [] end.

(** A request of a device: through the controller and the loaded table to the
    handler, if interrupts are on. *)
Definition serve (w : world) (r : request) : world :=
  let k := w_kbd w in
  let table := if interrupts_enabled (w_regs w) then idtr (w_regs w) else None in
  match table ≫= λ t, deliver t r (mkDevices (w_pics w) k) with
  | None =>
      mkWorld (w_regs w) (w_pics w) k (w_out w) (w_warnings w) (S (w_lost w)) (w_queued w) (w_due w)
  | Some d =>
      mkWorld (w_regs w) (pics d) (keyboard d) (w_out w)
        (w_warnings w ++ option_list (request_warning k r)) (w_lost w)
        (w_queued w ++ request_accepted k r) (w_due w)
  end.

Definition serve_all (rs : list request) (w : world) : world := foldl serve w rs.

(** A point between two accesses: the next requests that are due are served. *)
Definition point (w : world) : world :=
  match w_due w with
  | [] => w
  | rs :: due => serve_all rs (put_due due w)
  end.

(** The wakers called so far, which go to the executor's queue. No poll takes from
    that queue, so it does not matter that they go there at the end of the poll. *)
Definition flush (w : world) : list Z * world :=
  (woken (w_kbd w), put_kbd (mkKbd (SCANCODE_QUEUE (w_kbd w)) (SCANCODE_WAKER (w_kbd w)) []) w).

(** What happens around an iteration of the executor: the requests that arrive
    before it, and those that arrive at each point of its poll. *)
Definition round : Type := list request * list (list request).

(** Before an iteration: the requests for which the last poll had no point any
    more, then those of the round. *)
Definition arrive (it : round) (w : world) : world * list Z :=
  let w := serve_all it.1 (serve_all (concat (w_due w)) w) in
  let '(wakes, w) := flush (put_due it.2 w) in
  (w, wakes).
End world.
#[global] Arguments world : clear implicits.

(** * The futures *)
Section futures.
Context {G I P K V Q A : Type}.
Context `{IdtLaws I handler, PicsLaws P, PcKeyboard K V, ArrayQueue Q, AtomicWaker A}.
Implicit Types (w : world G I P Q A).

(** The states of the two [async] functions between polls: not yet polled,
    suspended in [scancodes.next().await] with the local [keyboard], finished. *)
Inductive future_state :=
  | ExampleTask
  | PrintKeypresses
  | AwaitingScancode (keyboard : K)
  | Returned.

Definition async_number_69 : Z := 69.

Definition example_line : list Z :=
  str_of "async number: " ++ str_of (pretty (Z.to_N async_number_69)) ++ [10].

(** The body of the loop of [print_keypresses]: the characters it prints. *)
Definition key_pressed (keyboard : K) (scancode : Z) : list Z * K :=
  let '(r, keyboard) := add_byte keyboard scancode in
  match r with
  | Ok (Some key_event) =>
      let '(o, keyboard) := process_keyevent keyboard key_event in
      match o with
      | Some (Unicode character) => ([character], keyboard)
      | Some (RawKey _) => ([], keyboard)
      | None => ([], keyboard)
      end
  | _ => ([], keyboard)
  end.

(** The loop, until the stream is pending. [fuel] bounds the scancodes one poll
    handles. *)
Fixpoint keys_loop (fuel : nat) (keyboard : K) (waker : Z) w :
    outcome (Poll * future_state * world G I P Q A) :=
  match fuel with
  | O => Panic PFuel
  | S fuel =>
      '(o, w) ← poll_next w_kbd put_kbd point waker w;
      match o with
      | None => Ret (Pending, AwaitingScancode keyboard, w)
      | Some scancode =>
          let '(chars, keyboard) := key_pressed keyboard scancode in
          keys_loop fuel keyboard waker (print chars (point w))
      end
  end.

(** Enough for the 100 scancodes the queue can hold and for those that will
    arrive. *)
Definition keys_fuel w : nat := 101 + length (scancodes_of (concat (w_due w))).

Definition resume (f : future_state) (waker : Z) w : outcome (Poll * future_state * world G I P Q A) :=
  match f with
  | ExampleTask =>
      let number := async_number_69 in
      Ret (Ready, Returned, print example_line (point w))
  | PrintKeypresses =>
      let w := point w in
      k ← ScancodeStream_new (w_kbd w);
      let w := put_kbd k w in
      keys_loop (keys_fuel w) Keyboard_new waker w
  | AwaitingScancode keyboard => keys_loop (keys_fuel w) keyboard waker w
  | Returned => Panic PExplicit
  end.

#[global] Instance kernel_future : Future future_state (world G I P Q A) := λ f waker w,
  '(r, f, w) ← resume f waker w;
  let '(wakes, w) := flush w in
  Ret (r, f, w, wakes).

(** The tail of [kernel_main]: the executor with its two tasks. *)
Definition spawn_tasks (NEXT_ID : Z) : outcome (Executor future_state Q) :=
  let executor := Executor_new in
  let '(task, NEXT_ID) := Task_new NEXT_ID ExampleTask in
  executor ← spawn executor task;
  let '(task, NEXT_ID) := Task_new NEXT_ID PrintKeypresses in
  spawn executor task.

(** [executor.run()], for as many iterations as there are rounds. *)
Definition run_rounds (env : list round) (e : Executor future_state Q) w :
    outcome (Executor future_state Q * world G I P Q A) :=
  '(_, e, w) ← run_with (arrive <$> env) e w;
  Ret (e, w).
End futures.
#[global] Arguments future_state : clear implicits.

(** What typing the scancodes [cs] prints. *)
Fixpoint decode {K V} `{PcKeyboard K V} (keyboard : K) (cs : list Z) : list Z * K :=
  match cs with
  | [] => ([], keyboard)
  | c :: cs =>
      let '(chars, keyboard) := key_pressed keyboard c in
      let '(more, keyboard) := decode keyboard cs in
      (chars ++ more, keyboard)
  end.

Section serving.
Context {G I P Q A : Type}.
Context `{IdtLaws I handler, PicsLaws P, ArrayQueueLaws Q, AtomicWakerLaws A}.
Implicit Types (w : world G I P Q A) (k : kbd Q A).

(** Interrupts are on, the kernel's table is loaded and the controller is
    ready. *)
Record running w : Prop := {
  run_enabled : interrupts_enabled (w_regs w) = true;
  run_table : idtr (w_regs w) = Some IDT;
  run_ready : ready (mkDevices (w_pics w) (w_kbd w));
}.

Lemma running_put_kbd k w : running w → running (put_kbd k w).
Proof. intros [? ? [? ? ?]]. split; [done..|by split]. Qed.
Lemma running_put_due due w : running w → running (put_due due w).
Proof. by intros [? ? ?]. Qed.
Lemma running_print chars w : running w → running (print chars w).
Proof. by intros [? ? ?]. Qed.

(** The keyboard after a request. *)
Definition after_request k (r : request) : kbd Q A :=
  match r with Tick => k | Key c => add_scancode k c end.

Lemma serve_running w r :
  running w → ∃ p, serve w r = mkWorld (w_regs w) p (after_request (w_kbd w) r) (w_out w)
      (w_warnings w ++ option_list (request_warning (w_kbd w) r)) (w_lost w)
      (w_queued w ++ request_accepted (w_kbd w) r) (w_due w)
    ∧ running (serve w r).
Proof.
  intros [Hen Htab Hrd]. destruct (deliver_ready (I := I) r _ Hrd) as (d & Hd & Hrd' & Hk).
  exists (pics d). unfold serve. rewrite Hen, Htab. cbn [mbind option_bind]. rewrite Hd.
  change (keyboard d = after_request (w_kbd w) r) in Hk. rewrite <- Hk. split; [done|].
  destruct d. by split.
Qed.

Lemma warning_accepted k r :
  (length (option_list (request_warning k r)) + length (request_accepted k r) = length (scancodes_of [r]))%nat.
Proof.
  destruct r as [|c]; [done|]. unfold request_warning, request_accepted, scancode_warning, accepts. simpl.
  destruct (SCANCODE_QUEUE k) as [q|]; [|done]. by destruct (aq_push q c) as [[]?].
Qed.

Lemma scancodes_of_app rs rs' : scancodes_of (rs ++ rs') = scancodes_of rs ++ scancodes_of rs'.
Proof. apply bind_app. Qed.

(** ** What is still to come, and what became of it *)
Definition due_codes w : list Z := scancodes_of (concat (w_due w)).
Definition dues w : nat := length (due_codes w).
Definition keys w : list Z := items (w_kbd w).
Definition wakes w : nat := length (woken (w_kbd w)).
Definition registered w : option Z := aw_waker (SCANCODE_WAKER (w_kbd w)).

(** Scancodes that were reported, queued or are still to come. *)
Definition tally w : nat := length (w_warnings w) + length (w_queued w) + dues w.

(** From [w] to [w'] requests were served, and the scancodes [cs] were added to
    those that are due. Each scancode calls at most one waker and is queued or reported; while
    there is room for all, all are queued, in order. *)
Record ledger (cs : list Z) w w' : Prop := {
  lg_wakes : (wakes w' + dues w' ≤ wakes w + dues w + length cs)%nat;
  lg_keys : (length (keys w') + dues w' ≤ length (keys w) + dues w + length cs)%nat;
  lg_queued : (length (w_queued w') + dues w' ≤ length (w_queued w) + dues w + length cs)%nat;
  lg_tally : tally w' = (tally w + length cs)%nat;
  lg_all : (length (keys w) + dues w + length cs ≤ 100)%nat →
    w_queued w' ++ due_codes w' = w_queued w ++ due_codes w ++ cs;
  lg_lost : w_lost w' = w_lost w;
}.

#[global] Instance ledger_refl : Reflexive (ledger []).
Proof. intros w. split; unfold tally; simpl; rewrite ?app_nil_r; lia || done. Qed.

Lemma ledger_trans cs cs' w1 w2 w3 : ledger cs w1 w2 → ledger cs' w2 w3 → ledger (cs ++ cs') w1 w3.
Proof.
  intros [] []. split; rewrite ?length_app; [lia..| |congruence].
  intros Hle. rewrite lg_all1 by lia. rewrite app_assoc, lg_all0 by lia. by rewrite <- !app_assoc.
Qed.

#[global] Instance ledger_transitive : Transitive (ledger []).
Proof. intros w1 w2 w3 H12 H23. exact (ledger_trans [] [] w1 w2 w3 H12 H23). Qed.

(** ** A machine on which the stream exists *)
Record live w : Prop := {
  lv_running : running w;
  lv_queue : ∃ q, SCANCODE_QUEUE (w_kbd w) = Some q ∧ aq_cap q = 100 ∧ (length (aq_items q) ≤ 100)%nat;
  lv_waker : registered w = None ∨ registered w = Some 1;
  lv_woken : Forall (eq 1) (woken (w_kbd w));
}.

(** A scancode is queued only where there is room. *)
Lemma accepts_room k c q :
  SCANCODE_QUEUE k = Some q → accepts k c = true → Z.of_nat (length (aq_items q)) < aq_cap q.
Proof.
  unfold accepts. intros ->. destruct (aq_push q c) as [r q'] eqn:Hp.
  apply aq_push_cases in Hp as [_ [(_ & _ & ?)|(-> & _)]]; done.
Qed.

(** The wake-up a served request calls: the registered waker, if it queues a
    scancode. *)
Lemma serve_live w r :
  live w → live (serve w r) ∧ w_out (serve w r) = w_out w ∧ w_due (serve w r) = w_due w
    ∧ w_lost (serve w r) = w_lost w
    ∧ ∃ a, keys (serve w r) = keys w ++ a ∧ w_queued (serve w r) = w_queued w ++ a
      ∧ (length (w_warnings (serve w r)) + length a = length (w_warnings w) + length (scancodes_of [r]))%nat
      ∧ (a = scancodes_of [r] ∨ a = [] ∧ 100 ≤ length (keys w))%nat
      ∧ ((a = [] ∧ registered (serve w r) = registered w ∧ wakes (serve w r) = wakes w)
         ∨ (length a = 1%nat ∧ registered (serve w r) = None
            ∧ wakes (serve w r) = (wakes w + length (option_list (registered w)))%nat)).
Proof.
  intros [Hrun (q & Hq & Hcap & Hlen) Hwk Hwo]. destruct (serve_running w r Hrun) as (p & Hs & Hrun').
  pose proof (warning_accepted (w_kbd w) r) as Hwa. unfold keys, registered, wakes in *.
  assert (items (w_kbd w) = aq_items q) as Hi by (unfold items; by rewrite Hq).
  rewrite Hs in *. simpl. destruct r as [|c]; simpl in *.
  { split; [by split; [|exists q|..]|]. split_and!; [done..|]. exists []. rewrite !app_nil_r. split_and!; try done; auto. }
  destruct (add_scancode_cases (w_kbd w) c q Hq)
    as [(Ha & Hk & Hfull)|(Ha & q' & Hq' & Hcap' & Hi' & Hw' & Hwo')]; rewrite Ha in *.
  - rewrite Hk in *. split; [by split; [|exists q|..]|]. split_and!; [done..|]. exists []. rewrite !app_nil_r.
    split_and!; try done; [rewrite length_app; cbn [length] in *; lia|right; rewrite Hi; split; [done|lia]|by left].
  - pose proof (accepts_room _ _ _ Hq Ha) as Hroom.
    split.
    { split; simpl; [done| |by left|].
      - exists q'. split; [done|]. split; [congruence|]. unfold items in Hi'. rewrite Hq', Hq in Hi'.
        rewrite Hi', length_app. simpl. lia.
      - unfold registered in *. rewrite Hwo'. apply Forall_app. split; [done|].
        destruct Hwk as [-> | ->]; simpl; by repeat constructor. }
    split_and!; [done..|]. exists [c]. rewrite Hi', Hwo', !length_app in *. simpl in *.
    split_and!; try done; [lia|by left|]. by right.
Qed.

(** The registered waker is called by the first scancode that is queued. *)
Lemma serve_all_live rs w :
  live w → let w' := serve_all rs w in
  live w' ∧ w_out w' = w_out w ∧ w_lost w' = w_lost w
    ∧ ∃ a, keys w' = keys w ++ a ∧ w_queued w' = w_queued w ++ a
      ∧ (length (w_warnings w') + length a = length (w_warnings w) + length (scancodes_of rs))%nat
      ∧ (length a ≤ length (scancodes_of rs))%nat
      ∧ (length (keys w) + length (scancodes_of rs) ≤ 100 → a = scancodes_of rs)%nat
      ∧ ((a = [] ∧ registered w' = registered w ∧ wakes w' = wakes w)
         ∨ (a ≠ [] ∧ registered w' = None
            ∧ wakes w' = (wakes w + length (option_list (registered w)))%nat)).
Proof.
  revert w. induction rs as [|r rs IH]; intros w Hw; cbv zeta.
  { split; [done|]. split_and!; [done..|]. exists []. rewrite !app_nil_r. by split_and!; auto. }
  destruct (serve_live w r Hw) as (Hw1 & Ho1 & _ & Hl1 & a & Hk1 & Hq1 & Hc1 & Ha1 & Hr1).
  destruct (IH (serve w r) Hw1) as (Hw2 & Ho2 & Hl2 & b & Hk2 & Hq2 & Hc2 & Hb2 & Ha2 & Hr2).
  change (serve_all (r :: rs) w) with (serve_all rs (serve w r)).
  change (r :: rs) with ([r] ++ rs). rewrite scancodes_of_app, length_app. split; [done|]. split_and!; [congruence..|]. exists (a ++ b).
  rewrite Hk2, Hq2, Hk1, Hq1, <- !app_assoc. rewrite length_app. split_and!; [done|done|lia| | |].
  - destruct Ha1 as [-> |[-> _]]; simpl; lia.
  - intros Hle. assert (a = scancodes_of [r]) as ->.
    { destruct Ha1 as [?|[-> ?]]; [done|]. destruct r as [|c]; [done|]. simpl in Hle. lia. }
    rewrite Ha2; [done|]. rewrite Hk1, length_app. lia.
  - destruct Hr1 as [(-> & Hg1 & Hn1)|(Hla & Hg1 & Hn1)], Hr2 as [(-> & Hg2 & Hn2)|(Hb & Hg2 & Hn2)].
    + left. split_and!; [done|congruence|lia].
    + right. split_and!; [done|done|]. rewrite Hn2, Hn1, Hg1. lia.
    + right. split_and!; [by destruct a|congruence|lia].
    + right. split_and!; [by destruct a|done|]. rewrite Hn2, Hn1, Hg1. simpl. lia.
Qed.

Lemma serve_put_due due w r : serve (put_due due w) r = put_due due (serve w r).
Proof. unfold serve. simpl. by destruct (_ ≫= _). Qed.

Lemma serve_all_put_due due rs w : serve_all rs (put_due due w) = put_due due (serve_all rs w).
Proof.
  unfold serve_all. revert w. induction rs as [|r rs IH]; intros w; simpl; [done|].
  by rewrite serve_put_due, IH.
Qed.

Lemma live_put_due due w : live w → live (put_due due w).
Proof. intros [? ? ? ?]. by split; [apply running_put_due|..]. Qed.

(** Serving requests in the order in which they are due. *)
Lemma served_ledger rs due cs w :
  live w → due_codes w ++ cs = scancodes_of rs ++ scancodes_of (concat due) →
  ledger cs w (put_due due (serve_all rs w)).
Proof.
  intros Hw Heq. destruct (serve_all_live rs w Hw) as (_ & _ & Hl & a & Hk & Hq & Hc & Hla & Ha & Hr).
  set (w' := serve_all rs w) in *. pose proof (f_equal length Heq) as Hlen. rewrite !length_app in Hlen.
  assert (keys (put_due due w') = keys w') as Hk' by done.
  assert (wakes (put_due due w') = wakes w') as Hwk' by done.
  assert (dues (put_due due w') = length (scancodes_of (concat due))) as Hd' by done.
  assert (wakes w' ≤ wakes w + length a)%nat as Hwa.
  { destruct Hr as [(-> & _ & ->)|(Hne & _ & ->)]; [lia|].
    destruct a; [done|]. destruct (registered w); simpl; lia. }
  change (length (due_codes w)) with (dues w) in Hlen.
  split; rewrite ?Hk', ?Hwk', ?Hd', ?Hk, ?length_app.
  - lia.
  - lia.
  - simpl. rewrite Hq, length_app. lia.
  - unfold tally. rewrite Hd'. simpl. rewrite Hq, length_app. lia.
  - intros Hle. simpl. rewrite Hq, Ha by lia. rewrite Heq. by rewrite <- app_assoc.
  - done.
Qed.

Lemma point_live w :
  live w → live (point w) ∧ w_out (point w) = w_out w ∧ ledger [] w (point w)
    ∧ ∃ a, keys (point w) = keys w ++ a ∧ w_queued (point w) = w_queued w ++ a
      ∧ (a = [] ∧ registered (point w) = registered w ∨ a ≠ []).
Proof.
  intros Hw. unfold point. destruct (w_due w) as [|rs due] eqn:Hdue.
  { split; [done|]. split; [done|]. split; [apply ledger_refl|]. exists []. rewrite !app_nil_r. auto. }
  rewrite serve_all_put_due. destruct (serve_all_live rs w Hw) as (Hw' & Ho & _ & a & Hk & Hq & _ & _ & _ & Hr).
  split; [by apply live_put_due|]. split; [done|]. split.
  - apply served_ledger; [done|]. unfold due_codes. rewrite Hdue, app_nil_r. simpl. apply scancodes_of_app.
  - exists a. split; [done|]. split; [done|]. destruct Hr as [(-> & ? & _)|(? & _)]; auto.
Qed.

(** ** The task's own accesses *)
Lemma ledger_put_kbd k w :
  (length (items k) ≤ length (keys w))%nat → woken k = woken (w_kbd w) → ledger [] w (put_kbd k w).
Proof.
  intros Hk Hw. unfold keys in Hk.
  split; unfold tally, wakes, keys, dues, due_codes; simpl; rewrite ?Hw, ?app_nil_r; lia || done.
Qed.

Lemma ledger_print chars w : ledger [] w (print chars w).
Proof. split; unfold tally, wakes, keys, dues, due_codes; simpl; rewrite ?app_nil_r; lia || done. Qed.

Lemma live_print chars w : live w → live (print chars w).
Proof. intros [? ? ? ?]. by split; [apply running_print|..]. Qed.

Lemma pop_live w :
  live w → ∃ o k, pop_queue (w_kbd w) = Ret (o, k) ∧ live (put_kbd k w) ∧ ledger [] w (put_kbd k w)
    ∧ registered (put_kbd k w) = registered w ∧ option_list o ++ items k = keys w
    ∧ (o = None → items k = []) ∧ woken k = woken (w_kbd w).
Proof.
  intros [Hrun (q & Hq & Hcap & Hlen) Hwk Hwo].
  destruct (pop_queue_cases (w_kbd w) q Hq) as (o & q' & Hpop & Hc' & Ho).
  exists o. eexists. split; [exact Hpop|].
  assert (keys w = aq_items q) as Hk by (unfold keys, items; by rewrite Hq).
  assert (option_list o ++ aq_items q' = aq_items q) as Hi.
  { destruct o as [x|]; [by rewrite Ho|]. by destruct Ho as [_ ->]. }
  split_and!.
  - split; simpl; [by apply running_put_kbd| |done..]. exists q'. split; [done|]. split; [congruence|].
    rewrite <- Hi, length_app in Hlen. lia.
  - apply ledger_put_kbd; [|done]. rewrite Hk, <- Hi, length_app. unfold items. simpl. lia.
  - done.
  - by rewrite Hk.
  - intros ->. destruct Ho as [? ->]. done.
  - done.
Qed.

Lemma register_live w :
  live w → let w' := put_kbd (register (w_kbd w) 1) w in
  live w' ∧ ledger [] w w' ∧ keys w' = keys w ∧ registered w' = Some 1.
Proof.
  intros [Hrun Hq Hwk Hwo] w'. assert (registered w' = Some 1) as Hr by apply aw_register_some.
  split; [split; [by apply running_put_kbd|done|by right|done]|]. split; [|done]. by apply ledger_put_kbd.
Qed.

Lemma take_live w :
  live w → let w' := put_kbd (take_waker (w_kbd w)) w in
  live w' ∧ ledger [] w w' ∧ keys w' = keys w.
Proof.
  intros [Hrun Hq Hwk Hwo] w'. split; [split; [by apply running_put_kbd|done| |done]|].
  - left. apply (aw_take_law (SCANCODE_WAKER (w_kbd w))).
  - split; [|done]. by apply ledger_put_kbd.
Qed.

(** [poll_next] among interrupts: it returns the oldest scancode, or, with the
    queue empty, [Pending] with the waker registered. *)
Lemma poll_next_live w :
  live w → ∃ o w', poll_next w_kbd put_kbd point 1 w = Ret (o, w') ∧ live w' ∧ w_out w' = w_out w
    ∧ ledger [] w w' ∧ ∃ a, w_queued w' = w_queued w ++ a ∧
    match o with
    | Some c => keys w ++ a = c :: keys w'
    | None => keys w = [] ∧ a = [] ∧ keys w' = [] ∧ registered w' = Some 1
    end.
Proof.
  intros Hw. unfold poll_next.
  destruct (point_live w Hw) as (Hw1 & Ho1 & Hl1 & a1 & Hk1 & Hq1 & _). set (w1 := point w) in *.
  destruct (pop_live w1 Hw1) as (o1 & k1 & -> & Hw2 & Hl2 & Hr2 & Hk2 & Hn2 & _). cbn [mbind outcome_bind].
  set (w2 := put_kbd k1 w1) in *. pose proof (ledger_transitive _ _ _ Hl1 Hl2) as Hl12.
  destruct o1 as [c|].
  { exists (Some c), w2. split_and!; try done. exists a1. split; [done|]. by rewrite <- Hk1, <- Hk2. }
  specialize (Hn2 eq_refl). rewrite Hk1, Hn2 in Hk2. simpl in Hk2. symmetry in Hk2. apply app_nil in Hk2 as [Hk0 ->].
  destruct (point_live w2 Hw2) as (Hw3 & Ho3 & Hl3 & a3 & Hk3 & Hq3 & _). set (w3 := point w2) in *.
  destruct (register_live w3 Hw3) as (Hw4 & Hl4 & Hk4 & Hr4). set (w4 := put_kbd (register _ _) w3) in *.
  destruct (point_live w4 Hw4) as (Hw5 & Ho5 & Hl5 & a5 & Hk5 & Hq5 & Hr5). set (w5 := point w4) in *.
  destruct (pop_live w5 Hw5) as (o2 & k2 & -> & Hw6 & Hl6 & Hr6 & Hk6 & Hn6 & _). cbn [mbind outcome_bind].
  set (w6 := put_kbd k2 w5) in *.
  assert (ledger [] w w6) as Hl by (etrans; [exact Hl12|]; etrans; [exact Hl3|]; etrans; [exact Hl4|]; etrans; [exact Hl5|exact Hl6]).
  assert (keys w2 = []) as Hk2' by exact Hn2. rewrite Hk4, Hk3, Hk2' in Hk5. simpl in Hk5.
  assert (w_queued w6 = w_queued w ++ a3 ++ a5) as Hq.
  { change (w_queued w6) with (w_queued w5). rewrite Hq5. change (w_queued w4) with (w_queued w3). rewrite Hq3.
    change (w_queued w2) with (w_queued w1). by rewrite Hq1, app_nil_r, app_assoc. }
  assert (w_out w6 = w_out w) as Ho.
  { change (w_out w6) with (w_out w5). rewrite Ho5. change (w_out w4) with (w_out w3). rewrite Ho3. exact Ho1. }
  destruct o2 as [c|].
  - destruct (point_live w6 Hw6) as (Hw7 & Ho7 & Hl7 & a7 & Hk7 & Hq7 & _).
    destruct (take_live _ Hw7) as (Hw8 & Hl8 & Hk8). do 2 eexists. split; [reflexivity|].
    split; [exact Hw8|]. split; [simpl; congruence|].
    split; [etrans; [exact Hl|]; etrans; [exact Hl7|exact Hl8]|].
    exists (a3 ++ a5 ++ a7). split; [simpl; rewrite Hq7, Hq; by rewrite <- !app_assoc|].
    rewrite Hk8, Hk7, Hk0. simpl. rewrite app_assoc, <- Hk5, <- Hk6. done.
  - specialize (Hn6 eq_refl). rewrite Hn6 in Hk6. rewrite Hk5 in Hk6. simpl in Hk6. symmetry in Hk6.
    apply app_nil in Hk6 as [-> ->]. do 2 eexists. split; [reflexivity|]. split_and!; try done.
    exists []. split_and!; try done. rewrite Hr6. destruct Hr5 as [[_ Hr5]|?]; [congruence|done].
Qed.
End serving.

Section keypresses.
Context {G I P K V Q A : Type}.
Context `{IdtLaws I handler, PicsLaws P, PcKeyboard K V, ArrayQueueLaws Q, AtomicWakerLaws A}.
Implicit Types (w : world G I P Q A) (e : Executor (future_state K) Q) (k : K).

Lemma decode_app k cs cs' :
  decode k (cs ++ cs') =
    ((decode k cs).1 ++ (decode (decode k cs).2 cs').1, (decode (decode k cs).2 cs').2).
Proof.
  revert k. induction cs as [|c cs IH]; intros k; simpl; [by destruct (decode k cs')|].
  destruct (key_pressed k c) as [chars k1]. rewrite IH.
  destruct (decode k1 cs) as [more k2]. simpl. by rewrite <- app_assoc.
Qed.

(** One poll handles the scancodes that wait and those that arrive meanwhile, and
    registers the waker. *)
Lemma keys_loop_live fuel k w :
  live w → (length (keys w) + dues w < fuel)%nat →
  ∃ a w', let cs := keys w ++ a in
    keys_loop fuel k 1 w = Ret (Pending, AwaitingScancode (decode k cs).2, w')
    ∧ live w' ∧ w_out w' = w_out w ++ (decode k cs).1 ∧ ledger [] w w'
    ∧ w_queued w' = w_queued w ++ a ∧ keys w' = [] ∧ registered w' = Some 1.
Proof.
  revert k w. induction fuel as [|fuel IH]; intros k w Hw Hf; [lia|]. cbn [keys_loop].
  destruct (poll_next_live w Hw) as (o & w1 & -> & Hw1 & Ho1 & Hl1 & a1 & Hq1 & Hr1). cbn [mbind outcome_bind].
  destruct o as [c|].
  2: { destruct Hr1 as (Hk & -> & Hk1 & Hg1). exists [], w1. rewrite Hk. simpl. rewrite app_nil_r in Hq1.
       rewrite !app_nil_r. by split_and!. }
  destruct (key_pressed k c) as [chars k1] eqn:Hc.
  destruct (point_live w1 Hw1) as (Hw2 & Ho2 & Hl2 & a2 & Hk2 & Hq2 & _).
  pose proof (f_equal length Hr1) as Hlen. rewrite length_app in Hlen. simpl in Hlen.
  pose proof (lg_queued _ _ _ Hl1) as Hqd. rewrite Hq1, length_app in Hqd. simpl in Hqd.
  destruct (IH k1 (print chars (point w1))) as (a3 & w3 & Hrun & Hw3 & Ho3 & Hl3 & Hq3 & Hk3 & Hg3).
  { by apply live_print. }
  { pose proof (lg_keys _ _ _ Hl2) as Hkd. change (keys (print chars (point w1))) with (keys (point w1)).
    change (dues (print chars (point w1))) with (dues (point w1)). simpl in Hkd. lia. }
  change (keys (print chars (point w1))) with (keys (point w1)) in *. simpl in Hq3, Ho3.
  exists (a1 ++ a2 ++ a3), w3. cbv zeta.
  replace (keys w ++ a1 ++ a2 ++ a3) with (c :: keys (point w1) ++ a3)
    by (rewrite Hk2, app_comm_cons, app_comm_cons, <- Hr1, <- !app_assoc; done).
  cbn [decode]. rewrite Hc. destruct (decode k1 (keys (point w1) ++ a3)) as [more k2]. simpl in *.
  split_and!; [done|done| | | |done|done].
  - by rewrite Ho3, Ho2, Ho1, <- app_assoc.
  - etrans; [exact Hl1|]. etrans; [exact Hl2|]. etrans; [apply ledger_print|exact Hl3].
  - by rewrite Hq3, Hq2, Hq1, <- !app_assoc.
Qed.

Lemma keys_loop_S fuel k me w :
  keys_loop (S fuel) k me w =
    ('(o, w) ← poll_next w_kbd put_kbd point me w;
     match o with
     | None => Ret (Pending, AwaitingScancode k, w)
     | Some c => let '(chars, k) := key_pressed k c in keys_loop fuel k me (print chars (point w))
     end).
Proof. done. Qed.

#[local] Arguments keys_loop : simpl never.

Lemma live_keys w : live w → (length (keys w) ≤ 100)%nat.
Proof. intros [_ (q & Hq & _ & Hl) _ _]. unfold keys, items. by rewrite Hq. Qed.

Lemma keys_fuel_enough w : live w → (length (keys w) + dues w < keys_fuel w)%nat.
Proof. intros Hw. apply live_keys in Hw. unfold keys_fuel, dues, due_codes. lia. Qed.

Lemma live_flush w : live w → live (flush w).2.
Proof. intros [? ? ? ?]. split; [by apply running_put_kbd|done..|constructor]. Qed.

Lemma ledger_flush w : ledger [] w (flush w).2.
Proof.
  split; unfold tally, wakes, keys, items, dues, due_codes; simpl; rewrite ?app_nil_r; lia || done.
Qed.

(** ** Iterations of the executor *)

(** The scancodes of a round. *)
Definition codes_of (it : round) : list Z := scancodes_of (it.1 ++ concat it.2).

(** Between two iterations, once the stream exists: the task waits with its waker
    registered, everything queued so far is printed, and the executor's queue holds
    only wake-ups of this task; [b] bounds them, counting those that the requests
    still due may cause. *)
Record awaiting (b : nat) e w : Prop := {
  aw_live : live w;
  aw_keys : keys w = [];
  aw_waker : registered w = Some 1;
  aw_woken : woken (w_kbd w) = [];
  aw_out : w_out w = example_line ++ (decode (Keyboard_new : K) (w_queued w)).1;
  aw_task : tasks e !! 1 = Some (mkTask 1 (AwaitingScancode (decode Keyboard_new (w_queued w)).2));
  aw_cache : waker_cache e !! 1 = Some 1;
  aw_cap : aq_cap (task_queue e) = 100;
  aw_queue : ∃ n, aq_items (task_queue e) = replicate n 1 ∧ (n + dues w ≤ b)%nat;
}.

Lemma woken_replicate w : live w → woken (w_kbd w) = replicate (wakes w) 1.
Proof.
  intros [_ _ _ Hw]. unfold wakes. induction Hw as [|x l <- _ IH]; simpl; [done|by f_equal].
Qed.

(** The requests before an iteration are served in order. *)
Lemma arrive_served it w :
  live w → let w1 := put_due it.2 (serve_all (concat (w_due w) ++ it.1) w) in
  arrive it w = ((flush w1).2, woken (w_kbd w1)) ∧ live w1 ∧ ledger (codes_of it) w w1.
Proof.
  intros Hw w1. split; [|split].
  - unfold arrive, w1, serve_all. by rewrite foldl_app.
  - apply live_put_due. by apply serve_all_live.
  - apply served_ledger; [done|]. unfold codes_of, due_codes. rewrite !scancodes_of_app. by rewrite <- !app_assoc.
Qed.

(** What the requests before an iteration do. *)
Lemma arrive_awaiting b e w it :
  awaiting b e w → ∃ a n, let w1 := (arrive it w).1 in
    (arrive it w).2 = replicate n 1 ∧ (n = 0%nat ∧ a = [] ∨ n = 1%nat) ∧ (n ≤ dues w + length (scancodes_of it.1))%nat
    ∧ live w1 ∧ woken (w_kbd w1) = [] ∧ w_out w1 = w_out w ∧ w_queued w1 = w_queued w ++ a ∧ keys w1 = a
    ∧ w_due w1 = it.2 ∧ (n = 0%nat → registered w1 = Some 1) ∧ ledger (codes_of it) w w1
    ∧ ((dues w + length (scancodes_of it.1) ≤ 100)%nat → a = due_codes w ++ scancodes_of it.1).
Proof.
  intros Hw. pose proof (aw_live _ _ _ Hw) as Hl. destruct (arrive_served it w Hl) as (Heq & _ & Hled).
  cbv zeta. rewrite Heq. simpl. set (rs := concat (w_due w) ++ it.1) in *.
  destruct (serve_all_live rs w Hl) as (Hl1 & Ho & _ & a & Hk & Hq & _ & Hla & Hall & Hr).
  rewrite (aw_keys _ _ _ Hw) in Hk. rewrite (aw_waker _ _ _ Hw) in Hr.
  assert (wakes w = 0%nat) as Hw0 by (unfold wakes; by rewrite (aw_woken _ _ _ Hw)). rewrite Hw0 in Hr.
  exists a, (wakes (serve_all rs w)). split; [by apply woken_replicate|].
  assert (length (scancodes_of rs) = dues w + length (scancodes_of it.1))%nat as Hrs
    by (unfold rs; by rewrite scancodes_of_app, length_app). rewrite Hrs in Hla.
  split_and!; try done.
  - destruct Hr as [(-> & _ & ->)|(_ & _ & ->)]; auto.
  - destruct Hr as [(-> & _ & ->)|(Ha & _ & ->)]; [lia|]. destruct a; [done|]. simpl in *. lia.
  - by apply (live_flush (put_due it.2 (serve_all rs w))), live_put_due.
  - intros Hn. destruct Hr as [(_ & ? & _)|(_ & _ & Hn')]; [done|]. rewrite Hn' in Hn. simpl in Hn. lia.
  - rewrite <- (app_nil_r (codes_of it)). eapply ledger_trans; [exact Hled|apply ledger_flush].
  - intros Hle. rewrite Hall; [apply scancodes_of_app|]. rewrite (aw_keys _ _ _ Hw), Hrs. exact Hle.
Qed.

(** How many wake-ups may be in the executor's queue after a round, if there were
    at most [b] before: one is taken, the requests before the iteration add at most
    one, for the waker is registered once, and each scancode inside a poll may add
    one. *)
Definition backlog (b : nat) (it : round) : nat :=
  pred (b + min 1 (length (scancodes_of it.1))) + length (scancodes_of (concat it.2)).

(** The queue of 100 is never exceeded. *)
Fixpoint calm (b : nat) (env : list round) : bool :=
  match env with
  | [] => b <=? 100
  | it :: env =>
      (b + min 1 (length (scancodes_of it.1)) <=? 100) && calm (backlog b it) env
  end%nat.

Lemma calm_le b env : calm b env = true → (b ≤ 100)%nat.
Proof. destruct env; simpl; rewrite ?andb_true_iff, ?Nat.leb_le; lia. Qed.

Lemma calm_mono b b' env : (b ≤ b')%nat → calm b' env = true → calm b env = true.
Proof.
  revert b b'. induction env as [|it env IH]; intros b b' Hle; simpl; rewrite ?andb_true_iff, ?Nat.leb_le; [lia|].
  intros [Hb Hc]. split; [lia|]. eapply IH; [|exact Hc]. unfold backlog. lia.
Qed.

(** With at most one scancode per round it is not. *)
Lemma slow_calm b env :
  (b ≤ 2)%nat → Forall (λ it, (length (codes_of it) ≤ 1)%nat) env → calm b env = true.
Proof.
  intros Hb Henv. revert b Hb. induction Henv as [|it env Hit _ IH]; intros b Hb; simpl.
  { apply Nat.leb_le. lia. }
  unfold codes_of in Hit. rewrite scancodes_of_app, length_app in Hit.
  rewrite andb_true_iff, Nat.leb_le. split; [case_match; lia|]. apply IH. unfold backlog. lia.
Qed.

(** One iteration with the requests around it. *)
Lemma round_awaiting b e w it :
  awaiting b e w → (b + min 1 (length (scancodes_of it.1)) ≤ 100)%nat → (backlog b it ≤ 100)%nat →
  ∃ q ev e' w', wake_all (task_queue e) (arrive it w).2 = Ret q
    ∧ run_one (mkExecutor (tasks e) q (waker_cache e)) (arrive it w).1 = Ret (ev, e', w')
    ∧ awaiting (backlog b it) e' w' ∧ ledger (codes_of it) w w'
    ∧ (dues w' ≤ length (scancodes_of (concat it.2)))%nat.
Proof.
  intros Hw Hb Hb'. destruct (arrive_awaiting b e w it Hw) as (a & n & Hws & Hn & Hnd & Hl1 & Hwk1 & Ho1 & Hq1 & Hk1 & Hdue1 & Hreg1 & Hled1 & _).
  set (w1 := (arrive it w).1) in *. clearbody w1. destruct Hw as [_ _ _ _ Hout Htask Hcache Hcap (L & HL & HLb)].
  assert (dues w1 = length (scancodes_of (concat it.2))) as Hd1 by (unfold dues, due_codes; by rewrite Hdue1).
  assert (L + n ≤ b + min 1 (length (scancodes_of it.1)))%nat as HLn by lia.
  rewrite Hws. destruct (proj1 (wake_all_spec (replicate n 1) (task_queue e))) as (q & -> & Hiq & Hcq).
  { rewrite HL, Hcap, !length_replicate. lia. }
  rewrite HL, <- replicate_add in Hiq. exists q. unfold run_one. cbn [task_queue tasks waker_cache].
  destruct (L + n)%nat as [|m] eqn:HLn'; simpl in Hiq.
  - rewrite aq_pop_empty by done. do 3 eexists. split; [reflexivity|]. split; [reflexivity|].
    assert (n = 0%nat) as -> by lia. destruct Hn as [[_ ->]|?]; [|lia]. rewrite app_nil_r in Hq1.
    split; [|split; [done|lia]]. split; cbn [tasks task_queue waker_cache]; rewrite ?Hq1; try done; [by apply Hreg1|congruence|congruence|].
    exists 0%nat. split; [done|]. unfold backlog. lia.
  - destruct (aq_pop_cons _ _ _ Hiq) as (q1 & -> & Hi1 & Hc1). rewrite Htask, Hcache.
    unfold Task_poll, poll, kernel_future, resume. cbn [future default id].
    destruct (keys_loop_live (keys_fuel w1) (decode Keyboard_new (w_queued w)).2 w1 Hl1 (keys_fuel_enough w1 Hl1))
      as (a2 & w2 & Hrun & Hl2 & Ho2 & Hled2 & Hq2 & Hk2 & Hreg2). cbv zeta in Hrun, Ho2.
    change (Datatypes.id 1) with 1. rewrite Hrun. cbn [mbind outcome_bind flush].
    pose proof (lg_wakes _ _ _ Hled2) as Hwk. unfold wakes in Hwk at 2. rewrite Hwk1 in Hwk. simpl in Hwk.
    destruct (proj1 (wake_all_spec (woken (w_kbd w2)) q1)) as (q2 & -> & Hi2 & Hc2).
    { change (length (woken (w_kbd w2))) with (wakes w2). rewrite Hi1, Hc1, Hcq, Hcap, length_replicate.
      unfold backlog in Hb'. lia. }
    cbn [mbind outcome_bind]. do 3 eexists. split; [reflexivity|]. split; [reflexivity|].
    assert (w_queued w2 = w_queued w ++ keys w1 ++ a2) as Hq by (by rewrite Hq2, Hq1, Hk1, <- app_assoc).
    rewrite (woken_replicate w2 Hl2), Hi1, <- replicate_add in Hi2.
    pose proof (lg_queued _ _ _ Hled2) as Hqd. rewrite Hq2, length_app in Hqd. simpl in Hqd.
    split; [|split].
    + pose proof (live_flush w2 Hl2) as Hl2'. split; cbn [tasks task_queue waker_cache flush snd w_out w_queued put_kbd]; 
        rewrite ?lookup_insert_eq, ?Hq, ?(decode_app _ (w_queued w)); try done.
      * by rewrite Ho2, Ho1, Hout, <- app_assoc.
      * congruence.
      * exists (m + wakes w2)%nat. split; [done|]. change (dues _) with (dues w2). unfold backlog. lia.
    + rewrite <- (app_nil_r (codes_of it)). eapply ledger_trans; [exact Hled1|].
      etrans; [exact Hled2|apply (ledger_flush w2)].
    + change (dues _) with (dues w2). lia.
Qed.

(** What may be due after a run: what its last poll had no point for. *)
Definition left_due (n : nat) (env : list round) : nat :=
  default n ((λ it, length (scancodes_of (concat it.2))) <$> last env).

Lemma rounds_awaiting env b e w :
  awaiting b e w → calm b env = true →
  ∃ evs e' w' b', run_with (arrive <$> env) e w = Ret (evs, e', w') ∧ awaiting b' e' w'
    ∧ (dues w' ≤ left_due (dues w) env)%nat
    ∧ tally w' = (tally w + length (concat (codes_of <$> env)))%nat ∧ w_lost w' = w_lost w
    ∧ ((dues w ≤ 50)%nat → Forall (λ it, (length (codes_of it) ≤ 50)%nat) env →
       w_queued w' ++ due_codes w' = w_queued w ++ due_codes w ++ concat (codes_of <$> env)).
Proof.
  revert b e w. induction env as [|it env IH]; intros b e w Hw Hc.
  { exists [], e, w, b. simpl. rewrite app_nil_r. split_and!; [done|done|unfold left_due; simpl; lia|lia|done|done]. }
  simpl in Hc. apply andb_true_iff in Hc as [Hb Hc]. apply Nat.leb_le in Hb.
  destruct (round_awaiting b e w it Hw Hb (calm_le _ _ Hc)) as (q & ev & e1 & w1 & Hwk & Hrun & Hw1 & Hled & Hd1).
  destruct (IH _ e1 w1 Hw1 Hc) as (evs & e2 & w2 & b2 & Hrec & Hw2 & Hdue & Ht & Hlost & Hall).
  cbn [fmap list_fmap run_with]. destruct (arrive it w) as [w0 ws]. simpl in Hwk, Hrun.
  rewrite Hwk. cbn [mbind outcome_bind]. rewrite Hrun. cbn [mbind outcome_bind]. rewrite Hrec.
  cbn [mbind outcome_bind]. exists (ev :: evs), e2, w2, b2. split_and!; try done.
  - etrans; [exact Hdue|]. unfold left_due. rewrite last_cons. by destruct (last env).
  - rewrite Ht, (lg_tally _ _ _ Hled). cbn [concat]. rewrite length_app. lia.
  - rewrite Hlost. apply (lg_lost _ _ _ Hled).
  - intros Hd Hf. apply Forall_cons in Hf as [Hit Hf].
    assert (length (codes_of it) = length (scancodes_of it.1) + length (scancodes_of (concat it.2)))%nat as Hlen
      by (unfold codes_of; by rewrite scancodes_of_app, length_app).
    rewrite Hall by (done || lia). cbn [concat]. rewrite app_assoc, (lg_all _ _ _ Hled), <- !app_assoc; [done|].
    rewrite (aw_keys _ _ _ Hw). simpl. lia.
Qed.

(** ** Before the stream exists *)
Record early w : Prop := {
  ea_running : running w;
  ea_queue : SCANCODE_QUEUE (w_kbd w) = None;
  ea_waker : registered w = None;
  ea_woken : woken (w_kbd w) = [];
}.

(** Scancodes are dropped with a warning. *)
Lemma serve_all_early rs w :
  early w → let w' := serve_all rs w in
  early w' ∧ w_out w' = w_out w ∧ w_queued w' = w_queued w ∧ w_due w' = w_due w ∧ w_lost w' = w_lost w
    ∧ length (w_warnings w') = (length (w_warnings w) + length (scancodes_of rs))%nat.
Proof.
  revert w. induction rs as [|r rs IH]; intros w Hw; cbv zeta; [simpl; by rewrite Nat.add_0_r|].
  change (serve_all (r :: rs) w) with (serve_all rs (serve w r)).
  destruct (serve_running w r (ea_running _ Hw)) as (p & Hs & Hrun).
  pose proof (warning_accepted (w_kbd w) r) as Hwa.
  assert (request_accepted (w_kbd w) r = []) as Ha.
  { destruct r; [done|]. unfold request_accepted, accepts. by rewrite (ea_queue _ Hw). }
  assert (after_request (w_kbd w) r = w_kbd w) as Hk.
  { destruct r; [done|]. unfold after_request, add_scancode. by rewrite (ea_queue _ Hw). }
  rewrite Ha, Hk, app_nil_r in Hs. rewrite Ha in Hwa. simpl in Hwa.
  assert (early (serve w r)) as Hw1.
  { split; [done|..]; unfold registered; rewrite Hs; apply Hw. }
  destruct (IH _ Hw1) as (Hw2 & Ho & Hq & Hd & Hl & Hn). change (r :: rs) with ([r] ++ rs).
  rewrite scancodes_of_app, length_app. split; [exact Hw2|]. rewrite Ho, Hq, Hd, Hl, Hn, Hs. simpl.
  split_and!; try done. rewrite length_app. lia.
Qed.

Lemma early_put_due due w : early w → early (put_due due w).
Proof. intros [? ? ? ?]. by split; [apply running_put_due|..]. Qed.

Lemma point_early w :
  early w → early (point w) ∧ w_out (point w) = w_out w ∧ w_queued (point w) = w_queued w
    ∧ w_due (point w) = tail (w_due w) ∧ w_lost (point w) = w_lost w ∧ tally (point w) = tally w.
Proof.
  intros Hw. unfold point. destruct (w_due w) as [|rs due] eqn:Hdue; [by split_and!|].
  destruct (serve_all_early rs (put_due due w)) as (Hw1 & Ho & Hq & Hd & Hl & Hn); [by apply early_put_due|].
  rewrite Ho, Hq, Hd, Hl. split_and!; try done. unfold tally, dues, due_codes. rewrite Hn, Hq, Hd, Hdue.
  simpl. rewrite scancodes_of_app, length_app. lia.
Qed.

Lemma arrive_early it w :
  early w → let w1 := (arrive it w).1 in
  (arrive it w).2 = [] ∧ early w1 ∧ w_out w1 = w_out w ∧ w_queued w1 = w_queued w ∧ w_due w1 = it.2
    ∧ w_lost w1 = w_lost w ∧ tally w1 = (tally w + length (codes_of it))%nat.
Proof.
  intros Hw. unfold arrive. simpl.
  destruct (serve_all_early (concat (w_due w)) w Hw) as (Hw1 & Ho1 & Hq1 & Hd1 & Hl1 & Hn1).
  destruct (serve_all_early it.1 _ Hw1) as (Hw2 & Ho2 & Hq2 & Hd2 & Hl2 & Hn2).
  set (w2 := serve_all it.1 _) in *. split; [apply Hw2|]. split.
  { split; simpl; [|apply Hw2|apply Hw2|done]. apply running_put_kbd, running_put_due, Hw2. }
  split_and!; simpl; [congruence..|]. unfold tally, dues, due_codes, codes_of. simpl.
  rewrite Hn2, Hn1, Hq2, Hq1, !scancodes_of_app, !length_app. lia.
Qed.

(** ** The first two iterations *)
Lemma spawn_tasks_spec :
  ∃ e, spawn_tasks 0 = Ret e ∧ aq_items (task_queue e) = [0; 1] ∧ aq_cap (task_queue e) = 100
    ∧ tasks e !! 0 = Some (mkTask 0 ExampleTask) ∧ tasks e !! 1 = Some (mkTask 1 (PrintKeypresses : future_state K))
    ∧ waker_cache e = ∅.
Proof.
  unfold spawn_tasks, Task_new, TaskId_new, spawn, push_expect, Executor_new. cbn [tasks id].
  destruct (aq_new_items (Q := Q) 100) as [Hi Hc]; [lia|]. rewrite lookup_empty. cbn [task_queue].
  destruct (aq_push_ok (aq_new 100 : Q) 0) as (q1 & -> & Hi1 & Hc1); [rewrite Hi, Hc; simpl; lia|].
  cbn [expect mbind outcome_bind tasks]. change ((0 + 1) mod 2 ^ 64) with 1.
  rewrite lookup_insert_ne, lookup_empty by done. cbn [task_queue].
  destruct (aq_push_ok q1 1) as (q2 & -> & Hi2 & Hc2); [rewrite Hi1, Hc1, Hi, Hc; simpl; lia|].
  cbn [expect mbind outcome_bind]. eexists. split; [reflexivity|]. simpl.
  rewrite Hi2, Hi1, Hi. split_and!; [done|congruence| | |done].
  - by rewrite lookup_insert_ne, lookup_insert_eq.
  - by rewrite lookup_insert_eq.
Qed.

(** The example runs. *)
Lemma first_round e w q :
  early w → task_queue e = q → aq_items q = [0; 1] → aq_cap q = 100 →
  tasks e !! 0 = Some (mkTask 0 (ExampleTask : future_state K)) → waker_cache e = ∅ →
  ∃ ev q' w', run_one e w = Ret (ev, mkExecutor (delete 0 (tasks e)) q' (delete 0 (<[0 := 0]> ∅)), w')
    ∧ aq_items q' = [1] ∧ aq_cap q' = 100 ∧ early w' ∧ w_out w' = w_out w ++ example_line
    ∧ w_queued w' = w_queued w ∧ w_lost w' = w_lost w ∧ tally w' = tally w.
Proof.
  intros Hw Hq Hi Hcap Ht Hcache. unfold run_one. rewrite Hq.
  destruct (aq_pop_cons _ _ _ Hi) as (q1 & -> & Hi1 & Hc1). rewrite Ht, Hcache, lookup_empty.
  destruct (point_early w Hw) as (Hw1 & Ho & Hqu & _ & Hl & Hta).
  unfold Task_poll, poll, kernel_future, resume. cbn [future default id mbind outcome_bind flush].
  change (w_kbd (print example_line (point w))) with (w_kbd (point w)). rewrite (ea_woken _ Hw1).
  cbn [wake_all for_each mbind outcome_bind]. do 3 eexists. split; [reflexivity|].
  split; [done|]. split; [congruence|]. split.
  { destruct Hw1. by split; [apply running_put_kbd, running_print|..]. }
  simpl. rewrite Ho, Hqu, Hl. split_and!; try done.
Qed.

(** [ScancodeStream::new] at the start of the second task. *)
Lemma stream_live w :
  early w → ∃ q : kbd Q A, ScancodeStream_new (w_kbd (point w)) = Ret q ∧
    let w' := put_kbd q (point w) in
    live w' ∧ keys w' = [] ∧ woken (w_kbd w') = [] ∧ w_due w' = tail (w_due w) ∧ (dues w' ≤ dues w)%nat.
Proof.
  intros Hw. destruct (point_early w Hw) as (Hw1 & _ & _ & Hdue & _). unfold ScancodeStream_new.
  rewrite (ea_queue _ Hw1). eexists. split; [reflexivity|].
  destruct (aq_new_items (Q := Q) 100) as [Hni Hnc]; [lia|]. split_and!; [|exact Hni|apply Hw1|exact Hdue|].
  - split; [apply running_put_kbd, Hw1|..|simpl; rewrite (ea_woken _ Hw1); constructor]; [|left; apply Hw1].
    exists (aq_new 100). split; [done|]. split; [done|]. rewrite Hni. simpl. lia.
  - unfold dues, due_codes. simpl. rewrite Hdue. destruct (w_due w); simpl; [done|].
    rewrite scancodes_of_app, length_app. lia.
Qed.

(** The stream is created, and the task waits. *)
Lemma second_round e w q :
  early w → task_queue e = q → aq_items q = [1] → aq_cap q = 100 →
  tasks e !! 1 = Some (mkTask 1 (PrintKeypresses : future_state K)) → waker_cache e !! 1 = None →
  w_out w = example_line → w_queued w = [] → (dues w ≤ 100)%nat →
  ∃ ev e' w', run_one e w = Ret (ev, e', w') ∧ awaiting (dues w) e' w'
    ∧ w_lost w' = w_lost w ∧ tally w' = tally w ∧ (dues w' ≤ dues w)%nat
    ∧ w_queued w' ++ due_codes w' = scancodes_of (concat (tail (w_due w))).
Proof.
  intros Hw Hq Hi Hcap Ht Hcache Hout Hqu Hd. unfold run_one. rewrite Hq.
  destruct (aq_pop_cons _ _ _ Hi) as (q1 & -> & Hi1 & Hc1). rewrite Ht, Hcache.
  destruct (point_early w Hw) as (Hw1 & Ho1 & Hq1 & _ & Hl1 & Ht1).
  unfold Task_poll, poll, kernel_future, resume. cbn [future default id].
  destruct (stream_live w Hw) as (kb & -> & Hl2 & Hk2 & Hwo2 & Hdue2 & Hd2). cbn [mbind outcome_bind].
  set (w2 := put_kbd kb (point w)) in *.
  destruct (keys_loop_live (keys_fuel w2) Keyboard_new w2 Hl2 (keys_fuel_enough w2 Hl2))
    as (a & w3 & Hrun & Hl3 & Ho3 & Hled & Hq3 & Hk3 & Hr3). cbv zeta in Hrun, Ho3.
  change (w_queued w2) with (w_queued (point w)) in Hq3. change (w_out w2) with (w_out (point w)) in Ho3.
  rewrite Hk2 in Hrun, Ho3. rewrite Hq1, Hqu in Hq3. rewrite Ho1, Hout in Ho3. cbn [app] in Hrun, Hq3. subst a.
  rewrite Hrun. cbn [mbind outcome_bind flush].
  pose proof (lg_wakes _ _ _ Hled) as Hwk. unfold wakes at 2 in Hwk. rewrite Hwo2 in Hwk. simpl in Hwk.
  destruct (proj1 (wake_all_spec (woken (w_kbd w3)) q1)) as (q2 & -> & Hi2 & Hc2).
  { rewrite Hi1, Hc1, Hcap. change (length (woken (w_kbd w3))) with (wakes w3). simpl. lia. }
  cbn [mbind outcome_bind]. do 3 eexists. split; [reflexivity|].
  pose proof (live_flush w3 Hl3) as Hl3'. rewrite Hi1, (woken_replicate w3 Hl3) in Hi2. split_and!.
  - split; cbn [tasks task_queue waker_cache]; rewrite ?lookup_insert_eq; try done; [congruence|].
    exists (wakes w3). split; [done|]. change (wakes w3 + dues w3 ≤ dues w)%nat. lia.
  - change (w_lost w3 = w_lost w). rewrite (lg_lost _ _ _ Hled). exact Hl1.
  - change (tally w3 = tally w). rewrite (lg_tally _ _ _ Hled), <- Ht1. simpl. apply Nat.add_0_r.
  - change (dues w3 ≤ dues w)%nat. lia.
  - change (w_queued w3 ++ due_codes w3 = scancodes_of (concat (tail (w_due w)))).
    rewrite (lg_all _ _ _ Hled) by (rewrite Hk2; simpl; lia).
    change (w_queued w2) with (w_queued (point w)). rewrite Hq1, Hqu, app_nil_r. unfold due_codes. by rewrite Hdue2.
Qed.

(** The scancodes that arrive once the stream exists: after the first point of the
    poll of the second iteration. *)
Definition after_stream (env : list round) : list Z :=
  match env with
  | _ :: it :: env => scancodes_of (concat (tail it.2)) ++ concat (codes_of <$> env)
  | _ => []
  end.

(** One iteration of [run_with]. *)
Lemma run_with_round (it : round) (env : list round) e w q ev e1 w1 :
  wake_all (task_queue e) (arrive it w).2 = Ret q →
  run_one (mkExecutor (tasks e) q (waker_cache e)) (arrive it w).1 = Ret (ev, e1, w1) →
  run_with (arrive <$> (it :: env)) e w =
    ('(evs, e, w) ← run_with (arrive <$> env) e1 w1; Ret (ev :: evs, e, w)).
Proof.
  intros Hwk Hrun. cbn [fmap list_fmap run_with]. destruct (arrive it w) as [w0 ws]. simpl in Hwk, Hrun.
  rewrite Hwk. cbn [mbind outcome_bind]. by rewrite Hrun.
Qed.

(** The first two iterations, with the requests around them. *)
Lemma start_rounds (it1 it2 : round) w :
  early w → w_out w = [] → w_queued w = [] → (length (scancodes_of (concat it2.2)) ≤ 100)%nat →
  ∃ e0, spawn_tasks 0 = Ret e0 ∧ ∃ e2 w2, awaiting (length (scancodes_of (concat it2.2))) e2 w2
    ∧ (∀ env : list round, ∃ evs, run_with (arrive <$> (it1 :: it2 :: env)) e0 w
         = ('(evs', e, w) ← run_with (arrive <$> env) e2 w2; Ret (evs ++ evs', e, w)))
    ∧ w_lost w2 = w_lost w ∧ tally w2 = (tally w + length (codes_of it1) + length (codes_of it2))%nat
    ∧ (dues w2 ≤ length (scancodes_of (concat it2.2)))%nat
    ∧ w_queued w2 ++ due_codes w2 = scancodes_of (concat (tail it2.2)).
Proof.
  intros Hw Hout Hqu Hin. destruct spawn_tasks_spec as (e0 & Hs & Hq & Hcap & Ht0 & Ht1 & Hcache).
  exists e0. split; [exact Hs|].
  destruct (arrive_early it1 w Hw) as (Hwk1 & Hw1 & Ho1 & Hq1 & _ & Hl1 & Hta1).
  destruct (first_round (mkExecutor (tasks e0) (task_queue e0) (waker_cache e0)) _ _ Hw1 eq_refl Hq Hcap Ht0 Hcache)
    as (ev1 & q1 & w1 & Hr1 & Hi1 & Hc1 & Hw1' & Ho1' & Hq1' & Hl1' & Hta1').
  set (e1 := mkExecutor _ q1 _) in Hr1.
  destruct (arrive_early it2 w1 Hw1') as (Hwk2 & Hw2 & Ho2 & Hq2 & Hdue2 & Hl2 & Hta2).
  assert (dues (arrive it2 w1).1 = length (scancodes_of (concat it2.2))) as Hd2
    by (unfold dues, due_codes; by rewrite Hdue2).
  destruct (second_round e1 _ q1 Hw2 eq_refl Hi1 Hc1) as (ev2 & e2 & w2 & Hr2 & Haw & Hl2' & Hta2' & Hd2' & Hall2).
  { unfold e1. simpl. by rewrite lookup_delete_ne. }
  { unfold e1. simpl. by rewrite lookup_delete_ne, lookup_insert_ne. }
  { by rewrite Ho2, Ho1', Ho1, Hout. }
  { congruence. }
  { lia. }
  rewrite Hd2 in Haw, Hd2'. rewrite Hdue2 in Hall2. exists e2, w2. split; [exact Haw|].
  split; [|split_and!; [congruence|lia|done|done]].
  intros env. exists [ev1; ev2].
  rewrite (run_with_round it1 (it2 :: env) e0 w (task_queue e0) ev1 e1 w1); [|by rewrite Hwk1|exact Hr1].
  rewrite (run_with_round it2 env e1 w1 q1 ev2 e2 w2); [|by rewrite Hwk2|exact Hr2].
  by destruct (run_with _ e2 w2) as [[[? ?] ?]|].
Qed.

(** The whole run. *)
Lemma run_rounds_start env w :
  early w → w_out w = [] → w_queued w = [] → (2 ≤ length env)%nat → calm 2 env = true →
  ∃ e0, spawn_tasks 0 = Ret e0 ∧ ∃ b e w', run_rounds env e0 w = Ret (e, w') ∧ awaiting b e w'
    ∧ w_lost w' = w_lost w ∧ tally w' = (tally w + length (concat (codes_of <$> env)))%nat
    ∧ (dues w' ≤ left_due 0 env)%nat
    ∧ (Forall (λ it, (length (codes_of it) ≤ 50)%nat) env → w_queued w' ++ due_codes w' = after_stream env).
Proof.
  intros Hw Hout Hqu Hlen Hc. destruct env as [|it1 [|it2 env]]; [simpl in Hlen; lia..|].
  simpl in Hc. rewrite !andb_true_iff in Hc. destruct Hc as (_ & _ & Hc).
  assert (calm (length (scancodes_of (concat it2.2))) env = true) as Hc2
    by (eapply calm_mono; [|exact Hc]; unfold backlog; lia).
  destruct (start_rounds it1 it2 w Hw Hout Hqu (calm_le _ _ Hc2)) as (e0 & Hs & e2 & w2 & Haw & Hrun & Hl & Hta & Hd & Hall).
  destruct (rounds_awaiting env _ e2 w2 Haw Hc2) as (evs & e & w' & b & Hr & Haw' & Hdue & Hta' & Hl' & Hall').
  exists e0. split; [exact Hs|]. exists b, e, w'. unfold run_rounds.
  destruct (Hrun env) as (evs0 & ->). rewrite Hr. cbn [mbind outcome_bind]. split_and!; try done.
  - congruence.
  - rewrite Hta', Hta. cbn [fmap list_fmap concat]. rewrite !length_app. lia.
  - etrans; [exact Hdue|]. unfold left_due. rewrite !last_cons. by destruct (last env).
  - intros Hf. apply Forall_cons in Hf as [_ Hf]. apply Forall_cons in Hf as [Hit2 Hf].
    rewrite Hall', app_assoc, Hall; [done| |done]. unfold codes_of in Hit2.
    rewrite scancodes_of_app, length_app in Hit2. lia.
Qed.

(** ** Interrupts in the window of [poll_next] *)

(** The points of one round of the loop in [print_keypresses] that finds the queue
    empty at first: before the first [pop], [register], the second [pop], [take],
    and the print. The scancode arrives between [register] and the second [pop]. *)
Definition window (c : Z) : list (list request) := [[]; []; [Key c]; []; []].

Definition windows (cs : list Z) : list (list request) := cs ≫= window.

Lemma windows_codes cs : scancodes_of (concat (windows cs)) = cs.
Proof.
  induction cs as [|c cs IH]; [done|]. change (windows (c :: cs)) with (window c ++ windows cs).
  rewrite concat_app, scancodes_of_app, IH. done.
Qed.

(** The requests inside the poll: two points for a scancode that waits already,
    then one window per scancode. *)
Definition burst (cs : list Z) : list (list request) := [[]; []] ++ windows cs.

Lemma point_quiet w due : w_due w = [] :: due → point w = put_due due w.
Proof. unfold point. by intros ->. Qed.

Lemma point_done w : w_due w = [] → point w = w.
Proof. unfold point. by intros ->. Qed.

Lemma pop_empty w :
  live w → keys w = [] → ∃ k : kbd Q A, pop_queue (w_kbd w) = Ret (None, k) ∧ live (put_kbd k w) ∧ items k = []
    ∧ woken k = woken (w_kbd w).
Proof.
  intros Hw Hk. destruct (pop_live w Hw) as (o & k & Hp & Hw' & _ & _ & Hi & _ & Hwo). rewrite Hk in Hi.
  destruct o; [done|]. by exists k.
Qed.

Lemma pop_one w c cs :
  live w → keys w = c :: cs → ∃ k : kbd Q A, pop_queue (w_kbd w) = Ret (Some c, k) ∧ live (put_kbd k w) ∧ items k = cs
    ∧ woken k = woken (w_kbd w).
Proof.
  intros Hw Hk. destruct (pop_live w Hw) as (o & k & Hp & Hw' & _ & _ & Hi & Hn & Hwo). rewrite Hk in Hi.
  destruct o as [x|]; [|by rewrite Hn in Hi]. simpl in Hi. injection Hi as -> Hi. by exists k.
Qed.

(** A scancode that arrives in the window is returned at once, but its wake-up was
    called. *)
Lemma poll_next_window w c due :
  live w → keys w = [] → w_due w = [[]; []; [Key c]; []] ++ due →
  ∃ w', poll_next w_kbd put_kbd point 1 w = Ret (Some c, w') ∧ live w' ∧ keys w' = []
    ∧ wakes w' = S (wakes w) ∧ w_due w' = due.
Proof.
  intros Hw Hk Hdue. unfold poll_next. rewrite (point_quiet w ([[]; [Key c]; []] ++ due) Hdue).
  set (w1 := put_due _ w). assert (live w1) as Hw1 by by apply live_put_due.
  destruct (pop_empty w1 Hw1 Hk) as (k1 & -> & Hw2 & Hi1 & Hwo1). cbn [mbind outcome_bind].
  set (w2 := put_kbd k1 w1) in *. rewrite (point_quiet w2 ([[Key c]; []] ++ due) eq_refl).
  set (w3 := put_due _ w2). assert (live w3) as Hw3 by by apply live_put_due.
  destruct (register_live w3 Hw3) as (Hw4 & _ & Hk4 & Hr4). set (w4 := put_kbd (register _ _) w3) in *.
  change (point w4) with (serve (put_due ([[]] ++ due) w4) (Key c)).
  set (w4' := put_due _ w4). assert (live w4') as Hw4' by by apply live_put_due.
  destruct (serve_live w4' (Key c) Hw4') as (Hw5 & _ & Hd5 & _ & a & Hk5 & _ & _ & Ha & Hr5).
  change (keys w4') with (keys w4) in *. assert (keys w4 = []) as Hk4' by (rewrite Hk4; exact Hi1).
  rewrite Hk4' in *. simpl in Ha. destruct Ha as [-> |[_ ?]]; [|lia]. simpl in Hk5.
  destruct Hr5 as [[? _]|(_ & _ & Hn5)]; [done|]. change (registered w4') with (registered w4) in Hn5. rewrite Hr4 in Hn5.
  set (w5 := serve w4' (Key c)) in *.
  destruct (pop_one w5 c [] Hw5 Hk5) as (k6 & -> & Hw6 & Hi6 & Hwo6). cbn [mbind outcome_bind].
  set (w6 := put_kbd k6 w5) in *. rewrite (point_quiet w6 due Hd5).
  destruct (take_live (put_due due w6)) as (Hw7 & _ & Hk7); [by apply live_put_due|].
  eexists. split; [reflexivity|]. split; [exact Hw7|]. split; [rewrite Hk7; exact Hi6|]. split; [|done].
  change (length (woken k6) = S (wakes w)). rewrite Hwo6. change (wakes w5 = S (wakes w)). rewrite Hn5. simpl.
  change (wakes w4') with (length (woken k1)). rewrite Hwo1. change (length (woken (w_kbd w1))) with (wakes w). lia.
Qed.

(** A poll without interrupts on the empty queue. *)
Lemma poll_next_quiet w :
  live w → keys w = [] → w_due w = [] →
  ∃ w', poll_next w_kbd put_kbd point 1 w = Ret (None, w') ∧ wakes w' = wakes w.
Proof.
  intros Hw Hk Hdue. unfold poll_next. rewrite (point_done w Hdue).
  destruct (pop_empty w Hw Hk) as (k1 & -> & Hw1 & Hi1 & Hwo1). cbn [mbind outcome_bind].
  set (w1 := put_kbd k1 w) in *. rewrite (point_done w1 Hdue).
  destruct (register_live w1 Hw1) as (Hw2 & _ & Hk2 & _). set (w2 := put_kbd (register _ _) w1) in *.
  rewrite (point_done w2 Hdue). destruct (pop_empty w2 Hw2 Hi1) as (k2 & -> & _ & _ & Hwo2). cbn [mbind outcome_bind].
  eexists. split; [reflexivity|]. unfold wakes. simpl. rewrite Hwo2. simpl. by rewrite Hwo1.
Qed.

Lemma keys_loop_windows fuel k w cs :
  live w → keys w = [] → w_due w = windows cs → (length cs < fuel)%nat →
  ∃ f w', keys_loop fuel k 1 w = Ret (Pending, f, w') ∧ wakes w' = (wakes w + length cs)%nat.
Proof.
  revert fuel k w. induction cs as [|c cs IH]; intros fuel k w Hw Hk Hdue Hf;
    (destruct fuel as [|fuel]; [simpl in Hf; lia|]); rewrite keys_loop_S.
  - destruct (poll_next_quiet w Hw Hk Hdue) as (w' & -> & Hn). cbn [mbind outcome_bind].
    do 2 eexists. split; [reflexivity|]. simpl. lia.
  - destruct (poll_next_window w c ([] :: (windows cs)) Hw Hk Hdue) as (w1 & -> & Hw1 & Hk1 & Hn1 & Hdue1).
    cbn [mbind outcome_bind]. rewrite (point_quiet w1 (windows cs) Hdue1).
    destruct (key_pressed k c) as [chars k1]. simpl in Hf.
    destruct (IH fuel k1 (print chars (put_due (windows cs) w1))) as (f & w' & -> & Hn').
    { by apply live_print, live_put_due. } { done. } { done. } { lia. }
    do 2 eexists. split; [reflexivity|]. change (wakes (print _ _)) with (wakes w1) in Hn'. simpl. lia.
Qed.

(** The poll of the waiting task in such a burst. *)
Lemma poll_burst k w c0 cs :
  live w → keys w = [c0] → woken (w_kbd w) = [] → w_due w = burst cs →
  ∃ f w', poll (AwaitingScancode k) 1 w = Ret (Pending, f, w', replicate (length cs) 1).
Proof.
  intros Hw Hk Hwo Hdue. unfold poll, kernel_future, resume.
  assert (∃ n, keys_fuel w = S n ∧ (length cs < n)%nat) as (n & -> & Hf).
  { exists (100 + length cs)%nat. split; [|lia]. unfold keys_fuel. rewrite Hdue. simpl. by rewrite windows_codes. }
  rewrite keys_loop_S. unfold poll_next.
  rewrite (point_quiet w ([] :: (windows cs)) Hdue). set (w1 := put_due _ w).
  destruct (pop_one w1 c0 [] (live_put_due _ w Hw) Hk) as (q & -> & Hw2 & Hi2 & Hwo2). cbn [mbind outcome_bind].
  rewrite (point_quiet (put_kbd q w1) (windows cs) eq_refl).
  destruct (key_pressed k c0) as [chars k1]. set (w2 := print _ _).
  assert (live w2) as Hl2 by by apply live_print, live_put_due.
  destruct (keys_loop_windows n k1 w2 cs Hl2 Hi2 eq_refl Hf) as (f & w' & Hrun & Hn).
  destruct (keys_loop_live n k1 w2 Hl2) as (a & w'' & Hrun' & Hl' & _).
  { rewrite (Hi2 : keys w2 = []). change (dues w2) with (length (scancodes_of (concat (windows cs)))).
    by rewrite windows_codes. }
  rewrite Hrun. cbn [mbind outcome_bind flush]. cbv zeta in Hrun'. rewrite Hrun in Hrun'. injection Hrun' as _ ->.
  do 2 eexists. rewrite (woken_replicate w'' Hl'), Hn.
  change (wakes w2) with (length (woken q)). rewrite Hwo2. change (woken (w_kbd w1)) with (woken (w_kbd w)). rewrite Hwo. reflexivity.
Qed.
End keypresses.

(** * The kernel's tasks in the executor *)
Section kernel_tasks.
Context {G I P K V Q A : Type}.
Context `{IdtLaws I handler, PicsLaws P, PcKeyboard K V, ArrayQueueLaws Q, AtomicWakerLaws A}.
Implicit Types (w : world G I P Q A) (ts : gmap Z (Task (future_state K))).

(** The state before the first task runs. *)
Definition boot_world (r : registers G I) (p : P) : world G I P Q A :=
  mkWorld r p (mkKbd None aw_new []) [] [] 0 [] [].

Lemma boot_world_early r p : running (boot_world r p) → early (boot_world r p).
Proof. intros Hr. split; [done..| |done]. apply aw_new_none. Qed.

(** The two tasks in the states they have between polls: the stream exists once
    [print_keypresses] was polled. *)
Definition kernel_inv (b : nat) ts w : Prop :=
  woken (w_kbd w) = [] ∧ (dues w ≤ b)%nat ∧ (early w ∨ live w)
  ∧ ∀ i t, ts !! i = Some t →
      i = 0 ∧ future t = ExampleTask
      ∨ i = 1 ∧ (future t = PrintKeypresses ∧ early w ∨ (∃ k, future t = AwaitingScancode k) ∧ live w).

Lemma ledger_bounds w w' b :
  ledger [] w w' → woken (w_kbd w) = [] → (dues w ≤ b)%nat → (wakes w' ≤ b)%nat ∧ (dues w' ≤ b)%nat.
Proof. intros [Hl _ _ _ _ _] Hwo Hd. unfold wakes in Hl at 2. rewrite Hwo in Hl. simpl in Hl. lia. Qed.

(** The waiting task after a poll; other tasks are in the same states. *)
Lemma kernel_inv_awaiting b ts w w' t k :
  kernel_inv b ts w → live w' → woken (w_kbd w') = [] → (dues w' ≤ b)%nat → 
  kernel_inv b (<[1 := mkTask t (AwaitingScancode k)]> ts) w'.
Proof.
  intros (_ & _ & _ & Hts) Hl Hwo Hd. split; [done|]. split; [done|]. split; [by right|].
  intros i t'. rewrite lookup_insert_Some. intros [[<- <-]|[Hne Ht]].
  - right. split; [done|]. right. split; [by eexists|done].
  - destruct (Hts i t' Ht) as [?|[-> _]]; [by left|done].
Qed.

Lemma early_print chars w : early w → early (flush (print chars w)).2.
Proof. intros []. by split; [apply running_put_kbd, running_print|..]. Qed.

Lemma early_not_live w : early w → ¬ live w.
Proof. intros He [_ (q & Hq & _) _ _]. by rewrite (ea_queue _ He) in Hq. Qed.

(** Where the machine goes from early to early, or from live to live, the tasks
    that are left stay in their states. *)
Lemma kernel_inv_keep b ts w w' i :
  kernel_inv b ts w → (early w → early w') → (live w → live w') → woken (w_kbd w') = [] →
  (dues w' ≤ b)%nat → kernel_inv b (delete i ts) w' ∧ kernel_inv b ts w'.
Proof.
  intros (_ & _ & Hst & Hts) He Hl Hwo Hd.
  assert (kernel_inv b ts w') as Hinv.
  { split; [done|]. split; [done|]. split; [naive_solver|]. intros j t Ht.
    destruct (Hts j t Ht) as [?|[? [[? ?]|[? ?]]]]; [by left|..]; right; (split; [done|]); auto. }
  split; [|done]. destruct Hinv as (? & ? & ? & Hts'). split; [done|]. split; [done|]. split; [done|].
  intros j t [_ Ht]%lookup_delete_Some. by apply Hts'.
Qed.

(** The example task. *)
Lemma example_fine b ts w :
  kernel_inv b ts w →
  let w' := print example_line (point w) in
  (wakes w' ≤ b)%nat ∧ kernel_inv b (delete 0 ts) (flush w').2.
Proof.
  intros Hinv w'. pose proof Hinv as (Hwo & Hd & [Hw|Hw] & _).
  - destruct (point_early w Hw) as (Hw1 & _ & _ & Hdue & _).
    assert (dues (flush w').2 ≤ b)%nat as Hd'.
    { unfold dues, due_codes in *. simpl. rewrite Hdue. destruct (w_due w); simpl in *; [done|].
      rewrite scancodes_of_app, length_app in Hd. lia. }
    split; [unfold wakes; simpl; rewrite (ea_woken _ Hw1); simpl; lia|].
    apply (kernel_inv_keep b ts w); [done|intros _; by apply early_print| |done|done].
    intros Hl. by destruct (early_not_live w).
  - destruct (point_live w Hw) as (Hw1 & _ & Hled & _). destruct (ledger_bounds _ _ b Hled Hwo Hd) as [Hn Hd'].
    split; [exact Hn|]. apply (kernel_inv_keep b ts w); [done| |intros _|done|exact Hd'].
    + intros He. by destruct (early_not_live w).
    + by apply live_flush, live_print.
Qed.

(** Polls of the kernel's tasks do not panic and call no more wakers than
    scancodes arrive meanwhile. *)
Lemma kernel_polls b : polls_fine b (kernel_inv b).
Proof.
  intros ts w i t Hinv Hi. pose proof Hinv as (Hwo & Hd & Hst & Hts). unfold poll, kernel_future, resume.
  destruct (Hts i t Hi) as [[-> ->]|[-> [[-> Hw]|[[k ->] Hw]]]].
  - cbn [mbind outcome_bind flush]. do 4 eexists. split; [reflexivity|]. exact (example_fine b ts w Hinv).
  - destruct (stream_live w Hw) as (kb & -> & Hl & _ & Hwo2 & _ & Hd2). cbn [mbind outcome_bind].
    set (w2 := put_kbd kb (point w)) in *.
    destruct (keys_loop_live (keys_fuel w2) (Keyboard_new : K) w2 Hl (keys_fuel_enough w2 Hl)) as (a & w' & Hrun & Hw' & _ & Hled & _).
    cbv zeta in Hrun. rewrite Hrun. cbn [mbind outcome_bind flush]. do 4 eexists. split; [reflexivity|].
    destruct (ledger_bounds _ _ b Hled Hwo2 ltac:(lia)) as [Hn Hd']. split; [exact Hn|].
    eapply kernel_inv_awaiting; [done|exact (live_flush _ Hw')|done|done].
  - destruct (keys_loop_live (keys_fuel w) k w Hw (keys_fuel_enough w Hw)) as (a & w' & Hrun & Hw' & _ & Hled & _).
    cbv zeta in Hrun. rewrite Hrun. cbn [mbind outcome_bind flush]. do 4 eexists. split; [reflexivity|].
    destruct (ledger_bounds _ _ b Hled Hwo Hd) as [Hn Hd']. split; [exact Hn|].
    eapply kernel_inv_awaiting; [done|exact (live_flush _ Hw')|done|done].
Qed.

(** So do the requests before an iteration. *)
Lemma kernel_arrival b c it :
  (length (scancodes_of (concat it.2)) ≤ b)%nat → (b + length (scancodes_of it.1) ≤ c)%nat →
  arrival_fine c (kernel_inv b) (arrive it).
Proof.
  intros Hb Hc ts w Hinv. pose proof Hinv as (Hwo & Hd & [Hw|Hw] & _).
  - destruct (arrive_early it w Hw) as (Hwk & Hw1 & _ & _ & Hdue & _). rewrite Hwk. split; [|simpl; lia].
    apply (kernel_inv_keep b ts w _ 0); [done|done| |apply Hw1|unfold dues, due_codes; by rewrite Hdue].
    intros Hl. by destruct (early_not_live w).
  - destruct (arrive_served it w Hw) as (-> & Hl1 & Hled). set (w1 := put_due it.2 _) in *. split.
    + apply (kernel_inv_keep b ts w _ 0); [done| |intros _; by apply live_flush|done|exact Hb].
      intros He. by destruct (early_not_live w).
    + pose proof (lg_wakes _ _ _ Hled) as Hn. unfold wakes at 2 in Hn. rewrite Hwo in Hn.
      change (dues w1) with (length (scancodes_of (concat it.2))) in Hn.
      unfold codes_of in Hn. rewrite scancodes_of_app, length_app in Hn. simpl in Hn.
      change (wakes w1 ≤ c)%nat. lia.
Qed.
End kernel_tasks.

(** A decoder that turns every scancode into the character of the same
    number. *)
#[global] Instance demo_keyboard : PcKeyboard unit Z := {
  Keyboard_new := tt;
  add_byte k c := (Ok (Some c), k);
  process_keyevent k v := (Some (Unicode v), k);
}.

(** A machine for the examples, as [init] leaves it. *)
Abbreviation demo_idt := (gmap Z (handler * option Z)).
Definition demo_world : world (list desc) demo_idt Pic ListQueue (option Z) :=
  boot_world (mkRegs None 0 0 (Some IDT) true) (initialize PICS_init).

Lemma demo_world_early : early demo_world.
Proof. apply boot_world_early. split; [done|done|]. by split. Qed.

Definition demo_tasks : Executor (future_state unit) ListQueue :=
  mkExecutor {[0 := mkTask 0 ExampleTask; 1 := mkTask 1 PrintKeypresses]} (mkListQueue 100 [0; 1]) ∅.

Lemma demo_tasks_lookup i t :
  tasks demo_tasks !! i = Some t → i = 0 ∧ t = mkTask 0 ExampleTask ∨ i = 1 ∧ t = mkTask 1 PrintKeypresses.
Proof. simpl. rewrite lookup_insert_Some, lookup_singleton_Some. naive_solver. Qed.

(** The kernel's own tasks, with a tick of the timer before the first iteration and
    a key inside its poll: the task that reads the keyboard is polled. *)
Lemma woken_task_polled_witness :
  ∃ evs e' w' k r,
    run_with (arrive <$> [([Tick], [[Key 30]]); ([], [[Key 31]])]) demo_tasks demo_world = Ret (evs, e', w')
    ∧ (k ≤ 1)%nat ∧ evs !! k = Some (Polled 1 r).
Proof.
  destruct (woken_task_polled (future_state unit) (world (list desc) demo_idt Pic ListQueue (option Z)) ListQueue
    _ _ _ (kernel_inv 1) 1 1 (arrive <$> [([Tick], [[Key 30]]); ([], [[Key 31]])]) demo_tasks demo_world [0] [] 1)
    as (evs & e' & w' & k & r & Hrun & _ & Hk & Hev).
  - split; [|done|simpl; lia]. intros i t [[-> ->]|[-> ->]]%demo_tasks_lookup; done.
  - split; [done|]. split; [apply Nat.le_0_l|]. split; [left; exact demo_world_early|].
    intros i t [[-> ->]|[-> ->]]%demo_tasks_lookup; [by left|]. right. split; [done|]. left.
    split; [done|exact demo_world_early].
  - apply kernel_polls.
  - repeat (apply Forall_cons_2; [apply kernel_arrival; simpl; lia|]). apply Forall_nil_2.
  - reflexivity.
  - by eexists.
  - simpl. lia.
  - simpl. lia.
  - exists evs, e', w', k, r. split; [exact Hrun|]. split; [exact Hk|exact Hev].
Defined.

(** C40: wake-ups can overflow the executor's queue. The waker does not look whether
    the task's id is in the queue already, and [poll_next] registers it anew in every
    round of the loop. If, while the task handles a scancode, further scancodes arrive
    one by one between [register] and the second [pop], each is read at once and yet
    leaves one more wake-up: the queue takes 100 of them, and the next one panics the
    kernel inside the interrupt handler, although at most one scancode was ever
    waiting. *)
Theorem wakeups_overflow (G I P K V Q A : Type) (HI : Idt I handler) (HIL : IdtLaws I handler)
    (HP : Pics P) (HPL : PicsLaws P) (HK : PcKeyboard K V) (HQ : ArrayQueue Q) (HQL : ArrayQueueLaws Q)
    (HA : AtomicWaker A) (HAL : AtomicWakerLaws A)
    (r : registers G I) (p : P) (c : Z) (cs : list Z)
    (Hrun : running (boot_world (Q := Q) (A := A) r p)) :
  ∃ e0 : Executor (future_state K) Q, spawn_tasks 0 = Ret e0 ∧
    let run := run_rounds [([], []); ([], []); ([Key c], burst cs)] e0 (boot_world (A := A) r p) in
    if decide (length cs ≤ 100)%nat then ∃ e w, run = Ret (e, w) else run = Panic PUnwrap.
Proof.
  destruct (start_rounds (K := K) ([], []) ([], []) _ (boot_world_early r p Hrun)) as (e0 & Hs & e & w & Haw & Hrounds & _);
    [done|done|simpl; lia|]. exists e0. split; [exact Hs|]. cbv zeta. unfold run_rounds.
  destruct (Hrounds [([Key c], burst cs)]) as (evs & Heq).
  match type of Heq with ?run = _ => change (run_with _ e0 _) with run end. rewrite Heq.
  destruct (arrive_awaiting _ _ _ ([Key c], burst cs) Haw)
    as (a & n & Hws & Hn & _ & Hl & Hwo & _ & _ & Hk & Hdue & _ & _ & Ha).
  destruct Haw as [_ _ _ _ _ Htask Hcache Hcap (L & HL & HLb)]. simpl in HLb.
  assert (due_codes w = []) as Hd by (apply length_zero_iff_nil; unfold dues in HLb; lia).
  assert (a = [c]) as -> by (rewrite Ha, Hd; [done|]; unfold dues; rewrite Hd; simpl; lia).
  assert (L = 0%nat) as -> by lia. destruct Hn as [[_ ?]| ->]; [done|].
  cbn [fmap list_fmap run_with]. destruct (arrive _ w) as [w1 ws]. simpl in Hws, Hl, Hwo, Hk, Hdue. subst ws.
  destruct (proj1 (wake_all_spec [1] (task_queue e))) as (q & -> & Hiq & Hcq); [rewrite HL, Hcap; simpl; lia|].
  rewrite HL in Hiq. cbn [mbind outcome_bind]. unfold run_one. cbn [task_queue tasks waker_cache].
  destruct (aq_pop_cons _ _ _ Hiq) as (q1 & -> & Hi1 & Hc1). rewrite Htask, Hcache. unfold Task_poll. cbn [future default id].
  destruct (poll_burst (decode Keyboard_new (w_queued w)).2 w1 c cs Hl Hk Hwo Hdue) as (f & w2 & Hpoll).
  change (Datatypes.id 1) with 1. rewrite Hpoll. cbn [mbind outcome_bind].
  destruct (wake_all_spec (replicate (length cs) 1) q1) as [Hok Hover]. rewrite Hi1, length_replicate in Hok, Hover.
  case_decide as Hlen.
  - destruct Hok as (q2 & -> & _); [rewrite Hc1, Hcq, Hcap; simpl; lia|]. cbn [mbind outcome_bind]. eauto.
  - rewrite Hover by (rewrite Hc1, Hcq, Hcap; simpl; lia). done.
Qed.

Lemma wakeups_overflow_witness :
  ∃ e0 : Executor (future_state unit) ListQueue, spawn_tasks 0 = Ret e0 ∧
    run_rounds [([], []); ([], []); ([Key 30], burst (replicate 101 31))] e0 demo_world = Panic PUnwrap.
Proof.
  destruct (wakeups_overflow (list desc) demo_idt Pic unit Z ListQueue (option Z) _ _ _ _ _ _ _ _ _
    (mkRegs None 0 0 (Some IDT) true) (initialize PICS_init) 30 (replicate 101 31)) as (e0 & Hs & Hr).
  - exact (ea_running _ demo_world_early).
  - exists e0. split; [exact Hs|]. cbv zeta in Hr. rewrite decide_False in Hr by (simpl; lia). exact Hr.
Defined.
