(* ===== verification/Backtrace.v ===== *)
(** The panic handler of src/src/main.rs: what it prints, down to the digits,
    and its walk up the chain of saved frame pointers. *)
From S2P Require Import Prelude.
Local Open Scope Z_scope.
Local Open Scope rust_scope.

(** * [{:#018x}] on a [u64]: [0x] and sixteen hexadecimal digits *)
Definition hex_digit (d : Z) : Z := if d <? 10 then 48 + d else 87 + d.

Fixpoint hex_digits (n : nat) (x : Z) : list Z :=
  match n with
  | O => []
  | S n => hex_digits n (x / 16) ++ [hex_digit (x mod 16)]
  end.

Definition hex018 (x : Z) : list Z := str_of "0x" ++ hex_digits 16 x.

(** Reading it back. *)
Definition digit_value (c : Z) : Z := if c <? 58 then c - 48 else c - 87.
Definition hex_value (ds : list Z) : Z := foldl (λ v c, 16 * v + digit_value c) 0 ds.

Lemma digit_value_hex d : 0 ≤ d < 16 → digit_value (hex_digit d) = d.
Proof.
  intros Hd. unfold digit_value, hex_digit.
  destruct (Z.ltb_spec d 10); [rewrite (proj2 (Z.ltb_lt _ _))|rewrite (proj2 (Z.ltb_ge _ _))]; lia.
Qed.

Lemma hex_digits_value n x : 0 ≤ x < 16 ^ Z.of_nat n → hex_value (hex_digits n x) = x.
Proof.
  revert x. induction n as [|n IH]; intros x Hx; simpl; [unfold hex_value; simpl in *; lia|].
  unfold hex_value in *. rewrite foldl_snoc, IH, digit_value_hex by
    (rewrite ?Nat2Z.inj_succ, ?Z.pow_succ_r in * by lia; Z.to_euclidean_division_equations; lia).
  Z.to_euclidean_division_equations; lia.
Qed.

Lemma length_hex_digits n x : length (hex_digits n x) = n.
Proof. revert x. induction n; intros x; simpl; [done|]. rewrite length_app, IHn. simpl. lia. Qed.

Lemma hex018_inj x y : is_u64 x → is_u64 y → hex018 x = hex018 y → x = y.
Proof.
  intros Hx Hy He. apply (inj (str_of "0x" ++.)) in He.
  rewrite <- (hex_digits_value 16 x), <- (hex_digits_value 16 y), He; [done|..];
    unfold fits in *; change (16 ^ Z.of_nat 16) with (2 ^ 64); lia.
Qed.

(** * The handler *)

(** How it ends. Halting is its normal end; a load from an address that is not
    mapped enters the page-fault handler, which halts as well; an overflow or a
    misaligned address panics once more. [Walking] is the model's step bound. *)
Inductive ending :=
  | Halted
  | PageFault (addr : Z)
  | PanickedAgain
  | Walking.

Section panic.
(** The 64-bit words of memory, by address. *)
Context (mem : Z → option Z).

(** [*(a as *const u64)], with the alignment check of a debug build. *)
Definition deref (a : Z) : Z + ending :=
  if negb (a mod 8 =? 0) then inr PanickedAgain
  else match mem a with Some v => inl v | None => inr (PageFault a) end.

(** The loop: the lines it prints and how it ends. *)
Fixpoint walk (fuel : nat) (rbp stack_trace_count : Z) : list (list Z) * ending :=
  match fuel with
  | O => ([], Walking)
  | S fuel =>
      if negb (rbp =? 0) && (stack_trace_count <? 20) then
        match rbp +! 8 with
        | Panic _ => ([], PanickedAgain)
        | Ret a =>
            match deref a with
            | inr e => ([], e)
            | inl ret =>
                let line := str_of "  " ++ hex018 ret in
                match deref rbp with
                | inr e => ([line], e)
                | inl rbp =>
                    let '(lines, e) := walk fuel rbp (stack_trace_count + 1) in
                    (line :: lines, e)
                end
            end
        end
      else ([], Halted)
  end.

(** [panic(info)]: [rip] and [rbp] are the registers the [asm!] blocks read,
    [info] the rendered message. Twenty iterations and the test that ends the
    loop are 21 steps. *)
Definition panic (info : list Z) (rip rbp : Z) : list (list Z) * ending :=
  let '(lines, e) := walk 21 rbp 0 in
  ([str_of "KERNEL PANIC: " ++ info ++ [10]; str_of "RIP: " ++ hex018 rip;
    [10] ++ str_of "Stack Backtrace:"] ++ lines, e).

(** * Chains of frames *)

(** From [rbp], following the saved frame pointers past frames with the return
    addresses [rets] leads to [rbp']. *)
Inductive frames : Z → list Z → Z → Prop :=
  | frames_nil rbp : frames rbp [] rbp
  | frames_cons rbp ret next rets rbp' :
      0 < rbp < 2 ^ 64 - 8 → (8 | rbp) →
      mem (rbp + 8) = Some ret → mem rbp = Some next →
      frames next rets rbp' → frames rbp (ret :: rets) rbp'.

Lemma deref_ok a v : (8 | a) → mem a = Some v → deref a = inl v.
Proof.
  intros Ha Hv. unfold deref. rewrite Hv.
  by rewrite (proj2 (Z.eqb_eq _ _)) by (by apply Z.mod_divide).
Qed.

Definition frame_line (ret : Z) : list Z := str_of "  " ++ hex018 ret.

Lemma walk_stop fuel rbp count :
  rbp = 0 ∨ 20 ≤ count → walk (S fuel) rbp count = ([], Halted).
Proof.
  intros [-> | Hc]; simpl; [done|]. rewrite (proj2 (Z.ltb_ge _ _)) by done. by rewrite andb_false_r.
Qed.

Lemma walk_frames rets rbp rbp' fuel count :
  frames rbp rets rbp' → 0 ≤ count ≤ 20 → (20 - Z.to_nat count < fuel)%nat →
  rbp' = 0 ∨ 20 ≤ count + Z.of_nat (length rets) →
  walk fuel rbp count = (frame_line <$> take (20 - Z.to_nat count) rets, Halted).
Proof.
  intros Hf. revert fuel count.
  induction Hf as [rbp|rbp ret next rets rbp' Hr Hd Hret Hnext _ IH]; intros fuel count Hc Hfu Hend;
    (destruct fuel as [|fuel]; [lia|]).
  { rewrite take_nil. apply walk_stop. simpl in Hend. lia. }
  destruct (decide (20 ≤ count)) as [Hge|Hlt].
  { rewrite walk_stop by auto. by replace (20 - Z.to_nat count)%nat with O by lia. }
  cbn [walk]. rewrite (proj2 (Z.eqb_neq _ _)) by lia. rewrite (proj2 (Z.ltb_lt _ _)) by lia.
  unfold add64. rewrite checked_fits by (unfold fits; lia).
  rewrite (deref_ok _ ret), (deref_ok _ next); [|done..|by apply Z.divide_add_r; [|exists 1]|done].
  simpl in Hend. rewrite IH by lia.
  replace (20 - Z.to_nat count)%nat with (S (20 - Z.to_nat (count + 1))) by lia. done.
Qed.

(** Whatever memory holds, the loop ends. *)
Lemma walk_ends fuel rbp count :
  0 ≤ count ≤ 20 → (20 - Z.to_nat count < fuel)%nat →
  (walk fuel rbp count).2 ≠ Walking ∧ (length (walk fuel rbp count).1 ≤ 20 - Z.to_nat count)%nat.
Proof.
  revert rbp count. induction fuel as [|fuel IH]; intros rbp count Hc Hf; [lia|].
  destruct (decide (rbp = 0 ∨ 20 ≤ count)) as [Hs|Hs]; [rewrite walk_stop by done; simpl; split; [done|lia]|].
  cbn [walk]. rewrite (proj2 (Z.eqb_neq _ _)), (proj2 (Z.ltb_lt _ _)) by lia. simpl.
  destruct (rbp +! 8) as [a|]; simpl; [|split; [done|lia]].
  assert (∀ a e, deref a = inr e → e ≠ Walking) as Hw.
  { intros b e. unfold deref. destruct (negb _); [naive_solver|]. destruct (mem b); naive_solver. }
  destruct (deref a) as [ret|e] eqn:Ha; simpl; [|split; [by eapply Hw|lia]].
  destruct (deref rbp) as [next|e] eqn:Hb; simpl; [|split; [by eapply Hw|lia]].
  destruct (IH next (count + 1)) as [H1 H2]; [lia..|].
  destruct (walk fuel next (count + 1)) as [lines e]. simpl in *. split; [done|lia].
Qed.
End panic.

(** C30: the backtrace shows the callers. On a chain of frames that ends with a
    null frame pointer, or that has at least twenty frames, the handler prints
    the message, the instruction pointer, and then the return addresses of the
    first twenty frames, innermost first, each as a line that determines the
    address; then it halts. A chain that runs in a circle is cut off as well. *)
Theorem backtrace_prints (mem : Z → option Z) (info : list Z) (rip rbp rbp' : Z) (rets : list Z)
    (Hf : frames mem rbp rets rbp') (Hend : rbp' = 0 ∨ (20 ≤ length rets)%nat)
    (Hu : Forall is_u64 rets) :
  ∃ header, panic mem info rip rbp = (header ++ (frame_line <$> take 20 rets), Halted)
    ∧ length header = 3%nat
    ∧ ∀ rets', Forall is_u64 rets' → frame_line <$> rets' = frame_line <$> rets → rets' = rets.
Proof.
  unfold panic. rewrite (walk_frames mem rets rbp rbp') by (simpl; done || lia).
  eexists. split; [done|]. split; [done|]. clear - Hu. intros rets' Hu' He. revert rets' Hu' He.
  induction Hu as [|x xs Hx _ IH]; intros [|y ys] Hu' He; try done.
  apply Forall_cons in Hu' as [Hy Hys]. rewrite !fmap_cons in He.
  pose proof (f_equal tail He) as Hes. apply (f_equal (default [] ∘ head)) in He.
  f_equal; [|by apply IH]. by apply hex018_inj; [..|apply (inj (str_of "  " ++.))].
Qed.

(** Two frames. *)
Definition demo_stack (a : Z) : option Z :=
  ({[0x1000 := 0x1020; 0x1008 := 0xaaaa; 0x1020 := 0; 0x1028 := 0xbbbb]} : gmap Z Z) !! a.

Lemma backtrace_prints_witness :
  frames demo_stack 0x1000 [0xaaaa; 0xbbbb] 0 ∧
  ∃ header, panic demo_stack [] 0x2000 0x1000
    = (header ++ (frame_line <$> [0xaaaa; 0xbbbb]), Halted).
Proof.
  assert (frames demo_stack 0x1000 [0xaaaa; 0xbbbb] 0) as Hf.
  { econstructor; [lia|by exists 512|reflexivity|reflexivity|].
    econstructor; [lia|by exists 516|reflexivity|reflexivity|]. constructor. }
  split; [exact Hf|].
  destruct (backtrace_prints demo_stack [] 0x2000 0x1000 0 [0xaaaa; 0xbbbb] Hf) as (h & Hp & _).
  - by left.
  - repeat constructor; unfold fits; lia.
  - exists h. exact Hp.
Defined.

(** The panic handler ends, whatever the stack holds: it prints at most 23
    lines and halts, stops at the first address that is not mapped, or panics
    again; it never walks on for ever, not even round a circle of frames. *)
Theorem panic_ends (mem : Z → option Z) (info : list Z) (rip rbp : Z) :
  (panic mem info rip rbp).2 ≠ Walking ∧ (length (panic mem info rip rbp).1 ≤ 23)%nat.
Proof.
  unfold panic. destruct (walk_ends mem 21 rbp 0) as [He Hl]; [lia|simpl; lia|].
  destruct (walk mem 21 rbp 0) as [lines e]. simpl in *. split; [done|lia].
Qed.
