(* ===== verification/Harness.v ===== *)
(** The test harness of src/src/lib.rs: running the tests, reporting on the
    serial port, and leaving the emulator with a status; and the runner of
    src/tests/should_panic.rs. *)
From stdpp Require Import pretty.
From S2P Require Import Prelude.
Local Open Scope Z_scope.

(** * Effects: output on the serial port and writes to I/O ports *)
Inductive effect :=
  | Serial (s : list Z)
  | PortWrite (port value : Z).

#[global] Instance effect_eq_dec : EqDecision effect.
Proof. solve_decision. Defined.

(** A computation leaves its effects behind also when it panics. *)
Definition io (A : Type) : Type := list effect * outcome A.

#[global] Instance io_ret : MRet io := λ A a, ([], Ret a).
#[global] Instance io_bind : MBind io := λ A B k m,
  match m with
  | (l, Ret a) => let '(l', r) := k a in (l ++ l', r)
  | (l, Panic w) => (l, Panic w)
  end.

Definition emit (e : effect) : io unit := ([e], Ret tt).
Definition serial_print (s : list Z) : io unit := emit (Serial s).
Definition serial_println (s : list Z) : io unit := serial_print (s ++ [10]).

(** * The harness *)
Inductive QemuExitCode := Success | Failed.

Definition QemuExitCode_u32 (c : QemuExitCode) : Z :=
  match c with Success => 0x10 | Failed => 0x11 end.

Definition exit_qemu (exit_code : QemuExitCode) : io unit :=
  emit (PortWrite 0xf4 (QemuExitCode_u32 exit_code)).

(** A test: the name of its function's type and what calling it does. *)
Record Testable := mkTest { type_name : list Z; call : io unit }.

Definition run (t : Testable) : io unit :=
  _ ← serial_print (type_name t ++ str_of "...." ++ [9]);
  _ ← call t;
  serial_println (str_of "[ok]").

Fixpoint run_all (tests : list Testable) : io unit :=
  match tests with
  | [] => mret tt
  | test :: tests => _ ← run test; run_all tests
  end.

Definition test_runner (tests : list Testable) : io unit :=
  _ ← serial_println (str_of "Running " ++ str_of (pretty (N.of_nat (length tests))) ++ str_of " tests");
  _ ← run_all tests;
  exit_qemu Success.

(** [info] is the rendered panic message. It does not return: after the exit
    code it halts for ever. *)
Definition test_panic_handler (info : list Z) : io unit :=
  _ ← serial_println (str_of "[failed] " ++ [10]);
  _ ← serial_println (str_of "Error: " ++ info ++ str_of " " ++ [10]);
  _ ← exit_qemu Failed;
  serial_println (str_of "QemuExitCode::Failed didn't work").

(** [test_kernel_main] after [init]: the tests, and the panic handler if one of
    them panics; [info w] renders the message of the panic [w]. *)
Definition test_kernel_main (info : panic_reason → list Z) (tests : list Testable) : list effect :=
  match test_runner tests with
  | (l, Ret _) => l
  | (l, Panic w) => l ++ (test_panic_handler (info w)).1
  end.

(** * tests/should_panic.rs

    The runner and the panic handler of the test that has to panic. *)
Definition should_panic_handler : io unit :=
  _ ← serial_println (str_of "[ok]");
  exit_qemu Success.

Fixpoint should_panic_run_all (tests : list (io unit)) : io unit :=
  match tests with
  | [] => mret tt
  | test :: tests =>
      _ ← test;
      _ ← serial_println (str_of "[test did not panic]");
      _ ← exit_qemu Failed;
      should_panic_run_all tests
  end.

Definition should_panic_test_runner (tests : list (io unit)) : io unit :=
  _ ← serial_println (str_of "Running " ++ str_of (pretty (N.of_nat (length tests))) ++ str_of " tests..");
  _ ← should_panic_run_all tests;
  exit_qemu Success.

Definition should_fail : io unit :=
  _ ← serial_print (str_of "should_panic::should_fail..." ++ [9]);
  ([], assert (0 =? 1)).

Definition should_panic_start (tests : list (io unit)) : list effect :=
  match should_panic_test_runner tests with
  | (l, Ret _) => l
  | (l, Panic _) => l ++ should_panic_handler.1
  end.

(** * What the emulator sees *)

(** The debug-exit device at port 0xf4 ends the run at the first write, with
    status [2 * value + 1]; [observed] are the effects up to then. *)
Fixpoint exit_status (l : list effect) : option Z :=
  match l with
  | [] => None
  | PortWrite port v :: l => if port =? 0xf4 then Some (2 * v + 1) else exit_status l
  | Serial _ :: l => exit_status l
  end.

Fixpoint observed (l : list effect) : list effect :=
  match l with
  | [] => []
  | PortWrite port v :: l =>
      if port =? 0xf4 then [PortWrite port v] else PortWrite port v :: observed l
  | Serial s :: l => Serial s :: observed l
  end.

Definition passes (t : Testable) : bool :=
  match (call t).2 with Ret _ => true | Panic _ => false end.

(** The report of a test that passes. *)
Definition report (t : Testable) : list effect :=
  Serial (type_name t ++ str_of "...." ++ [9]) :: (call t).1 ++ [Serial (str_of "[ok]" ++ [10])].

(** Tests that leave the exit device alone. *)
Definition no_exit (l : list effect) : Prop := exit_status l = None.

Lemma exit_status_app l l' : no_exit l → exit_status (l ++ l') = exit_status l'.
Proof.
  unfold no_exit. induction l as [|[s|p v] l IH]; simpl; [done|done|].
  by destruct (p =? 0xf4).
Qed.

Lemma observed_app l l' : no_exit l → observed (l ++ l') = l ++ observed l'.
Proof.
  unfold no_exit. induction l as [|[s|p v] l IH]; simpl; [done|intros; f_equal; auto|].
  destruct (p =? 0xf4); [done|]. intros. f_equal. auto.
Qed.

Lemma no_exit_app l l' : no_exit l → no_exit l' → no_exit (l ++ l').
Proof. intros Hl Hl'. unfold no_exit. by rewrite exit_status_app. Qed.

Lemma report_no_exit t : no_exit (call t).1 → no_exit (report t).
Proof. intros Ht. unfold report. apply (no_exit_app [_]); [done|]. by apply no_exit_app. Qed.

Lemma run_passes t : passes t = true → run t = (report t, Ret tt).
Proof.
  unfold passes, run, report. destruct (call t) as [l [[]|w]]; [|done]. intros _. simpl.
  by rewrite <- ?app_assoc.
Qed.

Lemma run_fails t w :
  (call t).2 = Panic w → run t = (Serial (type_name t ++ str_of "...." ++ [9]) :: (call t).1, Panic w).
Proof. unfold run. destruct (call t) as [l [[]|w']]; simpl; [done|]. by intros [= ->]. Qed.

Lemma run_all_passes pre rest :
  forallb passes pre = true →
  run_all (pre ++ rest) = (concat (report <$> pre) ++ (run_all rest).1, (run_all rest).2).
Proof.
  induction pre as [|t pre IH]; intros Hp; cbn [app run_all].
  { by destruct (run_all rest). }
  simpl in Hp. apply andb_true_iff in Hp as [Ht Hp]. rewrite (run_passes t Ht), (IH Hp).
  unfold mbind, io_bind. rewrite fmap_cons. cbn [concat].
  by rewrite (app_assoc (report t)).
Qed.

Lemma reports_no_exit pre : Forall (λ t, no_exit (call t).1) pre → no_exit (concat (report <$> pre)).
Proof.
  induction 1 as [|t pre Ht _ IH]; [done|]. csimpl. apply no_exit_app; [by apply report_no_exit|done].
Qed.

Lemma first_failure tests :
  forallb passes tests = false →
  ∃ pre t post w, tests = pre ++ t :: post ∧ forallb passes pre = true ∧ (call t).2 = Panic w.
Proof.
  induction tests as [|t tests IH]; simpl; [done|]. destruct (passes t) eqn:Ht; simpl.
  - intros Hf. destruct (IH Hf) as (pre & t' & post & w & -> & Hp & Hw).
    exists (t :: pre), t', post, w. simpl. by rewrite Ht.
  - intros _. unfold passes in Ht. destruct (call t).2 as [|w] eqn:Hw; [done|].
    by exists [], t, tests, w.
Qed.

(** The line that announces the tests. *)
Definition announce (n : nat) : effect :=
  Serial ((str_of "Running " ++ str_of (pretty (N.of_nat n)) ++ str_of " tests") ++ [10]).
(** Here the status says whether the first test panics; no other test runs. *)
Lemma should_panic_verdict tests :
  Forall (λ t, no_exit t.1) tests →
  exit_status (should_panic_start tests) = Some (match tests with (_, Ret _) :: _ => 35 | _ => 33 end).
Proof.
  intros Hq. unfold should_panic_start, should_panic_test_runner, serial_println, serial_print, emit.
  unfold mbind, io_bind. destruct Hq as [|[l [[]|w]] tests Hl _]; [done|..]; simpl in Hl.
  - cbn [should_panic_run_all]. unfold mbind, io_bind, serial_println, serial_print, exit_qemu, emit.
    destruct (should_panic_run_all tests) as [l' [[]|w]]; cbn [app exit_status];
      rewrite <- ?app_assoc, exit_status_app by done; done.
  - cbn [should_panic_run_all app]. unfold mbind, io_bind. cbn [app exit_status].
    by rewrite exit_status_app.
Qed.

Lemma should_fail_passes : exit_status (should_panic_start [should_fail]) = Some 33.
Proof. by apply should_panic_verdict; repeat constructor. Qed.

Lemma test_run_passes info tests :
  Forall (λ t, no_exit (call t).1) tests → forallb passes tests = true →
  let l := test_kernel_main info tests in
  exit_status l = Some 33
  ∧ observed l = announce (length tests) :: concat (report <$> tests) ++ [PortWrite 0xf4 0x10].
Proof.
  intros Hq Hall l. unfold l, test_kernel_main, test_runner.
  pose proof (run_all_passes tests [] Hall) as Hr. rewrite app_nil_r in Hr. rewrite Hr.
  pose proof (reports_no_exit tests Hq) as Hn. unfold mbind, io_bind. simpl. rewrite app_nil_r.
  rewrite exit_status_app, observed_app by done. done.
Qed.

Lemma test_run_fails info pre t post w :
  Forall (λ t, no_exit (call t).1) (pre ++ t :: post) → forallb passes pre = true → (call t).2 = Panic w →
  let l := test_kernel_main info (pre ++ t :: post) in
  exit_status l = Some 35
  ∧ observed l = announce (length (pre ++ t :: post)) :: concat (report <$> pre)
      ++ Serial (type_name t ++ str_of "...." ++ [9]) :: (call t).1
      ++ take 3 (test_panic_handler (info w)).1.
Proof.
  intros Hq Hp Hw l. apply Forall_app in Hq as [Hq1 Hq2]. apply Forall_cons in Hq2 as [Hq2 _].
  unfold l, test_kernel_main, test_runner.
  rewrite run_all_passes by done. cbn [run_all]. rewrite (run_fails t w Hw).
  pose proof (reports_no_exit pre Hq1) as Hn. unfold mbind, io_bind. cbn [fst snd app].
  set (first := Serial (type_name t ++ str_of "...." ++ [9]) :: (call t).1).
  assert (no_exit (announce (length (pre ++ t :: post)) :: concat (report <$> pre) ++ first)) as Hn'
    by (apply (no_exit_app [_]); [done|]; by apply no_exit_app).
  change (exit_status ((announce (length (pre ++ t :: post)) :: concat (report <$> pre) ++ first)
      ++ (test_panic_handler (info w)).1) = Some 35
    ∧ observed ((announce (length (pre ++ t :: post)) :: concat (report <$> pre) ++ first)
      ++ (test_panic_handler (info w)).1) = announce (length (pre ++ t :: post))
        :: concat (report <$> pre) ++ first ++ take 3 (test_panic_handler (info w)).1).
  rewrite exit_status_app, observed_app by exact Hn'. split; [done|].
  by rewrite <- app_comm_cons, <- app_assoc.
Qed.

(** C31: the status of a test run tells whether the tests pass. As long as no
    test writes to the exit device itself: if every test returns, the emulator
    leaves with status 33, the one Cargo.toml calls success, after the reports
    of all tests; otherwise with status 35, after the reports of the tests
    before the first one that panics, that test's own output and the failure
    message, and no later test runs. *)
Theorem test_run_verdict (info : panic_reason → list Z) (tests : list Testable)
    (Hq : Forall (λ t, no_exit (call t).1) tests) :
  let l := test_kernel_main info tests in
  (forallb passes tests = true ∧ exit_status l = Some 33
   ∧ observed l = announce (length tests) :: concat (report <$> tests) ++ [PortWrite 0xf4 0x10])
  ∨ (∃ pre t post w, tests = pre ++ t :: post ∧ forallb passes pre = true
     ∧ (call t).2 = Panic w ∧ exit_status l = Some 35
     ∧ observed l = announce (length tests) :: concat (report <$> pre)
         ++ Serial (type_name t ++ str_of "...." ++ [9]) :: (call t).1
         ++ take 3 (test_panic_handler (info w)).1).
Proof.
  intros l. destruct (forallb passes tests) eqn:Hall.
  - left. split; [done|]. by apply test_run_passes.
  - right. destruct (first_failure tests Hall) as (pre & t & post & w & -> & Hp & Hw).
    exists pre, t, post, w. do 3 (split; [done|]). by apply test_run_fails.
Qed.

Lemma test_run_verdict_witness :
  let tests := [mkTest (str_of "a") ([], Ret tt); mkTest (str_of "b") ([], Panic PAssert)] in
  exit_status (test_kernel_main (λ _, []) tests) = Some 35.
Proof.
  intros tests. destruct (test_run_verdict (λ _, []) tests) as [(Hp & _)|(pre & t & post & w & _ & _ & _ & He & _)].
  - by repeat constructor.
  - by vm_compute in Hp.
  - exact He.
Defined.
