(* ===== verification/Fault.v ===== *)
(** Faults of the processor: what happens to an exception with the tables of
    src/src/gdt.rs and src/src/interrupts.rs in place, up to the double fault and
    the stack reserved for it, and the test src/tests/stack_overflow.rs. The
    processor follows its manual: a frame is pushed before a handler runs, a
    fault while it is delivered is a second exception, and two exceptions in a row
    may become a double fault. *)
From S2P Require Import Prelude Queue Keyboard Interrupts Harness.
Local Open Scope Z_scope.
Local Open Scope rust_scope.

(** * The processor *)

(** Vectors of the exceptions that delivering an exception may raise. *)
Definition INVALID_TSS : Z := 10.
Definition SEGMENT_NOT_PRESENT : Z := 11.

Inductive exception_class := Benign | Contributory | PageFaultClass | DoubleFaultClass.

Definition class_of (v : Z) : exception_class :=
  if decide (v = DOUBLE_FAULT) then DoubleFaultClass
  else if decide (v = PAGE_FAULT) then PageFaultClass
  else if decide (v ∈ [0; INVALID_TSS; SEGMENT_NOT_PRESENT; 12; 13]) then Contributory
  else Benign.

(** Whether a second exception, while the first is being delivered, makes a
    double fault; otherwise the second is delivered instead. *)
Definition doubles (first second : Z) : bool :=
  match class_of first, class_of second with
  | Contributory, Contributory => true
  | PageFaultClass, (Contributory | PageFaultClass) => true
  | _, _ => false
  end.

(** The exceptions for which the processor pushes an error code. *)
Definition pushes_error_code (v : Z) : bool :=
  bool_decide (v ∈ [8; 10; 11; 12; 13; 14; 17; 21; 29; 30]).

(** The frame: stack segment and pointer, flags, code segment and instruction
    pointer, and for some exceptions an error code. *)
Definition frame_size (v : Z) : Z := if pushes_error_code v then 48 else 40.

Definition align16 (sp : Z) : Z := sp - sp mod 16.

(** A handler runs on a stack; or the third fault in a row shuts the processor
    down. *)
Inductive dispatch (H : Type) := Enters (h : H) (sp : Z) | Shutdown.
Arguments Enters {H} _ _.
Arguments Shutdown {H}.

Section processor.
Context {G D I H : Type} `{GdtLaws G D, IdtLaws I H}.
(** The task state behind a descriptor; the bytes that can be written. *)
Context (tss_of : D → option TaskStateSegment) (writable : Z → bool).

Definition pushable (sp n : Z) : bool := forallb writable (seqZ (sp - n) n).

(** The stack an entry of the interrupt table asks for. *)
Definition entry_stack (r : registers G I) (ist : option Z) (rsp : Z) : option Z :=
  match ist with
  | None => Some rsp
  | Some k => g ← gdtr r; d ← gdt_get g (tr r); tss ← tss_of d;
              interrupt_stack_table tss !! Z.to_nat k
  end.

(** One attempt to deliver the exception [v]: the handler and its stack pointer,
    or the exception this raises. *)
Definition attempt (r : registers G I) (rsp v : Z) : result (H * Z) Z :=
  match idtr r ≫= λ table, idt_entry table v with
  | None => Err SEGMENT_NOT_PRESENT
  | Some (h, ist) =>
      match entry_stack r ist rsp with
      | None => Err INVALID_TSS
      | Some sp =>
          let sp := align16 sp in
          if pushable sp (frame_size v) then Ok (h, sp - frame_size v) else Err PAGE_FAULT
      end
  end.

(** The class of the exception grows with every attempt, so that four of them
    are enough. *)
Fixpoint escalate (fuel : nat) (r : registers G I) (rsp v : Z) : option (dispatch H) :=
  match fuel with
  | O => None
  | S fuel =>
      match attempt r rsp v with
      | Ok (h, sp) => Some (Enters h sp)
      | Err v' =>
          if decide (v = DOUBLE_FAULT) then Some Shutdown
          else escalate fuel r rsp (if doubles v v' then DOUBLE_FAULT else v')
      end
  end.

Definition raise (r : registers G I) (rsp v : Z) : option (dispatch H) := escalate 4 r rsp v.

(** Calls that never return: each pushes its return address, 8 bytes, and takes
    a frame of [size] bytes in all. [Some rsp]: with the stack pointer [rsp] the
    return address cannot be pushed. *)
Fixpoint recurse (fuel : nat) (size rsp : Z) : option Z :=
  match fuel with
  | O => None
  | S fuel => if pushable rsp 8 then recurse fuel size (rsp - size) else Some rsp
  end.
End processor.

(** * The test of the stack overflow *)

(** The handler of the test's own interrupt table. *)
Inductive test_handler := test_double_fault_handler.

Definition run_test_handler (h : test_handler) : io unit :=
  match h with
  | test_double_fault_handler =>
      _ ← serial_println (str_of "[ok]");
      exit_qemu Success
  end.

Section stack_overflow.
Context {G D I : Type} `{GdtLaws G D, IdtLaws I test_handler}.
Context (tss_of : D → option TaskStateSegment) (writable : Z → bool).
Context (tss_new : TaskStateSegment) (STACK : Z) (virt_add : Z → Z → outcome Z).

Definition TEST_IDT : I :=
  let idt := idt_new in
  let idt := set_handler_fn idt DOUBLE_FAULT test_double_fault_handler in
  set_stack_index idt DOUBLE_FAULT DOUBLE_FAULT_IST_INDEX.

Definition init_test_idt (r : registers G I) : registers G I :=
  mkRegs (gdtr r) (cs r) (tr r) (Some TEST_IDT) (interrupts_enabled r).

(** [stack_overflow], with frames of [size] bytes, from the stack pointer
    [rsp]: the page fault it ends in, as the processor dispatches it. *)
Definition stack_overflow (fuel : nat) (size rsp : Z) (r : registers G I) : option (dispatch test_handler) :=
  rsp ← recurse writable fuel size rsp;
  raise tss_of writable r rsp PAGE_FAULT.

(** [_start]: the handler does not return, so nothing follows the overflow; nor
    does anything when the processor shuts down. [info] renders the message of a
    panic. *)
Definition stack_overflow_start (info : panic_reason → list Z) (fuel : nat) (size rsp : Z)
    (r : registers G I) : list effect :=
  let printed := (serial_print (str_of "stack_overflow::stack_overflow..." ++ [9])).1 in
  match gdt_init tss_new STACK virt_add r with
  | Panic w => printed ++ (test_panic_handler (info w)).1
  | Ret r =>
      let r := init_test_idt r in
      match stack_overflow fuel size rsp r with
      | Some (Enters h _) => printed ++ (run_test_handler h).1
      | Some Shutdown | None => printed
      end
  end.
End stack_overflow.

(** * Lemmas *)
Lemma align16_bounds sp : align16 sp ≤ sp < align16 sp + 16.
Proof. unfold align16. pose proof (Z.mod_pos_bound sp 16). lia. Qed.

Section processor_facts.
Context {G D I H : Type} `{GdtLaws G D, IdtLaws I H}.
Context (tss_of : D → option TaskStateSegment) (writable : Z → bool).
Context (Htss : ∀ t, tss_of (tss_segment t) = Some t).

Lemma pushable_spec sp n : pushable writable sp n = true ↔ ∀ a, sp - n ≤ a < sp → writable a = true.
Proof.
  unfold pushable. rewrite forallb_forall. split; intros Hw a Ha.
  - apply Hw, list_elem_of_In, elem_of_seqZ. lia.
  - apply list_elem_of_In, elem_of_seqZ in Ha. apply Hw. lia.
Qed.

Lemma not_pushable sp n a : sp - n ≤ a < sp → writable a = false → pushable writable sp n = false.
Proof.
  intros Ha Hw. destruct (pushable writable sp n) eqn:Hp; [|done].
  rewrite pushable_spec in Hp. rewrite Hp in Hw by done. done.
Qed.

Lemma escalate_step fuel r rsp v v' :
  attempt tss_of writable r rsp v = Err v' → v ≠ DOUBLE_FAULT →
  escalate (H := H) tss_of writable (S fuel) r rsp v
    = escalate tss_of writable fuel r rsp (if doubles v v' then DOUBLE_FAULT else v').
Proof. intros Ha Hv. cbn [escalate]. by rewrite Ha, decide_False. Qed.

(** A double fault is delivered when its stack is writable. *)
Context (STACK : Z) (r : registers G I) (table : I) (df : H).
Context (Htables : tables_ok STACK r) (Hidt : idtr r = Some table).
Context (Hdf : idt_entry table DOUBLE_FAULT = Some (df, Some DOUBLE_FAULT_IST_INDEX)).
Context (Hstack : ∀ a, STACK ≤ a < STACK + 20480 → writable a = true).

(** The stack pointer the double-fault handler starts with. *)
Definition df_sp : Z := align16 (STACK + 20480) - 48.

Lemma attempt_df rsp : attempt tss_of writable r rsp DOUBLE_FAULT = Ok (df, df_sp).
Proof.
  destruct Htables as (g & tss & Hg & _ & Htr & Hist). unfold attempt. rewrite Hidt. simpl.
  rewrite Hdf. unfold entry_stack. rewrite Hg. simpl. rewrite Htr. simpl. rewrite Htss. simpl.
  rewrite Hist. change (frame_size DOUBLE_FAULT) with 48.
  rewrite (proj2 (pushable_spec _ _)); [done|]. intros a Ha. apply Hstack.
  pose proof (align16_bounds (STACK + 20480)). lia.
Qed.

Lemma escalate_df fuel rsp :
  escalate tss_of writable (S fuel) r rsp DOUBLE_FAULT = Some (Enters df df_sp).
Proof. cbn [escalate]. by rewrite attempt_df. Qed.

(** An entry without a stack of its own, or none at all. *)
Lemma attempt_plain rsp v :
  match idt_entry table v with
  | Some (h, None) =>
      attempt tss_of writable r rsp v =
        if pushable writable (align16 rsp) (frame_size v) then Ok (h, align16 rsp - frame_size v)
        else Err PAGE_FAULT
  | Some (_, Some _) => True
  | None => attempt tss_of writable r rsp v = Err SEGMENT_NOT_PRESENT
  end.
Proof. unfold attempt. rewrite Hidt. simpl. by destruct (idt_entry table v) as [[h [k|]]|]. Qed.
End processor_facts.

(** The memory of a stack: [lo, hi) can be written, the page below cannot. *)
Definition guarded (writable : Z → bool) (lo hi : Z) : Prop :=
  (8 | lo) ∧ (∀ a, lo ≤ a < hi → writable a = true) ∧ (∀ a, lo - 4096 ≤ a < lo → writable a = false).

(** The recursion runs into the guard page. *)
Lemma recurse_faults writable lo hi size rsp fuel :
  guarded writable lo hi → 8 ≤ size ≤ 4072 → (8 | size) → (8 | rsp) →
  lo - size ≤ rsp - 8 → rsp ≤ hi → rsp - lo + 4096 ≤ 8 * Z.of_nat fuel →
  ∃ rsp', recurse writable fuel size rsp = Some rsp' ∧ lo - size ≤ rsp' - 8 < lo.
Proof.
  intros ([l Hl] & Hw & Hg) Hs [q Hq]. revert rsp.
  induction fuel as [|fuel IH]; intros rsp [p Hp] Hlo Hhi Hf; [lia|]. cbn [recurse].
  destruct (Z.lt_ge_cases (rsp - 8) lo) as [Hlt|Hge].
  - exists rsp. rewrite (not_pushable writable rsp 8 (rsp - 8)); [done|lia|]. apply Hg. lia.
  - rewrite (proj2 (pushable_spec writable rsp 8)) by (intros a Ha; apply Hw; lia).
    apply IH; [exists (p - q)|..]; lia.
Qed.

(** No frame can be pushed there. *)
Lemma guard_not_pushable writable lo hi size rsp v :
  guarded writable lo hi → size ≤ 4072 → (8 | rsp) → lo - size ≤ rsp - 8 < lo →
  pushable writable (align16 rsp) (frame_size v) = false.
Proof.
  intros ([l Hl] & _ & Hg) Hs [p Hp] Hr. pose proof (align16_bounds rsp).
  apply (not_pushable writable _ _ (align16 rsp - 8)).
  - unfold frame_size. case_match; lia.
  - apply Hg. lia.
Qed.

(** A frame with an error code is the larger one. *)
Lemma pushable_larger writable sp v :
  pushable writable sp (frame_size v) = false → pushable writable sp (frame_size PAGE_FAULT) = false.
Proof.
  intros Hv. destruct (pushable writable sp (frame_size PAGE_FAULT)) eqn:Hp; [|done].
  rewrite pushable_spec in Hp. change (frame_size PAGE_FAULT) with 48 in Hp.
  rewrite (proj2 (pushable_spec writable sp (frame_size v))) in Hv; [done|].
  intros a Ha. apply Hp. unfold frame_size in Ha. case_match; lia.
Qed.

(** The recursion keeps the alignment of the stack pointer. *)
Lemma recurse_aligned writable fuel size rsp rsp' :
  (8 | size) → (8 | rsp) → recurse writable fuel size rsp = Some rsp' → (8 | rsp').
Proof.
  intros Hs. revert rsp. induction fuel as [|fuel IH]; intros rsp Hr; cbn [recurse]; [done|].
  case_match; [|by intros [= <-]]. apply IH. by apply Z.divide_sub_r.
Qed.

(** ** The kernel's table *)
Section kernel_faults.
Context {G D I : Type} `{GdtLaws G D, IdtLaws I handler}.
Context (tss_of : D → option TaskStateSegment) (writable : Z → bool).
Context (Htss : ∀ t, tss_of (tss_segment t) = Some t).
Context (STACK : Z) (r : registers G I).
Context (Htables : tables_ok STACK r) (Hidt : idtr r = Some (IDT : I)).
Context (Hstack : ∀ a, STACK ≤ a < STACK + 20480 → writable a = true).

(** What becomes of an exception. *)
Definition dispatched (rsp v : Z) : dispatch handler :=
  match idt_spec v with
  | Some (h, None) =>
      if pushable writable (align16 rsp) (frame_size v) then Enters h (align16 rsp - frame_size v)
      else Enters double_fault_handler (df_sp STACK)
  | _ => Enters double_fault_handler (df_sp STACK)
  end.

Lemma escalate_kernel_df fuel rsp :
  escalate tss_of writable (S fuel) r rsp DOUBLE_FAULT = Some (Enters double_fault_handler (df_sp STACK)).
Proof. eapply (escalate_df tss_of writable Htss STACK r IDT); eauto. by rewrite IDT_entries. Qed.

Lemma escalate_page_fault fuel rsp :
  pushable writable (align16 rsp) (frame_size PAGE_FAULT) = false →
  escalate tss_of writable (S (S fuel)) r rsp PAGE_FAULT
    = Some (Enters double_fault_handler (df_sp STACK)).
Proof.
  intros Hp. pose proof (attempt_plain tss_of writable r IDT Hidt rsp PAGE_FAULT) as Ha.
  rewrite IDT_entries in Ha. simpl in Ha. rewrite Hp in Ha.
  rewrite (escalate_step _ _ _ _ _ _ _ Ha) by done. apply escalate_kernel_df.
Qed.

Lemma escalate_absent fuel rsp v :
  idt_spec v = None →
  escalate tss_of writable (S (S (S fuel))) r rsp v = Some (Enters double_fault_handler (df_sp STACK)).
Proof.
  assert (∀ v, idt_spec v = None → attempt tss_of writable r rsp v = Err SEGMENT_NOT_PRESENT) as Ha.
  { intros v' Hv'. pose proof (attempt_plain tss_of writable r IDT Hidt rsp v') as Hp.
    by rewrite IDT_entries, Hv' in Hp. }
  intros Hv. rewrite (escalate_step _ _ _ _ _ _ _ (Ha v Hv)) by (intros ->; done).
  destruct (doubles v SEGMENT_NOT_PRESENT); [apply escalate_kernel_df|].
  rewrite (escalate_step _ _ _ _ _ _ _ (Ha SEGMENT_NOT_PRESENT eq_refl)) by done.
  change (doubles SEGMENT_NOT_PRESENT SEGMENT_NOT_PRESENT) with true. apply escalate_kernel_df.
Qed.

Lemma raise_dispatched rsp v : raise tss_of writable r rsp v = Some (dispatched rsp v).
Proof.
  unfold raise, dispatched. pose proof (attempt_plain tss_of writable r IDT Hidt rsp v) as Ha.
  rewrite IDT_entries in Ha. destruct (idt_spec v) as [[h [k|]]|] eqn:Hv.
  - assert (v = DOUBLE_FAULT) as -> by (unfold idt_spec in Hv; repeat case_decide; by simplify_eq).
    assert (h = double_fault_handler) as _ by by injection Hv. apply escalate_kernel_df.
  - destruct (pushable writable (align16 rsp) (frame_size v)) eqn:Hp.
    + cbn [escalate]. by rewrite Ha.
    + rewrite (escalate_step _ _ _ _ _ _ _ Ha) by (intros ->; done).
      destruct (doubles v PAGE_FAULT); [apply escalate_kernel_df|].
      apply escalate_page_fault. by eapply pushable_larger.
  - by apply escalate_absent.
Qed.
End kernel_faults.

(** ** The test's table *)
Lemma TEST_IDT_entries {I} `{IdtLaws I test_handler} v :
  idt_entry (TEST_IDT : I) v =
    if decide (v = DOUBLE_FAULT) then Some (test_double_fault_handler, Some DOUBLE_FAULT_IST_INDEX) else None.
Proof.
  unfold TEST_IDT. set (i1 := set_handler_fn _ _ _).
  assert (∀ v, idt_entry i1 v = if decide (8 = v) then Some (test_double_fault_handler, None) else None) as E1.
  { intros v'. unfold i1. by rewrite set_handler_fn_entry, idt_new_entry by apply idt_new_entry. }
  rewrite (set_stack_index_entry i1 DOUBLE_FAULT test_double_fault_handler None) by by rewrite E1.
  rewrite E1. unfold DOUBLE_FAULT. repeat case_decide; subst; done.
Qed.

(** * Properties *)

(** C10: no exception shuts the processor down. After [init], whatever the stack
    pointer, an exception enters its own handler when it has one and its frame
    fits on the current stack; every other exception (no handler, or no room on
    the stack) enters the double-fault handler at the top of the 20 KiB reserved
    for it. In particular unbounded recursion, with frames smaller than the guard
    page, ends there. *)
Theorem exceptions_dispatched (G D I P : Type) (HG : Gdt G D) (HGL : GdtLaws G D)
    (HI : Idt I handler) (HIL : IdtLaws I handler) (HP : Pics P)
    (tss_of : D → option TaskStateSegment) (writable : Z → bool)
    (tss_new : TaskStateSegment) (STACK : Z) (virt_add : Z → Z → outcome Z) (r : registers G I)
    (Htss : ∀ t, tss_of (tss_segment t) = Some t)
    (Hlen : length (interrupt_stack_table tss_new) = 7%nat)
    (Hadd : virt_add STACK 20480 = Ret (STACK + 20480))
    (Hstack : ∀ a, STACK ≤ a < STACK + 20480 → writable a = true) :
  ∃ r', init tss_new STACK virt_add r (PICS_init : P) = Ret (r', initialize PICS_init)
    ∧ (∀ rsp v, raise tss_of writable r' rsp v = Some (dispatched writable STACK rsp v))
    ∧ STACK + 20416 ≤ df_sp STACK < STACK + 20480
    ∧ ∀ lo hi size rsp fuel, guarded writable lo hi → 8 ≤ size ≤ 4072 → (8 | size) → (8 | rsp) →
        lo ≤ rsp ≤ hi → rsp - lo + 4096 ≤ 8 * Z.of_nat fuel →
        ∃ rsp', recurse writable fuel size rsp = Some rsp'
          ∧ raise tss_of writable r' rsp' PAGE_FAULT = Some (Enters double_fault_handler (df_sp STACK)).
Proof.
  destruct (init_tables tss_new STACK virt_add r (PICS_init : P) Hlen Hadd) as (r' & -> & Htab & Hidt & _).
  exists r'. split; [done|]. pose proof (raise_dispatched tss_of writable Htss STACK r' Htab Hidt Hstack) as Hd.
  split; [done|]. split; [unfold df_sp; pose proof (align16_bounds (STACK + 20480)); lia|].
  intros lo hi size rsp fuel Hg Hs Hs8 Hr8 Hr Hf.
  destruct (recurse_faults writable lo hi size rsp fuel) as (rsp' & Hrec & Hr'); try done; [lia..|].
  exists rsp'. split; [done|]. rewrite Hd. unfold dispatched. simpl.
  rewrite (guard_not_pushable writable lo hi size); try done; [lia|by apply (recurse_aligned writable fuel size rsp)].
Qed.

(** C22: the test of the stack overflow passes. With a guard page below the
    stack, the recursion ends in a page fault that the test's table cannot
    deliver; the double fault runs the test's handler on the reserved stack, which
    prints [ok] and leaves the emulator with the status of success. *)
Theorem stack_overflow_test_passes (G D I : Type) (HG : Gdt G D) (HGL : GdtLaws G D)
    (HI : Idt I test_handler) (HIL : IdtLaws I test_handler)
    (tss_of : D → option TaskStateSegment) (writable : Z → bool)
    (tss_new : TaskStateSegment) (STACK : Z) (virt_add : Z → Z → outcome Z) (r : registers G I)
    (info : panic_reason → list Z) (lo hi size rsp : Z) (fuel : nat)
    (Htss : ∀ t, tss_of (tss_segment t) = Some t)
    (Hlen : length (interrupt_stack_table tss_new) = 7%nat)
    (Hadd : virt_add STACK 20480 = Ret (STACK + 20480))
    (Hstack : ∀ a, STACK ≤ a < STACK + 20480 → writable a = true)
    (Hguard : guarded writable lo hi) (Hsize : 8 ≤ size ≤ 4072) (Hsize8 : (8 | size))
    (Hrsp : lo ≤ rsp ≤ hi) (Hrsp8 : (8 | rsp)) (Hfuel : rsp - lo + 4096 ≤ 8 * Z.of_nat fuel) :
  let l := stack_overflow_start tss_of writable tss_new STACK virt_add info fuel size rsp r in
  l = [Serial (str_of "stack_overflow::stack_overflow..." ++ [9]); Serial (str_of "[ok]" ++ [10]);
       PortWrite 0xf4 0x10]
  ∧ exit_status l = Some 33.
Proof.
  intros l. unfold l, stack_overflow_start.
  destruct (gdt_init_tables tss_new STACK virt_add r Hlen Hadd) as (r' & -> & Htab & _).
  unfold stack_overflow.
  destruct (recurse_faults writable lo hi size rsp fuel) as (rsp' & -> & Hr'); try done; [lia..|]. simpl.
  pose proof (attempt_plain tss_of writable (init_test_idt r') TEST_IDT eq_refl rsp' PAGE_FAULT) as Ha.
  rewrite TEST_IDT_entries in Ha. unfold raise.
  rewrite (escalate_step _ _ _ _ _ _ _ Ha) by done.
  change (doubles PAGE_FAULT SEGMENT_NOT_PRESENT) with true.
  rewrite (escalate_df tss_of writable Htss STACK (init_test_idt r') TEST_IDT test_double_fault_handler);
    [done|done|done|by rewrite TEST_IDT_entries|done].
Qed.

(** * Examples: a stack of two pages above a guard page *)
Definition demo_writable (a : Z) : bool :=
  (0x2000 <=? a) && (a <? 0x4000) || (0x10000 <=? a) && (a <? 0x15000).
Definition demo_regs {H} : registers (list desc) (gmap Z (H * option Z)) := mkRegs None 0 0 None false.

Lemma demo_guarded : guarded demo_writable 0x2000 0x4000.
Proof.
  split; [by exists 1024|]. unfold demo_writable.
  split; intros a Ha; rewrite ?orb_true_iff, ?orb_false_iff, ?andb_true_iff, ?andb_false_iff,
    ?Z.leb_le, ?Z.ltb_lt, ?Z.leb_gt, ?Z.ltb_ge; lia.
Qed.

Lemma demo_df_stack a : 0x10000 ≤ a < 0x10000 + 20480 → demo_writable a = true.
Proof.
  intros Ha. unfold demo_writable. rewrite orb_true_iff, !andb_true_iff, !Z.leb_le, !Z.ltb_lt. lia.
Qed.

Lemma exceptions_dispatched_witness :
  ∃ r', init (mkTSS (replicate 7 0)) 0x10000 (λ a b, Ret (a + b)) demo_regs (PICS_init : Pic)
          = Ret (r', initialize PICS_init)
    ∧ raise (H := handler) Datatypes.id demo_writable r' 0x3000 BREAKPOINT
      = Some (Enters breakpoint_handler (0x3000 - 40))
    ∧ raise (H := handler) Datatypes.id demo_writable r' 0x3000 0
      = Some (Enters double_fault_handler (0x15000 - 48))
    ∧ raise (H := handler) Datatypes.id demo_writable r' 0x2000 PAGE_FAULT
      = Some (Enters double_fault_handler (0x15000 - 48)).
Proof.
  destruct (exceptions_dispatched (list desc) desc (gmap Z (handler * option Z)) Pic _ _ _ _ _
    Datatypes.id demo_writable (mkTSS (replicate 7 0)) 0x10000 (λ a b, Ret (a + b)) demo_regs)
    as (r' & Hinit & Hraise & _ & Hover).
  - done.
  - done.
  - done.
  - exact demo_df_stack.
  - exists r'. split; [exact Hinit|]. rewrite !Hraise. split_and!; by vm_compute.
Defined.

Lemma stack_overflow_test_passes_witness :
  exit_status (stack_overflow_start (I := gmap Z (test_handler * option Z)) Datatypes.id demo_writable
    (mkTSS (replicate 7 0)) 0x10000 (λ a b, Ret (a + b)) (λ _, []) 2000 32 0x4000 demo_regs) = Some 33.
Proof.
  apply (stack_overflow_test_passes (list desc) desc (gmap Z (test_handler * option Z)) _ _ _ _
    Datatypes.id demo_writable (mkTSS (replicate 7 0)) 0x10000 (λ a b, Ret (a + b)) demo_regs (λ _, [])
    0x2000 0x4000 32 0x4000 2000).
  - done.
  - done.
  - done.
  - exact demo_df_stack.
  - exact demo_guarded.
  - lia.
  - by exists 4.
  - lia.
  - by exists 2048.
  - lia.
Defined.
