(* ===== verification/TestSuite.v ===== *)
(** The kernel's own tests: the [#[test_case]] functions of src/src/interrupts.rs,
    src/src/vga_buffer.rs and src/src/main.rs and the test of
    src/tests/basic_boot.rs, each as the harness of src/src/lib.rs runs it, and the
    test run of the library from [test_kernel_main] on. *)
From S2P Require Import Prelude Vga Print Queue Keyboard Interrupts Harness Fault.
Local Open Scope Z_scope.

(** [n] times the same. *)
Fixpoint times (n : nat) (m : io unit) : io unit :=
  match n with O => mret tt | S n => _ ← m; times n m end.

Section tests.
Context {G D I : Type} `{GdtLaws G D, IdtLaws I handler}.
Context (tss_of : D → option TaskStateSegment) (writable : Z → bool).

(** What the handlers of exceptions print, with [frame] for the rendered stack
    frame and [fault] for the rest of what a page fault reports. Only the first
    comes back to the interrupted code; the others loop for ever. *)
Definition exception_handler (h : handler) (frame fault : list Z) : io unit :=
  match h with
  | breakpoint_handler => serial_println (str_of "EXCEPTION: BREAKPOINT" ++ [10; 32] ++ frame)
  | double_fault_handler =>
      _ ← serial_println (str_of "EXCEPTION: DOUBLE FAULT" ++ [10] ++ frame);
      ([], Panic PFuel)
  | page_fault_handler =>
      _ ← serial_println (str_of "EXCEPTION: PAGE FAULT");
      _ ← serial_print fault;
      _ ← serial_println frame;
      ([], Panic PFuel)
  | timer_interrupt_handler | keyboard_interrupt_handler => mret tt
  end.

(** The instruction [int3] with the stack pointer [rsp]. *)
Definition int3 (r : registers G I) (rsp : Z) (frame fault : list Z) : io unit :=
  match raise tss_of writable r rsp BREAKPOINT with
  | Some (Enters h _) => exception_handler h frame fault
  | _ => ([], Panic PFuel)
  end.

Definition test_breakpoint_exception (r : registers G I) (rsp : Z) (frame fault : list Z) : Testable :=
  mkTest (str_of "blog_os::interrupts::test_breakpoint_exception") (int3 r rsp frame fault).

Definition test_println_simple : Testable :=
  mkTest (str_of "blog_os::vga_buffer::test_println_simple")
    (serial_println (str_of "test_println_simple output")).

Definition test_println_many : Testable :=
  mkTest (str_of "blog_os::vga_buffer::test_println_many")
    (times 200 (serial_println (str_of "test_println_many output"))).

(** This one prints to the screen, whose writer is [w]. *)
Definition test_println_output_case (w : Writer) : Testable :=
  mkTest (str_of "blog_os::vga_buffer::test_println_output")
    ([], _ ← Print.test_println_output w; Ret tt).

Definition library_tests (r : registers G I) (rsp : Z) (frame fault : list Z) (w : Writer) : list Testable :=
  [test_breakpoint_exception r rsp frame fault; test_println_simple; test_println_many;
   test_println_output_case w].

(** [test_kernel_main] of lib.rs with [init]: [tests] is the order in which the
    compiler lists the tests. *)
Definition library_test_run {P} `{Pics P} (tss_new : TaskStateSegment) (STACK : Z)
    (virt_add : Z → Z → outcome Z) (info : panic_reason → list Z)
    (tests : registers G I → list Testable) (r : registers G I) (PICS : P) : list effect :=
  match init tss_new STACK virt_add r PICS with
  | Ret (r, _) => test_kernel_main info (tests r)
  | Panic w => (test_panic_handler (info w)).1
  end.
End tests.

(** The test of main.rs and the one of tests/basic_boot.rs, whose [_start] calls
    [test_main] without [init]. *)
Definition one_one_assertion : Testable :=
  mkTest (str_of "blog_os::one_one_assertion") ([], assert (1 =? 1)).

Definition test_println : Testable :=
  mkTest (str_of "basic_boot::test_println") (serial_println (str_of "println! works fine!")).

Definition basic_boot_start (info : panic_reason → list Z) : list effect :=
  test_kernel_main info [test_println].

Lemma times_passes n s :
  no_exit (times n (serial_println s)).1 ∧ (times n (serial_println s)).2 = Ret tt.
Proof.
  induction n as [|n [IH1 IH2]]; [done|]. cbn [times]. unfold mbind, io_bind, serial_println at 1 3, serial_print at 1 2, emit.
  destruct (times n (serial_println s)) as [l [[]|w]]; [|done]. by split.
Qed.

Section suite_facts.
Context {G D I : Type} `{GdtLaws G D, IdtLaws I handler}.
Context (tss_of : D → option TaskStateSegment) (writable : Z → bool).
Context (Htss : ∀ t, tss_of (tss_segment t) = Some t).
Context (STACK : Z) (r : registers G I).
Context (Htables : tables_ok STACK r) (Hidt : idtr r = Some (IDT : I)).
Context (Hstack : ∀ a, STACK ≤ a < STACK + 20480 → writable a = true).

(** A breakpoint comes back when the stack has room for its frame. *)
Lemma int3_returns rsp frame fault :
  (∀ a, rsp - 56 ≤ a < rsp → writable a = true) →
  int3 tss_of writable r rsp frame fault = serial_println (str_of "EXCEPTION: BREAKPOINT" ++ [10; 32] ++ frame).
Proof.
  intros Hroom. unfold int3. rewrite (raise_dispatched tss_of writable Htss STACK r Htables Hidt Hstack).
  unfold dispatched. cbn [idt_spec decide]. change (idt_spec BREAKPOINT) with (Some (breakpoint_handler, @None Z)).
  cbn iota beta. rewrite (proj2 (pushable_spec writable _ _)); [done|]. change (frame_size BREAKPOINT) with 40.
  intros a Ha. apply Hroom. pose proof (align16_bounds rsp). lia.
Qed.

Lemma library_tests_ok rsp frame fault w :
  (∀ a, rsp - 56 ≤ a < rsp → writable a = true) → writer_ok w →
  Forall (λ t, no_exit (call t).1 ∧ passes t = true) (library_tests tss_of writable r rsp frame fault w).
Proof.
  intros Hroom Hw. unfold library_tests. repeat apply Forall_cons_2; [..|apply Forall_nil_2].
  - unfold passes. simpl. rewrite int3_returns by done. done.
  - done.
  - unfold passes, test_println_many. cbn [call].
    destruct (times_passes 200 (str_of "test_println_many output")) as [Hn ->]. done.
  - unfold passes. simpl. destruct (test_println_output_ok w Hw) as (w' & -> & _). done.
Qed.
End suite_facts.

(** C32: the library's tests pass, in whatever order the compiler lists them.
    After [init], with a stack that has room for an exception frame and whatever the
    screen shows, [test_kernel_main] runs the test of the breakpoint, which comes
    back from its handler, and the three tests of printing, and leaves the emulator
    with the status of success; so does the test of a basic boot, which needs no
    [init]. *)
Theorem library_tests_pass (G D I P : Type) (HG : Gdt G D) (HGL : GdtLaws G D)
    (HI : Idt I handler) (HIL : IdtLaws I handler) (HP : Pics P)
    (tss_of : D → option TaskStateSegment) (writable : Z → bool)
    (tss_new : TaskStateSegment) (STACK : Z) (virt_add : Z → Z → outcome Z) (r : registers G I)
    (info : panic_reason → list Z) (rsp : Z) (frame fault : list Z) (w : Writer)
    (tests : registers G I → list Testable)
    (Htss : ∀ t, tss_of (tss_segment t) = Some t)
    (Hlen : length (interrupt_stack_table tss_new) = 7%nat)
    (Hadd : virt_add STACK 20480 = Ret (STACK + 20480))
    (Hstack : ∀ a, STACK ≤ a < STACK + 20480 → writable a = true)
    (Hroom : ∀ a, rsp - 56 ≤ a < rsp → writable a = true) (Hw : writer_ok w)
    (Hperm : ∀ r, tests r ≡ₚ library_tests tss_of writable r rsp frame fault w) :
  exit_status (library_test_run tss_new STACK virt_add info tests r (PICS_init : P)) = Some 33
  ∧ exit_status (basic_boot_start info) = Some 33.
Proof.
  split; [|by apply test_run_passes; [repeat constructor|]]. unfold library_test_run.
  destruct (init_tables tss_new STACK virt_add r (PICS_init : P) Hlen Hadd) as (r' & -> & Htab & Hidt & _).
  pose proof (library_tests_ok tss_of writable Htss STACK r' Htab Hidt Hstack rsp frame fault w Hroom Hw) as Hok.
  rewrite <- (Hperm r') in Hok. apply Forall_and in Hok as [Hq Hp]. apply test_run_passes; [done|].
  rewrite forallb_forall. intros t Ht. rewrite Forall_forall in Hp. by apply Hp, list_elem_of_In.
Qed.

Lemma library_tests_pass_witness :
  exit_status (library_test_run (mkTSS (replicate 7 0)) 0x10000 (λ a b, Ret (a + b)) (λ _, [])
    (λ r, reverse (library_tests Datatypes.id demo_writable r 0x3000 [] [] demo_writer))
    (demo_regs : registers (list desc) (gmap Z (handler * option Z))) (PICS_init : Pic)) = Some 33.
Proof.
  apply (library_tests_pass (list desc) desc (gmap Z (handler * option Z)) Pic _ _ _ _ _
    Datatypes.id demo_writable (mkTSS (replicate 7 0)) 0x10000 (λ a b, Ret (a + b)) demo_regs (λ _, [])
    0x3000 [] [] demo_writer).
  - done.
  - done.
  - done.
  - exact demo_df_stack.
  - intros a Ha. apply demo_guarded. lia.
  - exact demo_writer_ok.
  - intros r. apply reverse_Permutation.
Defined.
