(* ===== verification/Pci.v ===== *)
(** PCI configuration space through I/O ports and the search for the disk
    (src/src/virtio/pci.rs), and the virtio driver's view of memory, [OsHal]
    (src/src/virtio/mod.rs). *)
From S2P Require Import Prelude Alloc Memory.
Local Open Scope Z_scope.
Local Open Scope rust_scope.

Definition CONFIG_ADDRESS : Z := 0xCF8.
Definition CONFIG_DATA : Z := 0xCFC.

Record DeviceFunction := mkDF { bus : Z; device : Z; function : Z }.

(** The address packet; [u8]s widened to [u32], so the shifts lose no bits. *)
Definition config_address (bus device function offset : Z) : Z :=
  Z.lor (Z.lor (Z.lor (Z.lor (Z.shiftl bus 16) (Z.shiftl device 11)) (Z.shiftl function 8))
    (Z.land offset 0xFC)) 0x80000000.

Section ports.
(** The I/O ports: the machine's state after a 32-bit write, and the value and
    state after a read. *)
Context {S : Type} (port_write : S → Z → Z → S) (port_read : S → Z → Z * S).

Definition read_config_dword (s : S) (bus device function offset : Z) : Z * S :=
  let s := port_write s CONFIG_ADDRESS (config_address bus device function offset) in
  port_read s CONFIG_DATA.

Definition read_word (s : S) (df : DeviceFunction) (register_offset : Z) : Z * S :=
  let address := config_address (bus df) (device df) (function df) register_offset in
  let s := port_write s 0xCF8 address in
  port_read s 0xCFC.

Definition write_word (s : S) (df : DeviceFunction) (register_offset data : Z) : S :=
  let address := config_address (bus df) (device df) (function df) register_offset in
  let s := port_write s 0xCF8 address in
  port_write s 0xCFC data.
End ports.

(** * The address packet *)

(** Valid bus, device, function and register numbers. *)
Definition df_ok (df : DeviceFunction) : Prop :=
  0 ≤ bus df < 256 ∧ 0 ≤ device df < 32 ∧ 0 ≤ function df < 8.

(** A field of [w] bits at bit [k]. *)
Definition field (x k w : Z) : Z := Z.land (Z.shiftr x k) (Z.ones w).

Lemma lor_shiftl_add a b k : 0 ≤ k → 0 ≤ b < 2 ^ k → Z.lor (Z.shiftl a k) b = a * 2 ^ k + b.
Proof.
  intros Hk Hb. rewrite Z.shiftl_mul_pow2 by done. rewrite <- Z.lxor_lor, <- Z.add_nocarry_lxor; try done.
  all: apply Z.bits_inj'; intros n Hn; rewrite Z.land_spec, Z.bits_0, <- Z.shiftl_mul_pow2 by done;
    destruct (Z.lt_ge_cases n k);
    [by rewrite Z.shiftl_spec_low|rewrite andb_comm; apply andb_false_intro1].
  all: destruct (decide (b = 0)) as [->|]; [apply Z.bits_0|];
    apply Z.bits_above_log2; [lia|]; apply Z.log2_lt_pow2; [lia|];
    apply Z.lt_le_trans with (2 ^ k); [lia|]; apply Z.pow_le_mono_r; lia.
Qed.

Lemma land_fc o : 0 ≤ o < 256 → Z.land o 0xFC = o / 4 * 4.
Proof.
  intros Ho. change 0xFC with (Z.ldiff 255 3). 
  replace (Z.land o (Z.ldiff 255 3)) with (Z.ldiff o 3).
  - change 3 with (Z.ones 2). rewrite Z.ldiff_ones_r by lia.
    by rewrite Z.shiftl_mul_pow2, Z.shiftr_div_pow2 by lia.
  - rewrite !Z.ldiff_land, Z.land_assoc. f_equal. change 255 with (Z.ones 8).
    rewrite Z.land_ones by lia. by rewrite Z.mod_small.
Qed.

(** The packet as a number. *)
Lemma config_address_eq df o :
  df_ok df → 0 ≤ o < 256 →
  config_address (bus df) (device df) (function df) o =
    2 ^ 31 + bus df * 2 ^ 16 + device df * 2 ^ 11 + function df * 2 ^ 8 + o / 4 * 4.
Proof.
  intros (Hb & Hd & Hf) Ho. unfold config_address. rewrite land_fc by done.
  assert (0 ≤ o / 4 * 4 < 256) as Ho' by (pose proof (Z.div_mod o 4); pose proof (Z.mod_pos_bound o 4); lia).
  rewrite <- !Z.lor_assoc, (Z.lor_comm (o / 4 * 4)), (Z.lor_assoc (Z.shiftl (function df) 8)).
  rewrite (Z.lor_comm (Z.shiftl (function df) 8) 0x80000000).
  rewrite <- (Z.lor_assoc 0x80000000), (lor_shiftl_add (function df)) by lia.
  rewrite (Z.lor_assoc _ 0x80000000), (Z.lor_comm _ 0x80000000), <- (Z.lor_assoc 0x80000000).
  rewrite (lor_shiftl_add (device df)) by lia.
  rewrite (Z.lor_assoc _ 0x80000000), (Z.lor_comm _ 0x80000000), <- (Z.lor_assoc 0x80000000).
  rewrite (lor_shiftl_add (bus df)) by lia.
  change 0x80000000 with (Z.shiftl 1 31). rewrite lor_shiftl_add by lia. lia.
Qed.

(** The address packet of the PCI configuration mechanism. For valid
    numbers it fits 32 bits and holds, in their fields, the enable bit, the bus,
    the device, the function and the register rounded down to a multiple of
    four; so two packets are equal exactly when they select the same 32-bit
    register of the same function. *)
Theorem config_address_fields (df df' : DeviceFunction) (o o' : Z)
    (Hdf : df_ok df) (Hdf' : df_ok df') (Ho : 0 ≤ o < 256) (Ho' : 0 ≤ o' < 256) :
  let x := config_address (bus df) (device df) (function df) o in
  is_u32 x ∧ field x 31 1 = 1 ∧ field x 16 8 = bus df ∧ field x 11 5 = device df
  ∧ field x 8 3 = function df ∧ field x 0 8 = o / 4 * 4
  ∧ (x = config_address (bus df') (device df') (function df') o' ↔ df = df' ∧ o / 4 = o' / 4).
Proof.
  intros x. unfold x. rewrite !config_address_eq by done.
  destruct Hdf as (Hb & Hd & Hf), Hdf' as (Hb' & Hd' & Hf').
  assert (0 ≤ o / 4 < 64 ∧ 0 ≤ o' / 4 < 64) as [Hq Hq'] by (Z.to_euclidean_division_equations; lia).
  set (q := o / 4) in *. set (q' := o' / 4) in *. clearbody q q'.
  unfold field, fits. rewrite !Z.land_ones, !Z.shiftr_div_pow2 by lia.
  split_and!; [lia|lia|Z.to_euclidean_division_equations; lia..|].
  destruct df as [b d f], df' as [b' d' f']. simpl in *. split; [|by intros [[= -> -> ->] ->]].
  intros Heq. assert (b = b') as -> by lia. assert (d = d') as -> by lia.
  assert (f = f') as -> by lia. split; [done|lia].
Qed.

Lemma config_address_fields_witness :
  config_address 1 2 3 0x11 = 0x80011310 ∧ field 0x80011310 16 8 = 1.
Proof.
  destruct (config_address_fields (mkDF 1 2 3) (mkDF 1 2 3) 0x11 0x11) as (_ & _ & Hb & _).
  - unfold df_ok. simpl. lia.
  - unfold df_ok. simpl. lia.
  - lia.
  - lia.
  - split; [reflexivity|exact Hb].
Defined.

(** * The search for the disk *)

(** What [scan] looks at: for each bus, the functions [enumerate_bus] of the
    driver crate finds there, with their vendor. *)
Section scan.
Context (enumerate_bus : Z → list (DeviceFunction * Z)).

Definition VIRTIO_VENDOR : Z := 0x1AF4.

(** The inner loop: the first function of the vendor, with function 0. *)
Fixpoint scan_bus (bus_num : Z) (found : list (DeviceFunction * Z)) : option DeviceFunction :=
  match found with
  | [] => None
  | (device_func, vendor_id) :: found =>
      if vendor_id =? VIRTIO_VENDOR then Some (mkDF bus_num (device device_func) 0)
      else scan_bus bus_num found
  end.

Fixpoint scan_buses (buses : list Z) : option DeviceFunction :=
  match buses with
  | [] => None
  | bus_num :: buses =>
      match scan_bus bus_num (enumerate_bus bus_num) with
      | Some df => Some df
      | None => scan_buses buses
      end
  end.

Definition scan : option DeviceFunction := scan_buses (seqZ 0 256).

(** All functions on all buses, in the order of the search. *)
Definition all_functions (buses : list Z) : list (Z * (DeviceFunction * Z)) :=
  buses ≫= λ b, (λ x, (b, x)) <$> enumerate_bus b.

Lemma scan_bus_find b found :
  scan_bus b found =
    (λ x, mkDF b (device x.2.1) 0) <$> list_find (λ x : DeviceFunction * Z, x.2 = VIRTIO_VENDOR) found.
Proof.
  induction found as [|[df v] found IH]; [done|]. simpl.
  destruct (Z.eqb_spec v VIRTIO_VENDOR); [by rewrite decide_True|]. rewrite decide_False by done.
  rewrite IH. by destruct (list_find _ found) as [[]|].
Qed.

Lemma scan_buses_find buses :
  scan_buses buses =
    (λ x, mkDF x.2.1 (device x.2.2.1) 0)
      <$> list_find (λ x : Z * (DeviceFunction * Z), x.2.2 = VIRTIO_VENDOR) (all_functions buses).
Proof.
  induction buses as [|b buses IH]; [done|]. unfold all_functions in *. csimpl.
  rewrite scan_bus_find, IH. generalize (buses ≫= λ b, (λ x, (b, x)) <$> enumerate_bus b) as rest.
  intros rest. induction (enumerate_bus b) as [|[df v] found IHf]; simpl.
  - by destruct (list_find _ rest).
  - case_decide; [done|].
    destruct (list_find _ found) as [[]|]; simpl in *.
    + destruct (list_find _ (_ ++ rest)) as [[]|]; simpl in *; congruence.
    + rewrite IHf. by destruct (list_find _ (_ ++ rest)) as [[]|].
Qed.
End scan.

(** [scan] returns the first function of the virtio vendor in the order of
    buses and functions, and [None] exactly when there is none. The function
    number it returns is always 0, whatever function was found. *)
Theorem scan_first (enumerate_bus : Z → list (DeviceFunction * Z)) :
  let fs := all_functions enumerate_bus (seqZ 0 256) in
  match scan enumerate_bus with
  | Some df => ∃ i b df0, fs !! i = Some (b, (df0, VIRTIO_VENDOR))
      ∧ (∀ j x, (j < i)%nat → fs !! j = Some x → x.2.2 ≠ VIRTIO_VENDOR)
      ∧ df = mkDF b (device df0) 0
  | None => Forall (λ x, x.2.2 ≠ VIRTIO_VENDOR) fs
  end.
Proof.
  intros fs. unfold scan. rewrite scan_buses_find. fold fs.
  destruct (list_find _ fs) as [[i [b [df0 v]]]|] eqn:Hf; simpl.
  - apply list_find_Some in Hf as (Hi & Hv & Hfirst). simpl in Hv. subst v.
    exists i, b, df0. split_and!; [done| |done]. intros j x Hj Hx. by eapply Hfirst.
  - by apply list_find_None in Hf.
Qed.

(** * [OsHal] *)
Section hal.
(** [VirtAddr::new], which refuses addresses that are not canonical. *)
Context (virt_new : Z → outcome Z).
Context (PHYSICAL_MEMORY_OFFSET : Z).

(** [NonNull::new(p).unwrap()] *)
Definition non_null (p : Z) : outcome Z := unwrap (if p =? 0 then None else Some p).

(** The physical and the virtual address of a new frame; [FRAME_ALLOCATOR] is
    the global it takes the frame from. *)
Definition dma_alloc {FA} `{FrameAllocator FA} (pages : Z) (FRAME_ALLOCATOR : option FA) :
    outcome (Z * Z * option FA) :=
  if 1 <? pages then Panic PExplicit
  else
    allocator ← unwrap FRAME_ALLOCATOR;
    '(o, allocator) ← allocate_frame allocator;
    paddr ← unwrap o;
    v ← paddr +! PHYSICAL_MEMORY_OFFSET;
    vaddr ← virt_new v;
    vaddr ← non_null vaddr;
    Ret (paddr, vaddr, Some allocator).

(** It frees nothing: the frame is leaked. *)
Definition dma_dealloc {FA} (paddr vaddr pages : Z) (FRAME_ALLOCATOR : option FA) :
    Z * option FA := (0, FRAME_ALLOCATOR).

Definition mmio_phys_to_virt (paddr size : Z) : outcome Z :=
  v ← paddr +! PHYSICAL_MEMORY_OFFSET;
  vaddr ← virt_new v;
  non_null vaddr.

(** [share]: the physical address of the buffer's first byte. *)
Definition share (translate_addr : Z → Z → outcome (option Z)) (buffer : Z) : outcome Z :=
  vaddr ← virt_new buffer;
  offset ← virt_new PHYSICAL_MEMORY_OFFSET;
  o ← translate_addr vaddr offset;
  unwrap o.

(** [unshare] leaves everything as it is. *)
Definition unshare {W} (paddr buffer : Z) (w : W) : W := w.

(** [n] rounds of allocating a frame and giving it back. *)
Fixpoint dma_rounds (n : nat) (c : Z → Z) (fa : option BootInfoFrameAllocator) :
    outcome (list (Z * Z) * option BootInfoFrameAllocator) :=
  match n with
  | O => Ret ([], fa)
  | S n =>
      '(paddr, vaddr, fa) ← dma_alloc (H := boot_FrameAllocator c) 1 fa;
      let '(_, fa) := dma_dealloc paddr vaddr 1 fa in
      '(rest, fa) ← dma_rounds n c fa;
      Ret ((paddr, vaddr) :: rest, fa)
  end.

Lemma dma_rounds_spec n c mm k :
  let frames := usable_frames c (mkBoot mm 0) in
  (∀ x, x ∈ frames → is_u64 (x + PHYSICAL_MEMORY_OFFSET) ∧ x + PHYSICAL_MEMORY_OFFSET ≠ 0
     ∧ virt_new (x + PHYSICAL_MEMORY_OFFSET) = Ret (x + PHYSICAL_MEMORY_OFFSET)) →
  Z.of_nat k + Z.of_nat n < 2 ^ 64 → (k ≤ length frames)%nat →
  dma_rounds n c (Some (mkBoot mm (Z.of_nat k))) =
    if decide (k + n ≤ length frames)%nat
    then Ret ((λ x, (x, x + PHYSICAL_MEMORY_OFFSET)) <$> take n (drop k frames),
              Some (mkBoot mm (Z.of_nat (k + n))))
    else Panic PUnwrap.
Proof.
  intros frames Hfr. revert k. induction n as [|n IH]; intros k Hk Hle; cbn [dma_rounds].
  { rewrite decide_True by lia. by rewrite Nat.add_0_r. }
  unfold dma_alloc at 1, allocate_frame, boot_FrameAllocator, boot_allocate_frame.
  cbn [mbind outcome_bind unwrap Memory.next memory_map]. change (1 <? 1) with false. cbv iota.
  unfold add64. rewrite checked_fits by (unfold fits; lia). cbn [mbind outcome_bind].
  rewrite Nat2Z.id. change (usable_frames c (mkBoot mm (Z.of_nat k))) with frames.
  destruct (frames !! k) as [x|] eqn:Hx; cbn [unwrap mbind outcome_bind].
  2: { apply lookup_ge_None in Hx. by rewrite decide_False by lia. }
  pose proof (lookup_lt_Some _ _ _ Hx) as Hlt.
  destruct (Hfr x) as (Hu & Hn & Hv); [by eapply list_elem_of_lookup_2|].
  rewrite checked_fits by done. cbn [mbind outcome_bind]. rewrite Hv. cbn [mbind outcome_bind].
  unfold non_null. rewrite (proj2 (Z.eqb_neq _ _)) by done. cbn [mbind outcome_bind unwrap dma_dealloc].
  replace (Z.of_nat k + 1) with (Z.of_nat (S k)) by lia. rewrite IH by lia.
  replace (S k + n)%nat with (k + S n)%nat by lia. case_decide; [|done].
  cbn [mbind outcome_bind]. by rewrite (drop_S _ x k) by done.
Qed.
End hal.

(** DMA memory is handed out once and never again. Allocating a page for the
    device and giving it back, [n] times, returns the first [n] usable frames,
    pairwise distinct, each with the address at which physical memory is mapped;
    [dma_dealloc] returns nothing to the frame allocator, so one round more than
    there are usable frames panics the kernel. *)
Theorem dma_frames_leak (virt_new : Z → outcome Z) (offset : Z) (c : Z → Z)
    (mm : list MemoryRegion) (n : nat)
    (Hrd : rounds_down c) (Hok : map_ok mm) (Hn : Z.of_nat n < 2 ^ 64)
    (Hv : ∀ x, x ∈ usable_frames c (BootInfo_init mm) →
       is_u64 (x + offset) ∧ x + offset ≠ 0 ∧ virt_new (x + offset) = Ret (x + offset)) :
  let frames := usable_frames c (BootInfo_init mm) in
  NoDup frames ∧
  if decide (n ≤ length frames)%nat
  then ∃ fa, dma_rounds virt_new offset n c (Some (BootInfo_init mm))
         = Ret ((λ x, (x, x + offset)) <$> take n frames, fa)
  else dma_rounds virt_new offset n c (Some (BootInfo_init mm)) = Panic PUnwrap.
Proof.
  intros frames. split.
  - unfold frames. rewrite usable_frames_eq by done. by apply NoDup_frame_addresses.
  - pose proof (dma_rounds_spec virt_new offset n c mm 0 Hv ltac:(lia) ltac:(lia)) as Hr.
    change (Z.of_nat 0) with 0 in Hr. fold (BootInfo_init mm) frames in Hr.
    rewrite Nat.add_0_l, drop_0 in Hr. rewrite Hr. case_decide; [by eexists|done].
Qed.

Lemma dma_frames_leak_witness :
  let c a := a / 4096 * 4096 in
  dma_rounds Ret 0x100000000 4 c (Some (BootInfo_init demo_map)) = Panic PUnwrap
  ∧ length (usable_frames c (BootInfo_init demo_map)) = 3%nat.
Proof.
  intros c.
  destruct (dma_frames_leak Ret 0x100000000 c demo_map 4) as [_ Hd].
  - exact demo_rounds_down.
  - exact demo_map_ok.
  - lia.
  - intros x Hx. change (usable_frames c (BootInfo_init demo_map)) with [4096; 8192; 16384] in Hx.
    assert (0 < x < 20000) by set_solver by lia. unfold fits. split_and!; [lia|lia|lia|done].
  - split; [exact Hd|reflexivity].
Defined.

(** ** What the device sees of a shared buffer *)
Section shared.
Context {Entry : Type} (cr3 : Z) (read_entry : Z → Z → Entry).
Context (entry_frame : Entry → result Z FrameError) (virt_add : Z → Z → outcome Z).
Context (p4 p3 p2 p1 : Z → Z).

(** The four table indexes of an address. *)
Definition page_indexes (a : Z) : list Z := [p4 a; p3 a; p2 a; p1 a].

(** They are those of its page. *)
Definition indexes_of_page : Prop := ∀ a b, a / 4096 = b / 4096 → page_indexes a = page_indexes b.

(** [share] with the kernel's own [translate_addr]. *)
Definition share_buffer (virt_new : Z → outcome Z) (PHYSICAL_MEMORY_OFFSET buffer : Z) : outcome Z :=
  share virt_new PHYSICAL_MEMORY_OFFSET
    (translate_addr cr3 read_entry entry_frame virt_add p4 p3 p2 p1 (λ a, a mod 4096)) buffer.

Lemma share_buffer_walk virt_new offset mem buffer :
  mapped_at read_entry entry_frame virt_add mem cr3 offset →
  virt_new offset = Ret offset → virt_new buffer = Ret buffer →
  (∃ f, path mem (page_indexes buffer) cr3 f ∧ share_buffer virt_new offset buffer = Ret (f + buffer mod 4096))
  ∨ (stuck mem (page_indexes buffer) cr3 FrameNotPresent
     ∧ share_buffer virt_new offset buffer = Panic PUnwrap)
  ∨ (stuck mem (page_indexes buffer) cr3 HugeFrame
     ∧ share_buffer virt_new offset buffer = Panic PExplicit).
Proof.
  intros Hm Ho Hb. unfold share_buffer, share, translate_addr, translate_addr_inner. rewrite Hb.
  cbn [mbind outcome_bind]. rewrite Ho. cbn [mbind outcome_bind].
  destruct (walk_tables_cases cr3 read_entry entry_frame virt_add mem offset Hm (page_indexes buffer))
    as [(f & Hp & Hw)|[[Hs Hw]|[Hs Hw]]]; [simpl; lia|..]; unfold page_indexes in Hw; rewrite Hw; [left|right; left|right; right];
    [by exists f|done|done].
Qed.
End shared.

(** Where byte [k] of a buffer is, from where its first byte is. *)
Lemma same_offset f f' buffer k :
  f' + (buffer + k) mod 4096 = f + buffer mod 4096 + k ↔
  f' - f = 4096 * ((buffer + k) / 4096 - buffer / 4096).
Proof. pose proof (Z.div_mod buffer 4096). pose proof (Z.div_mod (buffer + k) 4096). lia. Qed.

(** C28: the address [share] gives to the device. When the page tables are
    mapped at the offset, [share] returns exactly when the first byte of the
    buffer is mapped by small pages, and panics when it is not mapped or lies in
    a huge page. Every byte in the page of the first byte is then where the
    device looks for it. A byte in a later page is there only if that page's
    frame follows the first one in physical memory, which [share] does not
    check. *)
Theorem share_first_page (Entry : Type) (cr3 : Z) (read_entry : Z → Z → Entry)
    (entry_frame : Entry → result Z FrameError) (virt_add : Z → Z → outcome Z) (p4 p3 p2 p1 : Z → Z)
    (virt_new : Z → outcome Z) (mem : Z → Z → result Z FrameError) (offset buffer : Z)
    (Hmapped : mapped_at read_entry entry_frame virt_add mem cr3 offset)
    (Hidx : indexes_of_page p4 p3 p2 p1)
    (Hoffset : virt_new offset = Ret offset) (Hbuffer : virt_new buffer = Ret buffer) :
  let idx := page_indexes p4 p3 p2 p1 in
  let t := share_buffer cr3 read_entry entry_frame virt_add p4 p3 p2 p1 virt_new offset buffer in
  (stuck mem (idx buffer) cr3 FrameNotPresent → t = Panic PUnwrap)
  ∧ (stuck mem (idx buffer) cr3 HugeFrame → t = Panic PExplicit)
  ∧ ∀ f, path mem (idx buffer) cr3 f → ∃ paddr, t = Ret paddr
      ∧ (∀ k, (buffer + k) / 4096 = buffer / 4096 →
           path mem (idx (buffer + k)) cr3 f ∧ f + (buffer + k) mod 4096 = paddr + k)
      ∧ (∀ k f', path mem (idx (buffer + k)) cr3 f' →
           f' + (buffer + k) mod 4096 = paddr + k
           ↔ f' - f = 4096 * ((buffer + k) / 4096 - buffer / 4096)).
Proof.
  intros idx t. pose proof (path_not_stuck mem (idx buffer) cr3) as Hns.
  pose proof (stuck_det mem (idx buffer) cr3) as Hsd.
  destruct (share_buffer_walk cr3 read_entry entry_frame virt_add p4 p3 p2 p1 virt_new offset mem buffer
    Hmapped Hoffset Hbuffer) as [(f & Hp & Ht)|[[Hs Ht]|[Hs Ht]]]; fold t in Ht.
  - split; [intros Hst; by destruct (Hns _ _ Hp Hst)|]. split; [intros Hst; by destruct (Hns _ _ Hp Hst)|].
    intros f1 Hf1. rewrite (path_det mem _ _ _ _ Hf1 Hp) in *. exists (f + buffer mod 4096).
    split; [done|]. split; [|intros k f' _; apply same_offset].
    intros k Hk. rewrite (Hidx (buffer + k) buffer Hk : idx (buffer + k) = idx buffer).
    split; [done|]. apply same_offset. lia.
  - split; [done|]. split; [intros Hst; by pose proof (Hsd _ _ Hs Hst)|].
    intros f Hf. by destruct (Hns _ _ Hf Hs).
  - split; [intros Hst; by pose proof (Hsd _ _ Hs Hst)|]. split; [done|].
    intros f Hf. by destruct (Hns _ _ Hf Hs).
Qed.

(** Tables that map pages to every other frame. *)
Definition scattered (f i : Z) : result Z FrameError := Ok (f + 8192 * (i + 1)).

(** The buffer starts 16 bytes before the end of a page: its byte 15 is where the
    device looks, its byte 16 is 4096 bytes further on. *)
Lemma share_first_page_witness :
  let ix n a := a / 2 ^ (12 + 9 * n) mod 512 in
  let idx := page_indexes (ix 3) (ix 2) (ix 1) (ix 0) in
  let t := share_buffer 8192 (λ v i, scattered (v - 65536) i) Datatypes.id (λ a b, Ret (a + b))
             (ix 3) (ix 2) (ix 1) (ix 0) Ret 65536 0x1FF0 in
  t = Ret (0xC000 + 0xFF0)
  ∧ path scattered (idx (0x1FF0 + 15)) 8192 0xC000 ∧ 0xC000 + (0x1FF0 + 15) mod 4096 = 0xC000 + 0xFF0 + 15
  ∧ path scattered (idx (0x1FF0 + 16)) 8192 0xE000
  ∧ 0xE000 + (0x1FF0 + 16) mod 4096 ≠ 0xC000 + 0xFF0 + 16.
Proof.
  intros ix idx t.
  assert (∀ a, path scattered (idx a) 8192 (8192 + 8192 * (ix 3 a + ix 2 a + ix 1 a + ix 0 a + 4))) as Hpath.
  { intros a. repeat (eapply path_cons; [reflexivity|]).
    match goal with |- path _ _ ?x ?y => replace x with y by lia end. constructor. }
  destruct (share_first_page (result Z FrameError) 8192 (λ v i, scattered (v - 65536) i)
    Datatypes.id (λ a b, Ret (a + b)) (ix 3) (ix 2) (ix 1) (ix 0) Ret scattered 65536 0x1FF0) as (_ & _ & Hp).
  - intros pre f _ _. eexists. split; [reflexivity|]. intros i. unfold Datatypes.id. f_equal. lia.
  - intros a b Hab. unfold page_indexes, ix.
    assert (∀ n x, 0 ≤ n → x / 2 ^ (12 + 9 * n) = x / 4096 / 2 ^ (9 * n)) as Hd.
    { intros n x Hn. rewrite Z.pow_add_r by lia. change (2 ^ 12) with 4096. by rewrite Z.div_div by lia. }
    rewrite !Hd by lia. by rewrite Hab.
  - done.
  - done.
  - destruct (Hp _ (Hpath 0x1FF0)) as (paddr & Ht & Hin & Hout).
    assert (paddr = 0xC000 + 0xFF0) as -> by (vm_compute in Ht; injection Ht as <-; reflexivity).
    split; [exact Ht|]. destruct (Hin 15 eq_refl) as [H1 H2]. split; [exact H1|]. split; [exact H2|].
    split; [exact (Hpath (0x1FF0 + 16))|]. intros Hbad.
    apply (Hout 16 _ (Hpath (0x1FF0 + 16))) in Hbad. vm_compute in Hbad. discriminate.
Defined.
