(* ===== verification/Kernel.v ===== *)
(** [kernel_main] of src/src/main.rs as a whole: the tables, the heap, the disk and
    the tasks, composed from the files that model them, up to the call of
    [executor.run()], whose behaviour is the subject of Keypresses.v. *)
From S2P Require Import Prelude Bytes Layout BlockDev SimpleFs SimpleFsSpec SimpleFsRep SimpleFsProps Boot Alloc FixedBlock Memory Queue Keyboard Executor Interrupts Pci Keypresses.
Local Open Scope Z_scope.
Local Open Scope rust_scope.

Section kernel_main.
Context {G D I P M E H Dev Q K : Type} `{Gdt G D, Idt I handler, Pics P}.
Context `{Mapper M BootInfoFrameAllocator E} {HH : Heap H} `{BlockDeviceLaws Dev, ArrayQueue Q}.
(** Of the processor and the [x86_64] crate: see Interrupts.v and Memory.v. *)
Context (tss_new : TaskStateSegment) (STACK : Z) (virt_add : Z → Z → outcome Z).
Context (virt_new : Z → outcome Z) (cr3 : Z) (virt_add_u64 : Z → Z → outcome Z).
Context (offset_page_table : Z → Z → M) (containing_address : Z → Z).
Context (page_range : Z → Z → list Z) (FrameAllocationFailed : E).
(** Of the driver crate: the functions on a bus, and [PciTransport::new] with
    [VirtIOBlk::new], which reach the disk with the given contents and take DMA
    memory from the global frame allocator. *)
Context (enumerate_bus : Z → list (DeviceFunction * Z)).
Context (open_blk : DeviceFunction → list (list Z) → option BootInfoFrameAllocator →
  outcome (result Dev unit * option BootInfoFrameAllocator)).

#[local] Existing Instance boot_FrameAllocator.

(** The second driver, on the disk as the first one left it. *)
Definition reopen_blk (df : DeviceFunction) (d : Dev) (FRAME_ALLOCATOR : option BootInfoFrameAllocator) :
    outcome (Dev * option BootInfoFrameAllocator) :=
  '(r, FRAME_ALLOCATOR) ← open_blk df (dev_blocks d) FRAME_ALLOCATOR;
  d ← expect r;
  Ret (d, FRAME_ALLOCATOR).

(** The kernel when it calls [executor.run()]: its globals, what happened to the
    file system, and the executor. [heap_frames] is the state of the frame
    allocator when the heap was mapped. *)
Record booted := mkBooted {
  b_regs : registers G I;
  b_pics : P;
  PHYSICAL_MEMORY_OFFSET : Z;
  PAGE_MAPPER : option M;
  heap_frames : BootInfoFrameAllocator;
  FRAME_ALLOCATOR : option BootInfoFrameAllocator;
  b_ALLOCATOR : FixedSizeBlockAllocator H;
  b_storage : option (bool * result FileHandler FileError * result FileHandler FileError * SFS Dev);
  b_executor : Executor (future_state K) Q;
}.

(** [pci::scan] and the block it guards. *)
Definition start_storage (disk : list (list Z)) (FRAME_ALLOCATOR : option BootInfoFrameAllocator) :
    outcome (option (bool * result FileHandler FileError * result FileHandler FileError * SFS Dev)
             * option BootInfoFrameAllocator) :=
  match scan enumerate_bus with
  | Some device_function =>
      '(r, FRAME_ALLOCATOR) ← open_blk device_function disk FRAME_ALLOCATOR;
      blk_dev ← expect r;
      '(passed, r1, r2, fs, FRAME_ALLOCATOR) ←
        storage_boot (reopen_blk device_function) blk_dev FRAME_ALLOCATOR;
      Ret (Some (passed, r1, r2, fs), FRAME_ALLOCATOR)
  | None => Ret (None, FRAME_ALLOCATOR)
  end.

(** The mapper, the frame allocator and the heap. *)
Definition start_heap (physical_memory_offset : Z) (memory_map : list MemoryRegion) :
    outcome (kernel M BootInfoFrameAllocator (FixedSizeBlockAllocator H)) :=
  phys_mem_offset ← virt_new physical_memory_offset;
  mapper ← memory_init cr3 virt_add_u64 offset_page_table phys_mem_offset;
  let frame_allocator := BootInfo_init memory_map in
  let FRAME_ALLOCATOR := Some frame_allocator in
  let PAGE_MAPPER := Some mapper in
  mapper ← unwrap PAGE_MAPPER;
  frame_allocator ← unwrap FRAME_ALLOCATOR;
  '(res, k) ← init_heap (H := boot_FrameAllocator containing_address) FrameAllocationFailed page_range
                fsb_init (mkKernel mapper frame_allocator FixedSizeBlockAllocator_new);
  _ ← expect res;
  Ret k.

(** [kernel_main(boot_info)] up to [executor.run()]: the offset and the memory map
    are the fields of [boot_info]; [disk] is what the disk holds. *)
Definition kernel_main (physical_memory_offset : Z) (memory_map : list MemoryRegion)
    (r : registers G I) (disk : list (list Z)) (NEXT_ID : Z) : outcome booted :=
  '(r, PICS) ← init tss_new STACK virt_add r PICS_init;
  k ← start_heap physical_memory_offset memory_map;
  '(storage, fa) ← start_storage disk (Some (Memory.frame_allocator k));
  executor ← spawn_tasks NEXT_ID;
  Ret (mkBooted r PICS physical_memory_offset (Some (Memory.mapper k)) (Memory.frame_allocator k) fa
         (ALLOCATOR k) storage executor).
End kernel_main.
#[global] Arguments booted : clear implicits.

(** * Frames *)

(** How many frames the allocator can still hand out. *)
Definition available (c : Z → Z) (fa : BootInfoFrameAllocator) : Z :=
  Z.of_nat (length (usable_frames c fa)) - next fa.

(** [fa'] is [fa] after at most [n] further allocations. *)
Definition advances (n : Z) (fa fa' : BootInfoFrameAllocator) : Prop :=
  memory_map fa' = memory_map fa ∧ next fa ≤ next fa' ≤ next fa + n.

Lemma advances_trans n m fa1 fa2 fa3 :
  advances n fa1 fa2 → advances m fa2 fa3 → advances (n + m) fa1 fa3.
Proof. intros [? ?] [? ?]. split; [congruence|lia]. Qed.

Lemma advances_usable c n fa fa' : advances n fa fa' → usable_frames c fa' = usable_frames c fa.
Proof. intros [Hm _]. unfold usable_frames. by rewrite Hm. Qed.

Lemma advances_available c n fa fa' : advances n fa fa' → available c fa - n ≤ available c fa'.
Proof. intros Ha. unfold available. rewrite (advances_usable c n fa fa' Ha). destruct Ha. lia. Qed.

(** What the kernel relies on: [map_to] maps a page that was not mapped, and
    takes at most three frames for page tables. *)
Class BootMapperLaws (M E : Type) (c : Z → Z) `{Mapper M BootInfoFrameAllocator E} := {
  page_map : M → gmap Z Z;
  page_map_to m page frame flags fa :
    page_map m !! page = None → 0 ≤ next fa → 3 ≤ available c fa →
    ∃ m' fa', map_to m page frame flags fa = Ret (Ok tt, m', fa')
      ∧ page_map m' = <[page := frame]> (page_map m) ∧ advances 3 fa fa';
}.

Section heap_frames.
Context {M E B : Type} (c : Z → Z) `{BootMapperLaws M E c}.
Context (FrameAllocationFailed : E) (allocator_init : B → Z → Z → outcome B).
Context (Hinit : ∀ a, ∃ a', allocator_init a HEAP_START HEAP_SIZE = Ret a').
#[local] Existing Instance boot_FrameAllocator.
Implicit Types (fa : BootInfoFrameAllocator) (k : kernel M BootInfoFrameAllocator B).

Lemma boot_allocate_frame_ok fa :
  0 ≤ next fa → 0 < available c fa → Z.of_nat (length (usable_frames c fa)) < 2 ^ 64 →
  ∃ f, boot_allocate_frame c fa = Ret (Some f, mkBoot (memory_map fa) (next fa + 1))
    ∧ usable_frames c fa !! Z.to_nat (next fa) = Some f.
Proof.
  intros Hn0 Ha Hl. unfold available in Ha. unfold boot_allocate_frame, add64.
  rewrite checked_fits by (unfold fits; lia). cbn [mbind outcome_bind].
  destruct (lookup_lt_is_Some_2 (usable_frames c fa) (Z.to_nat (next fa))) as [f Hf]; [lia|].
  exists f. by rewrite Hf.
Qed.

(** The frames [hf] have numbers from [lo] to [hi] in the memory map. *)
Definition numbered (frames : list Z) (lo hi : Z) (hf : list Z) : Prop :=
  Forall (λ f, ∃ i, frames !! i = Some f ∧ lo ≤ Z.of_nat i < hi) hf.

(** The pages of the heap get frames of their own. *)
Lemma init_pages_boot pages k :
  let frames := usable_frames c (frame_allocator k) in
  NoDup pages → Forall (λ p, page_map (mapper k) !! p = None) pages →
  0 ≤ next (frame_allocator k) → 4 * Z.of_nat (length pages) ≤ available c (frame_allocator k) →
  Z.of_nat (length frames) < 2 ^ 64 → NoDup frames →
  ∃ k' hf, init_pages (H := boot_FrameAllocator c) FrameAllocationFailed allocator_init pages k = Ret (Ok tt, k')
    ∧ init_times allocator_init (length pages) (ALLOCATOR k) = Ret (ALLOCATOR k')
    ∧ advances (4 * Z.of_nat (length pages)) (frame_allocator k) (frame_allocator k')
    ∧ length hf = length pages ∧ NoDup hf
    ∧ numbered frames (next (frame_allocator k)) (next (frame_allocator k')) hf
    ∧ (∀ j p f, pages !! j = Some p → hf !! j = Some f → page_map (mapper k') !! p = Some f)
    ∧ (∀ p, p ∉ pages → page_map (mapper k') !! p = page_map (mapper k) !! p).
Proof.
  intros frames. remember frames as fr eqn:Hfr. revert k frames Hfr.
  induction pages as [|page pages IH]; intros k frames Hfr Hnd Hun Hn0 Hav Hlen Hfnd; cbn [init_pages].
  { exists k, []. split; [done|]. split; [done|]. split; [split; [done|simpl; lia]|]. split; [done|].
    split; [constructor|]. split; [constructor|]. done. }
  apply NoDup_cons in Hnd as [Hnot Hnd]. apply Forall_cons in Hun as [Hp Hun]. cbn [length] in Hav.
  destruct (boot_allocate_frame_ok (frame_allocator k)) as (f & Hf & Hfn); [done|lia|by subst|].
  unfold allocate_frame. change (boot_FrameAllocator c (frame_allocator k)) with (boot_allocate_frame c (frame_allocator k)).
  rewrite Hf. cbn [mbind outcome_bind]. set (fa1 := mkBoot _ _).
  assert (advances 1 (frame_allocator k) fa1) as Hadv1 by (split; [done|simpl; lia]).
  pose proof (advances_available c _ _ _ Hadv1) as Hav1.
  destruct (page_map_to (mapper k) page f (Z.lor PRESENT WRITABLE) fa1) as (m & fa2 & -> & Hm & Hadv2);
    [done|simpl; lia|lia|].
  cbn [mbind outcome_bind]. destruct (Hinit (ALLOCATOR k)) as [a Ha]. rewrite Ha. cbn [mbind outcome_bind].
  pose proof (advances_trans _ _ _ _ _ Hadv1 Hadv2) as Hadv. pose proof (advances_available c _ _ _ Hadv) as Hav2.
  destruct (IH (mkKernel m fa2 a)) as (k' & hf & -> & Htimes & Hadv3 & Hl3 & Hnd3 & Hnum & Hmap & Hoth).
  - simpl. rewrite (advances_usable c _ _ _ Hadv). by subst.
  - done.
  - simpl. rewrite Hm. rewrite Forall_forall in Hun |- *. intros p Hin.
    rewrite lookup_insert_ne by (intros ->; done). auto.
  - simpl. destruct Hadv. lia.
  - simpl. lia.
  - done.
  - done.
  - simpl in Hadv3, Hnum, Hmap, Hoth. exists k', (f :: hf).
    pose proof (advances_trans _ _ _ _ _ Hadv Hadv3) as Hadv'.
    assert (next (frame_allocator k) < next fa2) as Hlt by (destruct Hadv2 as [_ Hn]; simpl in Hn; lia).
    assert (next fa2 ≤ next (frame_allocator k')) as Hle by (destruct Hadv3; lia).
    fold frames in Hfn. rewrite <- Hfr in Hfn. split_and!; [done| | |by simpl; f_equal| | |..].
    + cbn [length]. unfold init_times. cbn [replicate for_each]. rewrite Ha. exact Htimes.
    + cbn [length]. replace (4 * Z.of_nat (S (length pages))) with (1 + 3 + 4 * Z.of_nat (length pages)) by lia. done.
    + apply NoDup_cons. split; [|done]. intros Hin. unfold numbered in Hnum. rewrite Forall_forall in Hnum.
      destruct (Hnum f Hin) as (i & Hi & Hri). pose proof (NoDup_lookup _ _ _ _ Hfnd Hfn Hi). lia.
    + constructor; [exists (Z.to_nat (next (frame_allocator k))); split; [done|lia]|].
      eapply Forall_impl; [exact Hnum|]. intros x (i & Hi & ?). exists i. split; [done|lia].
    + intros [|j] p f'; simpl; [|by apply Hmap]. intros [= <-] [= <-].
      rewrite Hoth, Hm by done. apply lookup_insert_eq.
    + intros p Hpn. rewrite not_elem_of_cons in Hpn. rewrite Hoth, Hm by naive_solver.
      apply lookup_insert_ne. naive_solver.
Qed.
End heap_frames.

(** * The boot as a whole *)

(** A memory map below 2^52 has fewer than 2^64 frames, all distinct. *)
Lemma boot_frames_count c mm :
  rounds_down c → map_ok mm →
  NoDup (usable_frames c (BootInfo_init mm))
  ∧ Z.of_nat (length (usable_frames c (BootInfo_init mm))) < 2 ^ 64.
Proof.
  intros Hrd Hok. rewrite (usable_frames_eq c mm Hrd Hok).
  pose proof (NoDup_frame_addresses mm Hok) as Hnd. split; [done|].
  assert (frame_addresses mm ⊆+ ((λ k, 4096 * k) <$> seqZ 0 (2 ^ 40))) as Hsub.
  { apply NoDup_submseteq; [done|]. intros x Hx. apply (elem_of_frame_addresses mm x Hok) in Hx.
    destruct Hx as (r & Hr & _ & [q ->] & ? & ?). pose proof (map_range _ Hok) as Hrange.
    rewrite Forall_forall in Hrange. specialize (Hrange r Hr). apply list_elem_of_fmap.
    exists q. split; [lia|]. apply elem_of_seqZ. lia. }
  apply submseteq_length in Hsub. rewrite length_fmap, length_seqZ in Hsub. lia.
Qed.

(** The block allocator after its repeated initialisation: its lists are empty,
    so it is in a good state if the fallback heap is. *)
Lemma fsb_init_times {H} {HH : Heap H} {HL : @GlobalAllocLaws H heap_GlobalAlloc} n (s s' : FixedSizeBlockAllocator H) :
  init_times fsb_init n s = Ret s' → list_heads s = replicate 9 None →
  @ga_inv H _ HL (fallback_allocator s') [] → fsb_inv (HL := HL) s' [].
Proof.
  intros Hrun Hh Hinv. assert (list_heads s' = replicate 9 None) as Hh'.
  { clear Hinv. revert s Hrun Hh. unfold init_times. induction n as [|n IH]; intros s Hrun Hh;
      cbn [replicate for_each] in Hrun; [by injection Hrun as <-|].
    destruct (fsb_init s HEAP_START HEAP_SIZE) as [s1|] eqn:H1; [|done].
    cbn [mbind outcome_bind] in Hrun. apply (IH _ Hrun). unfold fsb_init in H1.
    destruct (heap_init (fallback_allocator s) _ _) as [h|]; [|done]. by injection H1 as <-. }
  by apply fsb_fresh_inv.
Qed.

Section boot.
Context {G D I P M E H Dev Q K V : Type}.
Context {HG : Gdt G D} {HGL : GdtLaws G D} {HI : Idt I handler} {HIL : IdtLaws I handler}.
Context {HP : Pics P} {HPL : PicsLaws P} {HH : Heap H} {HHL : @GlobalAllocLaws H heap_GlobalAlloc}.
Context {HD : BlockDevice Dev} {HDL : BlockDeviceLaws Dev} {HQ : ArrayQueue Q} {HQL : ArrayQueueLaws Q}.
Context {HK : PcKeyboard K V} (c : Z → Z) {HM : Mapper M BootInfoFrameAllocator E} {HML : BootMapperLaws M E c}.
Context (tss_new : TaskStateSegment) (STACK : Z) (virt_add : Z → Z → outcome Z).
Context (virt_new : Z → outcome Z) (cr3 : Z) (virt_add_u64 : Z → Z → outcome Z).
Context (offset_page_table : Z → Z → M) (page_range : Z → Z → list Z) (FrameAllocationFailed : E).
Context (enumerate_bus : Z → list (DeviceFunction * Z)).
Context (open_blk : DeviceFunction → list (list Z) → option BootInfoFrameAllocator →
  outcome (result Dev unit * option BootInfoFrameAllocator)).

(** Opening the driver succeeds, reaches the disk, and takes at most [N] frames
    for its queues. *)
Definition opens (N : Z) : Prop :=
  ∀ df blks fa, Forall is_block blks → is_u64 (Z.of_nat (length blks)) → 0 ≤ next fa → N ≤ available c fa →
    ∃ d fa', open_blk df blks (Some fa) = Ret (Ok d, Some fa') ∧ dev_at d blks true ∧ advances N fa fa'.

Lemma start_storage_spec N disk fa :
  opens N → Forall is_block disk → is_u64 (Z.of_nat (length disk)) → 10 ≤ Z.of_nat (length disk) →
  0 ≤ next fa → 0 ≤ N → 2 * N ≤ available c fa →
  ∃ st fa', start_storage enumerate_bus open_blk disk (Some fa) = Ret (st, Some fa')
    ∧ advances (2 * N) fa fa'
    ∧ match scan enumerate_bus with
      | Some _ => ∃ fs, st = Some (true, Ok (mkFileHandler 1), Err Corrupt, fs)
                    ∧ fs_rep fs (abs_create hello_txt abs_init).2 true
      | None => st = None
      end.
Proof.
  intros Hopen Hb Hu Hl Hn HN Hav. unfold start_storage. destruct (scan enumerate_bus) as [df|].
  2: { exists None, fa. split; [done|]. split; [|done]. split; [done|lia]. }
  destruct (Hopen df disk fa) as (d & fa1 & -> & Hd & Hadv); [done..|lia|].
  cbn [mbind outcome_bind expect]. pose proof (advances_available c _ _ _ Hadv) as Hav1.
  destruct (storage_boot_spec (reopen_blk open_blk df) (Some fa1) (λ x, ∃ fa', x = Some fa' ∧ advances N fa1 fa') d disk)
    as (fs & x & -> & Hrep & fa2 & -> & Hadv2); [|done|done|].
  - intros d' blks Hd'. unfold reopen_blk. destruct Hd' as (Hwf & Hbl & Hok). rewrite Hbl.
    assert (dev_at d' blks true) as Hd' by done.
    destruct (Hopen df blks fa1) as (d2 & fa2 & -> & Hd2 & Hadv2);
      [by eapply dev_at_blocks|by eapply dev_at_cap|destruct Hadv; lia|lia|].
    cbn [mbind outcome_bind expect]. exists d2, (Some fa2). split; [done|]. split; [done|]. by exists fa2.
  - cbn [mbind outcome_bind]. exists (Some (true, Ok (mkFileHandler 1), Err Corrupt, fs)), fa2. split; [done|]. split; [|by exists fs].
    replace (2 * N) with (N + N) by lia. by eapply advances_trans.
Qed.

(** The state the boot loader leaves, with memory for the heap and [n] frames
    more. *)
Record memory_ok (n off : Z) (mm : list MemoryRegion) : Prop := {
  mo_tss : length (interrupt_stack_table tss_new) = 7%nat;
  mo_stack : virt_add STACK 20480 = Ret (STACK + 20480);
  mo_offset : virt_new off = Ret off;
  mo_frames : rounds_down c;
  mo_map : map_ok mm;
  mo_pages : pages_between page_range;
  mo_tables : virt_add_u64 off cr3 = Ret (off + cr3);
  mo_unmapped : Forall (λ p, page_map (offset_page_table (off + cr3) off) !! p = None) heap_pages;
  mo_heap : ∀ h : H, ∃ h', heap_init h HEAP_START HEAP_SIZE = Ret h';
  mo_enough : 0 ≤ n ∧ 100 + n ≤ Z.of_nat (length (usable_frames c (BootInfo_init mm)));
}.

(** With memory for two drivers, and a disk that works. *)
Record machine_ok (N off : Z) (mm : list MemoryRegion) (disk : list (list Z)) : Prop := {
  mo_memory : memory_ok (2 * N) off mm;
  mo_opens : opens N;
  mo_blocks : Forall is_block disk ∧ is_u64 (Z.of_nat (length disk)) ∧ 10 ≤ Z.of_nat (length disk);
}.

(** The heap's pages have the frames [hf], one each, and nothing else was
    mapped. *)
Definition heap_mapped (m0 m : M) (hf : list Z) : Prop :=
  NoDup hf
  ∧ (∀ a, HEAP_START ≤ a < HEAP_START + HEAP_SIZE →
       ∃ f, f ∈ hf ∧ page_map m !! (a / 4096 * 4096) = Some f)
  ∧ (∀ p p', p ∈ heap_pages → p' ∈ heap_pages → page_map m !! p = page_map m !! p' → p = p')
  ∧ (∀ p, p ∉ heap_pages → page_map m !! p = page_map m0 !! p).

Lemma init_heap_boot n off mm :
  memory_ok n off mm →
  let m0 := offset_page_table (off + cr3) off in
  let frames := usable_frames c (BootInfo_init mm) in
  ∃ k hf, init_heap (H := boot_FrameAllocator c) FrameAllocationFailed page_range fsb_init
            (mkKernel m0 (BootInfo_init mm) (FixedSizeBlockAllocator_new (H := H))) = Ret (Ok tt, k)
    ∧ memory_init cr3 virt_add_u64 offset_page_table off = Ret m0
    ∧ init_times fsb_init 25 (FixedSizeBlockAllocator_new (H := H)) = Ret (ALLOCATOR k)
    ∧ advances 100 (BootInfo_init mm) (frame_allocator k)
    ∧ heap_mapped m0 (mapper k) hf
    ∧ numbered frames 0 (next (frame_allocator k)) hf.
Proof.
  intros [] m0 frames. destruct (boot_frames_count c mm mo_frames0 mo_map0) as [Hnd Hcount].
  destruct mo_enough0 as [HN Hen]. unfold init_heap. rewrite mo_pages0 by (unfold HEAP_SIZE; lia).
  change ((λ k0, 4096 * k0) <$> seqZ (HEAP_START / 4096) _) with heap_pages.
  assert (length heap_pages = 25%nat) as Hlen by done.
  assert (NoDup heap_pages) as Hhp.
  { apply NoDup_fmap_2; [intros x y ?; lia|apply NoDup_seqZ]. }
  destruct (init_pages_boot c FrameAllocationFailed (fsb_init (H := H))) with
    (pages := heap_pages) (k := mkKernel m0 (BootInfo_init mm) (FixedSizeBlockAllocator_new (H := H)))
    as (k & hf & -> & Htimes & Hadv & Hl & Hndf & Hnum & Hmap & Hoth);
    [|done|done|simpl; lia|rewrite Hlen; unfold available; simpl; lia|done|done|].
  { intros a. unfold fsb_init. destruct (mo_heap0 (fallback_allocator a)) as [h ->]. by eexists. }
  rewrite Hlen in Htimes, Hadv, Hl. exists k, hf. split; [done|].
  split; [unfold memory_init, active_level_4_table; by rewrite mo_tables0|]. split; [done|]. split; [done|].
  split; [|done]. simpl in Hmap, Hoth.
  assert (∀ p, p ∈ heap_pages → ∃ j f, heap_pages !! j = Some p ∧ hf !! j = Some f
            ∧ page_map (mapper k) !! p = Some f) as Hin.
  { intros p Hp. apply list_elem_of_lookup in Hp as [j Hj].
    destruct (lookup_lt_is_Some_2 hf j) as [f Hf]; [apply lookup_lt_Some in Hj; lia|].
    exists j, f. split; [done|]. split; [done|]. by apply (Hmap j). }
  split; [done|]. split; [|split; [|done]].
  - intros a Ha. destruct (Hin _ (heap_pages_cover a Ha)) as (j & f & _ & Hf & Hp). exists f.
    split; [by eapply list_elem_of_lookup_2|done].
  - intros p p' Hp Hp' Heq. destruct (Hin p Hp) as (j & f & Hj & Hf & H1).
    destruct (Hin p' Hp') as (j' & f' & Hj' & Hf' & H2). rewrite H1, H2 in Heq. injection Heq as ->.
    pose proof (NoDup_lookup _ _ _ _ Hndf Hf Hf'). congruence.
Qed.

(** The kernel that [kernel_main] leaves to the executor. *)
Definition booted_ok (off : Z) (mm : list MemoryRegion) (disk : list (list Z)) (r : registers G I)
    (b : booted G I P M H Dev Q K) : Prop :=
  let m0 := offset_page_table (off + cr3) off in
  let frames := usable_frames c (BootInfo_init mm) in
  ∃ g tss m fa hf,
    kernel_main tss_new STACK virt_add virt_new cr3 virt_add_u64 offset_page_table c page_range
      FrameAllocationFailed enumerate_bus open_blk off mm r disk 0 = Ret b
    ∧ (gdtr (b_regs b) = Some g ∧ gdt_get g (cs (b_regs b)) = Some kernel_code_segment
       ∧ gdt_get g (tr (b_regs b)) = Some (tss_segment tss)
       ∧ interrupt_stack_table tss !! Z.to_nat DOUBLE_FAULT_IST_INDEX = Some (STACK + 20480))
    ∧ (idtr (b_regs b) = Some IDT ∧ interrupts_enabled (b_regs b) = true ∧ in_service (b_pics b) = ∅)
    ∧ (PAGE_MAPPER b = Some m ∧ heap_mapped m0 m hf)
    ∧ (FRAME_ALLOCATOR b = Some fa ∧ next (heap_frames b) ≤ next fa ≤ Z.of_nat (length frames)
       ∧ ∀ i f, next (heap_frames b) ≤ Z.of_nat i → frames !! i = Some f → f ∉ hf)
    ∧ (init_times fsb_init 25 FixedSizeBlockAllocator_new = Ret (b_ALLOCATOR b)
       ∧ (@ga_inv H _ HHL (fallback_allocator (b_ALLOCATOR b)) [] → fsb_inv (HL := HHL) (b_ALLOCATOR b) []))
    ∧ match scan enumerate_bus with
      | Some _ => ∃ fs, b_storage b = Some (true, Ok (mkFileHandler 1), Err Corrupt, fs)
                    ∧ fs_rep fs (abs_create hello_txt abs_init).2 true
      | None => b_storage b = None
      end
    ∧ spawn_tasks 0 = Ret (b_executor b).

Lemma kernel_main_reaches N off mm disk r :
  machine_ok N off mm disk →
  ∃ b, booted_ok off mm disk r b ∧ b_pics b = initialize (PICS_init : P).
Proof.
  intros Hok. set (m0 := offset_page_table (off + cr3) off).
  set (frames := usable_frames c (BootInfo_init mm)). destruct Hok as [Hmem Hopens Hblocks]. destruct (init_heap_boot _ off mm Hmem) as (k & hf & Hheap & Hmi & Htimes & Hadv & Hmapped & Hnum).
  fold m0 frames in Hheap, Hmapped, Hnum. destruct Hmem.
  destruct (init_tables tss_new STACK virt_add r (PICS_init : P) mo_tss0 mo_stack0)
    as (r' & Hinit & (g & tss & Hg & Hcs & Htr & Hist) & Hidt & Hie).
  destruct (boot_frames_count c mm mo_frames0 mo_map0) as [Hnd _]. destruct mo_enough0 as [HN Hen].
  destruct Hblocks as (Hb & Hu & Hl). pose proof (advances_available c _ _ _ Hadv) as Hav.
  assert (available c (BootInfo_init mm) = Z.of_nat (length frames)) as Hav0 by (unfold available; cbn [next BootInfo_init]; fold frames; lia). fold frames in Hen.
  destruct (start_storage_spec N disk (frame_allocator k)) as (st & fa & Hst & Hadv2 & Hstorage);
    [done|done|done|done| |lia|lia|].
  { destruct Hadv as [_ Hge]. change (next (BootInfo_init mm)) with 0 in Hge. lia. }
  destruct (spawn_tasks_spec (K := K) (Q := Q)) as (e & He & _).
  unfold booted_ok, kernel_main, start_heap. fold m0 frames. rewrite Hinit. cbn [mbind outcome_bind]. rewrite mo_offset0. cbn [mbind outcome_bind].
  fold m0 in Hmi. rewrite Hmi. cbn [mbind outcome_bind unwrap]. rewrite Hheap. cbn [mbind outcome_bind expect]. rewrite Hst. cbn [mbind outcome_bind].
  rewrite He. cbn [mbind outcome_bind]. eexists (mkBooted _ _ _ _ _ _ _ _ _). split; [|reflexivity].
  exists g, tss, (mapper k), fa, hf. split; [reflexivity|].
  cbn [b_regs b_pics PAGE_MAPPER heap_frames FRAME_ALLOCATOR b_ALLOCATOR b_storage b_executor].
  split; [done|]. split; [split; [done|]; split; [done|]; apply initialize_law|]. split; [done|].
  split; [split; [done|]; split|split; [split; [done|]|done]].
  - pose proof (advances_available c _ _ _ Hadv2) as Hav2.
    pose proof (advances_usable c _ _ _ (advances_trans _ _ _ _ _ Hadv Hadv2)) as Hus.
    assert (available c fa = Z.of_nat (length frames) - next fa) by (unfold available; by rewrite Hus).
    destruct Hadv2. lia.
  - intros i f Hi Hf Hin. unfold numbered in Hnum. rewrite Forall_forall in Hnum.
    destruct (Hnum f Hin) as (j & Hj & ?). pose proof (NoDup_lookup _ _ _ _ Hnd Hf Hj). lia.
  - by apply (fsb_init_times 25 FixedSizeBlockAllocator_new).
Qed.

(** C2: the kernel boots. On such a machine, whatever the disk held,
    [kernel_main] reaches [executor.run()] without a panic. Then interrupts are
    on, with the kernel's table loaded, the double fault's stack in place and
    nothing in service; every address of the heap is mapped, the 25 pages to 25
    different frames, and no other page changed; the driver's queues can only
    have got frames that no heap page uses; the block allocator, initialised 25
    times, is in a good state if its fallback heap is; the disk was formatted and
    holds just [hello.txt] (if a device was found); and the executor holds the
    two tasks. *)
Theorem kernel_boots (N off : Z) (mm : list MemoryRegion) (disk : list (list Z)) (r : registers G I)
    (Hok : machine_ok N off mm disk) :
  let m0 := offset_page_table (off + cr3) off in
  let frames := usable_frames c (BootInfo_init mm) in
  ∃ (b : booted G I P M H Dev Q K) g tss m fa hf,
    kernel_main tss_new STACK virt_add virt_new cr3 virt_add_u64 offset_page_table c page_range
      FrameAllocationFailed enumerate_bus open_blk off mm r disk 0 = Ret b
    ∧ (gdtr (b_regs b) = Some g ∧ gdt_get g (cs (b_regs b)) = Some kernel_code_segment
       ∧ gdt_get g (tr (b_regs b)) = Some (tss_segment tss)
       ∧ interrupt_stack_table tss !! Z.to_nat DOUBLE_FAULT_IST_INDEX = Some (STACK + 20480))
    ∧ (idtr (b_regs b) = Some IDT ∧ interrupts_enabled (b_regs b) = true ∧ in_service (b_pics b) = ∅)
    ∧ (PAGE_MAPPER b = Some m ∧ heap_mapped m0 m hf)
    ∧ (FRAME_ALLOCATOR b = Some fa ∧ next (heap_frames b) ≤ next fa ≤ Z.of_nat (length frames)
       ∧ ∀ i f, next (heap_frames b) ≤ Z.of_nat i → frames !! i = Some f → f ∉ hf)
    ∧ (init_times fsb_init 25 FixedSizeBlockAllocator_new = Ret (b_ALLOCATOR b)
       ∧ (@ga_inv H _ HHL (fallback_allocator (b_ALLOCATOR b)) [] → fsb_inv (HL := HHL) (b_ALLOCATOR b) []))
    ∧ match scan enumerate_bus with
      | Some _ => ∃ fs, b_storage b = Some (true, Ok (mkFileHandler 1), Err Corrupt, fs)
                    ∧ fs_rep fs (abs_create hello_txt abs_init).2 true
      | None => b_storage b = None
      end
    ∧ spawn_tasks 0 = Ret (b_executor b).
Proof.
  intros m0 frames. destruct (kernel_main_reaches N off mm disk r Hok) as (b & Hb & _).
  destruct Hb as (g & tss & m & fa & hf & Hb). by exists b, g, tss, m, fa, hf.
Qed.
End boot.

(** * A machine, for the example *)

(** Page tables as a finite map that needs no frames of its own. *)
#[global] Instance demo_Mapper : Mapper (gmap Z Z) BootInfoFrameAllocator unit := λ m page frame _ fa,
  Ret (match m !! page with
       | None => (Ok tt, <[page := frame]> m, fa)
       | Some _ => (Err tt, m, fa)
       end).

Definition demo_frame (a : Z) : Z := a / 4096 * 4096.

#[global, program] Instance demo_BootMapperLaws : BootMapperLaws (gmap Z Z) unit demo_frame := {
  page_map := Datatypes.id;
}.
Next Obligation.
  intros m page frame flags fa Hm _ _. unfold map_to, demo_Mapper. unfold Datatypes.id in Hm. rewrite Hm.
  do 2 eexists. split; [reflexivity|]. split; [done|]. split; [done|lia].
Qed.

(** A mebibyte of memory; a disk on bus 0, whose driver takes one frame. *)
Definition demo_memory : list MemoryRegion := [mkRegion 0 0x100000 true].
Definition demo_bus (b : Z) : list (DeviceFunction * Z) :=
  if b =? 0 then [(mkDF 0 3 0, VIRTIO_VENDOR)] else [].
Definition demo_open (df : DeviceFunction) (blks : list (list Z)) (fa : option BootInfoFrameAllocator) :
    outcome (result RamDisk unit * option BootInfoFrameAllocator) :=
  Ret (Ok (mkRamDisk blks None), (λ fa, mkBoot (memory_map fa) (next fa + 1)) <$> fa).

Lemma demo_memory_ok : map_ok demo_memory.
Proof.
  split; unfold demo_memory; try (repeat constructor; simpl; try lia; by apply Z.mod_divide).
Qed.

Lemma demo_opens : opens demo_frame demo_open 1.
Proof.
  intros df blks fa Hb Hu Hn Hav. do 2 eexists. split; [reflexivity|]. split; [|split; [done|simpl; lia]].
  split; [|done]. by split.
Qed.

Lemma demo_memory_holds n :
  0 ≤ n ≤ 100 →
  memory_ok (HH := bump_Heap) demo_frame (mkTSS (replicate 7 0)) 0x1000
    (λ a b, Ret (a + b)) Ret 0x2000 (λ a b, Ret (a + b)) (λ _ _, ∅ : gmap Z Z) demo_range n 0x18000000000 demo_memory.
Proof.
  intros Hn. split; try reflexivity.
  - exact demo_rounds_down.
  - exact demo_memory_ok.
  - done.
  - apply Forall_forall. intros p _. exact (lookup_empty (M := gmap Z) p).
  - intros h. by eexists.
  - assert (length (usable_frames demo_frame (BootInfo_init demo_memory)) = 256%nat) as -> by by vm_compute.
    lia.
Qed.

Lemma demo_machine_ok :
  machine_ok (HH := bump_Heap) (HD := RamDisk_device) demo_frame (mkTSS (replicate 7 0)) 0x1000
    (λ a b, Ret (a + b)) Ret 0x2000 (λ a b, Ret (a + b)) (λ _ _, ∅ : gmap Z Z) demo_range demo_open 1 0x18000000000 demo_memory
    (replicate 10 zero_block).
Proof.
  split.
  - by apply demo_memory_holds.
  - exact demo_opens.
  - split; [apply Forall_replicate, zero_block_ok|]. split; [by vm_compute|done].
Qed.

Lemma kernel_boots_witness :
  ∃ b : booted (list desc) (gmap Z (handler * option Z)) Pic (gmap Z Z) Bump.BumpAllocator RamDisk ListQueue unit,
    kernel_main (HH := bump_Heap) (mkTSS (replicate 7 0)) 0x1000 (λ a b, Ret (a + b)) Ret 0x2000 (λ a b, Ret (a + b)) (λ _ _, ∅)
      demo_frame demo_range tt demo_bus demo_open 0x18000000000 demo_memory
      (mkRegs None 0 0 None false) (replicate 10 zero_block) 0 = Ret b
    ∧ interrupts_enabled (b_regs b) = true
    ∧ ∃ fs, b_storage b = Some (true, Ok (mkFileHandler 1), Err Corrupt, fs).
Proof.
  destruct (kernel_boots (HH := bump_Heap) (HHL := bump_heap_laws) (HD := RamDisk_device)
    (I := gmap Z (handler * option Z)) (P := Pic) (Q := ListQueue) (K := unit) demo_frame (mkTSS (replicate 7 0)) 0x1000
    (λ a b, Ret (a + b)) Ret 0x2000 (λ a b, Ret (a + b)) (λ _ _, ∅) demo_range tt demo_bus demo_open 1 0x18000000000 demo_memory
    (replicate 10 zero_block) (mkRegs None 0 0 None false))
    as (b & g & tss & m & fa & hf & Hrun & _ & (_ & Hie & _) & _ & _ & _ & Hst & _).
  - exact demo_machine_ok.
  - exists b. split; [exact Hrun|]. split; [exact Hie|].
    change (∃ fs, b_storage b = Some (true, Ok (mkFileHandler 1), Err Corrupt, fs)
      ∧ fs_rep fs (abs_create hello_txt abs_init).2 true) in Hst.
    destruct Hst as (fs & Hfs & _). exists fs. exact Hfs.
Defined.
