(* ===== verification/HeapRun.v ===== *)
(** The run of the heap tests: [main] of src/tests/heap_allocation.rs sets up the
    tables, the page mapper and the heap like the start of [kernel_main], and runs
    its four tests, one after the other, on the allocator the kernel installs. *)
From S2P Require Import Prelude Bytes Alloc Bump FixedBlock HeapTests Memory Queue Keyboard Interrupts.
From S2P Require Import Harness Kernel.
Local Open Scope Z_scope.
Local Open Scope rust_scope.

Section heap_run.
Context {G D I P M E H : Type} `{Gdt G D, Idt I handler, Pics P}.
Context `{Mapper M BootInfoFrameAllocator E} {HH : Heap H}.
Context (tss_new : TaskStateSegment) (STACK : Z) (virt_add : Z → Z → outcome Z).
Context (virt_new : Z → outcome Z) (cr3 : Z) (virt_add_u64 : Z → Z → outcome Z).
Context (offset_page_table : Z → Z → M) (containing_address : Z → Z).
Context (page_range : Z → Z → list Z) (FrameAllocationFailed : E).

#[local] Existing Instance boot_FrameAllocator.

(** A test works on the heap its predecessors left. *)
Definition heap_test : Type :=
  list Z * (heap (FixedSizeBlockAllocator H) → outcome (heap (FixedSizeBlockAllocator H))).

Definition heap_tests : list heap_test :=
  [(str_of "heap_allocation::simple_allocation_box", simple_allocation_box);
   (str_of "heap_allocation::large_vec_value_verification", large_vec_value_verification);
   (str_of "heap_allocation::many_allocation_boxes", many_allocation_boxes);
   (str_of "heap_allocation::many_boxes_long_lived_memory_reuse", many_boxes_long_lived_memory_reuse)].

(** The tests as the harness sees them. After a panic no test runs any more, so
    that the heap they would start with does not matter. *)
Fixpoint heap_testables (tests : list heap_test) (s : heap (FixedSizeBlockAllocator H)) : list Testable :=
  match tests with
  | [] => []
  | (name, test) :: tests =>
      mkTest name ([], _ ← test s; Ret tt)
      :: heap_testables tests (match test s with Ret s => s | Panic _ => s end)
  end.

(** [main]; [tests] is the order in which the compiler lists the tests. *)
Definition heap_test_main (physical_memory_offset : Z) (memory_map : list MemoryRegion)
    (info : panic_reason → list Z) (tests : list heap_test) (r : registers G I) : list effect :=
  let setup :=
    '(r, PICS) ← init tss_new STACK virt_add r (PICS_init : P);
    phys_mem_offset ← virt_new physical_memory_offset;
    mapper ← memory_init cr3 virt_add_u64 offset_page_table phys_mem_offset;
    let frame_allocator := BootInfo_init memory_map in
    '(res, k) ← init_heap (H := boot_FrameAllocator containing_address) FrameAllocationFailed page_range
                  fsb_init (mkKernel mapper frame_allocator FixedSizeBlockAllocator_new);
    _ ← expect res;
    Ret (ALLOCATOR k) in
  match setup with
  | Ret a => test_kernel_main info (heap_testables tests (mkHeap a ∅))
  | Panic w => (test_panic_handler (info w)).1
  end.
End heap_run.

(** The tests print nothing, and a test that panics ran out of memory. *)
Section outcomes.
Context {H : Type} {HH : Heap H} {HL : GlobalAllocLaws (FixedSizeBlockAllocator H)}.

Definition test_sound (t : heap_test (H := H)) : Prop :=
  ∀ s, heap_at s [] → HeapTests.passes (t.2 s) (λ s', heap_at s' []).

Lemma heap_tests_all_sound :
  (∀ l, layout_ok l → lsize l ≤ 2 ^ 32 → ga_accepts (A := FixedSizeBlockAllocator H) l) →
  Forall test_sound heap_tests.
Proof.
  intros Hacc. repeat apply Forall_cons_2; try apply Forall_nil_2; intros s Hs; cbn [snd].
  - by apply simple_allocation_box_passes.
  - by apply large_vec_passes.
  - by apply one_box_loop_passes.
  - by apply many_boxes_long_lived_passes.
Qed.

Lemma heap_testables_outcome tests s :
  Forall test_sound tests → heap_at s [] →
  Forall (λ t, (call t).1 = [] ∧ ∀ w, (call t).2 = Panic w → w = POom) (heap_testables tests s).
Proof.
  intros Hts. revert s. induction Hts as [|[name test] tests Ht _ IH]; intros s Hs; cbn [heap_testables];
    [apply Forall_nil_2|]. specialize (Ht s Hs). cbn [snd] in Ht. unfold HeapTests.passes in Ht.
  apply Forall_cons_2; cbn [call fst snd].
  - split; [reflexivity|]. destruct (test s) as [s'|w']; cbn [mbind outcome_bind]; [discriminate|].
    intros w [= <-]. exact Ht.
  - apply IH. by destruct (test s).
Qed.
End outcomes.

(** The run of the tests on the kernel's allocator, from a good state. *)
Lemma heap_tests_verdict {H} {HH : Heap H} {HL : @GlobalAllocLaws H heap_GlobalAlloc}
    (info : panic_reason → list Z) (tests : list heap_test) (a : FixedSizeBlockAllocator H) :
  (∀ l, layout_ok l → lsize l ≤ 2 ^ 32 → @ga_accepts H _ HL l) →
  tests ≡ₚ heap_tests → fsb_inv (HL := HL) a [] →
  let l := test_kernel_main info (heap_testables tests (mkHeap a ∅)) in
  exit_status l = Some 33
  ∨ exit_status l = Some 35 ∧ ∃ pre, observed l = pre ++ take 3 (test_panic_handler (info POom)).1.
Proof.
  intros Hacc Htests Hinv l. unfold l.
  assert (∀ i, (i < 9)%nat → @ga_accepts H _ HL (class_layout i)) as Hclass.
  { intros i Hi. apply Hacc; [by apply class_layout_ok|]. pose proof (class_size_bounds i Hi). simpl. lia. }
  assert (@heap_at _ _ (fsb_laws (HL := HL) Hclass) (mkHeap a ∅) []) as Hat.
  { split; [exact Hinv|apply Forall_nil_2]. }
  pose proof (heap_tests_all_sound (HL := fsb_laws (HL := HL) Hclass)) as Hsound.
  specialize (Hsound (λ l Hl Hs, conj Hl (Hacc l Hl Hs))). rewrite <- Htests in Hsound.
  pose proof (heap_testables_outcome (HL := fsb_laws (HL := HL) Hclass) _ _ Hsound Hat) as Hout.
  set (ts := heap_testables tests _) in *.
  assert (Forall (λ t, no_exit (call t).1) ts) as Hq.
  { eapply Forall_impl; [exact Hout|]. intros t [-> _]. done. }
  destruct (forallb Harness.passes ts) eqn:Hp; [left; by apply test_run_passes|right].
  destruct (first_failure ts Hp) as (pre & t & post & w & Heq & Hpre & Hw). rewrite Heq in *.
  destruct (test_run_fails info pre t post w Hq Hpre Hw) as [He Ho]. split; [exact He|].
  apply Forall_app in Hout as [_ Hout]. apply Forall_cons in Hout as [[_ Hoom] _].
  rewrite (Hoom w Hw) in Ho.
  exists (announce (length (pre ++ t :: post)) :: concat (report <$> pre)
    ++ Serial (type_name t ++ str_of "...." ++ [9]) :: (call t).1).
  rewrite Ho. by rewrite <- app_comm_cons, <- app_assoc, <- app_comm_cons.
Qed.

(** C20: the run of the heap tests. On a machine with memory for the heap, [main]
    sets up the tables and the heap without a panic and hands the tests, in whatever
    order the compiler lists them, the allocator that 25 calls of [init] left. The
    documentation of the fallback heap allows one call, so nothing is assumed of the
    state after 25. From every good state of the kernel's allocator over a lawful
    fallback heap, with nothing allocated, the run of the tests leaves the emulator
    with the status of success, or with that of failure because some test found the
    heap exhausted; no test fails for another reason. *)
Theorem heap_test_run_verdict (G D I P M E H : Type) (HG : Gdt G D) (HGL : GdtLaws G D)
    (HI : Idt I handler) (HIL : IdtLaws I handler) (HP : Pics P)
    (HH : Heap H) (HL : @GlobalAllocLaws H heap_GlobalAlloc)
    (c : Z → Z) (HM : Mapper M BootInfoFrameAllocator E) (HML : BootMapperLaws M E c)
    (tss_new : TaskStateSegment) (STACK : Z) (virt_add : Z → Z → outcome Z)
    (virt_new : Z → outcome Z) (cr3 : Z) (virt_add_u64 : Z → Z → outcome Z)
    (offset_page_table : Z → Z → M) (page_range : Z → Z → list Z) (FrameAllocationFailed : E)
    (off : Z) (mm : list MemoryRegion) (info : panic_reason → list Z) (tests : list heap_test)
    (r : registers G I)
    (Hok : memory_ok (H := H) c tss_new STACK virt_add virt_new cr3 virt_add_u64 offset_page_table
             page_range 0 off mm)
    (Hacc : ∀ l, layout_ok l → lsize l ≤ 2 ^ 32 → @ga_accepts H _ HL l)
    (Htests : tests ≡ₚ heap_tests) :
  (∃ a, init_times fsb_init 25 FixedSizeBlockAllocator_new = Ret a
     ∧ heap_test_main (P := P) tss_new STACK virt_add virt_new cr3 virt_add_u64 offset_page_table c
         page_range FrameAllocationFailed off mm info tests r
       = test_kernel_main info (heap_testables tests (mkHeap a ∅)))
  ∧ ∀ a, fsb_inv (HL := HL) a [] →
      let l := test_kernel_main info (heap_testables tests (mkHeap a ∅)) in
      exit_status l = Some 33
      ∨ exit_status l = Some 35 ∧ ∃ pre, observed l = pre ++ take 3 (test_panic_handler (info POom)).1.
Proof.
  split; [|intros a Ha; by apply heap_tests_verdict].
  destruct (init_heap_boot c tss_new STACK virt_add virt_new cr3 virt_add_u64 offset_page_table page_range
    FrameAllocationFailed 0 off mm Hok) as (k & hf & Hheap & Hmi & Htimes & _).
  destruct (init_tables tss_new STACK virt_add r (PICS_init : P) (mo_tss _ _ _ _ _ _ _ _ _ _ _ _ Hok)
    (mo_stack _ _ _ _ _ _ _ _ _ _ _ _ Hok)) as (r' & Hinit & _).
  exists (ALLOCATOR k). split; [exact Htimes|]. unfold heap_test_main. rewrite Hinit. cbn [mbind outcome_bind].
  rewrite (mo_offset _ _ _ _ _ _ _ _ _ _ _ _ Hok). cbn [mbind outcome_bind]. rewrite Hmi.
  cbn [mbind outcome_bind]. rewrite Hheap. reflexivity.
Qed.

(** The kernel's allocator over a bump heap, initialised once, on the machine of
    Kernel.v. *)
Lemma heap_test_run_verdict_witness :
  (∃ a, heap_test_main (I := gmap Z (handler * option Z)) (P := Pic) (HH := bump_Heap)
      (mkTSS (replicate 7 0)) 0x1000 (λ a b, Ret (a + b)) Ret 0x2000 (λ a b, Ret (a + b)) (λ _ _, ∅ : gmap Z Z)
      demo_frame demo_range tt 0x18000000000 demo_memory (λ _, []) (heap_tests (HH := bump_Heap))
      (mkRegs None 0 0 None false)
    = test_kernel_main (λ _, []) (heap_testables (heap_tests (HH := bump_Heap)) (mkHeap a ∅)))
  ∧ ∃ a, @fsb_init _ bump_Heap (@FixedSizeBlockAllocator_new _ bump_Heap) HEAP_START HEAP_SIZE = Ret a
      ∧ let l := test_kernel_main (λ _, []) (heap_testables (heap_tests (HH := bump_Heap)) (mkHeap a ∅)) in
        exit_status l = Some 33
        ∨ exit_status l = Some 35 ∧ ∃ pre, observed l = pre ++ take 3 (test_panic_handler []).1.
Proof.
  destruct (heap_test_run_verdict (list desc) desc (gmap Z (handler * option Z)) Pic (gmap Z Z) unit BumpAllocator
    _ _ _ _ _ bump_Heap bump_heap_laws demo_frame _ _ (mkTSS (replicate 7 0)) 0x1000 (λ a b, Ret (a + b))
    Ret 0x2000 (λ a b, Ret (a + b)) (λ _ _, ∅) demo_range tt 0x18000000000 demo_memory (λ _, [])
    (heap_tests (HH := bump_Heap)) (mkRegs None 0 0 None false)) as [(a & _ & Hmain) Hverdict].
  - exact (demo_memory_holds 0 ltac:(lia)).
  - exact bump_accepts.
  - reflexivity.
  - split; [by exists a|].
    destruct (@fsb_init _ bump_Heap (@FixedSizeBlockAllocator_new _ bump_Heap) HEAP_START HEAP_SIZE) as [a1|] eqn:Hi;
      [|by vm_compute in Hi].
    exists a1. split; [reflexivity|]. apply Hverdict. vm_compute in Hi. injection Hi as <-.
    apply fsb_fresh_inv; [done|exact (proj1 bump_fresh)].
Defined.
