(* ===== verification/System.v ===== *)
(** The whole kernel: [kernel_main] of src/src/main.rs from power-on, with the
    interrupts that arrive while it boots and, from [executor.run()] on, around and
    inside the polls of the tasks. *)
From S2P Require Import Prelude Bytes Layout BlockDev SimpleFs SimpleFsRep Boot Alloc FixedBlock Memory.
From S2P Require Import Queue Keyboard Executor Interrupts Pci Keypresses Kernel.
Local Open Scope Z_scope.
Local Open Scope rust_scope.

(** * Interrupts while the kernel boots *)
Section power_on.
Context {G D I P M E H Dev Q K V A : Type}.
Context {HG : Gdt G D} {HGL : GdtLaws G D} {HI : Idt I handler} {HIL : IdtLaws I handler}.
Context {HP : Pics P} {HPL : PicsLaws P} {HH : Heap H} {HHL : @GlobalAllocLaws H heap_GlobalAlloc}.
Context {HD : BlockDevice Dev} {HDL : BlockDeviceLaws Dev} {HQ : ArrayQueue Q} {HQL : ArrayQueueLaws Q}.
Context {HA : AtomicWaker A} {HAL : AtomicWakerLaws A}.
Context {HK : PcKeyboard K V} (c : Z → Z) {HM : Mapper M BootInfoFrameAllocator E} {HML : BootMapperLaws M E c}.
Context (tss_new : TaskStateSegment) (STACK : Z) (virt_add : Z → Z → outcome Z).
Context (virt_new : Z → outcome Z) (cr3 : Z) (virt_add_u64 : Z → Z → outcome Z).
Context (offset_page_table : Z → Z → M) (page_range : Z → Z → list Z) (FrameAllocationFailed : E).
Context (enumerate_bus : Z → list (DeviceFunction * Z)).
Context (open_blk : DeviceFunction → list (list Z) → option BootInfoFrameAllocator →
  outcome (result Dev unit * option BootInfoFrameAllocator)).

(** [kernel_main] with the requests that arrive after each of its parts: [init]
    turns interrupts on at its end; the parts that follow share nothing with the
    handlers but the console. *)
Definition power_on (i0 i1 i2 i3 : list request) (physical_memory_offset : Z) (memory_map : list MemoryRegion)
    (r : registers G I) (disk : list (list Z)) (NEXT_ID : Z) :
    outcome (booted G I P M H Dev Q K * world G I P Q A) :=
  '(r, PICS) ← init tss_new STACK virt_add r PICS_init;
  let w := serve_all i0 (boot_world r PICS) in
  k ← start_heap virt_new cr3 virt_add_u64 offset_page_table c page_range FrameAllocationFailed
        physical_memory_offset memory_map;
  let w := serve_all i1 w in
  '(storage, fa) ← start_storage enumerate_bus open_blk disk (Some (Memory.frame_allocator k));
  let w := serve_all i2 w in
  executor ← spawn_tasks NEXT_ID;
  let w := serve_all i3 w in
  Ret (mkBooted (w_regs w) (w_pics w) physical_memory_offset (Some (Memory.mapper k)) (Memory.frame_allocator k) fa
         (ALLOCATOR k) storage executor, w).

(** The boot as it would be without interrupts, and the requests served on the
    side. *)
Lemma power_on_eq i0 i1 i2 i3 off mm r disk id (b : booted G I P M H Dev Q K) :
  kernel_main tss_new STACK virt_add virt_new cr3 virt_add_u64 offset_page_table c page_range
    FrameAllocationFailed enumerate_bus open_blk off mm r disk id = Ret b →
  let w := serve_all (i0 ++ i1 ++ i2 ++ i3) (boot_world (b_regs b) (b_pics b)) in
  power_on i0 i1 i2 i3 off mm r disk id =
    Ret (mkBooted (w_regs w) (w_pics w) (PHYSICAL_MEMORY_OFFSET b) (PAGE_MAPPER b) (heap_frames b)
           (FRAME_ALLOCATOR b) (b_ALLOCATOR b) (b_storage b) (b_executor b), w).
Proof.
  unfold kernel_main, power_on. destruct (init _ _ _ r PICS_init) as [[r' p]|]; [|done].
  cbn [mbind outcome_bind]. destruct (start_heap _ _ _ _ _ _ _ off mm) as [k|]; [|done].
  cbn [mbind outcome_bind]. destruct (start_storage _ _ disk _) as [[st fa]|]; [|done].
  cbn [mbind outcome_bind]. destruct (spawn_tasks id) as [e|]; [|done].
  cbn [mbind outcome_bind]. intros Hb. injection Hb as <-. unfold serve_all. simpl. by rewrite !foldl_app.
Qed.

(** * From power-on to the printed key *)

(** C3: from power-on to the printed key. On a machine as the boot loader leaves
    it, with the lines of the timer and the keyboard open, the kernel boots, whatever
    requests of the two devices arrive between its parts. Then let any requests arrive
    before each iteration of the executor and between any two accesses of its polls to
    what handlers share, as long as the wake-ups they cause never exceed the 100 the
    executor's queue holds ([calm]; at most one scancode per iteration is enough, see
    [slow_calm]). Nothing panics, every request reaches its handler and is
    acknowledged, and after two iterations at least the tasks have printed the line
    of the example and exactly what decoding the queued scancodes gives, in order,
    with none waiting. Every scancode was queued or reported by a warning, but for
    those the last poll had no point for; with at most 50 of them per iteration,
    all that arrive once the stream exists are queued, in order. *)
Theorem kernel_serves_keys (N off : Z) (mm : list MemoryRegion) (disk : list (list Z))
    (r : registers G I) (i0 i1 i2 i3 : list request) (env : list round)
    (Hok : machine_ok (H := H) c tss_new STACK virt_add virt_new cr3 virt_add_u64 offset_page_table page_range
             open_blk N off mm disk)
    (Htimer : 0 ∉ masked (PICS_init : P)) (Hkeyboard : 1 ∉ masked (PICS_init : P))
    (Hlen : (2 ≤ length env)%nat) (Hcalm : calm 2 env = true) :
  ∃ b w0 e w,
    power_on i0 i1 i2 i3 off mm r disk 0 = Ret (b, w0)
    ∧ run_rounds env (b_executor b) w0 = Ret (e, w)
    ∧ w_out w = example_line ++ (decode (Keyboard_new : K) (w_queued w)).1
    ∧ keys w = []
    ∧ w_lost w = 0%nat ∧ in_service (w_pics w) = ∅
    ∧ (length (w_warnings w) + length (w_queued w) + dues w
       = length (scancodes_of (i0 ++ i1 ++ i2 ++ i3)) + length (concat (codes_of <$> env)))%nat
    ∧ (dues w ≤ left_due 0 env)%nat
    ∧ (Forall (λ it, (length (codes_of it) ≤ 50)%nat) env →
       w_queued w ++ due_codes w = after_stream env).
Proof.
  destruct (kernel_main_reaches (Q := Q) (K := K) c tss_new STACK virt_add virt_new cr3 virt_add_u64
    offset_page_table page_range FrameAllocationFailed enumerate_bus open_blk N off mm disk r Hok)
    as (b & (g & tss & m & fa & hf & Hmain & _ & (Hidt & Hen & _) & _ & _ & _ & _ & Hspawn) & Hpics).
  pose proof (power_on_eq i0 i1 i2 i3 off mm r disk 0 b Hmain) as Hon. cbv zeta in Hon.
  destruct (initialize_law (PICS_init : P)) as (Ho & Hsv & Hm).
  assert (running (boot_world (A := A) (Q := Q) (b_regs b) (b_pics b))) as Hrunning.
  { split; simpl; [done|done|]. rewrite Hpics. split; simpl; [by rewrite Ho; apply pics_new_offsets|done|by rewrite Hm]. }
  destruct (serve_all_early (i0 ++ i1 ++ i2 ++ i3) _ (boot_world_early _ _ Hrunning)) as (Hearly & Hout & Hq & Hdue & Hlost & Hwarn).
  set (w0 := serve_all _ _) in *.
  destruct (run_rounds_start (K := K) env w0 Hearly Hout Hq Hlen Hcalm) as (e0 & Hs & n & e & w & Hrun & Haw & Hl & Ht & Hleft & Hall).
  assert (e0 = b_executor b) as -> by congruence.
  eexists _, w0, e, w. split; [exact Hon|]. split; [exact Hrun|].
  split_and!; [by eapply aw_out|by eapply aw_keys|by rewrite Hl, Hlost|apply (run_ready _ (lv_running _ (aw_live _ _ _ Haw)))| |done|done].
  unfold tally at 1 in Ht. rewrite Ht. unfold tally, dues, due_codes. rewrite Hwarn, Hq, Hdue. simpl. lia.
Qed.
End power_on.

(** The machine of the example of Kernel.v: a key during the boot, which is lost; a
    key before an iteration, one in the window of its poll, and a tick. *)
Lemma kernel_serves_keys_witness :
  ∃ (b : booted (list desc) demo_idt Pic (gmap Z Z) Bump.BumpAllocator RamDisk ListQueue unit)
    (w0 : world (list desc) demo_idt Pic ListQueue (option Z)) e w,
    run_rounds [([], []); ([Tick], []); ([Key 72], [[]; []; []; []; [Key 105; Tick]]); ([], [])] (b_executor b) w0
      = Ret (e, w)
    ∧ w_out w = example_line ++ [72; 105].
Proof.
  destruct (kernel_serves_keys (HH := bump_Heap) (HHL := bump_heap_laws) (HD := RamDisk_device)
    (I := demo_idt) (P := Pic) (Q := ListQueue) (K := unit) (A := option Z)
    demo_frame (mkTSS (replicate 7 0)) 0x1000
    (λ a b, Ret (a + b)) Ret 0x2000 (λ a b, Ret (a + b)) (λ _ _, ∅) demo_range tt demo_bus demo_open 1 0x18000000000
    demo_memory (replicate 10 zero_block) (mkRegs None 0 0 None false) [Tick] [Key 30] [] [Tick]
    [([], []); ([Tick], []); ([Key 72], [[]; []; []; []; [Key 105; Tick]]); ([], [])])
    as (b & w0 & e & w & _ & Hrun & Hout & _ & _ & _ & _ & Hleft & Hall).
  - exact demo_machine_ok.
  - apply not_elem_of_empty.
  - apply not_elem_of_empty.
  - simpl. lia.
  - reflexivity.
  - exists b, w0, e, w. split; [exact Hrun|]. rewrite Hout.
    assert (w_queued w ++ due_codes w = [72; 105]) as Hq
      by (rewrite Hall; [reflexivity|repeat constructor; simpl; lia]).
    assert (due_codes w = []) as Hd by (apply length_zero_iff_nil; unfold dues in Hleft; change (left_due 0 _) with O in Hleft; lia).
    rewrite Hd, app_nil_r in Hq. by rewrite Hq.
Defined.
